(* ===== verification/_CoqProject ===== *)
-Q . S2P
Prelude.v
Mem.v
Ring.v
Dlist.v
KState.v
Slist.v
Ksched.v
TimeoutQ.v
SchedInv.v
Outcome.v
Sched.v
Thread.v
WaitQ.v
Scenario.v
SchedProps.v
Sem.v
Mutex.v
MsgQ.v
KStack.v
MemSlab.v
MemPool.v
MemPoolInv.v
MemPoolProps.v
Queue.v
MemPoolK.v
WorkQ.v
Timer.v
Alert.v
System.v
ActsRingbuf.v
Cbuf.v
RingBuffer.v
Crc.v
Libc.v
Strtol.v
Prf.v
FloatProps.v
Output.v
Printf.v
PrintfProps.v
Printk.v
Transcode.v
