(* ===== verification/Prelude.v ===== *)
(** * Verification of the kernel and base libraries of the ZS285A SDK

    The program ([src/sdk014_ZS285A]) is the SDK of a Bluetooth audio SoC: the
    Zephyr kernel (about version 1.8) ported to MIPS, its C library and
    utilities, drivers, protocol stacks and an application framework.  This
    development models the kernel - threads, scheduler, timeouts and the kernel
    objects - and libraries the rest of the SDK is built on, and proves them
    correct.

    ** Parts and files

    Shared:
    - Prelude.v: machine integers (C types as [Z] with their wrap-around), list
      and bit lemmas, tactics, the hint databases [kern] and [kern_rw].
    - Mem.v: byte ranges of memory; Ring.v: cyclic byte ranges.

    Lists:
    - Dlist.v: [include/misc/dlist.h].  Module [DlistSpec] is the abstract
      family of disjoint sequences, module [Dlist] the pointer code; the theorems say that
      each function refines its abstract operation.  The kernel files work on [DlistSpec].
    - Slist.v: [include/misc/slist.h] on a memory of words.

    Kernel:
    - KState.v: the configuration ([KConfig]), the structures of
      [include/kernel.h] and [kernel/include/kernel_structs.h], the record
      [kernel] that all operations pass along.
    - Ksched.v: [kernel/include/ksched.h] and the ready queues of
      [kernel/sched.c]; TimeoutQ.v: [kernel/include/timeout_q.h] and
      [handle_timeouts] of [kernel/sys_clock.c]; SchedInv.v: the invariant
      [kinv] of queues, thread states and timeouts.
    - Outcome.v: the resumption monad [outcome] of routines that may switch
      threads ([Done], [Swapped] with the rest of the routine, [Fault]) and the
      safety predicate [osafe].  Sched.v: the rest of [kernel/sched.c], the
      context switch, interrupts, the clock tick.  Thread.v: [kernel/thread.c],
      [kernel/thread_abort.c], [kernel/init.c].  WaitQ.v: the
      contract between the kernel objects and the scheduler.  Scenario.v: a
      concrete system for the examples.  SchedProps.v: what the scheduler
      and the timeout queue guarantee.
    - Sem.v, Mutex.v, MsgQ.v, KStack.v, MemSlab.v, Queue.v, WorkQ.v, Timer.v,
      Alert.v: the object of the same name in [kernel/].
    - MemPool.v: the allocator of [kernel/mempool.c]; MemPoolInv.v: its
      invariant (free and held blocks partition the buffer, free quarters are
      merged) and that each locked section keeps it; MemPoolProps.v: initialisation,
      interleavings as a step relation, allocation and release; MemPoolK.v: the kernel calls, [k_malloc] and [k_free].
    - System.v: threads, kernel calls and interrupts together as a step
      relation, and what holds in every reachable state.

    Libraries:
    - ActsRingbuf.v: [lib/utils/source/acts_ringbuf]; Cbuf.v:
      [lib/utils/source/cbuf]; RingBuffer.v: [misc/ring_buffer.c]; Crc.v: [lib/utils/source/crc].
    - Libc.v: [string/string.c] and [strnlen.c] of the C library
      ([lib/libc/minimal]), with the word-wise copies; Strtol.v: [ctype.h],
      [strtol], [strtoul], [atoi], [atol]; Prf.v: the conversions of
      [stdout/prf.c], doubles on their 64 bits, and FloatProps.v what holds of
      those; Output.v: the class of output functions [_prf] and [_vprintk]
      are used with; Printf.v: the format interpreter [_prf] and [sprintf.c],
      PrintfProps.v: what a format means and that it is printed; Printk.v:
      [misc/sprintk.c], model and meaning.
    - Transcode.v: [lib/utils/source/transcode], hexadecimal text, UTF-8 and GBK.

    ** How the model corresponds to the code

    A C function is a Rocq function of the same name.  Kernel code takes and
    returns the [kernel]; structures reached through pointers are in finite
    maps of it, lists are sequences (Dlist.v says why that is sound), data
    buffers are bytes of a memory.  [irq_lock] sections are
    atomic: interrupts come between kernel operations and where an operation
    swaps threads, not inside one; code outside the lock that matters is
    modelled separately (the stale tail of [k_queue_append]).  Functions of the
    user - timer and work handlers, alert handlers, stream functions - are
    parameters, and what the code needs of them is a named hypothesis.
    Assertions are compiled out; a NULL dereference is the outcome [Fault].
    The configuration is multithreading with preemption, time slicing and the thread
    monitor, a ticking clock, no polling; the numbers of priorities and the tick are parameters
    of the class [KConfig].

    ** What the theorems show

    - The system: in every state reachable from boot the current thread is
      ready and none of higher priority waits for the CPU, threads are on the queues their states say, and
      nothing crashes - except in mutexes, where a crash is exhibited.
    - Scheduler: the ready queues with bitmap and cache are a priority queue;
      the timeout queue is a list of deadlines; waiting is first come
      first served by priority; timeouts are never early.
    - Objects: each operation refines the abstract object (counter, bounded
      FIFO, LIFO, sequence, set of free blocks), hands over directly to
      waiting threads, wakes no one in vain and loses nothing; mutexes inherit priority; periodic
      timers do not drift.
    - Memory pools: blocks held at one time never overlap, in any interleaving;
      the free lists depend only on the blocks held; an allocation fails only
      if no block of the size is unheld; a release wakes all waiters.  Pools have fewer than
      32 blocks of the maximum size, which is [4 ^ k] times the minimum size as the documentation asks.
    - Libraries: the three ring buffers are byte queues over their wrap, the
      item ring keeps items whole, the checksums equal their references and detect burst errors.
    - C library: memory functions equal their meaning on bytes whatever the
      alignment and overlap; strings are copied, searched and compared; numbers are read with
      saturation, and reading back what was printed gives the number; [snprintf] and [snprintk] print exactly the
      text a format stands for, cut to the buffer; the conversion of every double ends and prints a number.  Where the
      code deviates from the C standard or writes behind its buffer, a theorem exhibits it.
    - Text: UTF-8 and hexadecimal text are read back; the two ways from GBK to Unicode agree.
    ** Bounds and fuel

    Loops whose bound is not structural take fuel: a list walk gets the
    length of the list plus one, [copy_loop], [put_loop] and [get_loop] one
    more than the bytes to move since every round moves a byte or ends, [dequeue_expired] and
    [purge_waiters] the length of their queue.  The theorems about these loops
    show that the fuel is enough.  [wake_waiters] gets the length of
    the queue.  [cancel_sync_loop], [_alert_deliver] and [alloc_loop] (which may wait any number of times)
    take it from the caller and say with [None] that it ran out; the theorem on alerts gives the
    amount needed.
    Loops over strings take fuel from the caller, one unit per character; the
    theorems ask for more than the length.  [to_x_loop] has 32 units, as many as a 32-bit
    number has digits, [dec_loop] 10 for its nine rounds; [_to_float] gives its scaling loops 2000 rounds of
    65 shifts, which [to_float_text] shows to be enough.
    ** Not modelled

    Registers, stacks and the assembly of context switch and start-up;
    drivers; polling and the tickless clock (other configurations); mailboxes
    and pipes, whose threads are for a while pending without a queue or on no queue and not ready, which the
    invariant [kinv] does not admit; the page and buddy allocators; kernel
    diagnostics and power management; the Bluetooth, network, USB and file system
    stacks, the shell, the application framework and third-party libraries,
    which are clients of what is modelled here or talk to hardware; binary libraries.
*)
From stdpp Require Import gmap list sorting.
From stdpp Require Import options.

(** ** Machine integers

    C integers are [Z] with the wrap-around of the C type written out. *)
Declare Scope mach_scope.
Delimit Scope mach_scope with mach.

Definition u8 (x : Z) : Z := x mod 256.
Definition u16 (x : Z) : Z := x mod 65536.
Definition u32 (x : Z) : Z := x mod 4294967296.
Definition u64 (x : Z) : Z := x mod 18446744073709551616.
Definition s8 (x : Z) : Z := (x + 128) mod 256 - 128.
Definition s32 (x : Z) : Z := (x + 2147483648) mod 4294967296 - 2147483648.
Definition s64 (x : Z) : Z :=
  (x + 9223372036854775808) mod 18446744073709551616 - 9223372036854775808.
Definition INT32_MAX : Z := 2147483647.

(** [b2z] is the C value of a comparison. *)
Definition b2z (b : bool) : Z := if b then 1 else 0.

(** Bitwise tests and updates, as the C operators write them. *)
Notation "x '.&' y" := (Z.land x y) (at level 40, left associativity) : mach_scope.
Notation "x '.|' y" := (Z.lor x y) (at level 50, left associativity) : mach_scope.
Notation "x '.<<' n" := (Z.shiftl x n) (at level 45, left associativity) : mach_scope.
Notation "x '.>>' n" := (Z.shiftr x n) (at level 45, left associativity) : mach_scope.

(** ** Automation shared by all files *)
Create HintDb kern discriminated.
Create HintDb kern_rw.

(** Split the conjunctions and existentials of the context. *)
Ltac split_hyps :=
  repeat match goal with
  | H : _ /\ _ |- _ => destruct H
  | H : exists _, _ |- _ => destruct H
  end.

(** Turn boolean integer tests of the code into propositions. *)
Ltac zbool :=
  repeat match goal with
  | H : (_ =? _)%Z = true |- _ => apply Z.eqb_eq in H
  | H : (_ =? _)%Z = false |- _ => apply Z.eqb_neq in H
  | H : (_ <? _)%Z = true |- _ => apply Z.ltb_lt in H
  | H : (_ <? _)%Z = false |- _ => apply Z.ltb_ge in H
  | H : (_ <=? _)%Z = true |- _ => apply Z.leb_le in H
  | H : (_ <=? _)%Z = false |- _ => apply Z.leb_gt in H
  | H : andb _ _ = true |- _ => apply andb_true_iff in H
  | H : andb _ _ = false |- _ => apply andb_false_iff in H
  | H : orb _ _ = true |- _ => apply orb_true_iff in H
  | H : orb _ _ = false |- _ => apply orb_false_iff in H
  | H : negb _ = true |- _ => apply negb_true_iff in H
  | H : negb _ = false |- _ => apply negb_false_iff in H
  | H : bool_decide _ = true |- _ => apply bool_decide_eq_true in H
  | H : bool_decide _ = false |- _ => apply bool_decide_eq_false in H
  end.

(** [lia] with the meaning of [/] and [mod]. *)
Ltac dlia := Z.to_euclidean_division_equations; lia.

(** Membership in concatenations, without looking at the other hypotheses. *)
Ltac mem := rewrite ?elem_of_app, ?elem_of_cons, ?list_elem_of_singleton; solve [tauto | auto 10].

(** Case on the innermost boolean test of the goal. *)
Ltac case_test :=
  match goal with
  | |- context [if ?b then _ else _] =>
      lazymatch b with
      | context [if _ then _ else _] => fail
      | _ => let E := fresh "E" in destruct b eqn:E
      end
  end.

(** ** Lists without one element: what unlinking a node leaves *)
Section without.
Context {A : Type} `{EqDecision A}.

Definition without (x : A) (l : list A) : list A := filter (.≠ x) l.

Lemma elem_of_without x y l : y ∈ without x l ↔ y ≠ x ∧ y ∈ l.
Proof. unfold without. by rewrite list_elem_of_filter. Qed.

Lemma NoDup_without x l : NoDup l → NoDup (without x l).
Proof. apply NoDup_filter. Qed.

Lemma without_notin x l : x ∉ l → without x l = l.
Proof.
  induction l as [|y l IH]; intros Hx; [done|].
  apply not_elem_of_cons in Hx as [Hne Hx].
  unfold without in *. rewrite filter_cons_True by done. by rewrite IH.
Qed.

Lemma without_nil x : without x [] = [].
Proof. done. Qed.

Lemma without_app x l1 l2 : without x (l1 ++ l2) = without x l1 ++ without x l2.
Proof. apply filter_app. Qed.

Lemma without_cons_eq x l : without x (x :: l) = without x l.
Proof. unfold without. rewrite filter_cons_False; [done|]. intros Hx. by apply Hx. Qed.

Lemma without_cons_ne x y l : y ≠ x → without x (y :: l) = y :: without x l.
Proof. intros. unfold without. by rewrite filter_cons_True. Qed.

Lemma without_head x l : NoDup (x :: l) → without x (x :: l) = l.
Proof.
  intros [Hx _]%NoDup_cons. rewrite without_cons_eq. by apply without_notin.
Qed.
End without.

(** The first occurrence of an element splits a list. *)
Lemma NoDup_split_elem {A} (l : list A) (x : A) :
  NoDup l → x ∈ l → ∃ l1 l2, l = l1 ++ x :: l2 ∧ x ∉ l1.
Proof.
  intros Hnd (l1 & l2 & ->)%list_elem_of_split. exists l1, l2. split; [done|].
  apply NoDup_app in Hnd as (_ & Hd & _). intros Hx. apply (Hd _ Hx). set_solver.
Qed.

(** [insert_before p x l] is [l] with [x] linked just before the node [p]. *)
Fixpoint insert_before `{EqDecision A} (p x : A) (l : list A) : list A :=
  match l with
  | [] => []
  | y :: l' => if decide (y = p) then x :: y :: l' else y :: insert_before p x l'
  end.

Lemma insert_before_elem `{EqDecision A} (p x y : A) l : y ∈ insert_before p x l → y = x ∨ y ∈ l.
Proof.
  induction l as [|z l IH]; simpl; [by right|]. case_decide; rewrite !elem_of_cons; naive_solver.
Qed.
Lemma insert_before_app `{EqDecision A} (p x : A) l1 l2 :
  p ∉ l1 → insert_before p x (l1 ++ p :: l2) = l1 ++ x :: p :: l2.
Proof.
  induction l1 as [|y l1 IH]; intros Hp; simpl.
  - by rewrite decide_True.
  - apply not_elem_of_cons in Hp as [Hne Hp]. rewrite decide_False by done.
    by rewrite IH.
Qed.

Fixpoint insert_after `{EqDecision A} (p x : A) (l : list A) : list A :=
  match l with
  | [] => []
  | y :: l' => if decide (y = p) then y :: x :: l' else y :: insert_after p x l'
  end.

Lemma insert_after_app `{EqDecision A} (p x : A) l1 l2 :
  p ∉ l1 → insert_after p x (l1 ++ p :: l2) = l1 ++ p :: x :: l2.
Proof.
  induction l1 as [|y l1 IH]; intros Hp; simpl.
  - by rewrite decide_True.
  - apply not_elem_of_cons in Hp as [Hne Hp]. rewrite decide_False by done.
    by rewrite IH.
Qed.

(** [insert_where c x l]: [x] goes before the first element that satisfies [c],
    at the end when there is none. *)
Fixpoint insert_where {A} (c : A → bool) (x : A) (l : list A) : list A :=
  match l with
  | [] => [x]
  | y :: l' => if c y then x :: y :: l' else y :: insert_where c x l'
  end.

Lemma insert_where_perm {A} (c : A → bool) x l : insert_where c x l ≡ₚ x :: l.
Proof.
  induction l as [|y l IH]; simpl; [done|]. destruct (c y); [done|].
  rewrite IH. apply Permutation_swap.
Qed.

(** ** Total lookup in finite maps: reading a C object through its address *)
Section total.
Context `{Countable K} {V : Type} `{!Inhabited V}.
Implicit Types m : gmap K V.

Lemma lookup_total_ins_eq m i x : <[i := x]> m !!! i = x.
Proof. rewrite lookup_total_insert_eq. done. Qed.
Lemma lookup_total_ins_ne m i j x : i ≠ j → <[i := x]> m !!! j = m !!! j.
Proof. intros. by rewrite lookup_total_insert_ne. Qed.
Lemma lookup_total_ins m i j x :
  <[i := x]> m !!! j = if decide (i = j) then x else m !!! j.
Proof.
  case_decide; subst; [apply lookup_total_ins_eq | by apply lookup_total_ins_ne].
Qed.
Lemma lookup_total_fmap_default m i (f : V → V) :
  f inhabitant = inhabitant → (f <$> m) !!! i = f (m !!! i).
Proof.
  intros Hf. rewrite !lookup_total_alt, lookup_fmap.
  by destruct (m !! i).
Qed.
Lemma lookup_total_Some m i x : m !! i = Some x → m !!! i = x.
Proof. intros Hi. by rewrite lookup_total_alt, Hi. Qed.
End total.

(** ** Bits of machine words *)
Lemma testbit_mod_pow2 (x w n : Z) :
  (0 ≤ n < w)%Z → Z.testbit (x mod 2 ^ w) n = Z.testbit x n.
Proof. intros. apply Z.mod_pow2_bits_low. lia. Qed.

Lemma testbit_cong (x y w n : Z) :
  (x mod 2 ^ w = y mod 2 ^ w)%Z → (0 ≤ n < w)%Z → Z.testbit x n = Z.testbit y n.
Proof.
  intros Hxy Hn. rewrite <-(testbit_mod_pow2 x w n), <-(testbit_mod_pow2 y w n) by done.
  by rewrite Hxy.
Qed.

Lemma testbit_u8 x n : (0 ≤ n < 8)%Z → Z.testbit (u8 x) n = Z.testbit x n.
Proof. apply (testbit_mod_pow2 x 8). Qed.
Lemma testbit_u32 x n : (0 ≤ n < 32)%Z → Z.testbit (u32 x) n = Z.testbit x n.
Proof. apply (testbit_mod_pow2 x 32). Qed.
Lemma s32_mod x : (s32 x mod 2 ^ 32 = x mod 2 ^ 32)%Z.
Proof.
  unfold s32. change (2 ^ 32)%Z with 4294967296%Z.
  rewrite Zminus_mod_idemp_l. f_equal. lia.
Qed.
Lemma testbit_s32 x n : (0 ≤ n < 32)%Z → Z.testbit (s32 x) n = Z.testbit x n.
Proof. apply (testbit_cong _ _ 32), s32_mod. Qed.

Lemma testbit_one_shift m n : (0 ≤ m)%Z → (0 ≤ n)%Z →
  Z.testbit (Z.shiftl 1 m) n = (m =? n)%Z.
Proof.
  intros. rewrite Z.shiftl_1_l. by apply Z.pow2_bits_eqb.
Qed.

(** A test of the bit [n] of [x], as C writes it. *)
Lemma land_pow2_eqb x n : (0 ≤ n)%Z →
  (Z.land x (2 ^ n) =? 0)%Z = negb (Z.testbit x n).
Proof.
  intros Hn. destruct (Z.testbit x n) eqn:E; simpl.
  - apply Z.eqb_neq. intros Hz.
    assert (Z.testbit (Z.land x (2 ^ n)) n = false) as Hf by (rewrite Hz; apply Z.bits_0).
    rewrite Z.land_spec, E, Z.pow2_bits_true in Hf by done. done.
  - apply Z.eqb_eq. apply Z.bits_inj'. intros m Hm.
    rewrite Z.land_spec, Z.pow2_bits_eqb, Z.bits_0 by done.
    destruct (n =? m)%Z eqn:Em; [|by rewrite andb_false_r].
    apply Z.eqb_eq in Em. subst. by rewrite E.
Qed.

(** A property of small numbers, by evaluation. *)
Lemma forallb_range (n : Z) (P : Z → bool) : forallb P (seqZ 0 n) = true → ∀ x, (0 ≤ x < n)%Z → P x = true.
Proof. rewrite forallb_forall. intros Hall x Hx. apply Hall, list_elem_of_In, elem_of_seqZ. lia. Qed.
(** Or of a multiple of a power of two and a smaller number. *)
Lemma lor_add (a b k : Z) : (0 ≤ k)%Z → (0 ≤ b < 2 ^ k)%Z → Z.lor (a * 2 ^ k) b = (a * 2 ^ k + b)%Z.
Proof.
  intros Hk Hb. assert (Z.land (a * 2 ^ k) b = 0)%Z as E.
  { apply Z.bits_inj'. intros i Hi. rewrite Z.land_spec, Z.bits_0. destruct (decide (i < k)%Z).
    - rewrite <-Z.shiftl_mul_pow2, Z.shiftl_spec_low by lia. done.
    - rewrite <-(Z.mod_small b (2 ^ k)), Z.mod_pow2_bits_high, andb_false_r by lia. done. }
  rewrite Z.add_nocarry_lxor by done. symmetry. by apply Z.lxor_lor.
Qed.
Lemma land_lor_eqb0 x a b :
  (Z.land x (Z.lor a b) =? 0)%Z = ((Z.land x a =? 0) && (Z.land x b =? 0))%Z.
Proof.
  rewrite Z.land_lor_distr_r. apply eq_true_iff_eq.
  by rewrite andb_true_iff, !Z.eqb_eq, Z.lor_eq_0_iff.
Qed.

Lemma u8_range x : (0 ≤ u8 x < 256)%Z.
Proof. apply Z.mod_pos_bound. lia. Qed.
Lemma u32_range x : (0 ≤ u32 x < 4294967296)%Z.
Proof. apply Z.mod_pos_bound. lia. Qed.
Lemma u32_add_l x y : u32 (u32 x + y) = u32 (x + y).
Proof. unfold u32. by rewrite Zplus_mod_idemp_l. Qed.
Lemma s32_range x : (-2147483648 ≤ s32 x ≤ 2147483647)%Z.
Proof. unfold s32. pose proof (Z.mod_pos_bound (x + 2147483648) 4294967296). lia. Qed.
Lemma u8_s32 x : u8 (s32 x) = u8 x.
Proof. unfold u8, s32. Z.to_euclidean_division_equations; lia. Qed.
Lemma u32_opp_s32 x : (s32 x < 0)%Z → u32 (s32 (- s32 x)) = (- s32 x)%Z.
Proof. unfold u32, s32. Z.to_euclidean_division_equations; lia. Qed.
Lemma s8_id x : (-128 ≤ x ≤ 127)%Z → s8 x = x.
Proof. intros. unfold s8. rewrite Z.mod_small by lia. lia. Qed.
Lemma s32_id x : (-2147483648 ≤ x ≤ 2147483647)%Z → s32 x = x.
Proof. intros. unfold s32. rewrite Z.mod_small by lia. lia. Qed.
Lemma u64_id x : (0 ≤ x < 18446744073709551616)%Z → u64 x = x.
Proof. intros. unfold u64. rewrite Z.mod_small by lia. lia. Qed.
Lemma u32_id x : (0 ≤ x < 4294967296)%Z → u32 x = x.
Proof. intros. unfold u32. rewrite Z.mod_small by lia. lia. Qed.
Lemma u8_id x : (0 ≤ x < 256)%Z → u8 x = x.
Proof. intros. unfold u8. rewrite Z.mod_small by lia. lia. Qed.
#[export] Hint Resolve u8_range u32_range s32_range : kern.

Lemma insert_where_app {A} (c : A → bool) x l1 l2 :
  (∀ y, y ∈ l1 → c y = false) → (∀ y, head l2 = Some y → c y = true) →
  insert_where c x (l1 ++ l2) = l1 ++ x :: l2.
Proof.
  induction l1 as [|y l1 IH]; intros H1 H2; simpl.
  - destruct l2 as [|y l2]; simpl; [done|]. by rewrite H2.
  - rewrite H1 by mem. rewrite IH; [done| |done]. intros z Hz. apply H1. mem.
Qed.

Lemma elem_of_nonempty {A} (x : A) l : x ∈ l → l ≠ [].
Proof. by intros Hx ->; apply not_elem_of_nil in Hx. Qed.

Lemma filter_all {A} (P : A → Prop) `{∀ x, Decision (P x)} (l : list A) :
  (∀ x, x ∈ l → P x) → filter P l = l.
Proof.
  induction l as [|x l IH]; intros HP; [done|].
  rewrite filter_cons_True by (apply HP; mem). f_equal. apply IH. intros y Hy. apply HP. mem.
Qed.

(** Looking for a node and inserting before it, or appending. *)
Lemma find_insert_where `{EqDecision A} (c : A → bool) (x : A) l :
  match List.find c l with Some p => insert_before p x l | None => l ++ [x] end = insert_where c x l.
Proof.
  induction l as [|y l IH]; simpl; [done|]. destruct (c y) eqn:Hc; simpl; [by rewrite decide_True|].
  rewrite <-IH. destruct (List.find c l) as [p|] eqn:Hf; [|done].
  apply find_some in Hf as [_ Hp]. rewrite decide_False; [done|]. congruence.
Qed.

#[export] Instance insert_where_proper {A} :
  Proper (pointwise_relation A eq ==> eq ==> eq ==> eq) (@insert_where A).
Proof.
  intros c c' Hc x _ <- l _ <-. induction l as [|y l IH]; simpl; [done|]. rewrite (Hc y), IH. done.
Qed.
