(* ===== verification/Mem.v ===== *)
(** * Memory: byte copies

    Data buffers are byte ranges of [mem]; addresses are integers. *)
From stdpp Require Import gmap list.
From S2P Require Import Prelude.
Local Open Scope Z_scope.

Fixpoint read_bytes (n : nat) (a : Z) (m : gmap Z Z) : list Z :=
  match n with
  | O => []
  | S n => m !!! a :: read_bytes n (a + 1) m
  end.
Fixpoint write_bytes (a : Z) (l : list Z) (m : gmap Z Z) : gmap Z Z :=
  match l with
  | [] => m
  | b :: l => write_bytes (a + 1) l (<[a := b]> m)
  end.

(** [memcpy] of two ranges that do not overlap, which is what C allows. *)
Definition memcpy (dst src n : Z) (m : gmap Z Z) : gmap Z Z :=
  write_bytes dst (read_bytes (Z.to_nat n) src m) m.

(** [memset] of [n] bytes. *)
Definition memset (dst c n : Z) (m : gmap Z Z) : gmap Z Z := write_bytes dst (replicate (Z.to_nat n) c) m.

(** The bytes of [n] at [a]. *)
Definition bytes (m : gmap Z Z) (a n : Z) : list Z := read_bytes (Z.to_nat n) a m.

Definition disjoint_ranges (a n b n' : Z) : Prop := a + n ≤ b ∨ b + n' ≤ a.

Lemma read_bytes_length n a m : length (read_bytes n a m) = n.
Proof. revert a. induction n as [|n IH]; intros a; simpl; [done|by rewrite IH]. Qed.

Lemma write_bytes_other l a b m : b < a ∨ a + Z.of_nat (length l) ≤ b → write_bytes a l m !!! b = m !!! b.
Proof.
  revert a m. induction l as [|x l IH]; intros a m Hb; simpl in *; [done|].
  rewrite IH by lia. rewrite lookup_total_insert_ne; [done|lia].
Qed.

Lemma read_bytes_ext n a m m' :
  (∀ b, a ≤ b < a + Z.of_nat n → m !!! b = m' !!! b) → read_bytes n a m = read_bytes n a m'.
Proof.
  revert a. induction n as [|n IH]; intros a Hm; simpl; [done|]. f_equal; [apply Hm; lia|].
  apply IH. intros b Hb. apply Hm. lia.
Qed.

(** Equal bytes at two places. *)
Lemma read_bytes_at n a a' m m' :
  (∀ i, 0 ≤ i < Z.of_nat n → m !!! (a + i) = m' !!! (a' + i)) → read_bytes n a m = read_bytes n a' m'.
Proof.
  revert a a'. induction n as [|n IH]; intros a a' Hm; simpl; [done|]. f_equal.
  - specialize (Hm 0 ltac:(lia)). by rewrite !Z.add_0_r in Hm.
  - apply IH. intros i Hi. specialize (Hm (1 + i) ltac:(lia)). by rewrite !Z.add_assoc in Hm.
Qed.
Lemma read_write_bytes l a m : read_bytes (length l) a (write_bytes a l m) = l.
Proof.
  revert a m. induction l as [|x l IH]; intros a m; simpl; [done|]. f_equal; [|apply IH].
  rewrite write_bytes_other by lia. apply lookup_total_insert_eq.
Qed.

Lemma write_bytes_app a l l' m : write_bytes a (l ++ l') m = write_bytes (a + Z.of_nat (length l)) l' (write_bytes a l m).
Proof. revert a m. induction l as [|x l IH]; intros a m; simpl; [by rewrite Z.add_0_r|]. rewrite IH. f_equal. lia. Qed.
Lemma read_bytes_app n n' a m : read_bytes (n + n') a m = read_bytes n a m ++ read_bytes n' (a + Z.of_nat n) m.
Proof. revert a. induction n as [|n IH]; intros a; simpl; [by rewrite Z.add_0_r|]. rewrite IH. do 3 f_equal. lia. Qed.

(** What a copy leaves at its destination and elsewhere. *)
Lemma bytes_memcpy dst src n m : bytes (memcpy dst src n m) dst n = bytes m src n.
Proof.
  unfold bytes, memcpy. pose proof (read_bytes_length (Z.to_nat n) src m) as Hl.
  rewrite <-Hl at 1. apply read_write_bytes.
Qed.
Lemma bytes_memcpy_other dst src n a n' m :
  0 ≤ n' → disjoint_ranges dst n a n' → bytes (memcpy dst src n m) a n' = bytes m a n'.
Proof.
  intros Hn' Hd. unfold bytes, memcpy. apply read_bytes_ext. intros b Hb. apply write_bytes_other.
  rewrite read_bytes_length. unfold disjoint_ranges in Hd. lia.
Qed.

(** What [memset] leaves. *)
Lemma memset_other dst c n m a : a < dst ∨ dst + n ≤ a → memset dst c n m !!! a = m !!! a.
Proof. intros Ha. apply write_bytes_other. rewrite length_replicate. lia. Qed.
Lemma bytes_memset dst c n m : bytes (memset dst c n m) dst n = replicate (Z.to_nat n) c.
Proof. unfold bytes, memset. rewrite <-(length_replicate (Z.to_nat n) c) at 1. apply read_write_bytes. Qed.
Lemma bytes_ext m m' a n : (∀ x, a ≤ x < a + n → m !!! x = m' !!! x) → bytes m a n = bytes m' a n.
Proof. intros Hm. apply read_bytes_ext. intros x Hx. apply Hm. lia. Qed.
