(* ===== verification/Ring.v ===== *)
(** * Byte rings

    The theory the three ring buffers of the code share: the [n] bytes that
    start at an offset of a cyclic area of memory, and the copies in and out of
    it, in one or two pieces. *)
From stdpp Require Import gmap list.
From S2P Require Import Prelude Mem.
Local Open Scope Z_scope.

(** The [n] bytes from offset [p] on in the ring of [size] bytes at [base]. *)
Definition rng (m : gmap Z Z) (base size p n : Z) : list Z :=
  (λ i, m !!! (base + (p + i) mod size)) <$> seqZ 0 n.

Lemma seqZ_shift {A} (f : Z → A) a n : f <$> seqZ a n = (λ i, f (a + i)) <$> seqZ 0 n.
Proof. rewrite <-(Z.add_0_r a) at 1. by rewrite <-(fmap_add_seqZ a 0), <-list_fmap_compose. Qed.
Lemma read_bytes_fmap n a m : read_bytes n a m = (λ i, m !!! (a + i)) <$> seqZ 0 (Z.of_nat n).
Proof.
  revert a. induction n as [|n IH]; intros a; [done|]. rewrite Nat2Z.inj_succ, seqZ_cons, Z.pred_succ by lia. simpl.
  rewrite Z.add_0_r. f_equal. rewrite IH, (seqZ_shift _ (Z.succ 0)).
  apply list_fmap_ext. intros i x _. f_equal. lia.
Qed.
Lemma bytes_fmap m a n : 0 ≤ n → bytes m a n = (λ i, m !!! (a + i)) <$> seqZ 0 n.
Proof. intros Hn. unfold bytes. by rewrite read_bytes_fmap, Z2Nat.id. Qed.
Lemma bytes_app m a n1 n2 : 0 ≤ n1 → 0 ≤ n2 → bytes m a (n1 + n2) = bytes m a n1 ++ bytes m (a + n1) n2.
Proof.
  intros H1 H2. rewrite !bytes_fmap, seqZ_app, fmap_app by lia. f_equal.
  rewrite seqZ_shift. apply list_fmap_ext. intros i x _. f_equal. lia.
Qed.
Lemma bytes_split m a l n : 0 ≤ l ≤ n → bytes m a n = bytes m a l ++ bytes m (a + l) (n - l).
Proof. intros Hl. rewrite <-bytes_app by lia. f_equal. lia. Qed.
Lemma bytes_length m a n : 0 ≤ n → Z.of_nat (length (bytes m a n)) = n.
Proof. intros Hn. unfold bytes. rewrite read_bytes_length. lia. Qed.

Lemma fmap_seqZ_ext {A} (f g : Z → A) n : (∀ i, 0 ≤ i < n → f i = g i) → f <$> seqZ 0 n = g <$> seqZ 0 n.
Proof. intros Hfg. apply list_fmap_ext. intros i x Hx. apply list_elem_of_lookup_2, elem_of_seqZ in Hx. apply Hfg. lia. Qed.

Lemma rng_length m base size p n : 0 ≤ n → Z.of_nat (length (rng m base size p n)) = n.
Proof. intros Hn. unfold rng. rewrite length_fmap, length_seqZ. lia. Qed.
Lemma rng_nil m base size p : rng m base size p 0 = [].
Proof. done. Qed.
Lemma rng_mod m base size p n : rng m base size (p mod size) n = rng m base size p n.
Proof. unfold rng. apply fmap_seqZ_ext. intros i _. by rewrite Zplus_mod_idemp_l. Qed.
Lemma rng_app m base size p n1 n2 :
  0 ≤ n1 → 0 ≤ n2 → rng m base size p (n1 + n2) = rng m base size p n1 ++ rng m base size (p + n1) n2.
Proof.
  intros H1 H2. unfold rng. rewrite seqZ_app, fmap_app by lia. f_equal.
  rewrite seqZ_shift. apply list_fmap_ext. intros i x _. do 3 f_equal. lia.
Qed.
Lemma rng_app_inv m base size p n l1 l2 :
  0 ≤ n → rng m base size p n = l1 ++ l2 →
  let n1 := Z.of_nat (length l1) in
  n1 ≤ n ∧ rng m base size p n1 = l1 ∧ rng m base size (p + n1) (n - n1) = l2.
Proof.
  intros Hn He n1. assert (Hl : n = n1 + Z.of_nat (length l2)).
  { rewrite <-(rng_length m base size p n), He, length_app by done. lia. }
  split; [lia|]. replace n with (n1 + (n - n1)) in He at 1 by lia. rewrite rng_app in He by lia.
  apply app_inj_1 in He as [H1 H2]; [done|]. pose proof (rng_length m base size p n1). lia.
Qed.
Lemma rng_ext m m' base size p n :
  (∀ i, 0 ≤ i < n → m !!! (base + (p + i) mod size) = m' !!! (base + (p + i) mod size)) →
  rng m base size p n = rng m' base size p n.
Proof. apply fmap_seqZ_ext. Qed.
(** Without wrapping, the bytes lie side by side. *)
Lemma rng_bytes m base size p n :
  0 ≤ p → 0 ≤ n → p + n ≤ size → rng m base size p n = bytes m (base + p) n.
Proof.
  intros Hp Hn Hs. rewrite bytes_fmap by done. unfold rng. apply fmap_seqZ_ext. intros i Hi.
  rewrite Z.mod_small by lia. f_equal. lia.
Qed.
Lemma rng_wrap m base size p n :
  0 ≤ p < size → size - p ≤ n ≤ size → rng m base size p n = bytes m (base + p) (size - p) ++ bytes m base (n - (size - p)).
Proof.
  intros Hp Hn. replace n with ((size - p) + (n - (size - p))) at 1 by lia. rewrite rng_app by lia. f_equal.
  - apply rng_bytes; lia.
  - replace (p + (size - p)) with size by lia. rewrite <-rng_mod, Z.mod_same by lia. rewrite rng_bytes by lia. by rewrite Z.add_0_r.
Qed.

(** Different places of the ring have different offsets. *)
Lemma ring_ne h i j n : i < j < i + n → (h + i) mod n ≠ (h + j) mod n.
Proof.
  intros Hij He. assert (Hz : ((h + j) - (h + i)) mod n = 0) by (rewrite Zminus_mod, He, Z.sub_diag; apply Z.mod_0_l; lia).
  rewrite Z.mod_small in Hz; lia.
Qed.

(** ** Copies *)

(** Into the ring at offset [p], and out of it, in two pieces if need be. *)
Definition copy_in (base size p src n : Z) (m : gmap Z Z) : gmap Z Z :=
  let len := size - p in
  if n <=? len then memcpy (base + p) src n m
  else memcpy base (src + len) (n - len) (memcpy (base + p) src len m).
Definition copy_out (base size p dst n : Z) (m : gmap Z Z) : gmap Z Z :=
  let len := size - p in
  if n <=? len then memcpy dst (base + p) n m
  else memcpy (dst + len) base (n - len) (memcpy dst (base + p) len m).

Lemma memcpy_other dst src n m a : a < dst ∨ dst + n ≤ a → memcpy dst src n m !!! a = m !!! a.
Proof. intros Ha. unfold memcpy. apply write_bytes_other. rewrite read_bytes_length. lia. Qed.
Lemma mod_wrap p i size : 0 ≤ p < size → 0 ≤ i < size → (p + i) mod size = if p + i <? size then p + i else p + i - size.
Proof.
  intros Hp Hi. destruct (p + i <? size) eqn:E; zbool; [apply Z.mod_small; lia|].
  replace (p + i) with ((p + i - size) + 1 * size) at 1 by lia. rewrite Z.mod_add by lia. apply Z.mod_small. lia.
Qed.

Lemma copy_in_spec base size p src n m :
  0 ≤ p < size → 0 ≤ n ≤ size → disjoint_ranges src n base size →
  let m' := copy_in base size p src n m in
  rng m' base size p n = bytes m src n ∧
  (∀ i, n ≤ i < size → m' !!! (base + (p + i) mod size) = m !!! (base + (p + i) mod size)) ∧
  (∀ a, a < base ∨ base + size ≤ a → m' !!! a = m !!! a).
Proof.
  intros Hp Hn Hd m'. unfold m', copy_in. cbv zeta. unfold disjoint_ranges in Hd. destruct (n <=? size - p) eqn:E; zbool.
  - split_and!.
    + rewrite rng_bytes by lia. apply bytes_memcpy.
    + intros i Hi. apply memcpy_other. rewrite mod_wrap by lia. destruct (p + i <? size) eqn:E2; zbool; lia.
    + intros a Ha. apply memcpy_other. lia.
  - set (l := size - p). set (m1 := memcpy (base + p) src l m). split_and!.
    + rewrite rng_wrap by lia. fold l. rewrite bytes_memcpy, bytes_memcpy_other by (unfold disjoint_ranges; lia).
      unfold m1. rewrite bytes_memcpy, (bytes_memcpy_other (base + p)) by (unfold disjoint_ranges; lia).
      rewrite <-bytes_app by lia. f_equal. lia.
    + intros i Hi. rewrite memcpy_other; [unfold m1; rewrite memcpy_other; [done|]|]; rewrite mod_wrap by lia;
        destruct (p + i <? size) eqn:E2; zbool; lia.
    + intros a Ha. rewrite memcpy_other by lia. unfold m1. apply memcpy_other. lia.
Qed.

Lemma copy_out_spec base size p dst n m :
  0 ≤ p < size → 0 ≤ n ≤ size → disjoint_ranges dst n base size →
  let m' := copy_out base size p dst n m in
  bytes m' dst n = rng m base size p n ∧ (∀ a, a < dst ∨ dst + n ≤ a → m' !!! a = m !!! a).
Proof.
  intros Hp Hn Hd m'. unfold m', copy_out. cbv zeta. unfold disjoint_ranges in Hd. destruct (n <=? size - p) eqn:E; zbool.
  - split.
    + rewrite bytes_memcpy, rng_bytes by lia. done.
    + intros a Ha. apply memcpy_other. lia.
  - set (l := size - p). set (m1 := memcpy dst (base + p) l m). split.
    + rewrite rng_wrap by lia. fold l. rewrite (bytes_split _ dst l) by lia.
      rewrite bytes_memcpy_other by (unfold disjoint_ranges; lia). rewrite bytes_memcpy. unfold m1.
      rewrite bytes_memcpy, (bytes_memcpy_other dst) by (unfold disjoint_ranges; lia). done.
    + intros a Ha. rewrite memcpy_other by lia. unfold m1. apply memcpy_other. lia.
Qed.

(** Appending to the contents of a ring. *)
Lemma copy_in_appends base size h n src k m :
  0 < size → 0 ≤ n → 0 ≤ k → n + k ≤ size → disjoint_ranges src k base size →
  let m' := copy_in base size ((h + n) mod size) src k m in
  rng m' base size h (n + k) = rng m base size h n ++ bytes m src k.
Proof.
  intros Hs Hn Hk Hnk Hd m'. pose proof (Z.mod_pos_bound (h + n) size Hs) as Hp.
  destruct (copy_in_spec base size ((h + n) mod size) src k m Hp ltac:(lia) Hd) as (Hr & Ho & _). fold m' in Hr, Ho.
  rewrite rng_app by lia. f_equal.
  - apply rng_ext. intros i Hi. specialize (Ho (size - n + i) ltac:(lia)). rewrite Zplus_mod_idemp_l in Ho.
    replace (h + n + (size - n + i)) with ((h + i) + 1 * size) in Ho by lia. rewrite Z.mod_add in Ho by lia. exact Ho.
  - by rewrite <-rng_mod.
Qed.

(** ** Sizes that are powers of two *)

(** [is_power_of_two] of [include/misc/util.h] *)
Definition is_power_of_two (x : Z) : bool := negb (x =? 0) && (Z.land x (u32 (x - 1)) =? 0).

Definition pow2 (n : Z) : Prop := ∃ k, 0 ≤ k ∧ n = 2 ^ k.

Lemma is_power_of_two_spec n : 0 ≤ n < 4294967296 → is_power_of_two n = true → pow2 n.
Proof.
  intros Hn He. apply andb_prop in He as [H0 Hl]. apply negb_true_iff, Z.eqb_neq in H0. apply Z.eqb_eq in Hl.
  rewrite u32_id in Hl by lia. exists (Z.log2 n). pose proof (Z.log2_nonneg n) as Hk. split; [done|].
  pose proof (Z.log2_spec n ltac:(lia)) as Hs. destruct (decide (n = 2 ^ Z.log2 n)) as [|Hne]; [done|exfalso].
  assert (Hb : Z.testbit (Z.land n (n - 1)) (Z.log2 n) = true).
  { rewrite Z.land_spec, Z.bit_log2 by lia. simpl. rewrite <-(Z.log2_unique (n - 1) (Z.log2 n)) at 1; [|lia|lia].
    apply Z.bit_log2. pose proof (Z.pow_pos_nonneg 2 (Z.log2 n)). lia. }
  by rewrite Hl, Z.bits_0 in Hb.
Qed.

Lemma pow2_divides n : 0 < n < 4294967296 → pow2 n → (n | 4294967296).
Proof.
  intros Hn (k & Hk & ->). change 4294967296 with (2 ^ 32). exists (2 ^ (32 - k)).
  assert (k < 32) by (apply (Z.pow_lt_mono_r_iff 2); simpl; lia). rewrite <-Z.pow_add_r by lia. f_equal. lia.
Qed.
Lemma u32_mod_pow2 n x : 0 < n < 4294967296 → pow2 n → u32 x mod n = x mod n.
Proof.
  intros Hn Hp. unfold u32. destruct (pow2_divides n Hn Hp) as [q Hq]. rewrite Hq, (Z.mul_comm q).
  assert (0 < q) by nia. rewrite Z.rem_mul_r by lia. rewrite Z.mul_comm, Z.mod_add by lia. apply Z.mod_mod. lia.
Qed.

(** An offset taken with the mask of a power of two, or with a modulo. *)
Lemma mask_mod n mask x :
  mask = 0 ∨ (pow2 n ∧ mask = n - 1) → (if mask =? 0 then x mod n else Z.land x mask) = x mod n.
Proof.
  intros Hm. destruct (mask =? 0) eqn:E; [done|]. apply Z.eqb_neq in E.
  destruct Hm as [?|((k & Hk & ->) & ->)]; [done|]. by rewrite <-Z.land_ones, Z.ones_equiv, <-Z.sub_1_r.
Qed.
Lemma is_power_of_two_mask n :
  0 < n < 4294967296 → let mask := if is_power_of_two n then u32 (n - 1) else 0 in mask = 0 ∨ (pow2 n ∧ mask = n - 1).
Proof.
  intros Hn. simpl. destruct (is_power_of_two n) eqn:E; [right|by left]. rewrite u32_id by lia.
  split; [apply is_power_of_two_spec; [lia|done]|done].
Qed.
