(* ===== verification/Dlist.v ===== *)
(** * Doubly linked lists (include/misc/dlist.h)

    The kernel keeps every queue (ready queues, wait queues, the timeout
    queue) on intrusive circular doubly linked lists.  [DlistSpec] states what
    the lists mean: a family of disjoint sequences of nodes, and one operation
    per list function.  [Dlist] is the pointer code itself, on a heap of nodes,
    and the theorems at the end show that every function of the header refines
    its [DlistSpec] operation on the whole family, so that the scheduler can be
    verified on sequences. *)
From stdpp Require Import gmap list.
From S2P Require Import Prelude.

(** ** The specification: a family of sequences *)
Module DlistSpec.
Section spec.
Context `{Countable K} {X : Type} `{EqDecision X}.
Implicit Types L : gmap K (list X).

Definition init (r : K) L : gmap K (list X) := <[r := []]> L.
Definition append (r : K) (n : X) L : gmap K (list X) :=
  <[r := L !!! r ++ [n]]> L.
Definition prepend (r : K) (n : X) L : gmap K (list X) :=
  <[r := n :: L !!! r]> L.
(** [sys_dlist_insert_before] with a NULL insert point appends. *)
Definition insert_before_node (r : K) (p : option X) (n : X) L : gmap K (list X) :=
  match p with
  | None => append r n L
  | Some p => <[r := insert_before p n (L !!! r)]> L
  end.
(** [sys_dlist_insert_after] with a NULL insert point prepends. *)
Definition insert_after_node (r : K) (p : option X) (n : X) L : gmap K (list X) :=
  match p with
  | None => prepend r n L
  | Some p => <[r := insert_after p n (L !!! r)]> L
  end.
(** The list a node is on is implicit: it is unlinked from whichever list
    has it. *)
Definition remove (n : X) L : gmap K (list X) := without n <$> L.
End spec.

Section spec_lemmas.
Context `{Countable K} {X : Type} `{EqDecision X}.
Implicit Types L : gmap K (list X).

Lemma lookup_append r r' (n : X) L :
  append r n L !!! r' = if decide (r = r') then L !!! r' ++ [n] else L !!! r'.
Proof. unfold append. rewrite lookup_total_ins. by case_decide; subst. Qed.

Lemma lookup_remove r (n : X) L : remove n L !!! r = without n (L !!! r).
Proof. unfold remove. by apply lookup_total_fmap_default. Qed.
End spec_lemmas.
End DlistSpec.

(** ** The pointer code *)
Module Dlist.

(** A node's address; a list is identified by the address of its head node. *)
Abbreviation addr := positive.

(** [struct _dnode]: the unions give [head]/[next] and [tail]/[prev] the same
    storage. *)
Record dnode := Node { next : addr; prev : addr }.
#[export] Instance dnode_inhabited : Inhabited dnode := populate (Node 1 1).

Abbreviation heap := (gmap addr dnode).

Definition nxt (h : heap) (a : addr) : addr := next (h !!! a).
Definition prv (h : heap) (a : addr) : addr := prev (h !!! a).
Definition set_next (a v : addr) (h : heap) : heap := <[a := Node v (prv h a)]> h.
Definition set_prev (a v : addr) (h : heap) : heap := <[a := Node (nxt h a) v]> h.

Definition sys_dlist_init (lst : addr) (h : heap) : heap :=
  let h := set_next lst lst h in
  set_prev lst lst h.

Definition sys_dlist_is_head (lst node : addr) (h : heap) : bool :=
  bool_decide (nxt h lst = node).
Definition sys_dlist_is_tail (lst node : addr) (h : heap) : bool :=
  bool_decide (prv h lst = node).
Definition sys_dlist_is_empty (lst : addr) (h : heap) : bool :=
  bool_decide (nxt h lst = lst).
Definition sys_dlist_has_multiple_nodes (lst : addr) (h : heap) : bool :=
  bool_decide (nxt h lst ≠ prv h lst).

Definition sys_dlist_peek_head (lst : addr) (h : heap) : option addr :=
  if sys_dlist_is_empty lst h then None else Some (nxt h lst).
Definition sys_dlist_peek_head_not_empty (lst : addr) (h : heap) : addr :=
  nxt h lst.
Definition sys_dlist_peek_next_no_check (lst node : addr) (h : heap) : option addr :=
  if decide (node = prv h lst) then None else Some (nxt h node).
Definition sys_dlist_peek_next (lst : addr) (node : option addr) (h : heap)
    : option addr :=
  match node with
  | Some n => sys_dlist_peek_next_no_check lst n h
  | None => None
  end.
Definition sys_dlist_peek_tail (lst : addr) (h : heap) : option addr :=
  if sys_dlist_is_empty lst h then None else Some (prv h lst).

Definition sys_dlist_append (lst node : addr) (h : heap) : heap :=
  let h := set_next node lst h in
  let h := set_prev node (prv h lst) h in
  let h := set_next (prv h lst) node h in
  set_prev lst node h.

Definition sys_dlist_prepend (lst node : addr) (h : heap) : heap :=
  let h := set_next node (nxt h lst) h in
  let h := set_prev node lst h in
  let h := set_prev (nxt h lst) node h in
  set_next lst node h.

Definition sys_dlist_insert_after (lst : addr) (insert_point : option addr)
    (node : addr) (h : heap) : heap :=
  match insert_point with
  | None => sys_dlist_prepend lst node h
  | Some p =>
      let h := set_next node (nxt h p) h in
      let h := set_prev node p h in
      let h := set_prev (nxt h p) node h in
      set_next p node h
  end.

Definition sys_dlist_insert_before (lst : addr) (insert_point : option addr)
    (node : addr) (h : heap) : heap :=
  match insert_point with
  | None => sys_dlist_append lst node h
  | Some p =>
      let h := set_prev node (prv h p) h in
      let h := set_next node p h in
      let h := set_next (prv h p) node h in
      set_prev p node h
  end.

(** The walk of [sys_dlist_insert_at]: the fuel bounds the number of nodes
    visited; [insert_at_walk_enough] shows that the length of the list is
    enough. *)
Fixpoint insert_at_walk (fuel : nat) (lst : addr) (cond : addr → bool)
    (pos : option addr) (h : heap) : option addr :=
  match fuel, pos with
  | S fuel, Some p =>
      if cond p then pos
      else insert_at_walk fuel lst cond (sys_dlist_peek_next lst pos h) h
  | _, _ => pos
  end.

Definition sys_dlist_insert_at (fuel : nat) (lst node : addr)
    (cond : addr → bool) (h : heap) : heap :=
  if sys_dlist_is_empty lst h then sys_dlist_append lst node h
  else
    let pos := insert_at_walk fuel lst cond (sys_dlist_peek_head lst h) h in
    sys_dlist_insert_before lst pos node h.

Definition sys_dlist_remove (node : addr) (h : heap) : heap :=
  let h := set_next (prv h node) (nxt h node) h in
  set_prev (nxt h node) (prv h node) h.

Definition sys_dlist_get (lst : addr) (h : heap) : option addr * heap :=
  if sys_dlist_is_empty lst h then (None, h)
  else
    let node := nxt h lst in
    (Some node, sys_dlist_remove node h).

(** [SYS_DLIST_FOR_EACH_NODE]: the nodes the loop visits, in order. *)
Fixpoint for_each_from (fuel : nat) (lst : addr) (node : option addr) (h : heap)
    : list addr :=
  match fuel, node with
  | S fuel, Some n =>
      n :: for_each_from fuel lst (sys_dlist_peek_next lst (Some n) h) h
  | _, _ => []
  end.
Definition SYS_DLIST_FOR_EACH_NODE (fuel : nat) (lst : addr) (h : heap) : list addr :=
  for_each_from fuel lst (sys_dlist_peek_head lst h) h.

(** ** Representation of a family of lists by a heap *)
Definition link (h : heap) (x y : addr) : Prop := nxt h x = y ∧ prv h y = x.

(** Consecutive addresses of [zs] are linked in both directions. *)
Fixpoint linked (h : heap) (zs : list addr) : Prop :=
  match zs with
  | x :: ((y :: _) as r) => link h x y ∧ linked h r
  | _ => True
  end.

(** The list at [l] holds the nodes [ns]: the ring [l, ns, l] is linked. *)
Definition ring (l : addr) (ns : list addr) : list addr := l :: ns ++ [l].
Definition is_dlist (h : heap) (l : addr) (ns : list addr) : Prop :=
  linked h (ring l ns) ∧ NoDup (l :: ns).

Record rep (h : heap) (L : gmap addr (list addr)) : Prop := {
  rep_lists : ∀ l ns, L !! l = Some ns → is_dlist h l ns;
  rep_disj : ∀ l1 ns1 l2 ns2 a, L !! l1 = Some ns1 → L !! l2 = Some ns2 →
    a ∈ l1 :: ns1 → a ∈ l2 :: ns2 → l1 = l2;
}.

(** [a] is neither a list head nor a node of a list of the family. *)
Definition fresh_in (a : addr) (L : gmap addr (list addr)) : Prop :=
  ∀ l ns, L !! l = Some ns → a ∉ l :: ns.

(** ** Lemmas on heaps and rings *)
Lemma nxt_set_next a v b h : nxt (set_next a v h) b = if decide (a = b) then v else nxt h b.
Proof. unfold nxt, set_next. rewrite lookup_total_ins. by case_decide. Qed.
Lemma nxt_set_prev a v b h : nxt (set_prev a v h) b = nxt h b.
Proof. unfold nxt, set_prev. rewrite lookup_total_ins. case_decide; by subst. Qed.
Lemma prv_set_next a v b h : prv (set_next a v h) b = prv h b.
Proof. unfold prv, set_next. rewrite lookup_total_ins. case_decide; by subst. Qed.
Lemma prv_set_prev a v b h : prv (set_prev a v h) b = if decide (a = b) then v else prv h b.
Proof. unfold prv, set_prev. rewrite lookup_total_ins. by case_decide. Qed.

Ltac heap_simp :=
  repeat first
    [ progress rewrite ?nxt_set_next, ?nxt_set_prev, ?prv_set_next, ?prv_set_prev in *
    | case_decide ];
  subst; try done; try congruence.

Lemma linked_cons2 h x y zs : linked h (x :: y :: zs) ↔ link h x y ∧ linked h (y :: zs).
Proof. done. Qed.

Lemma linked_app h xs x ys :
  linked h (xs ++ x :: ys) ↔ linked h (xs ++ [x]) ∧ linked h (x :: ys).
Proof.
  induction xs as [|a xs IH]; [naive_solver|].
  destruct xs as [|b xs]; [naive_solver|].
  simpl app in IH |- *. rewrite !linked_cons2, IH. tauto.
Qed.

(** A chain keeps its links when the [next] of all nodes but the last and the
    [prev] of all nodes but the first are unchanged. *)
Lemma linked_frame h h' x xs :
  (∀ a, a ∈ removelast (x :: xs) → nxt h' a = nxt h a) →
  (∀ a, a ∈ xs → prv h' a = prv h a) →
  linked h (x :: xs) → linked h' (x :: xs).
Proof.
  revert x. induction xs as [|y xs IH]; intros x Hn Hp; [done|].
  rewrite !linked_cons2. intros [[Hl1 Hl2] Hr]. split.
  - split; [rewrite Hn; [done|set_solver] | rewrite Hp; [done|set_solver]].
  - apply IH; [|intros a Ha; apply Hp; set_solver|done].
    intros a Ha. apply Hn. change (removelast (x :: y :: xs)) with (x :: removelast (y :: xs)).
    set_solver.
Qed.

Lemma removelast_snoc {A} (xs : list A) x : removelast (xs ++ [x]) = xs.
Proof. rewrite removelast_app by done. apply app_nil_r. Qed.

(** Linking a new node between two consecutive ones. *)
Lemma linked_insert h h' xs x n y ys :
  linked h (xs ++ x :: y :: ys) →
  NoDup (removelast (xs ++ x :: y :: ys)) → NoDup (tail (xs ++ x :: y :: ys)) →
  n ∉ xs ++ x :: y :: ys →
  nxt h' x = n → nxt h' n = y → prv h' n = x → prv h' y = n →
  (∀ a, a ≠ x → a ≠ n → nxt h' a = nxt h a) →
  (∀ a, a ≠ y → a ≠ n → prv h' a = prv h a) →
  linked h' (xs ++ x :: n :: y :: ys).
Proof.
  intros [Hl Hr]%linked_app Hnn Hnp Hf H1 H2 H3 H4 Hn Hp.
  apply linked_cons2 in Hr as [_ Hr].
  apply linked_app. split; [|split; [done|split; [done|]]].
  - destruct xs as [|z xs]; [done|]. apply linked_frame with h; [| |done].
    + intros a Ha. change (a ∈ removelast ((z :: xs) ++ [x])) in Ha.
      rewrite removelast_snoc in Ha. apply Hn; [|set_solver].
      rewrite removelast_app in Hnn by done. apply NoDup_app in Hnn as (_ & Hd & _).
      intros ->. apply (Hd _ Ha). simpl. set_solver.
    + intros a Ha. apply Hp; [|set_solver].
      simpl in Hnp. apply NoDup_app in Hnp as (_ & Hd & Hnp).
      intros ->. apply elem_of_app in Ha as [Ha|Ha]; [apply (Hd _ Ha); set_solver|].
      apply list_elem_of_singleton in Ha as ->. apply NoDup_cons in Hnp as [Hnp _]. set_solver.
  - apply linked_frame with h; [| |done].
    + intros a Ha. apply Hn.
      * rewrite removelast_app in Hnn by done. apply NoDup_app in Hnn as (_ & _ & Hnn).
        change (removelast (x :: y :: ys)) with (x :: removelast (y :: ys)) in Hnn.
        apply NoDup_cons in Hnn as [Hx _]. by intros ->.
      * intros ->. apply Hf.
        assert (n ∈ y :: ys) as Hin; [|set_solver].
        rewrite (app_removelast_last y (l := y :: ys)) by done. set_solver.
    + intros a Ha. apply Hp; [|set_solver].
      assert (NoDup (y :: ys)) as [Hy _]%NoDup_cons; [|by intros ->].
      destruct xs as [|z xs]; simpl in Hnp; [done|].
      apply NoDup_app in Hnp as (_ & _ & [_ Hnp]%NoDup_cons). done.
Qed.

(** Unlinking a node between its two neighbours. *)
Lemma linked_remove h h' xs x n y ys :
  linked h (xs ++ x :: n :: y :: ys) →
  NoDup (removelast (xs ++ x :: n :: y :: ys)) →
  NoDup (tail (xs ++ x :: n :: y :: ys)) →
  nxt h' x = y → prv h' y = x →
  (∀ a, a ≠ x → nxt h' a = nxt h a) →
  (∀ a, a ≠ y → prv h' a = prv h a) →
  linked h' (xs ++ x :: y :: ys).
Proof.
  intros [Hl Hr]%linked_app Hnn Hnp H1 H2 Hn Hp.
  apply linked_cons2 in Hr as [_ [_ Hr]%linked_cons2].
  apply linked_app. split; [|split; [done|]].
  - destruct xs as [|z xs]; [done|]. apply linked_frame with h; [| |done].
    + intros a Ha. change (a ∈ removelast ((z :: xs) ++ [x])) in Ha.
      rewrite removelast_snoc in Ha. apply Hn.
      rewrite removelast_app in Hnn by done. apply NoDup_app in Hnn as (_ & Hd & _).
      intros ->. apply (Hd _ Ha). simpl. set_solver.
    + intros a Ha. apply Hp.
      simpl in Hnp. apply NoDup_app in Hnp as (_ & Hd & Hnp).
      intros ->. apply elem_of_app in Ha as [Ha|Ha]; [apply (Hd _ Ha); set_solver|].
      apply list_elem_of_singleton in Ha as ->. apply NoDup_cons in Hnp as [Hnp _]. set_solver.
  - apply linked_frame with h; [| |done].
    + intros a Ha. apply Hn.
      rewrite removelast_app in Hnn by done. apply NoDup_app in Hnn as (_ & _ & Hnn).
      change (removelast (x :: n :: y :: ys)) with (x :: n :: removelast (y :: ys)) in Hnn.
      apply NoDup_cons in Hnn as [Hx _]. intros ->. apply Hx. by right.
    + intros a Ha. apply Hp.
      assert (NoDup (y :: ys)) as [Hy _]%NoDup_cons; [|by intros ->].
      destruct xs as [|z xs]; simpl in Hnp; [by apply NoDup_cons in Hnp as [_ ?]|].
      apply NoDup_app in Hnp as (_ & _ & [_ [_ Hnp]%NoDup_cons]%NoDup_cons). done.
Qed.

(** ** One list: inserting and removing at a position *)
Lemma ring_split l xs ys :
  ∃ pre post, ring l (xs ++ ys) = pre ++ List.last xs l :: hd l ys :: post ∧
    (∀ n, ring l (xs ++ n :: ys) = pre ++ List.last xs l :: n :: hd l ys :: post).
Proof.
  unfold ring. exists (removelast (l :: xs)), (tail (ys ++ [l])).
  assert (l :: xs = removelast (l :: xs) ++ [List.last xs l]) as Hx.
  { rewrite (app_removelast_last l (l := l :: xs)) at 1 by done. f_equal. f_equal.
    destruct xs as [|x xs]; [done|].
    change (List.last (l :: x :: xs) l) with (List.last (x :: xs) l). done. }
  assert (ys ++ [l] = hd l ys :: tail (ys ++ [l])) as Hy by by destruct ys.
  revert Hx Hy. generalize (removelast (l :: xs)) as pre, (tail (ys ++ [l])) as post.
  intros pre post Hx Hy. split; [|intros n]; rewrite <- app_assoc; simpl app at 2;
    rewrite Hy, app_comm_cons, Hx, <- app_assoc; done.
Qed.

Lemma removelast_ring l ns : removelast (ring l ns) = l :: ns.
Proof. unfold ring. rewrite app_comm_cons. apply removelast_snoc. Qed.
Lemma NoDup_ring_tail l ns : NoDup (l :: ns) → NoDup (tail (ring l ns)).
Proof.
  intros [Hl Hn]%NoDup_cons. simpl. apply NoDup_app. split; [done|]. split; [|apply NoDup_singleton].
  set_solver.
Qed.
Lemma elem_of_ring l ns a : a ∈ ring l ns ↔ a ∈ l :: ns.
Proof. unfold ring. set_solver. Qed.

Lemma is_dlist_link h l xs ys :
  is_dlist h l (xs ++ ys) → link h (List.last xs l) (hd l ys).
Proof.
  intros [Hl _]. destruct (ring_split l xs ys) as (pre & post & Hr & _).
  rewrite Hr in Hl. apply linked_app in Hl as [_ [Hl _]%linked_cons2]. done.
Qed.

Lemma is_dlist_insert h h' l xs ys n :
  is_dlist h l (xs ++ ys) → n ∉ l :: xs ++ ys →
  nxt h' (List.last xs l) = n → nxt h' n = hd l ys →
  prv h' n = List.last xs l → prv h' (hd l ys) = n →
  (∀ a, a ≠ List.last xs l → a ≠ n → nxt h' a = nxt h a) →
  (∀ a, a ≠ hd l ys → a ≠ n → prv h' a = prv h a) →
  is_dlist h' l (xs ++ n :: ys).
Proof.
  intros [Hl Hnd] Hf ??????. destruct (ring_split l xs ys) as (pre & post & Hr & Hr').
  split.
  - rewrite Hr'. apply linked_insert with h; try done; rewrite <- Hr; [done|..].
    + by rewrite removelast_ring.
    + by apply NoDup_ring_tail.
    + by rewrite elem_of_ring.
  - rewrite app_comm_cons in Hnd |- *. apply (NoDup_Permutation_proper _ (n :: (l :: xs) ++ ys)).
    + by rewrite Permutation_middle.
    + by apply NoDup_cons.
Qed.

Lemma is_dlist_remove h h' l xs ys n :
  is_dlist h l (xs ++ n :: ys) →
  nxt h' (List.last xs l) = hd l ys → prv h' (hd l ys) = List.last xs l →
  (∀ a, a ≠ List.last xs l → nxt h' a = nxt h a) →
  (∀ a, a ≠ hd l ys → prv h' a = prv h a) →
  is_dlist h' l (xs ++ ys).
Proof.
  intros [Hl Hnd] ????. destruct (ring_split l xs ys) as (pre & post & Hr & Hr').
  rewrite Hr' in Hl. split.
  - rewrite Hr. apply linked_remove with h n; try done; rewrite <- Hr'.
    + by rewrite removelast_ring.
    + by apply NoDup_ring_tail.
  - apply (NoDup_Permutation_proper _ (n :: l :: xs ++ ys)) in Hnd.
    + by apply NoDup_cons in Hnd as [_ ?].
    + rewrite app_comm_cons, <- Permutation_middle. done.
Qed.

Lemma is_dlist_frame h h' l ns :
  (∀ a, a ∈ l :: ns → nxt h' a = nxt h a ∧ prv h' a = prv h a) →
  is_dlist h l ns → is_dlist h' l ns.
Proof.
  intros Hf [Hl Hnd]. split; [|done]. unfold ring in *. apply linked_frame with h; [..|done].
  - intros a Ha. rewrite app_comm_cons, removelast_snoc in Ha. by apply Hf.
  - intros a Ha. apply Hf. set_solver.
Qed.

(** ** The whole family *)
Lemma rep_update h h' L l ns ns' :
  rep h L → L !! l = Some ns → is_dlist h' l ns' →
  (∀ a, a ∈ ns' → a ∈ l :: ns ∨ fresh_in a L) →
  (∀ a, (nxt h' a ≠ nxt h a ∨ prv h' a ≠ prv h a) → a ∈ l :: ns ∨ fresh_in a L) →
  rep h' (<[l := ns']> L).
Proof.
  intros [Hls Hdj] Hl Hl' Hsub Hch.
  assert (∀ l2 ns2, l2 ≠ l → L !! l2 = Some ns2 → ∀ a, a ∈ l2 :: ns2 →
    ¬ (a ∈ l :: ns ∨ fresh_in a L)) as Hother.
  { intros l2 ns2 Hne H2 a Ha [Ha'|Hfr]; [by eapply Hne, Hdj|by eapply Hfr]. }
  split.
  - intros l2 ns2. destruct (decide (l2 = l)) as [->|Hne].
    { rewrite lookup_insert_eq. by intros [= <-]. }
    rewrite lookup_insert_ne by done. intros H2. apply is_dlist_frame with h; [|by apply Hls].
    intros a Ha. specialize (Hother _ _ Hne H2 a Ha).
    split; apply dec_stable; intros Hc; apply Hother, Hch; auto.
  - intros l1 ns1 l2 ns2 a H1 H2 Ha1 Ha2.
    destruct (decide (l1 = l)) as [->|Hn1], (decide (l2 = l)) as [->|Hn2]; [done|..].
    + rewrite lookup_insert_eq in H1. rewrite lookup_insert_ne in H2 by done.
      injection H1 as <-. exfalso. eapply (Hother l2 ns2); [done..|].
      apply elem_of_cons in Ha1 as [->|Ha1]; [left; set_solver|by apply Hsub].
    + rewrite lookup_insert_eq in H2. rewrite lookup_insert_ne in H1 by done.
      injection H2 as <-. exfalso. eapply (Hother l1 ns1); [done..|].
      apply elem_of_cons in Ha2 as [->|Ha2]; [left; set_solver|by apply Hsub].
    + rewrite lookup_insert_ne in H1, H2 by done. by eapply Hdj.
Qed.

Lemma last_in_list (l : addr) ns : List.last ns l ∈ l :: ns.
Proof.
  revert l. induction ns as [|x ns IH]; intros l; [set_solver|].
  destruct ns as [|y ns]; [set_solver|].
  change (List.last (x :: y :: ns) l) with (List.last (y :: ns) l).
  specialize (IH l). set_solver.
Qed.
Lemma hd_in_list (l : addr) ns : hd l ns ∈ l :: ns.
Proof. destruct ns; set_solver. Qed.

Lemma rep_insert_at h h' L l xs ys n :
  rep h L → L !! l = Some (xs ++ ys) → fresh_in n L →
  nxt h' (List.last xs l) = n → nxt h' n = hd l ys →
  prv h' n = List.last xs l → prv h' (hd l ys) = n →
  (∀ a, a ≠ List.last xs l → a ≠ n → nxt h' a = nxt h a) →
  (∀ a, a ≠ hd l ys → a ≠ n → prv h' a = prv h a) →
  rep h' (<[l := xs ++ n :: ys]> L).
Proof.
  intros Hr Hl Hf ???? Hn Hp.
  assert (List.last xs l ∈ l :: xs ++ ys) as Hlast.
  { generalize (last_in_list l xs). set_solver. }
  assert (hd l ys ∈ l :: xs ++ ys) as Hhd by (destruct ys; simpl; set_solver).
  eapply rep_update; [done..| | |].
  - eapply is_dlist_insert with h; try done; [by eapply rep_lists|by eapply Hf].
  - intros a Ha. destruct (decide (a = n)) as [->|]; [by right|left; set_solver].
  - intros a Ha. destruct (decide (a = n)) as [->|Hne]; [by right|left].
    destruct Ha as [Ha|Ha]; apply dec_stable; intros Hc; apply Ha; [apply Hn|apply Hp];
      try done; by intros ->.
Qed.

Lemma fresh_ne n L l ns a : fresh_in n L → L !! l = Some ns → a ∈ l :: ns → a ≠ n.
Proof. intros Hf Hl Ha ->. by eapply Hf. Qed.

Lemma rep_total h L l ns : rep h L → L !! l = Some ns → L !!! l = ns.
Proof. intros _. apply lookup_total_Some. Qed.

Lemma rep_prv_head h L l ns : rep h L → L !! l = Some ns → prv h l = List.last ns l.
Proof.
  intros Hr Hl. apply (rep_lists _ _ Hr) in Hl. rewrite <- (app_nil_r ns) in Hl.
  by destruct (is_dlist_link _ _ _ _ Hl).
Qed.
Lemma rep_nxt_head h L l ns : rep h L → L !! l = Some ns → nxt h l = hd l ns.
Proof.
  intros Hr Hl. apply (rep_lists _ _ Hr) in Hl.
  by destruct (is_dlist_link h l [] ns Hl).
Qed.
Lemma rep_prv_node h L l xs p ys :
  rep h L → L !! l = Some (xs ++ p :: ys) → prv h p = List.last xs l.
Proof.
  intros Hr Hl. apply (rep_lists _ _ Hr) in Hl. by destruct (is_dlist_link _ _ _ _ Hl).
Qed.
Lemma rep_nxt_node h L l xs p ys :
  rep h L → L !! l = Some (xs ++ p :: ys) → nxt h p = hd l ys.
Proof.
  intros Hr Hl. apply (rep_lists _ _ Hr) in Hl.
  rewrite cons_middle, app_assoc in Hl. destruct (is_dlist_link _ _ _ _ Hl) as [Hn _].
  by rewrite last_last in Hn.
Qed.


(** ** Every function refines its operation on the family *)
Section refine.
Variables (h : heap) (L : gmap addr (list addr)).
Hypothesis HR : rep h L.

Lemma append_refines l n :
  is_Some (L !! l) → fresh_in n L →
  rep (sys_dlist_append l n h) (DlistSpec.append l n L).
Proof.
  intros [ns Hl] Hf. unfold DlistSpec.append. rewrite (lookup_total_Some _ _ _ Hl).
  pose proof (rep_prv_head _ _ _ _ HR Hl) as Hp.
  assert (l ≠ n) by (eapply fresh_ne; [done..|set_solver]).
  assert (List.last ns l ≠ n) by (eapply fresh_ne; [done..|apply last_in_list]).
  apply rep_insert_at with h; try done; rewrite ?app_nil_r; try done;
    unfold sys_dlist_append; simpl; try (intros a Ha1 Ha2); heap_simp.
Qed.

Lemma prepend_refines l n :
  is_Some (L !! l) → fresh_in n L →
  rep (sys_dlist_prepend l n h) (DlistSpec.prepend l n L).
Proof.
  intros [ns Hl] Hf. unfold DlistSpec.prepend. rewrite (lookup_total_Some _ _ _ Hl).
  pose proof (rep_nxt_head _ _ _ _ HR Hl) as Hp.
  assert (l ≠ n) by (eapply fresh_ne; [done..|set_solver]).
  assert (hd l ns ≠ n) by (eapply fresh_ne; [done..|apply hd_in_list]).
  apply (rep_insert_at h _ L l [] ns n); try done;
    unfold sys_dlist_prepend; simpl; try (intros a Ha1 Ha2); heap_simp.
Qed.

Lemma insert_before_refines l p n ns :
  L !! l = Some ns → match p with Some q => q ∈ ns | None => True end → fresh_in n L →
  rep (sys_dlist_insert_before l p n h) (DlistSpec.insert_before_node l p n L).
Proof.
  intros Hl Hin Hf. destruct p as [p|]; [|by apply append_refines].
  unfold DlistSpec.insert_before_node. rewrite (lookup_total_Some _ _ _ Hl).
  destruct (NoDup_split_elem ns p) as (xs & ys & -> & Hx); [|done|].
  { by destruct (rep_lists _ _ HR _ _ Hl) as [_ [_ ?]%NoDup_cons]. }
  rewrite insert_before_app by done.
  pose proof (rep_prv_node _ _ _ _ _ _ HR Hl) as Hp.
  assert (p ≠ n) by (eapply fresh_ne; [done..|set_solver]).
  assert (List.last xs l ≠ n).
  { eapply fresh_ne; [done..|]. generalize (last_in_list l xs). set_solver. }
  apply rep_insert_at with h; try done; unfold sys_dlist_insert_before; simpl;
    try (intros a Ha1 Ha2); heap_simp.
Qed.

Lemma insert_after_refines l p n ns :
  L !! l = Some ns → match p with Some q => q ∈ ns | None => True end → fresh_in n L →
  rep (sys_dlist_insert_after l p n h) (DlistSpec.insert_after_node l p n L).
Proof.
  intros Hl Hin Hf. destruct p as [p|]; [|by apply prepend_refines].
  unfold DlistSpec.insert_after_node. rewrite (lookup_total_Some _ _ _ Hl).
  destruct (NoDup_split_elem ns p) as (xs & ys & -> & Hx); [|done|].
  { by destruct (rep_lists _ _ HR _ _ Hl) as [_ [_ ?]%NoDup_cons]. }
  rewrite insert_after_app by done.
  pose proof (rep_nxt_node _ _ _ _ _ _ HR Hl) as Hp.
  assert (p ≠ n) by (eapply fresh_ne; [done..|set_solver]).
  assert (hd l ys ≠ n).
  { eapply fresh_ne; [done..|]. generalize (hd_in_list l ys). set_solver. }
  rewrite (cons_middle p), app_assoc.
  apply rep_insert_at with h; rewrite ?last_last; try done;
    unfold sys_dlist_insert_after; simpl; try (intros a Ha1 Ha2); try heap_simp.
  by rewrite <- app_assoc.
Qed.

Lemma remove_refines n l ns :
  L !! l = Some ns → n ∈ ns →
  rep (sys_dlist_remove n h) (DlistSpec.remove n L).
Proof.
  intros Hl Hin. pose proof (rep_lists _ _ HR _ _ Hl) as Hd.
  destruct (NoDup_split_elem ns n) as (xs & ys & -> & Hx); [|done|].
  { by destruct Hd as [_ [_ ?]%NoDup_cons]. }
  pose proof (rep_nxt_node _ _ _ _ _ _ HR Hl) as Hn.
  pose proof (rep_prv_node _ _ _ _ _ _ HR Hl) as Hp.
  assert (DlistSpec.remove n L = <[l := xs ++ ys]> L) as ->.
  { apply map_eq. intros l'. unfold DlistSpec.remove. rewrite lookup_fmap.
    destruct (decide (l' = l)) as [->|Hne].
    - rewrite lookup_insert_eq, Hl. simpl. f_equal.
      destruct Hd as [_ [_ [_ [Hxy [Hy _]%NoDup_cons]]%NoDup_app]%NoDup_cons].
      rewrite without_app, without_cons_eq, !without_notin by done. done.
    - rewrite lookup_insert_ne by done. destruct (L !! l') as [ns'|] eqn:Hl'; [|done].
      simpl. f_equal. apply without_notin. intros Hin'.
      apply Hne. eapply (rep_disj _ _ HR l' ns' l _ n); [done..|set_solver|set_solver]. }
  eapply rep_update; [done..| | |].
  - eapply is_dlist_remove with (h := h) (n := n); [done|..];
      unfold sys_dlist_remove; simpl; try (intros a Ha); heap_simp.
  - set_solver.
  - intros a Ha. left. unfold sys_dlist_remove in Ha. simpl in Ha.
    generalize (last_in_list l xs), (hd_in_list l ys). rewrite <- Hp, <- Hn.
    revert Ha. heap_simp; set_solver.
Qed.

Lemma is_empty_refines l ns :
  L !! l = Some ns → sys_dlist_is_empty l h = bool_decide (ns = []).
Proof.
  intros Hl. unfold sys_dlist_is_empty. rewrite (rep_nxt_head _ _ _ _ HR Hl).
  destruct ns as [|x ns]; [by rewrite !bool_decide_eq_true_2|].
  rewrite !bool_decide_eq_false_2; [done|done|]. simpl. intros ->.
  destruct (rep_lists _ _ HR _ _ Hl) as [_ [Hd _]%NoDup_cons]. set_solver.
Qed.

Lemma get_refines l ns :
  L !! l = Some ns →
  (sys_dlist_get l h).1 = head ns ∧
  rep (sys_dlist_get l h).2
      (match head ns with Some n => DlistSpec.remove n L | None => L end).
Proof.
  intros Hl. unfold sys_dlist_get. rewrite (is_empty_refines _ _ Hl).
  destruct ns as [|x ns]; [done|]. rewrite bool_decide_eq_false_2 by done.
  rewrite (rep_nxt_head _ _ _ _ HR Hl). simpl. split; [done|].
  eapply remove_refines; [done|set_solver].
Qed.

Lemma peek_head_refines l ns : L !! l = Some ns → sys_dlist_peek_head l h = head ns.
Proof.
  intros Hl. unfold sys_dlist_peek_head. rewrite (is_empty_refines _ _ Hl).
  rewrite (rep_nxt_head _ _ _ _ HR Hl). by destruct ns.
Qed.

Lemma peek_tail_refines l ns : L !! l = Some ns → sys_dlist_peek_tail l h = last ns.
Proof.
  intros Hl. unfold sys_dlist_peek_tail. rewrite (is_empty_refines _ _ Hl).
  rewrite (rep_prv_head _ _ _ _ HR Hl).
  destruct ns as [|x ns _] using rev_ind; [done|].
  rewrite bool_decide_eq_false_2 by (by destruct ns). rewrite last_last. by rewrite last_snoc.
Qed.

Lemma is_tail_refines l ns n :
  L !! l = Some ns → n ≠ l → sys_dlist_is_tail l n h = bool_decide (last ns = Some n).
Proof.
  intros Hl Hn. unfold sys_dlist_is_tail. rewrite (rep_prv_head _ _ _ _ HR Hl).
  destruct ns as [|x ns _] using rev_ind; [by rewrite !bool_decide_eq_false_2|].
  rewrite last_last, last_snoc. apply bool_decide_ext. naive_solver.
Qed.

Lemma is_head_refines l ns n :
  L !! l = Some ns → n ≠ l → sys_dlist_is_head l n h = bool_decide (head ns = Some n).
Proof.
  intros Hl Hn. unfold sys_dlist_is_head. rewrite (rep_nxt_head _ _ _ _ HR Hl).
  apply bool_decide_ext. destruct ns; naive_solver.
Qed.

Lemma has_multiple_nodes_refines l ns :
  L !! l = Some ns → sys_dlist_has_multiple_nodes l h = bool_decide (1 < length ns).
Proof.
  intros Hl. unfold sys_dlist_has_multiple_nodes.
  rewrite (rep_prv_head _ _ _ _ HR Hl), (rep_nxt_head _ _ _ _ HR Hl).
  apply bool_decide_ext. destruct ns as [|x [|y ns]]; [simpl; naive_solver lia..|].
  change (hd l (x :: y :: ns)) with x.
  change (List.last (x :: y :: ns) l) with (List.last (y :: ns) l).
  split; [simpl; lia|]. intros _ Heq.
  destruct (rep_lists _ _ HR _ _ Hl) as [_ [_ [Hd _]%NoDup_cons]%NoDup_cons].
  apply Hd. rewrite Heq. destruct (exists_last (l := y :: ns)) as (zs & z & ->); [done|].
  rewrite last_last. set_solver.
Qed.

Lemma peek_next_refines l xs n ys :
  L !! l = Some (xs ++ n :: ys) → sys_dlist_peek_next l (Some n) h = head ys.
Proof.
  intros Hl. unfold sys_dlist_peek_next, sys_dlist_peek_next_no_check.
  rewrite (rep_prv_head _ _ _ _ HR Hl), (rep_nxt_node _ _ _ _ _ _ HR Hl).
  destruct ys as [|y ys _] using rev_ind; [by rewrite last_last, decide_True|].
  rewrite app_comm_cons, app_assoc, last_last, decide_False; [by destruct ys|].
  intros ->. destruct (rep_lists _ _ HR _ _ Hl) as [_ [_ Hd]%NoDup_cons].
  apply NoDup_app in Hd as (_ & _ & [Hd _]%NoDup_cons). set_solver.
Qed.

Lemma for_each_from_refines l xs ys fuel :
  L !! l = Some (xs ++ ys) → length ys ≤ fuel → for_each_from fuel l (head ys) h = ys.
Proof.
  revert xs fuel. induction ys as [|y ys IH]; intros xs fuel Hl Hf; [by destruct fuel|].
  destruct fuel as [|fuel]; simpl in Hf; [lia|]. cbn [for_each_from head].
  rewrite (peek_next_refines _ _ _ _ Hl). f_equal. apply (IH (xs ++ [y])); [|lia].
  by rewrite <- app_assoc.
Qed.

(** The walk stops at the first node that satisfies the condition, if any. *)
Lemma insert_at_walk_refines l (c : addr → bool) xs ys fuel :
  L !! l = Some (xs ++ ys) → length ys ≤ fuel →
  insert_at_walk fuel l c (head ys) h = list_find (λ n, c n = true) ys ≫= Some ∘ snd.
Proof.
  revert xs fuel. induction ys as [|y ys IH]; intros xs fuel Hl Hf; [by destruct fuel|].
  destruct fuel as [|fuel]; simpl in Hf; [lia|].
  cbn [insert_at_walk head list_find]. destruct (c y) eqn:Hc; [done|].
  rewrite (peek_next_refines _ _ _ _ Hl), decide_False by done.
  rewrite (IH (xs ++ [y])); [|by rewrite <- app_assoc|lia].
  by destruct (list_find _ ys) as [[]|].
Qed.

Lemma insert_at_refines l n ns (c : addr → bool) fuel :
  L !! l = Some ns → fresh_in n L → length ns ≤ fuel →
  rep (sys_dlist_insert_at fuel l n c h) (<[l := insert_where c n ns]> L).
Proof.
  intros Hl Hf Hfuel. unfold sys_dlist_insert_at.
  rewrite (is_empty_refines _ _ Hl), (peek_head_refines _ _ Hl).
  case_bool_decide as Hne.
  { subst ns. replace (<[l := insert_where c n []]> L) with (DlistSpec.append l n L);
      [by apply append_refines|].
    unfold DlistSpec.append. by rewrite (lookup_total_Some _ _ _ Hl). }
  rewrite (insert_at_walk_refines _ _ [] _ _ Hl Hfuel).
  assert (∀ ns, NoDup ns → insert_where c n ns =
    match list_find (λ n, c n = true) ns ≫= Some ∘ snd with
    | Some p => insert_before p n ns | None => ns ++ [n] end) as Hspec.
  { clear. induction ns as [|y ns IH]; [done|]. intros [Hy Hnd]%NoDup_cons.
    cbn [insert_where list_find]. destruct (c y) eqn:Hc.
    { rewrite decide_True by done. cbn. by rewrite decide_True. }
    rewrite decide_False by congruence. rewrite IH by done.
    destruct (list_find _ ns) as [[i p]|] eqn:Hfd; cbn; [|done].
    apply list_find_Some in Hfd as (Hp & _). apply list_elem_of_lookup_2 in Hp.
    rewrite decide_False; [done|congruence]. }
  assert (NoDup ns) as Hnd by by destruct (rep_lists _ _ HR _ _ Hl) as [_ [_ ?]%NoDup_cons].
  specialize (Hspec ns Hnd).
  destruct (list_find _ ns) as [[i p]|] eqn:Hfd; cbn in Hspec |- *; rewrite Hspec.
  - apply list_find_Some in Hfd as (Hp & _). apply list_elem_of_lookup_2 in Hp.
    pose proof (insert_before_refines l (Some p) n ns Hl Hp Hf) as Hr.
    cbn in Hr. by rewrite (lookup_total_Some _ _ _ Hl) in Hr.
  - pose proof (append_refines l n ltac:(by eexists) Hf) as Hr.
    unfold DlistSpec.append in Hr. by rewrite (lookup_total_Some _ _ _ Hl) in Hr.
Qed.
End refine.

Lemma init_refines h L l :
  rep h L → fresh_in l L → rep (sys_dlist_init l h) (DlistSpec.init l L).
Proof.
  intros [Hls Hdj] Hf. unfold DlistSpec.init.
  assert (∀ l' ns, L !! l' = Some ns → l' ≠ l) as Hne.
  { intros l' ns Hl' ->. eapply Hf; [done|set_solver]. }
  split.
  - intros l' ns. destruct (decide (l' = l)) as [->|Hn].
    { rewrite lookup_insert_eq. intros [= <-]. split; [|apply NoDup_singleton].
      unfold sys_dlist_init, ring. simpl. unfold link. heap_simp. }
    rewrite lookup_insert_ne by done. intros Hl'.
    apply is_dlist_frame with h; [|by apply Hls].
    intros a Ha. assert (a ≠ l) by (intros ->; by eapply Hf).
    unfold sys_dlist_init. heap_simp.
  - intros l1 ns1 l2 ns2 a. rewrite !lookup_insert.
    repeat case_decide; subst; [done| | |by apply Hdj].
    + intros [= <-] H2 Ha1 Ha2. apply list_elem_of_singleton in Ha1 as ->. by destruct (Hf _ _ H2).
    + intros H1 [= <-] Ha1 Ha2. apply list_elem_of_singleton in Ha2 as ->. by destruct (Hf _ _ H1).
Qed.

(** C18: on any heap that represents a family of disjoint lists, each function of
    dlist.h that changes a list (append, prepend, insert_before, insert_after,
    insert_at, remove, get) leaves a heap that represents the family with the
    corresponding change of one sequence and every other list untouched;
    [sys_dlist_insert_at] needs no more steps than the list is long. *)
Theorem sys_dlist_mutators_refine (h : heap) (L : gmap addr (list addr)) (l n : addr)
    (ns : list addr) :
  rep h L → L !! l = Some ns → fresh_in n L →
  rep (sys_dlist_append l n h) (<[l := ns ++ [n]]> L) ∧
  rep (sys_dlist_prepend l n h) (<[l := n :: ns]> L) ∧
  (∀ p, p ∈ ns →
     rep (sys_dlist_insert_before l (Some p) n h) (<[l := insert_before p n ns]> L) ∧
     rep (sys_dlist_insert_after l (Some p) n h) (<[l := insert_after p n ns]> L) ∧
     rep (sys_dlist_remove p h) (DlistSpec.remove p L)) ∧
  (∀ c fuel, length ns ≤ fuel →
     rep (sys_dlist_insert_at fuel l n c h) (<[l := insert_where c n ns]> L)) ∧
  (sys_dlist_get l h).1 = head ns ∧
  (∀ p, head ns = Some p → rep (sys_dlist_get l h).2 (DlistSpec.remove p L)).
Proof.
  intros HR Hl Hf.
  assert (is_Some (L !! l)) as Hs by by eexists.
  pose proof (append_refines _ _ HR l n Hs Hf) as Ha.
  pose proof (prepend_refines _ _ HR l n Hs Hf) as Hp.
  unfold DlistSpec.append, DlistSpec.prepend in *.
  rewrite (lookup_total_Some _ _ _ Hl) in *.
  split_and!; try done.
  - intros p Hin.
    pose proof (insert_before_refines _ _ HR l (Some p) n ns Hl Hin Hf) as Hb.
    pose proof (insert_after_refines _ _ HR l (Some p) n ns Hl Hin Hf) as Hc.
    cbn in Hb, Hc. rewrite (lookup_total_Some _ _ _ Hl) in *.
    split_and!; try done. by eapply remove_refines.
  - intros c fuel Hfu. by apply insert_at_refines.
  - by apply (get_refines _ _ HR).
  - intros p Hh. destruct (get_refines _ _ HR _ _ Hl) as [_ Hg]. by rewrite Hh in Hg.
Qed.

(** A family with two lists, one of them holding two nodes. *)
Definition demo_heap : heap :=
  sys_dlist_append 1 12 (sys_dlist_append 1 11 (sys_dlist_init 2 (sys_dlist_init 1 ∅))).
Definition demo_lists : gmap addr (list addr) :=
  DlistSpec.append 1%positive 12%positive (DlistSpec.append 1%positive 11%positive
    (DlistSpec.init 2%positive (DlistSpec.init 1%positive ∅))).
Lemma demo_fresh (n : addr) : (12 < n)%positive → fresh_in n demo_lists.
Proof.
  intros Hn l ns.
  replace demo_lists with
    (<[1%positive := [11; 12]%positive]> (<[2%positive := []]> ∅) : gmap addr (list addr))
    by (vm_compute; reflexivity).
  rewrite !lookup_insert.
  repeat case_decide; subst; cbn; intros [= <-]; rewrite ?not_elem_of_cons;
    split_and?; try lia; apply not_elem_of_nil.
Qed.
Lemma demo_rep : rep demo_heap demo_lists.
Proof.
  unfold demo_heap, demo_lists.
  apply append_refines; [apply append_refines; [|by eexists|]|by eexists|].
  - apply init_refines; [apply init_refines; [done|]|].
    + intros l ns. by rewrite lookup_empty.
    + intros l ns. unfold DlistSpec.init. rewrite lookup_insert.
      case_decide; [|done]. intros [= <-]. set_solver.
  - intros l ns. unfold DlistSpec.init.
    rewrite !lookup_insert. repeat case_decide; subst; intros [= <-]; set_solver.
  - intros l ns. unfold DlistSpec.append, DlistSpec.init.
    rewrite !lookup_insert.
    repeat case_decide; subst; try done; intros [= <-]; vm_compute (_ !!! _); set_solver.
Qed.

Lemma demo_lookup : demo_lists !! 1%positive = Some [11; 12]%positive.
Proof. vm_compute. reflexivity. Qed.

Lemma sys_dlist_mutators_refine_witness :
  rep (sys_dlist_insert_before 1 (Some 12%positive) 13 demo_heap)
      (<[1%positive := insert_before 12%positive 13%positive [11; 12]%positive]> demo_lists).
Proof.
  assert (Hn : (12 < 13)%positive) by lia.
  assert (Hin : 12%positive ∈ [11; 12]%positive) by set_solver.
  pose proof (sys_dlist_mutators_refine demo_heap demo_lists 1 13 [11; 12]%positive
    demo_rep demo_lookup (demo_fresh 13 Hn)) as (_ & _ & Hp & _).
  exact (proj1 (Hp 12%positive Hin)).
Defined.

(** The queries of dlist.h (is_empty, is_head, is_tail, has_multiple_nodes,
    peek_head, peek_tail, peek_next) answer about the represented sequence, and
    the iteration macro visits exactly its nodes, in order. *)
Theorem sys_dlist_queries_refine (h : heap) (L : gmap addr (list addr)) (l : addr)
    (ns : list addr) :
  rep h L → L !! l = Some ns →
  sys_dlist_is_empty l h = bool_decide (ns = []) ∧
  sys_dlist_has_multiple_nodes l h = bool_decide (1 < length ns) ∧
  sys_dlist_peek_head l h = head ns ∧
  sys_dlist_peek_tail l h = last ns ∧
  (∀ n, n ≠ l → sys_dlist_is_head l n h = bool_decide (head ns = Some n) ∧
                sys_dlist_is_tail l n h = bool_decide (last ns = Some n)) ∧
  (∀ xs n ys, ns = xs ++ n :: ys → sys_dlist_peek_next l (Some n) h = head ys) ∧
  (∀ fuel, length ns ≤ fuel → SYS_DLIST_FOR_EACH_NODE fuel l h = ns).
Proof.
  intros HR Hl. split_and!.
  - by apply is_empty_refines with L.
  - by apply has_multiple_nodes_refines with L.
  - by apply peek_head_refines with L.
  - by apply peek_tail_refines with L.
  - intros n Hne. split; [by eapply is_head_refines|by eapply is_tail_refines].
  - intros xs n ys ->. by eapply peek_next_refines.
  - intros fuel Hf. unfold SYS_DLIST_FOR_EACH_NODE. rewrite (peek_head_refines _ _ HR _ _ Hl).
    by apply for_each_from_refines with L [].
Qed.

Lemma sys_dlist_queries_refine_witness :
  SYS_DLIST_FOR_EACH_NODE 2 1 demo_heap = [11; 12]%positive.
Proof.
  apply (sys_dlist_queries_refine demo_heap demo_lists 1 [11; 12]%positive demo_rep demo_lookup).
  simpl. lia.
Defined.
End Dlist.
