(* ===== verification/KState.v ===== *)
(** * Kernel state (include/kernel.h, kernel/include/kernel_structs.h)

    The build configuration, the data structures of the kernel and of its
    objects, and the state all kernel code works on.  Structures that C reaches
    through pointers live in finite maps indexed by their address: threads and
    objects by a number, timeouts by the structure that embeds them, list heads
    by the queue they are.  A NULL-able pointer is an [option].  Assertions are
    compiled out, as with CONFIG_ASSERT=n. *)
From stdpp Require Import gmap list.
From S2P Require Import Prelude.

(** ** Build configuration

    The Kconfig symbols the kernel code depends on.  The modelled build has
    CONFIG_MULTITHREADING, CONFIG_PREEMPT_ENABLED, CONFIG_COOP_ENABLED,
    CONFIG_SYS_CLOCK_EXISTS, CONFIG_TIMESLICING and CONFIG_THREAD_MONITOR, and
    neither CONFIG_TICKLESS_KERNEL nor CONFIG_POLL. *)
Abbreviation tid := nat.

Class KConfig := {
  CONFIG_NUM_COOP_PRIORITIES : Z;
  CONFIG_NUM_PREEMPT_PRIORITIES : Z;
  CONFIG_PRIORITY_CEILING : Z;
  CONFIG_TIMESLICE_SIZE : Z;
  CONFIG_TIMESLICE_PRIORITY : Z;
  ms_per_tick : Z;  (** MSEC_PER_SEC / sys_clock_ticks_per_sec *)
  _idle_thread : tid;
  coop_range : (0 < CONFIG_NUM_COOP_PRIORITIES <= 128)%Z;
  preempt_range : (0 < CONFIG_NUM_PREEMPT_PRIORITIES <= 127)%Z;
  ceiling_range : (-128 <= CONFIG_PRIORITY_CEILING < CONFIG_NUM_PREEMPT_PRIORITIES)%Z;
  ms_per_tick_range : (0 < ms_per_tick <= 1000)%Z;
}.

(** The defaults of kernel/Kconfig, with the SDK's 500 ticks per second. *)
#[export, refine] Instance default_config : KConfig := {|
  CONFIG_NUM_COOP_PRIORITIES := 16;
  CONFIG_NUM_PREEMPT_PRIORITIES := 15;
  CONFIG_PRIORITY_CEILING := 0;
  CONFIG_TIMESLICE_SIZE := 0;
  CONFIG_TIMESLICE_PRIORITY := 0;
  ms_per_tick := 2;
  _idle_thread := 1;
|}.
Proof. all: lia. Defined.

Definition K_FOREVER : Z := -1.
Definition K_NO_WAIT : Z := 0.
Definition _TICK_ALIGN : Z := 1.
Definition _EXPIRED : Z := -2.
Definition _INACTIVE : Z := -1.

Definition EIO : Z := 5.
Definition EAGAIN : Z := 11.
Definition ENOMEM : Z := 12.
Definition EBUSY : Z := 16.
Definition EINVAL : Z := 22.
Definition EADDRINUSE : Z := 48.
Definition ENOMSG : Z := 80.

Definition _THREAD_DUMMY : Z := 1.
Definition _THREAD_PENDING : Z := 2.
Definition _THREAD_PRESTART : Z := 4.
Definition _THREAD_DEAD : Z := 8.
Definition _THREAD_SUSPENDED : Z := 16.
Definition _THREAD_POLLING : Z := 32.
Definition _NON_PREEMPT_THRESHOLD : Z := 128.
Definition _PREEMPT_THRESHOLD : Z := _NON_PREEMPT_THRESHOLD - 1.

Section prio_config.
Context `{KConfig}.
Definition _NUM_COOP_PRIO : Z := CONFIG_NUM_COOP_PRIORITIES.
Definition K_NUM_PRIORITIES : Z :=
  CONFIG_NUM_COOP_PRIORITIES + CONFIG_NUM_PREEMPT_PRIORITIES + 1.
Definition K_NUM_PRIO_BITMAPS : Z := Z.shiftr (K_NUM_PRIORITIES + 31) 5.
Definition K_HIGHEST_THREAD_PRIO : Z := - CONFIG_NUM_COOP_PRIORITIES.
Definition K_LOWEST_THREAD_PRIO : Z := CONFIG_NUM_PREEMPT_PRIORITIES.
Definition K_IDLE_PRIO : Z := K_LOWEST_THREAD_PRIO.
Definition K_HIGHEST_APPLICATION_THREAD_PRIO : Z := K_HIGHEST_THREAD_PRIO.
Definition K_LOWEST_APPLICATION_THREAD_PRIO : Z := K_LOWEST_THREAD_PRIO - 1.

(** [_ms_to_ticks], for the tick rates that divide a second. *)
Definition _ms_to_ticks (ms : Z) : Z :=
  s32 (u32 (u32 ms + (ms_per_tick - 1)) / ms_per_tick).
Definition __ticks_to_ms (ticks : Z) : Z := ticks * ms_per_tick.
End prio_config.

(** ** Addresses of list heads and timeouts *)
Inductive wq_kind :=
  | KSem | KMutex | KMsgq | KStack | KSlab | KQueue | KTimer | KPool
  | KPipeReaders | KPipeWriters | KMboxTx | KMboxRx.
#[export] Instance wq_kind_eq_dec : EqDecision wq_kind.
Proof. solve_decision. Defined.
Definition wq_kind_code (k : wq_kind) : nat :=
  match k with
  | KSem => 0 | KMutex => 1 | KMsgq => 2 | KStack => 3 | KSlab => 4 | KQueue => 5
  | KTimer => 6 | KPool => 7 | KPipeReaders => 8 | KPipeWriters => 9
  | KMboxTx => 10 | KMboxRx => 11
  end.
Definition wq_kind_decode (n : nat) : option wq_kind :=
  [KSem; KMutex; KMsgq; KStack; KSlab; KQueue; KTimer; KPool; KPipeReaders;
   KPipeWriters; KMboxTx; KMboxRx] !! n.
#[export] Instance wq_kind_countable : Countable wq_kind.
Proof. apply (inj_countable wq_kind_code wq_kind_decode). by intros []. Defined.

(** The wait queue embedded in an object: its kind and the object. *)
Abbreviation wq := (wq_kind * nat)%type.

(** A list of [k_q_node]: a ready queue, by index, or a wait queue. *)
Inductive qref := RQ (i : Z) | WQ (w : wq).
#[export] Instance qref_eq_dec : EqDecision qref.
Proof. solve_decision. Defined.
#[export] Instance qref_countable : Countable qref.
Proof.
  apply (inj_countable' (λ r, match r with RQ i => inl i | WQ w => inr w end)
    (λ s, match s with inl i => RQ i | inr w => WQ w end)). by intros [].
Defined.

(** A timeout structure is part of a thread, of a timer or of a delayed work. *)
Inductive timeout_id := TThread (t : tid) | TTimer (o : nat) | TWork (o : nat).
#[export] Instance timeout_id_eq_dec : EqDecision timeout_id.
Proof. solve_decision. Defined.
#[export] Instance timeout_id_countable : Countable timeout_id.
Proof.
  apply (inj_countable'
    (λ r, match r with TThread t => inl t | TTimer o => inr (inl o) | TWork o => inr (inr o) end)
    (λ s, match s with inl t => TThread t | inr (inl o) => TTimer o | inr (inr o) => TWork o end)).
  by intros [].
Defined.

(** [_timeout_func_t]: the functions the kernel installs in a timeout. *)
Inductive timeout_func := FNone | FTimer | FWork.

(** ** Structures *)
(** [struct k_thread], less its links (see [queues]) and its timeout (see
    [timeouts]). *)
Record k_thread := mk_thread {
  prio : Z;  (** s8_t: negative means cooperative *)
  sched_locked : Z;  (** u8_t: 0 when the scheduler is not locked, else 0xff, 0xfe, ... *)
  thread_state : Z;  (** u8_t bit mask of the _THREAD_ flags *)
  user_options : Z;  (** u8_t *)
  swap_data : Z;  (** data returned by APIs: a pointer or a word *)
  return_value : Z;  (** arch.return_value: what _Swap returns to this thread *)
}.
(** What [thr] gives for a structure that was never initialised: a dead thread. *)
#[export] Instance k_thread_inhabited : Inhabited k_thread := populate (mk_thread 0 0 8 0 0 0).
Definition set_prio (v : Z) (x : k_thread) : k_thread :=
  mk_thread v (sched_locked x) (thread_state x) (user_options x) (swap_data x) (return_value x).
Definition set_sched_locked (v : Z) (x : k_thread) : k_thread :=
  mk_thread (prio x) v (thread_state x) (user_options x) (swap_data x) (return_value x).
Definition set_thread_state (v : Z) (x : k_thread) : k_thread :=
  mk_thread (prio x) (sched_locked x) v (user_options x) (swap_data x) (return_value x).
Definition set_user_options (v : Z) (x : k_thread) : k_thread :=
  mk_thread (prio x) (sched_locked x) (thread_state x) v (swap_data x) (return_value x).
Definition set_swap_data (v : Z) (x : k_thread) : k_thread :=
  mk_thread (prio x) (sched_locked x) (thread_state x) (user_options x) v (return_value x).
Definition set_return_value (v : Z) (x : k_thread) : k_thread :=
  mk_thread (prio x) (sched_locked x) (thread_state x) (user_options x) (swap_data x) v.

(** [struct _timeout], less its links (see [timeout_q]). *)
Record timeout := mk_timeout {
  delta_ticks_from_prev : Z;  (** s32_t: ticks after the previous entry, or _INACTIVE or _EXPIRED *)
  to_thread : option tid;  (** thread to wake, NULL for timers and delayed work *)
  to_wait_q : option wq;  (** wait queue the thread is on, if any *)
  to_func : timeout_func;  (** function to call when there is no thread *)
}.
#[export] Instance timeout_inhabited : Inhabited timeout := populate (mk_timeout (-1) None None FNone).
Definition set_delta_ticks_from_prev (v : Z) (x : timeout) : timeout :=
  mk_timeout v (to_thread x) (to_wait_q x) (to_func x).
Definition set_to_thread (v : option tid) (x : timeout) : timeout :=
  mk_timeout (delta_ticks_from_prev x) v (to_wait_q x) (to_func x).
Definition set_to_wait_q (v : option wq) (x : timeout) : timeout :=
  mk_timeout (delta_ticks_from_prev x) (to_thread x) v (to_func x).
Definition set_to_func (v : timeout_func) (x : timeout) : timeout :=
  mk_timeout (delta_ticks_from_prev x) (to_thread x) (to_wait_q x) v.

(** Kernel objects, less their wait queues (see [queues]). *)
Record k_sem := mk_sem {
  count : Z;  (** unsigned int *)
  limit : Z;  (** unsigned int *)
}.
#[export] Instance k_sem_inhabited : Inhabited k_sem := populate (mk_sem 0 0).
Definition set_count (v : Z) (x : k_sem) : k_sem :=
  mk_sem v (limit x).
Definition set_limit (v : Z) (x : k_sem) : k_sem :=
  mk_sem (count x) v.

Record k_mutex := mk_mutex {
  owner : option tid;
  lock_count : Z;  (** u32_t *)
  owner_orig_prio : Z;  (** int *)
}.
#[export] Instance k_mutex_inhabited : Inhabited k_mutex := populate (mk_mutex None 0 0).
Definition set_owner (v : option tid) (x : k_mutex) : k_mutex :=
  mk_mutex v (lock_count x) (owner_orig_prio x).
Definition set_lock_count (v : Z) (x : k_mutex) : k_mutex :=
  mk_mutex (owner x) v (owner_orig_prio x).
Definition set_owner_orig_prio (v : Z) (x : k_mutex) : k_mutex :=
  mk_mutex (owner x) (lock_count x) v.

Record k_msgq := mk_msgq {
  msg_size : Z;
  max_msgs : Z;
  buffer_start : Z;
  buffer_end : Z;
  read_ptr : Z;
  write_ptr : Z;
  used_msgs : Z;
}.
#[export] Instance k_msgq_inhabited : Inhabited k_msgq := populate (mk_msgq 0 0 0 0 0 0 0).
Definition set_msg_size (v : Z) (x : k_msgq) : k_msgq :=
  mk_msgq v (max_msgs x) (buffer_start x) (buffer_end x) (read_ptr x) (write_ptr x) (used_msgs x).
Definition set_max_msgs (v : Z) (x : k_msgq) : k_msgq :=
  mk_msgq (msg_size x) v (buffer_start x) (buffer_end x) (read_ptr x) (write_ptr x) (used_msgs x).
Definition set_buffer_start (v : Z) (x : k_msgq) : k_msgq :=
  mk_msgq (msg_size x) (max_msgs x) v (buffer_end x) (read_ptr x) (write_ptr x) (used_msgs x).
Definition set_buffer_end (v : Z) (x : k_msgq) : k_msgq :=
  mk_msgq (msg_size x) (max_msgs x) (buffer_start x) v (read_ptr x) (write_ptr x) (used_msgs x).
Definition set_read_ptr (v : Z) (x : k_msgq) : k_msgq :=
  mk_msgq (msg_size x) (max_msgs x) (buffer_start x) (buffer_end x) v (write_ptr x) (used_msgs x).
Definition set_write_ptr (v : Z) (x : k_msgq) : k_msgq :=
  mk_msgq (msg_size x) (max_msgs x) (buffer_start x) (buffer_end x) (read_ptr x) v (used_msgs x).
Definition set_used_msgs (v : Z) (x : k_msgq) : k_msgq :=
  mk_msgq (msg_size x) (max_msgs x) (buffer_start x) (buffer_end x) (read_ptr x) (write_ptr x) v.

Record k_stack := mk_stack {
  st_base : Z;
  st_next : Z;
  st_top : Z;
}.
#[export] Instance k_stack_inhabited : Inhabited k_stack := populate (mk_stack 0 0 0).
Definition set_st_base (v : Z) (x : k_stack) : k_stack :=
  mk_stack v (st_next x) (st_top x).
Definition set_st_next (v : Z) (x : k_stack) : k_stack :=
  mk_stack (st_base x) v (st_top x).
Definition set_st_top (v : Z) (x : k_stack) : k_stack :=
  mk_stack (st_base x) (st_next x) v.

Record k_mem_slab := mk_slab {
  num_blocks : Z;
  block_size : Z;
  sl_buffer : Z;
  free_list : Z;  (** 0 is NULL *)
  num_used : Z;
}.
#[export] Instance k_mem_slab_inhabited : Inhabited k_mem_slab := populate (mk_slab 0 0 0 0 0).
Definition set_num_blocks (v : Z) (x : k_mem_slab) : k_mem_slab :=
  mk_slab v (block_size x) (sl_buffer x) (free_list x) (num_used x).
Definition set_block_size (v : Z) (x : k_mem_slab) : k_mem_slab :=
  mk_slab (num_blocks x) v (sl_buffer x) (free_list x) (num_used x).
Definition set_sl_buffer (v : Z) (x : k_mem_slab) : k_mem_slab :=
  mk_slab (num_blocks x) (block_size x) v (free_list x) (num_used x).
Definition set_free_list (v : Z) (x : k_mem_slab) : k_mem_slab :=
  mk_slab (num_blocks x) (block_size x) (sl_buffer x) v (num_used x).
Definition set_num_used (v : Z) (x : k_mem_slab) : k_mem_slab :=
  mk_slab (num_blocks x) (block_size x) (sl_buffer x) (free_list x) v.

Record k_timer := mk_timer {
  expiry_fn : option Z;  (** identifies the function, NULL if none *)
  stop_fn : option Z;
  period : Z;  (** s32_t *)
  status : Z;  (** u32_t *)
}.
#[export] Instance k_timer_inhabited : Inhabited k_timer := populate (mk_timer None None 0 0).
Definition set_expiry_fn (v : option Z) (x : k_timer) : k_timer :=
  mk_timer v (stop_fn x) (period x) (status x).
Definition set_stop_fn (v : option Z) (x : k_timer) : k_timer :=
  mk_timer (expiry_fn x) v (period x) (status x).
Definition set_period (v : Z) (x : k_timer) : k_timer :=
  mk_timer (expiry_fn x) (stop_fn x) v (status x).
Definition set_status (v : Z) (x : k_timer) : k_timer :=
  mk_timer (expiry_fn x) (stop_fn x) (period x) v.

(** [struct k_queue], less its wait queue: a singly linked list, whose links are
    the first words of its items. *)
Record sys_slist := mk_slist {
  sl_head : Z;
  sl_tail : Z;
}.
#[export] Instance sys_slist_inhabited : Inhabited sys_slist := populate (mk_slist 0 0).

(** [struct k_work], at its address, and [struct k_delayed_work]. *)
Record k_work := mk_work {
  handler : option Z;  (** identifies the function, NULL if none *)
  flags : Z;  (** atomic_t *)
}.
#[export] Instance k_work_inhabited : Inhabited k_work := populate (mk_work None 0).
Record k_delayed_work := mk_delayed_work {
  dw_work : Z;  (** the address of the embedded work item *)
  dw_work_q : option nat;
}.
#[export] Instance k_delayed_work_inhabited : Inhabited k_delayed_work := populate (mk_delayed_work 0 None).

(** [struct k_alert]; its semaphore is one of [sems]. *)
Record k_alert := mk_alert {
  al_handler : Z;
  al_send_count : Z;  (** atomic_t *)
  al_work : Z;  (** the address of its work item *)
  al_sem : nat;
}.
#[export] Instance k_alert_inhabited : Inhabited k_alert := populate (mk_alert 0 0 0 0).

(** [struct k_mem_pool] and its levels, less its wait queue.  The union of a
    [k_mem_pool_lvl] is one word: the bits of the level, or the address of the
    words that have them. *)
Record k_mem_pool := mk_pool {
  mp_buf : Z;
  max_sz : Z;  (** size_t *)
  n_max : Z;  (** u16_t *)
  n_levels : Z;  (** u8_t *)
  max_inline_level : Z;  (** u8_t *)
  lvl_bits : gmap Z Z;  (** levels[l].bits and levels[l].bits_p *)
  lvl_free : gmap Z (list Z);  (** levels[l].free_list: the addresses of the blocks *)
  bit_words : gmap Z Z;  (** the words behind the buffer *)
}.
#[export] Instance k_mem_pool_inhabited : Inhabited k_mem_pool := populate (mk_pool 0 0 0 0 0 ∅ ∅ ∅).
Definition set_max_inline_level (v : Z) (x : k_mem_pool) : k_mem_pool :=
  mk_pool (mp_buf x) (max_sz x) (n_max x) (n_levels x) v (lvl_bits x) (lvl_free x) (bit_words x).
Definition set_lvl_bits (v : gmap Z Z) (x : k_mem_pool) : k_mem_pool :=
  mk_pool (mp_buf x) (max_sz x) (n_max x) (n_levels x) (max_inline_level x) v (lvl_free x) (bit_words x).
Definition set_lvl_free (v : gmap Z (list Z)) (x : k_mem_pool) : k_mem_pool :=
  mk_pool (mp_buf x) (max_sz x) (n_max x) (n_levels x) (max_inline_level x) (lvl_bits x) v (bit_words x).
Definition set_bit_words (v : gmap Z Z) (x : k_mem_pool) : k_mem_pool :=
  mk_pool (mp_buf x) (max_sz x) (n_max x) (n_levels x) (max_inline_level x) (lvl_bits x) (lvl_free x) v.

Record kobjects := mk_objects {
  kqueues : gmap nat sys_slist;
  works : gmap Z k_work;
  dworks : gmap nat k_delayed_work;
  alerts : gmap nat k_alert;
  pools : gmap nat k_mem_pool;
  crashed : bool;  (** a NULL pointer was dereferenced in an interrupt handler *)
}.
Definition set_kqueues (v : gmap nat sys_slist) (x : kobjects) : kobjects :=
  mk_objects v (works x) (dworks x) (alerts x) (pools x) (crashed x).
Definition set_works (v : gmap Z k_work) (x : kobjects) : kobjects :=
  mk_objects (kqueues x) v (dworks x) (alerts x) (pools x) (crashed x).
Definition set_dworks (v : gmap nat k_delayed_work) (x : kobjects) : kobjects :=
  mk_objects (kqueues x) (works x) v (alerts x) (pools x) (crashed x).
Definition set_alerts (v : gmap nat k_alert) (x : kobjects) : kobjects :=
  mk_objects (kqueues x) (works x) (dworks x) v (pools x) (crashed x).
Definition set_pools (v : gmap nat k_mem_pool) (x : kobjects) : kobjects :=
  mk_objects (kqueues x) (works x) (dworks x) (alerts x) v (crashed x).
Definition set_crashed (v : bool) (x : kobjects) : kobjects :=
  mk_objects (kqueues x) (works x) (dworks x) (alerts x) (pools x) v.

(** The kernel and everything it manages. *)
Record kernel := mk_kernel {
  threads : gmap tid k_thread;  (** the thread structures, by address *)
  queues : gmap qref (list tid);  (** every list of k_q_node: ready queues and wait queues *)
  cache : tid;  (** _ready_q.cache: next thread to run *)
  prio_bmap : list Z;  (** _ready_q.prio_bmap *)
  current : tid;  (** _kernel.current *)
  nested : Z;  (** _kernel.nested: interrupt nesting *)
  timeout_q : list timeout_id;  (** _kernel.timeout_q *)
  timeouts : gmap timeout_id timeout;  (** the timeout structures, by address *)
  handling_timeouts : bool;  (** _handling_timeouts *)
  tick_count : Z;  (** _sys_clock_tick_count *)
  time_slice_elapsed : Z;  (** _time_slice_elapsed *)
  time_slice_duration : Z;  (** _time_slice_duration *)
  time_slice_prio_ceiling : Z;  (** _time_slice_prio_ceiling *)
  all_threads : list tid;  (** _kernel.threads: the thread monitor list *)
  sems : gmap nat k_sem;
  mutexes : gmap nat k_mutex;
  msgqs : gmap nat k_msgq;
  stacks : gmap nat k_stack;
  slabs : gmap nat k_mem_slab;
  timers : gmap nat k_timer;
  mem : gmap Z Z;  (** bytes of the data buffers *)
  words : gmap Z Z;  (** words and pointers stored in memory *)
  objs : kobjects;  (** the objects built on the others *)
}.
Definition set_threads (v : gmap tid k_thread) (k : kernel) : kernel :=
  mk_kernel v (queues k) (cache k) (prio_bmap k) (current k) (nested k) (timeout_q k) (timeouts k) (handling_timeouts k) (tick_count k) (time_slice_elapsed k) (time_slice_duration k) (time_slice_prio_ceiling k) (all_threads k) (sems k) (mutexes k) (msgqs k) (stacks k) (slabs k) (timers k) (mem k) (words k) (objs k).
Definition set_queues (v : gmap qref (list tid)) (k : kernel) : kernel :=
  mk_kernel (threads k) v (cache k) (prio_bmap k) (current k) (nested k) (timeout_q k) (timeouts k) (handling_timeouts k) (tick_count k) (time_slice_elapsed k) (time_slice_duration k) (time_slice_prio_ceiling k) (all_threads k) (sems k) (mutexes k) (msgqs k) (stacks k) (slabs k) (timers k) (mem k) (words k) (objs k).
Definition set_cache (v : tid) (k : kernel) : kernel :=
  mk_kernel (threads k) (queues k) v (prio_bmap k) (current k) (nested k) (timeout_q k) (timeouts k) (handling_timeouts k) (tick_count k) (time_slice_elapsed k) (time_slice_duration k) (time_slice_prio_ceiling k) (all_threads k) (sems k) (mutexes k) (msgqs k) (stacks k) (slabs k) (timers k) (mem k) (words k) (objs k).
Definition set_prio_bmap (v : list Z) (k : kernel) : kernel :=
  mk_kernel (threads k) (queues k) (cache k) v (current k) (nested k) (timeout_q k) (timeouts k) (handling_timeouts k) (tick_count k) (time_slice_elapsed k) (time_slice_duration k) (time_slice_prio_ceiling k) (all_threads k) (sems k) (mutexes k) (msgqs k) (stacks k) (slabs k) (timers k) (mem k) (words k) (objs k).
Definition set_current (v : tid) (k : kernel) : kernel :=
  mk_kernel (threads k) (queues k) (cache k) (prio_bmap k) v (nested k) (timeout_q k) (timeouts k) (handling_timeouts k) (tick_count k) (time_slice_elapsed k) (time_slice_duration k) (time_slice_prio_ceiling k) (all_threads k) (sems k) (mutexes k) (msgqs k) (stacks k) (slabs k) (timers k) (mem k) (words k) (objs k).
Definition set_nested (v : Z) (k : kernel) : kernel :=
  mk_kernel (threads k) (queues k) (cache k) (prio_bmap k) (current k) v (timeout_q k) (timeouts k) (handling_timeouts k) (tick_count k) (time_slice_elapsed k) (time_slice_duration k) (time_slice_prio_ceiling k) (all_threads k) (sems k) (mutexes k) (msgqs k) (stacks k) (slabs k) (timers k) (mem k) (words k) (objs k).
Definition set_timeout_q (v : list timeout_id) (k : kernel) : kernel :=
  mk_kernel (threads k) (queues k) (cache k) (prio_bmap k) (current k) (nested k) v (timeouts k) (handling_timeouts k) (tick_count k) (time_slice_elapsed k) (time_slice_duration k) (time_slice_prio_ceiling k) (all_threads k) (sems k) (mutexes k) (msgqs k) (stacks k) (slabs k) (timers k) (mem k) (words k) (objs k).
Definition set_timeouts (v : gmap timeout_id timeout) (k : kernel) : kernel :=
  mk_kernel (threads k) (queues k) (cache k) (prio_bmap k) (current k) (nested k) (timeout_q k) v (handling_timeouts k) (tick_count k) (time_slice_elapsed k) (time_slice_duration k) (time_slice_prio_ceiling k) (all_threads k) (sems k) (mutexes k) (msgqs k) (stacks k) (slabs k) (timers k) (mem k) (words k) (objs k).
Definition set_handling_timeouts (v : bool) (k : kernel) : kernel :=
  mk_kernel (threads k) (queues k) (cache k) (prio_bmap k) (current k) (nested k) (timeout_q k) (timeouts k) v (tick_count k) (time_slice_elapsed k) (time_slice_duration k) (time_slice_prio_ceiling k) (all_threads k) (sems k) (mutexes k) (msgqs k) (stacks k) (slabs k) (timers k) (mem k) (words k) (objs k).
Definition set_tick_count (v : Z) (k : kernel) : kernel :=
  mk_kernel (threads k) (queues k) (cache k) (prio_bmap k) (current k) (nested k) (timeout_q k) (timeouts k) (handling_timeouts k) v (time_slice_elapsed k) (time_slice_duration k) (time_slice_prio_ceiling k) (all_threads k) (sems k) (mutexes k) (msgqs k) (stacks k) (slabs k) (timers k) (mem k) (words k) (objs k).
Definition set_time_slice_elapsed (v : Z) (k : kernel) : kernel :=
  mk_kernel (threads k) (queues k) (cache k) (prio_bmap k) (current k) (nested k) (timeout_q k) (timeouts k) (handling_timeouts k) (tick_count k) v (time_slice_duration k) (time_slice_prio_ceiling k) (all_threads k) (sems k) (mutexes k) (msgqs k) (stacks k) (slabs k) (timers k) (mem k) (words k) (objs k).
Definition set_time_slice_duration (v : Z) (k : kernel) : kernel :=
  mk_kernel (threads k) (queues k) (cache k) (prio_bmap k) (current k) (nested k) (timeout_q k) (timeouts k) (handling_timeouts k) (tick_count k) (time_slice_elapsed k) v (time_slice_prio_ceiling k) (all_threads k) (sems k) (mutexes k) (msgqs k) (stacks k) (slabs k) (timers k) (mem k) (words k) (objs k).
Definition set_time_slice_prio_ceiling (v : Z) (k : kernel) : kernel :=
  mk_kernel (threads k) (queues k) (cache k) (prio_bmap k) (current k) (nested k) (timeout_q k) (timeouts k) (handling_timeouts k) (tick_count k) (time_slice_elapsed k) (time_slice_duration k) v (all_threads k) (sems k) (mutexes k) (msgqs k) (stacks k) (slabs k) (timers k) (mem k) (words k) (objs k).
Definition set_all_threads (v : list tid) (k : kernel) : kernel :=
  mk_kernel (threads k) (queues k) (cache k) (prio_bmap k) (current k) (nested k) (timeout_q k) (timeouts k) (handling_timeouts k) (tick_count k) (time_slice_elapsed k) (time_slice_duration k) (time_slice_prio_ceiling k) v (sems k) (mutexes k) (msgqs k) (stacks k) (slabs k) (timers k) (mem k) (words k) (objs k).
Definition set_sems (v : gmap nat k_sem) (k : kernel) : kernel :=
  mk_kernel (threads k) (queues k) (cache k) (prio_bmap k) (current k) (nested k) (timeout_q k) (timeouts k) (handling_timeouts k) (tick_count k) (time_slice_elapsed k) (time_slice_duration k) (time_slice_prio_ceiling k) (all_threads k) v (mutexes k) (msgqs k) (stacks k) (slabs k) (timers k) (mem k) (words k) (objs k).
Definition set_mutexes (v : gmap nat k_mutex) (k : kernel) : kernel :=
  mk_kernel (threads k) (queues k) (cache k) (prio_bmap k) (current k) (nested k) (timeout_q k) (timeouts k) (handling_timeouts k) (tick_count k) (time_slice_elapsed k) (time_slice_duration k) (time_slice_prio_ceiling k) (all_threads k) (sems k) v (msgqs k) (stacks k) (slabs k) (timers k) (mem k) (words k) (objs k).
Definition set_msgqs (v : gmap nat k_msgq) (k : kernel) : kernel :=
  mk_kernel (threads k) (queues k) (cache k) (prio_bmap k) (current k) (nested k) (timeout_q k) (timeouts k) (handling_timeouts k) (tick_count k) (time_slice_elapsed k) (time_slice_duration k) (time_slice_prio_ceiling k) (all_threads k) (sems k) (mutexes k) v (stacks k) (slabs k) (timers k) (mem k) (words k) (objs k).
Definition set_stacks (v : gmap nat k_stack) (k : kernel) : kernel :=
  mk_kernel (threads k) (queues k) (cache k) (prio_bmap k) (current k) (nested k) (timeout_q k) (timeouts k) (handling_timeouts k) (tick_count k) (time_slice_elapsed k) (time_slice_duration k) (time_slice_prio_ceiling k) (all_threads k) (sems k) (mutexes k) (msgqs k) v (slabs k) (timers k) (mem k) (words k) (objs k).
Definition set_slabs (v : gmap nat k_mem_slab) (k : kernel) : kernel :=
  mk_kernel (threads k) (queues k) (cache k) (prio_bmap k) (current k) (nested k) (timeout_q k) (timeouts k) (handling_timeouts k) (tick_count k) (time_slice_elapsed k) (time_slice_duration k) (time_slice_prio_ceiling k) (all_threads k) (sems k) (mutexes k) (msgqs k) (stacks k) v (timers k) (mem k) (words k) (objs k).
Definition set_timers (v : gmap nat k_timer) (k : kernel) : kernel :=
  mk_kernel (threads k) (queues k) (cache k) (prio_bmap k) (current k) (nested k) (timeout_q k) (timeouts k) (handling_timeouts k) (tick_count k) (time_slice_elapsed k) (time_slice_duration k) (time_slice_prio_ceiling k) (all_threads k) (sems k) (mutexes k) (msgqs k) (stacks k) (slabs k) v (mem k) (words k) (objs k).
Definition set_mem (v : gmap Z Z) (k : kernel) : kernel :=
  mk_kernel (threads k) (queues k) (cache k) (prio_bmap k) (current k) (nested k) (timeout_q k) (timeouts k) (handling_timeouts k) (tick_count k) (time_slice_elapsed k) (time_slice_duration k) (time_slice_prio_ceiling k) (all_threads k) (sems k) (mutexes k) (msgqs k) (stacks k) (slabs k) (timers k) v (words k) (objs k).
Definition set_words (v : gmap Z Z) (k : kernel) : kernel :=
  mk_kernel (threads k) (queues k) (cache k) (prio_bmap k) (current k) (nested k) (timeout_q k) (timeouts k) (handling_timeouts k) (tick_count k) (time_slice_elapsed k) (time_slice_duration k) (time_slice_prio_ceiling k) (all_threads k) (sems k) (mutexes k) (msgqs k) (stacks k) (slabs k) (timers k) (mem k) v (objs k).
Definition set_objs (v : kobjects) (k : kernel) : kernel :=
  mk_kernel (threads k) (queues k) (cache k) (prio_bmap k) (current k) (nested k) (timeout_q k) (timeouts k) (handling_timeouts k) (tick_count k) (time_slice_elapsed k) (time_slice_duration k) (time_slice_prio_ceiling k) (all_threads k) (sems k) (mutexes k) (msgqs k) (stacks k) (slabs k) (timers k) (mem k) (words k) v.

(** Reading the structures. *)
Definition thr (k : kernel) (t : tid) : k_thread := threads k !!! t.
Definition q (k : kernel) (r : qref) : list tid := queues k !!! r.
Definition tmo (k : kernel) (i : timeout_id) : timeout := timeouts k !!! i.

(** Updating one field of a thread or of a timeout. *)
Definition upd_thread (t : tid) (f : k_thread → k_thread) (k : kernel) : kernel :=
  set_threads (<[t := f (thr k t)]> (threads k)) k.
Definition upd_timeout (i : timeout_id) (f : timeout → timeout) (k : kernel) : kernel :=
  set_timeouts (<[i := f (tmo k i)]> (timeouts k)) k.
