(* ===== verification/Slist.v ===== *)
(** * Singly linked lists (include/misc/slist.h)

    A list is the addresses of its first and last nodes; a node's first word is
    the address of the next one.  [sl_list] relates it to the sequence of its
    nodes, and every operation is shown to be the obvious one on sequences. *)
From stdpp Require Import gmap list.
From S2P Require Import Prelude KState.
Local Open Scope Z_scope.

Definition NULL : Z := 0.
Implicit Types (w : gmap Z Z) (l : sys_slist).

Definition set_sl_head (v : Z) (l : sys_slist) : sys_slist := mk_slist v (sl_tail l).
Definition set_sl_tail (v : Z) (l : sys_slist) : sys_slist := mk_slist (sl_head l) v.

(** ** Operations *)
Definition sys_slist_init : sys_slist := mk_slist NULL NULL.
Definition sys_slist_is_empty (l : sys_slist) : bool := sl_head l =? NULL.
Definition sys_slist_peek_head (l : sys_slist) : Z := sl_head l.
Definition sys_slist_peek_tail (l : sys_slist) : Z := sl_tail l.
Definition sys_slist_peek_next_no_check (node : Z) (w : gmap Z Z) : Z := w !!! node.
Definition sys_slist_peek_next (node : Z) (w : gmap Z Z) : Z :=
  if negb (node =? NULL) then sys_slist_peek_next_no_check node w else NULL.

Definition sys_slist_prepend (node : Z) (l : sys_slist) (w : gmap Z Z) : sys_slist * gmap Z Z :=
  let w := <[node := sl_head l]> w in
  let l := set_sl_head node l in
  (if sl_tail l =? NULL then set_sl_tail (sl_head l) l else l, w).

Definition sys_slist_append (node : Z) (l : sys_slist) (w : gmap Z Z) : sys_slist * gmap Z Z :=
  let w := <[node := NULL]> w in
  if sl_tail l =? NULL then (mk_slist node node, w)
  else (set_sl_tail node l, <[sl_tail l := node]> w).

Definition sys_slist_append_list (head tail : Z) (l : sys_slist) (w : gmap Z Z) : sys_slist * gmap Z Z :=
  if sl_tail l =? NULL then (mk_slist head tail, w)
  else (set_sl_tail tail l, <[sl_tail l := head]> w).

(** Returns the appended list too, which becomes empty. *)
Definition sys_slist_merge_slist (l l2 : sys_slist) (w : gmap Z Z) : sys_slist * sys_slist * gmap Z Z :=
  let '(l, w) := sys_slist_append_list (sl_head l2) (sl_tail l2) l w in
  (l, sys_slist_init, w).

Definition sys_slist_insert (prev node : Z) (l : sys_slist) (w : gmap Z Z) : sys_slist * gmap Z Z :=
  if prev =? NULL then sys_slist_prepend node l w
  else if w !!! prev =? NULL then sys_slist_append node l w
  else
    let w := <[node := w !!! prev]> w in
    (l, <[prev := node]> w).

Definition sys_slist_get_not_empty (l : sys_slist) (w : gmap Z Z) : Z * sys_slist :=
  let node := sl_head l in
  let l := set_sl_head (w !!! node) l in
  (node, if sl_tail l =? node then set_sl_tail (sl_head l) l else l).
Definition sys_slist_get (l : sys_slist) (w : gmap Z Z) : Z * sys_slist :=
  if sys_slist_is_empty l then (NULL, l) else sys_slist_get_not_empty l w.

Definition sys_slist_remove (prev node : Z) (l : sys_slist) (w : gmap Z Z) : sys_slist * gmap Z Z :=
  let '(l, w) :=
    if prev =? NULL then
      let l := set_sl_head (w !!! node) l in
      (if sl_tail l =? node then set_sl_tail (sl_head l) l else l, w)
    else
      let w := <[prev := w !!! node]> w in
      (if sl_tail l =? node then set_sl_tail prev l else l, w) in
  (l, <[node := NULL]> w).

(** The loops of [sys_slist_find_and_remove] and [sys_slist_find]; [fuel] bounds
    the rounds, one per node. *)
Fixpoint find_and_remove_loop (fuel : nat) (prev test node : Z) (l : sys_slist) (w : gmap Z Z)
    : bool * (sys_slist * gmap Z Z) :=
  match fuel with
  | O => (false, (l, w))
  | S fuel =>
      if test =? NULL then (false, (l, w))
      else if test =? node then (true, sys_slist_remove prev node l w)
           else find_and_remove_loop fuel test (sys_slist_peek_next test w) node l w
  end.
Definition sys_slist_find_and_remove (node : Z) (l : sys_slist) (w : gmap Z Z) : bool * (sys_slist * gmap Z Z) :=
  find_and_remove_loop (S (size w)) NULL (sys_slist_peek_head l) node l w.
Fixpoint find_loop (fuel : nat) (test node : Z) (w : gmap Z Z) : bool :=
  match fuel with
  | O => false
  | S fuel =>
      if test =? NULL then false
      else if test =? node then true
           else find_loop fuel (sys_slist_peek_next test w) node w
  end.
Definition sys_slist_find (node : Z) (l : sys_slist) (w : gmap Z Z) : bool :=
  find_loop (S (size w)) (sys_slist_peek_head l) node w.

(** ** The sequence of nodes *)
Fixpoint chain (w : gmap Z Z) (p : Z) (xs : list Z) : Prop :=
  match xs with
  | [] => p = NULL
  | x :: xs => p = x ∧ x ≠ NULL ∧ chain w (w !!! x) xs
  end.

Record sl_list (w : gmap Z Z) (l : sys_slist) (xs : list Z) : Prop := {
  sl_chain : chain w (sl_head l) xs;
  sl_last : sl_tail l = default NULL (last xs);
  sl_nodup : NoDup xs;
  sl_dom : ∀ x, x ∈ xs → x ∈ dom w;
}.

Lemma chain_not_null w p xs x : chain w p xs → x ∈ xs → x ≠ NULL.
Proof.
  revert p. induction xs as [|y xs IH]; intros p Hc Hx; [by apply elem_of_nil in Hx|].
  destruct Hc as (-> & Hy & Hc). apply elem_of_cons in Hx as [->|Hx]; [done|]. by eapply IH.
Qed.
Lemma chain_insert w p xs b v : b ∉ xs → chain w p xs → chain (<[b := v]> w) p xs.
Proof.
  revert p. induction xs as [|c xs IH]; intros p Hb; simpl; [done|]. intros (-> & Hc & Hl).
  apply not_elem_of_cons in Hb as [Hbc Hb]. split_and!; [done|done|]. rewrite lookup_total_insert_ne by done. by apply IH.
Qed.
(** A chain through [xs ++ [x] ++ ys]: what comes after [x] hangs off its link. *)
Lemma chain_app w p xs x ys :
  chain w p (xs ++ x :: ys) → NoDup (xs ++ x :: ys) → chain w (w !!! x) ys ∧
  ∀ v zs, (∀ y, y ∈ xs → y ∉ zs) → x ∉ zs → chain (<[x := v]> w) v zs → chain (<[x := v]> w) p (xs ++ x :: zs).
Proof.
  revert p. induction xs as [|a xs IH]; intros p; simpl.
  - intros (-> & Hx & Hc) Hnd. split; [done|]. intros v zs _ Hxz Hzs. by rewrite lookup_total_insert_eq.
  - intros (-> & Ha & Hc) [Hna Hnd]%NoDup_cons. destruct (IH _ Hc Hnd) as [H1 H2]. split; [done|].
    intros v zs Hd Hxz Hzs. split_and!; [done|done|]. rewrite lookup_total_insert_ne.
    + apply H2; [|done|done]. intros y Hy. apply Hd. by apply list_elem_of_further.
    + intros ->. apply Hna. rewrite elem_of_app. right. apply list_elem_of_here.
Qed.

Lemma sl_empty w l xs : sl_list w l xs → sys_slist_is_empty l = true ↔ xs = [].
Proof.
  intros [Hc _ _ _]. unfold sys_slist_is_empty. rewrite Z.eqb_eq. destruct xs as [|x xs]; simpl in Hc; [done|].
  destruct Hc as (-> & Hx & _). done.
Qed.
Lemma sl_tail_null w l xs : sl_list w l xs → sl_tail l = NULL ↔ xs = [].
Proof.
  intros [Hc Hl _ _]. rewrite Hl. destruct (last xs) as [x|] eqn:E; simpl.
  - apply last_Some_elem_of in E. split; [|by intros ->; apply elem_of_nil in E].
    intros ->. by apply (chain_not_null _ _ _ _ Hc) in E.
  - apply last_None in E. done.
Qed.

Lemma sl_prepend w l xs node :
  sl_list w l xs → node ≠ NULL → node ∉ xs →
  let '(l', w') := sys_slist_prepend node l w in sl_list w' l' (node :: xs).
Proof.
  intros Hl Hn Hnx. pose proof (sl_tail_null _ _ _ Hl) as Ht. destruct Hl as [Hc Hla Hnd Hd].
  unfold sys_slist_prepend. split.
  - assert (sl_head (if sl_tail (set_sl_head node l) =? NULL then set_sl_tail (sl_head (set_sl_head node l)) (set_sl_head node l)
      else set_sl_head node l) = node) as -> by by destruct (_ =? _).
    simpl. rewrite lookup_total_insert_eq. split_and!; [done|done|]. by apply chain_insert.
  - simpl. destruct (sl_tail l =? NULL) eqn:E; simpl.
    + apply Z.eqb_eq, Ht in E. by rewrite E.
    + apply Z.eqb_neq in E. destruct xs; [by destruct E; apply Ht|]. by rewrite Hla.
  - by constructor.
  - intros x. rewrite elem_of_cons, dom_insert_L, elem_of_union, elem_of_singleton. intros [->|Hx]; [by left|right; auto].
Qed.

(** Linking [ys] behind the last node. *)
Lemma sl_link w l xs ys h t :
  sl_list w l xs → xs ≠ [] → chain w h ys → last ys = Some t → NoDup ys → (∀ x, x ∈ xs → x ∉ ys) →
  (∀ y, y ∈ ys → y ∈ dom w) →
  sl_list (<[sl_tail l := h]> w) (set_sl_tail t l) (xs ++ ys).
Proof.
  intros [Hc Hla Hnd Hd] Hne Hcy Hty Hndy Hdis Hdy.
  destruct (last xs) as [x|] eqn:Hx; [|by apply last_None in Hx]. simpl in Hla.
  apply last_Some in Hx as [xs' ->]. rewrite Hla. split; simpl.
  - rewrite <-app_assoc. simpl. destruct (chain_app w (sl_head l) xs' x [] Hc Hnd) as [_ Happ]. apply Happ.
    + intros y Hy. apply Hdis. rewrite elem_of_app. by left.
    + apply Hdis. rewrite elem_of_app. right. apply list_elem_of_here.
    + apply chain_insert; [|done]. apply Hdis. rewrite elem_of_app. right. apply list_elem_of_here.
  - rewrite last_app, Hty. done.
  - apply NoDup_app. split_and!; [done| |done]. intros y Hy. by apply Hdis.
  - intros y. rewrite dom_insert_L, elem_of_app. set_solver.
Qed.

Lemma sl_append w l xs node :
  sl_list w l xs → node ≠ NULL → node ∉ xs →
  let '(l', w') := sys_slist_append node l w in sl_list w' l' (xs ++ [node]).
Proof.
  intros Hl Hn Hnx. pose proof (sl_tail_null _ _ _ Hl) as Ht. unfold sys_slist_append.
  destruct (sl_tail l =? NULL) eqn:E.
  - apply Z.eqb_eq, Ht in E as ->. simpl. split; simpl.
    + by rewrite lookup_total_insert_eq.
    + done.
    + apply NoDup_singleton.
    + intros x ->%list_elem_of_singleton. rewrite dom_insert_L. set_solver.
  - apply Z.eqb_neq in E. apply (sl_link (<[node := NULL]> w) l xs [node] node node).
    + destruct Hl as [Hc Hla Hnd Hd]. split; [by apply chain_insert|done|done|].
      intros x Hx. rewrite dom_insert_L. apply elem_of_union_r. auto.
    + intros ->. by apply E, Ht.
    + simpl. by rewrite lookup_total_insert_eq.
    + done.
    + apply NoDup_singleton.
    + intros x Hx ->%list_elem_of_singleton. done.
    + intros x ->%list_elem_of_singleton. rewrite dom_insert_L. set_solver.
Qed.

Lemma sl_append_list w l xs head tail ys :
  sl_list w l xs → sl_list w (mk_slist head tail) ys → ys ≠ [] → (∀ x, x ∈ xs → x ∉ ys) →
  let '(l', w') := sys_slist_append_list head tail l w in sl_list w' l' (xs ++ ys).
Proof.
  intros Hl Hy Hne Hdis. pose proof (sl_tail_null _ _ _ Hl) as Ht. unfold sys_slist_append_list.
  destruct (sl_tail l =? NULL) eqn:E.
  - apply Z.eqb_eq, Ht in E as ->. done.
  - apply Z.eqb_neq in E. destruct Hy as [Hc Hla Hnd Hd]. simpl in *.
    destruct (last ys) as [y|] eqn:Hy; [|by apply last_None in Hy]. simpl in Hla. subst.
    apply (sl_link w l xs ys); try done. intros ->. by apply E, Ht.
Qed.

Lemma sl_get w l x xs :
  sl_list w l (x :: xs) → ∃ l', sys_slist_get l w = (x, l') ∧ sl_list w l' xs.
Proof.
  intros Hl. pose proof (sl_empty _ _ _ Hl) as He. destruct Hl as [Hc Hla Hnd Hd]. unfold sys_slist_get.
  destruct (sys_slist_is_empty l); [discriminate (proj1 He eq_refl)|].
  unfold sys_slist_get_not_empty. simpl in Hc. destruct Hc as (-> & Hx & Hc). eexists. split; [done|].
  apply NoDup_cons in Hnd as [Hnx Hnd]. simpl. destruct (sl_tail l =? x) eqn:E; zbool.
  - assert (xs = []) as ->.
    { destruct xs as [|y xs]; [done|]. rewrite last_cons_cons in Hla.
      destruct (last (y :: xs)) as [z|] eqn:Hz; [|by apply last_None in Hz]. apply last_Some_elem_of in Hz.
      simpl in Hla. congruence. }
    split; simpl; [done|done|done|]. intros y Hy. by apply elem_of_nil in Hy.
  - split; simpl; [done| |done|].
    + rewrite Hla. destruct xs; [|done]. simpl in *. congruence.
    + intros y Hy. apply Hd. by apply list_elem_of_further.
Qed.

Lemma sl_insert w l xs prev ys node :
  sl_list w l (xs ++ prev :: ys) → node ≠ NULL → node ∉ xs ++ prev :: ys →
  let '(l', w') := sys_slist_insert prev node l w in sl_list w' l' (xs ++ prev :: node :: ys).
Proof.
  intros Hl Hn Hnx. pose proof Hl as [Hc Hla Hnd Hd]. unfold sys_slist_insert.
  assert (prev ≠ NULL) as Hp by (eapply chain_not_null; [done|rewrite elem_of_app; right; apply list_elem_of_here]).
  rewrite (proj2 (Z.eqb_neq _ _) Hp). destruct (chain_app w _ xs prev ys Hc Hnd) as [Hy _].
  destruct (w !!! prev =? NULL) eqn:E.
  - assert (ys = []) as ->. { destruct ys; [done|]. apply Z.eqb_eq in E. destruct Hy as (Hy & Hnz & _). congruence. }
    pose proof (sl_append w l (xs ++ [prev]) node Hl Hn Hnx) as Ha. destruct (sys_slist_append node l w).
    by rewrite <-app_assoc in Ha.
  - apply Z.eqb_neq in E. destruct ys as [|y ys]; [by simpl in Hy|]. rewrite not_elem_of_app, not_elem_of_cons in Hnx.
    destruct Hnx as (Hnxs & Hnp & Hny). apply NoDup_app in Hnd as (Hndx & Hdis & Hndp). pose proof Hndp as [Hpy Hndy]%NoDup_cons.
    set (w1 := <[node := w !!! prev]> w).
    assert (chain w1 (sl_head l) (xs ++ prev :: y :: ys)) as Hc1.
    { apply chain_insert; [|done]. rewrite not_elem_of_app, not_elem_of_cons. done. }
    destruct (chain_app w1 _ xs prev (y :: ys) Hc1) as [_ Happ]; [by apply NoDup_app|].
    assert (chain w1 (w !!! prev) (y :: ys)) as Hy1 by (by apply chain_insert).
    split.
    + apply Happ.
      * intros z Hz Hin. apply elem_of_cons in Hin as [->|Hin]; [done|]. apply (Hdis z Hz). by apply list_elem_of_further.
      * rewrite not_elem_of_cons. done.
      * split; [done|]. split; [done|]. fold chain. rewrite lookup_total_insert_ne by done. unfold w1 at 2.
        rewrite lookup_total_insert_eq. apply (chain_insert w1 _ (y :: ys)); done.
    + rewrite Hla, !last_app. by rewrite !last_cons_cons.
    + apply NoDup_app. split_and!; [done| |].
      * intros z Hz. rewrite !not_elem_of_cons. specialize (Hdis z Hz). rewrite not_elem_of_cons in Hdis.
        destruct Hdis as [? Hd2]. apply not_elem_of_cons in Hd2 as [? ?]. split_and!; try done. by intros ->.
      * apply NoDup_cons. split; [rewrite not_elem_of_cons; split; [congruence|done]|]. by apply NoDup_cons.
    + intros z Hz. unfold w1. rewrite !dom_insert_L, !elem_of_union, !elem_of_singleton.
      rewrite elem_of_app, !elem_of_cons in Hz. destruct Hz as [Hz|[->|[->|Hz]]]; [|by left|by right; left|];
        right; right; apply Hd; rewrite elem_of_app, !elem_of_cons; tauto.
Qed.

Lemma sl_remove w l xs node ys :
  sl_list w l (xs ++ node :: ys) →
  let '(l', w') := sys_slist_remove (default NULL (last xs)) node l w in sl_list w' l' (xs ++ ys).
Proof.
  intros [Hc Hla Hnd Hd]. destruct (chain_app w _ xs node ys Hc Hnd) as [Hy _].
  pose proof Hnd as (Hndx & Hdis & [Hny Hndy]%NoDup_cons)%NoDup_app.
  assert (sl_tail l = node ↔ ys = []) as Htl.
  { rewrite Hla, last_app. split; [|by intros ->]. destruct ys as [|y ys]; [done|]. rewrite last_cons_cons.
    destruct (last (y :: ys)) as [z|] eqn:Hz; [|by apply last_None in Hz]. apply last_Some_elem_of in Hz.
    simpl. intros ->. done. }
  unfold sys_slist_remove. destruct (last xs) as [p|] eqn:Hp.
  - apply last_Some in Hp as [xs' ->]. simpl.
    assert (p ≠ NULL) as Hpn.
    { apply (chain_not_null _ _ _ p Hc). rewrite <-app_assoc, elem_of_app. right. apply list_elem_of_here. }
    rewrite (proj2 (Z.eqb_neq _ _) Hpn). rewrite <-app_assoc in Hc. simpl in Hc.
    assert (p ∉ node :: ys) as Hpy by (apply Hdis; rewrite elem_of_app; right; apply list_elem_of_here).
    apply not_elem_of_cons in Hpy as [Hpnode Hpy].
    destruct (chain_app w _ xs' p (node :: ys) Hc) as [_ Happ]; [by rewrite <-app_assoc in Hnd|].
    assert (chain (<[node := NULL]> (<[p := w !!! node]> w)) (sl_head l) ((xs' ++ [p]) ++ ys)) as Hc'.
    { rewrite <-app_assoc. apply chain_insert.
      - rewrite !elem_of_app, list_elem_of_singleton. intros [Hx|[Hx|Hx]]; [|congruence|done].
        apply (Hdis node); [rewrite elem_of_app; by left|apply list_elem_of_here].
      - apply Happ; [|done|by apply chain_insert]. intros y Hy' Hy2. eapply (Hdis y); [rewrite elem_of_app; by left|].
        by apply list_elem_of_further. }
    split.
    + by destruct (sl_tail l =? node).
    + destruct (sl_tail l =? node) eqn:E; zbool; simpl.
      * apply Htl in E as ->. by rewrite app_nil_r, last_app.
      * destruct ys as [|y ys]; [by destruct E; apply Htl|]. by rewrite Hla, !last_app, last_cons_cons.
    + apply NoDup_app. split_and!; [done| |done]. intros y Hy1 Hy2. apply (Hdis y Hy1). by apply list_elem_of_further.
    + intros y Hy1. rewrite !dom_insert_L, !elem_of_union. right; right. apply Hd. rewrite elem_of_app in *.
      rewrite elem_of_cons. tauto.
  - apply last_None in Hp as ->. simpl in *. destruct Hc as (Eh & Hnn & _). split.
    + apply chain_insert; [done|]. by destruct (sl_tail l =? node).
    + destruct (sl_tail l =? node) eqn:E; zbool; simpl.
      * apply Htl in E as ->. done.
      * destruct ys as [|y ys]; [by destruct E; apply Htl|]. by rewrite Hla.
    + done.
    + intros y Hy1. rewrite dom_insert_L, elem_of_union. right. apply Hd. rewrite elem_of_cons. tauto.
Qed.

Lemma sl_length w l xs : sl_list w l xs → (length xs ≤ size w)%nat.
Proof.
  intros [_ _ Hnd Hd]. rewrite <-(size_dom w). unfold size, set_size. simpl.
  apply submseteq_length, NoDup_submseteq; [done|]. intros x Hx. apply elem_of_elements. auto.
Qed.

Lemma find_and_remove_loop_spec fuel w l xs ys test node :
  sl_list w l (xs ++ ys) → chain w test ys → node ∉ xs → (length ys < fuel)%nat →
  let '(found, (l', w')) := find_and_remove_loop fuel (default NULL (last xs)) test node l w in
  found = bool_decide (node ∈ ys) ∧ sl_list w' l' (without node (xs ++ ys)) ∧ (found = false → l' = l ∧ w' = w).
Proof.
  revert xs ys test. induction fuel as [|fuel IH]; intros xs ys test Hl Hc Hn Hf; [lia|]. simpl.
  destruct ys as [|y ys]; simpl in Hc.
  - subst test. rewrite Z.eqb_refl. split_and!; [|by rewrite app_nil_r in *; rewrite without_notin|done].
    symmetry. apply bool_decide_eq_false. by intros ?%elem_of_nil.
  - destruct Hc as (-> & Hy & Hc). rewrite (proj2 (Z.eqb_neq _ _) Hy). destruct (y =? node) eqn:E; zbool.
    + subst y. pose proof (sl_remove w l xs node ys Hl) as Hr. destruct (sys_slist_remove _ node l w) as [l' w'].
      split; [symmetry; apply bool_decide_eq_true, list_elem_of_here|]. split; [|done].
      rewrite without_app, without_cons_eq. destruct Hl as [_ _ [Hnd1 [Hdis [Hny Hndy]%NoDup_cons]]%NoDup_app _].
      by rewrite !without_notin.
    + specialize (IH (xs ++ [y]) ys (w !!! y)). rewrite last_snoc, <-app_assoc in IH. simpl in IH.
      unfold sys_slist_peek_next. rewrite (proj2 (Z.eqb_neq _ _) Hy). simpl. unfold sys_slist_peek_next_no_check.
      destruct (find_and_remove_loop fuel y (w !!! y) node l w) as [found [l' w']].
      destruct IH as (-> & Hl' & Hsame); [done|done| |simpl in Hf; lia|].
      { rewrite elem_of_app, list_elem_of_singleton. intros [?|?]; [done|congruence]. }
      split_and!; [|done|done]. apply bool_decide_ext. rewrite elem_of_cons. split; [by right|]. by intros [->|].
Qed.

Lemma find_loop_spec fuel w ys test node :
  chain w test ys → (length ys < fuel)%nat → find_loop fuel test node w = bool_decide (node ∈ ys).
Proof.
  revert ys test. induction fuel as [|fuel IH]; intros ys test Hc Hf; [lia|]. simpl. destruct ys as [|y ys]; simpl in Hc.
  - subst. rewrite Z.eqb_refl. symmetry. apply bool_decide_eq_false. by intros ?%elem_of_nil.
  - destruct Hc as (-> & Hy & Hc). rewrite (proj2 (Z.eqb_neq _ _) Hy). destruct (y =? node) eqn:E; zbool.
    + subst. symmetry. apply bool_decide_eq_true, list_elem_of_here.
    + unfold sys_slist_peek_next. rewrite (proj2 (Z.eqb_neq _ _) Hy). simpl.
      rewrite (IH ys) by (done || (simpl in Hf; lia)). apply bool_decide_ext. rewrite elem_of_cons.
      split; [by right|]. by intros [->|].
Qed.

Lemma find_and_remove_spec w l xs node :
  sl_list w l xs →
  let '(found, (l', w')) := sys_slist_find_and_remove node l w in
  found = bool_decide (node ∈ xs) ∧ sl_list w' l' (without node xs) ∧ (found = false → l' = l ∧ w' = w).
Proof.
  intros Hl. pose proof (sl_length _ _ _ Hl) as Hlen.
  apply (find_and_remove_loop_spec (S (size w)) w l [] xs); [done|apply Hl|by intros ?%elem_of_nil|lia].
Qed.

(** ** Properties *)

(** On a well-formed list of nodes [xs] every operation is the one on
    sequences: [sys_slist_prepend] and [sys_slist_append] add the node at the
    ends, [sys_slist_insert] behind the given node, [sys_slist_append_list] and
    [sys_slist_merge_slist] concatenate, [sys_slist_get] takes the first node
    or reports NULL; the list stays well formed. *)
Theorem sys_slist_ops_refine w l xs node :
  sl_list w l xs → node ≠ NULL → node ∉ xs →
  (let '(l', w') := sys_slist_prepend node l w in sl_list w' l' (node :: xs)) ∧
  (let '(l', w') := sys_slist_append node l w in sl_list w' l' (xs ++ [node])) ∧
  (let '(l', w') := sys_slist_insert NULL node l w in sl_list w' l' (node :: xs)) ∧
  (∀ xs1 prev xs2, xs = xs1 ++ prev :: xs2 →
    let '(l', w') := sys_slist_insert prev node l w in sl_list w' l' (xs1 ++ prev :: node :: xs2)) ∧
  (∀ l2 ys, sl_list w l2 ys → ys ≠ [] → (∀ x, x ∈ xs → x ∉ ys) →
    let '(l', l2', w') := sys_slist_merge_slist l l2 w in sl_list w' l' (xs ++ ys) ∧ sl_list w' l2' []) ∧
  (let '(x, l') := sys_slist_get l w in x = default NULL (head xs) ∧ sl_list w l' (tail xs)).
Proof.
  intros Hl Hn Hnx. split; [by apply sl_prepend|]. split; [by apply sl_append|].
  split; [by apply sl_prepend|]. split; [by intros xs1 prev xs2 ->; apply sl_insert|]. split.
  - intros [h t] ys Hy Hne Hdis. unfold sys_slist_merge_slist. simpl.
    pose proof (sl_append_list w l xs h t ys Hl Hy Hne Hdis) as Ha. destruct (sys_slist_append_list h t l w) as [l' w'].
    split; [done|]. split; [done|done|constructor|by intros ? ?%elem_of_nil].
  - destruct xs as [|x xs].
    + unfold sys_slist_get. rewrite (proj2 (sl_empty _ _ _ Hl) eq_refl). done.
    + destruct (sl_get w l x xs Hl) as (l' & -> & Hl'). done.
Qed.

(** [sys_slist_find] decides whether a node is on the list, and
    [sys_slist_find_and_remove] removes exactly that node if it is, reporting
    whether it was; the loops end within one round per node. *)
Theorem sys_slist_find_refines w l xs node :
  sl_list w l xs →
  sys_slist_find node l w = bool_decide (node ∈ xs) ∧
  let '(found, (l', w')) := sys_slist_find_and_remove node l w in
  found = bool_decide (node ∈ xs) ∧ sl_list w' l' (without node xs) ∧ (found = false → l' = l ∧ w' = w).
Proof.
  intros Hl. pose proof (sl_length _ _ _ Hl) as Hlen. split.
  - apply find_loop_spec; [apply Hl|lia].
  - by apply find_and_remove_spec.
Qed.

(** ** The properties at work *)
Definition sl_example : gmap Z Z := <[100 := 200]> (<[200 := NULL]> ∅).
Lemma sl_example_ok : sl_list sl_example (mk_slist 100 200) [100; 200].
Proof.
  split; [by vm_compute|done|by apply (bool_decide_unpack _); vm_compute|].
  intros x Hx. apply elem_of_cons in Hx as [->|Hx]; [apply elem_of_dom; by eexists|].
  apply list_elem_of_singleton in Hx as ->. apply elem_of_dom. by eexists.
Qed.
Lemma sys_slist_ops_refine_witness :
  let '(l', w') := sys_slist_append 300 (mk_slist 100 200) sl_example in sl_list w' l' [100; 200; 300].
Proof. apply (sys_slist_ops_refine sl_example (mk_slist 100 200) [100; 200] 300 sl_example_ok); [done|]. by apply (bool_decide_unpack _); vm_compute. Defined.
Lemma sys_slist_find_refines_witness : sys_slist_find 200 (mk_slist 100 200) sl_example = true.
Proof. rewrite (proj1 (sys_slist_find_refines sl_example (mk_slist 100 200) [100; 200] 200 sl_example_ok)). by vm_compute. Defined.
