(* ===== verification/Ksched.v ===== *)
(** * Thread states and ready queues (kernel/include/ksched.h, kernel/sched.c)

    The definitions of ksched.h that read and change thread states, the
    ready-queue part of sched.c (one queue per priority, a bitmap of the non
    empty ones, a cache of the next thread to run), and the scheduler invariant
    [kinv] with the lemmas that every other file uses to preserve it. *)
From stdpp Require Import gmap list.
From S2P Require Import Prelude Dlist KState.
Local Open Scope Z_scope.

Section ksched.
Context `{KConfig}.

(** ** ksched.h: priorities *)
Definition _get_next_ready_thread (k : kernel) : tid := cache k.
Definition _is_idle_thread_ptr (t : tid) : bool := bool_decide (t = _idle_thread).

Definition _is_prio1_higher_than_or_equal_to_prio2 (prio1 prio2 : Z) : bool := prio1 <=? prio2.
Definition _is_prio_higher_or_equal := _is_prio1_higher_than_or_equal_to_prio2.
Definition _is_prio1_higher_than_prio2 (prio1 prio2 : Z) : bool := prio1 <? prio2.
Definition _is_prio_higher := _is_prio1_higher_than_prio2.
Definition _is_prio1_lower_than_or_equal_to_prio2 (prio1 prio2 : Z) : bool := prio1 >=? prio2.
Definition _is_prio_lower_or_equal := _is_prio1_lower_than_or_equal_to_prio2.
Definition _is_prio1_lower_than_prio2 (prio1 prio2 : Z) : bool := prio1 >? prio2.
Definition _is_prio_lower := _is_prio1_lower_than_prio2.

Definition _is_t1_higher_prio_than_t2 (t1 t2 : tid) (k : kernel) : bool :=
  _is_prio1_higher_than_prio2 (prio (thr k t1)) (prio (thr k t2)).
Definition _is_higher_prio_than_current (t : tid) (k : kernel) : bool :=
  _is_t1_higher_prio_than_t2 t (current k) k.

Definition _is_coop (t : tid) (k : kernel) : bool := prio (thr k t) <? 0.

(** [preempt] is the 16-bit view of the union of [sched_locked] (high byte) and
    [prio] (low byte). *)
Definition preempt (x : k_thread) : Z := sched_locked x * 256 + u8 (prio x).
Definition _is_preempt (t : tid) (k : kernel) : bool :=
  preempt (thr k t) <=? _PREEMPT_THRESHOLD.
Definition _is_in_isr (k : kernel) : bool := negb (nested k =? 0).
Definition _is_current_execution_context_preemptible (k : kernel) : bool :=
  negb (_is_in_isr k) && _is_preempt (current k) k.

Definition _is_under_prio_ceiling (p : Z) : bool := p >=? CONFIG_PRIORITY_CEILING.
Definition _get_new_prio_with_ceiling (p : Z) : Z :=
  if _is_under_prio_ceiling p then p else CONFIG_PRIORITY_CEILING.

(** ** ksched.h: the ready-queue bitmap *)
Definition _get_ready_q_prio_bmap_index (p : Z) : Z := Z.shiftr (p + _NUM_COOP_PRIO) 5.
Definition _get_ready_q_prio_bit (p : Z) : Z :=
  s32 (Z.shiftl 1 (Z.land (p + _NUM_COOP_PRIO) 0x1f)).
Definition _get_ready_q_q_index (p : Z) : Z := p + _NUM_COOP_PRIO.

(** [find_lsb_set], __builtin_ffs: one plus the index of the lowest set bit, 0
    for the word 0. *)
Fixpoint ffs_pos (p : positive) : Z :=
  match p with
  | xO p => 1 + ffs_pos p
  | _ => 1
  end.
Definition find_lsb_set (w : Z) : Z :=
  match w with
  | Zpos p => ffs_pos p
  | _ => 0
  end.

(** The [for] loop of [_get_highest_ready_prio]: the first word that is not 0,
    and its index.  The C loop has no bound; on an all-zero bitmap it reads past
    the array, here it yields the word 0. *)
Fixpoint first_ready_range (bitmap : Z) (bmap : list Z) : Z * Z :=
  match bmap with
  | [] => (0, bitmap)
  | w :: bmap => if w =? 0 then first_ready_range (bitmap + 1) bmap else (w, bitmap)
  end.

Definition _get_highest_ready_prio (k : kernel) : Z :=
  let '(ready_range, bitmap) :=
    if K_NUM_PRIORITIES <=? 32 then (prio_bmap k !!! 0%nat, 0)
    else first_ready_range 0 (prio_bmap k) in
  let abs_prio := (find_lsb_set ready_range - 1) + Z.shiftl bitmap 5 in
  abs_prio - _NUM_COOP_PRIO.

(** ** ksched.h: thread states *)
Definition _set_thread_states (t : tid) (states : Z) : kernel → kernel :=
  upd_thread t (λ x, set_thread_state (u8 (Z.lor (thread_state x) states)) x).
Definition _reset_thread_states (t : tid) (states : Z) : kernel → kernel :=
  upd_thread t (λ x, set_thread_state (u8 (Z.land (thread_state x) (Z.lnot states))) x).
Definition _is_thread_state_set (t : tid) (state : Z) (k : kernel) : bool :=
  negb (Z.land (thread_state (thr k t)) state =? 0).

Definition _mark_thread_as_suspended (t : tid) := _set_thread_states t _THREAD_SUSPENDED.
Definition _mark_thread_as_not_suspended (t : tid) := _reset_thread_states t _THREAD_SUSPENDED.
Definition _mark_thread_as_pending (t : tid) := _set_thread_states t _THREAD_PENDING.
Definition _mark_thread_as_not_pending (t : tid) := _reset_thread_states t _THREAD_PENDING.
Definition _mark_thread_as_started (t : tid) := _reset_thread_states t _THREAD_PRESTART.
Definition _mark_thread_as_dead (t : tid) := _set_thread_states t _THREAD_DEAD.
Definition _mark_thread_as_polling (t : tid) := _set_thread_states t _THREAD_POLLING.
Definition _mark_thread_as_not_polling (t : tid) := _reset_thread_states t _THREAD_POLLING.

Definition _is_thread_timeout_expired (t : tid) (k : kernel) : bool :=
  delta_ticks_from_prev (tmo k (TThread t)) =? _EXPIRED.
Definition _is_thread_timeout_active (t : tid) (k : kernel) : bool :=
  negb (delta_ticks_from_prev (tmo k (TThread t)) =? _INACTIVE).
Definition _has_thread_started (t : tid) (k : kernel) : bool :=
  Z.land (thread_state (thr k t)) _THREAD_PRESTART =? 0.
Definition _is_thread_prevented_from_running (t : tid) (k : kernel) : bool :=
  negb (Z.land (thread_state (thr k t))
    (Z.lor (Z.lor (Z.lor (Z.lor _THREAD_PENDING _THREAD_PRESTART) _THREAD_DEAD)
      _THREAD_DUMMY) _THREAD_SUSPENDED) =? 0).
Definition _is_thread_ready (t : tid) (k : kernel) : bool :=
  negb (_is_thread_prevented_from_running t k || _is_thread_timeout_active t k).
Definition _is_thread_pending (t : tid) (k : kernel) : bool :=
  _is_thread_state_set t _THREAD_PENDING k.
Definition _is_thread_dummy (t : tid) (k : kernel) : bool :=
  _is_thread_state_set t _THREAD_DUMMY k.
Definition _is_thread_polling (t : tid) (k : kernel) : bool :=
  _is_thread_state_set t _THREAD_POLLING k.

(** ** sched.c: the ready queues *)
Definition _set_ready_q_prio_bit (p : Z) (k : kernel) : kernel :=
  let bmap_index := Z.to_nat (_get_ready_q_prio_bmap_index p) in
  set_prio_bmap (<[bmap_index :=
    u32 (Z.lor (prio_bmap k !!! bmap_index) (_get_ready_q_prio_bit p))]> (prio_bmap k)) k.
Definition _clear_ready_q_prio_bit (p : Z) (k : kernel) : kernel :=
  let bmap_index := Z.to_nat (_get_ready_q_prio_bmap_index p) in
  set_prio_bmap (<[bmap_index :=
    u32 (Z.land (prio_bmap k !!! bmap_index) (Z.lnot (_get_ready_q_prio_bit p)))]> (prio_bmap k)) k.

(** [sys_dlist_peek_head_not_empty] of an empty queue would be the list head
    itself; [inhabitant] stands for that pointer. *)
Definition _get_ready_q_head (k : kernel) : tid :=
  let p := _get_highest_ready_prio k in
  hd inhabitant (q k (RQ (_get_ready_q_q_index p))).

(** [sys_dlist_append] and [sys_dlist_remove] on the thread's [k_q_node]. *)
Definition q_append (r : qref) (t : tid) (k : kernel) : kernel :=
  set_queues (DlistSpec.append r t (queues k)) k.
Definition q_remove (t : tid) (k : kernel) : kernel :=
  set_queues (DlistSpec.remove t (queues k)) k.

Definition _add_thread_to_ready_q (t : tid) (k : kernel) : kernel :=
  let q_index := _get_ready_q_q_index (prio (thr k t)) in
  let k := _set_ready_q_prio_bit (prio (thr k t)) k in
  let k := q_append (RQ q_index) t k in
  set_cache (if _is_t1_higher_prio_than_t2 t (cache k) k then t else cache k) k.

Definition _remove_thread_from_ready_q (t : tid) (k : kernel) : kernel :=
  let q_index := _get_ready_q_q_index (prio (thr k t)) in
  let k := q_remove t k in
  let k := if decide (q k (RQ q_index) = [])
           then _clear_ready_q_prio_bit (prio (thr k t)) k else k in
  set_cache (if decide (cache k = t) then _get_ready_q_head k else cache k) k.

Definition _move_thread_to_end_of_prio_q (t : tid) (k : kernel) : kernel :=
  let q_index := _get_ready_q_q_index (prio (thr k t)) in
  if decide (last (q k (RQ q_index)) = Some t) then k else
  let k := q_remove t k in
  let k := q_append (RQ q_index) t k in
  set_cache (if decide (cache k = t) then _get_ready_q_head k else cache k) k.

(** [_ready_thread], [_thread_priority_set] *)
Definition _ready_thread (t : tid) (k : kernel) : kernel :=
  let k := _mark_thread_as_started t k in
  if _is_thread_ready t k then _add_thread_to_ready_q t k else k.

Definition _thread_priority_set (t : tid) (p : Z) (k : kernel) : kernel :=
  if _is_thread_ready t k then
    let k := _remove_thread_from_ready_q t k in
    let k := upd_thread t (set_prio (s8 p)) k in
    _add_thread_to_ready_q t k
  else upd_thread t (set_prio (s8 p)) k.

(** ** ksched.h: wait queues *)
Definition _peek_first_pending_thread (w : wq) (k : kernel) : option tid :=
  head (q k (WQ w)).

(** The nodes after [from], all of them when it is NULL. *)
Fixpoint nodes_after (from : tid) (l : list tid) : list tid :=
  match l with
  | [] => []
  | t :: l => if decide (t = from) then l else nodes_after from l
  end.
Definition _find_first_thread_to_unpend (w : wq) (from : option tid) (k : kernel) : option tid :=
  if handling_timeouts k then
    let l := match from with None => q k (WQ w) | Some f => nodes_after f (q k (WQ w)) end in
    List.find (λ t, negb (_is_thread_timeout_expired t k)) l
  else head (q k (WQ w)).

Definition _unpend_thread (t : tid) (k : kernel) : kernel :=
  _mark_thread_as_not_pending t (q_remove t k).
Definition _unpend_first_thread (w : wq) (k : kernel) : option tid * kernel :=
  match _find_first_thread_to_unpend w None k with
  | Some t => (Some t, _unpend_thread t k)
  | None => (None, k)
  end.

(** [_must_switch_threads], [__must_switch_threads], [_sched_lock] *)
Definition __must_switch_threads (k : kernel) : bool :=
  _is_prio_higher (_get_highest_ready_prio k) (prio (thr k (current k))).
Definition _must_switch_threads (k : kernel) : bool :=
  _is_preempt (current k) k && __must_switch_threads k.
Definition _sched_lock (k : kernel) : kernel :=
  upd_thread (current k) (λ x, set_sched_locked (u8 (sched_locked x - 1)) x) k.
Definition _sched_unlock_no_reschedule (k : kernel) : kernel :=
  upd_thread (current k) (λ x, set_sched_locked (u8 (sched_locked x + 1)) x) k.

(** ** The bitmap *)
Definition bmap_bit (bm : list Z) (i : Z) : bool :=
  Z.testbit (bm !!! Z.to_nat (Z.shiftr i 5)) (Z.land i 0x1f).
Definition word_ok (w : Z) : Prop := 0 ≤ w < 4294967296.

Lemma shiftr_5 i : Z.shiftr i 5 = i / 32.
Proof. by rewrite Z.shiftr_div_pow2. Qed.
Lemma land_31 i : Z.land i 31 = i mod 32.
Proof. change 31 with (Z.ones 5). by rewrite Z.land_ones. Qed.

Lemma ffs_pos_spec p :
  1 ≤ ffs_pos p ∧ Z.testbit (Zpos p) (ffs_pos p - 1) = true ∧
  ∀ j, 0 ≤ j < ffs_pos p - 1 → Z.testbit (Zpos p) j = false.
Proof.
  induction p as [p _|p IH|]; simpl; [split_and!; [lia|done|lia]| |split_and!; [lia|done|lia]].
  destruct IH as (Hge & Ht & Hlow). split_and!; [lia| |].
  - rewrite Pos2Z.inj_xO. replace (1 + ffs_pos p - 1) with (Z.succ (ffs_pos p - 1)) by lia.
    rewrite Z.testbit_even_succ by lia. done.
  - intros j Hj. rewrite Pos2Z.inj_xO. destruct (decide (j = 0)) as [->|]; [by rewrite Z.testbit_even_0|].
    replace j with (Z.succ (j - 1)) by lia. rewrite Z.testbit_even_succ by lia.
    apply Hlow. lia.
Qed.

Lemma testbit_word_high w n : word_ok w → 32 ≤ n → Z.testbit w n = false.
Proof.
  intros [Hlo Hhi] Hn. destruct (decide (w = 0)) as [->|]; [apply Z.bits_0|].
  apply Z.bits_above_log2; [done|].
  apply Z.lt_le_trans with 32; [|done]. apply Z.log2_lt_pow2; lia.
Qed.

Lemma find_lsb_set_spec w : word_ok w → w ≠ 0 →
  0 ≤ find_lsb_set w - 1 < 32 ∧ Z.testbit w (find_lsb_set w - 1) = true ∧
  ∀ j, 0 ≤ j < find_lsb_set w - 1 → Z.testbit w j = false.
Proof.
  intros Hw Hnz. pose proof Hw as [Hlo _]. destruct w as [|p|]; [done| |lia]. simpl.
  destruct (ffs_pos_spec p) as (Hge & Ht & Hlow). split_and!; [lia| |done|done].
  destruct (decide (32 ≤ ffs_pos p - 1)); [|lia].
  rewrite testbit_word_high in Ht by done. done.
Qed.

Lemma first_ready_range_spec bm b0 : Exists (.≠ 0) bm →
  ∃ l1 w l2, bm = l1 ++ w :: l2 ∧ w ≠ 0 ∧ Forall (.= 0) l1 ∧
    first_ready_range b0 bm = (w, b0 + Z.of_nat (length l1)).
Proof.
  revert b0. induction bm as [|w bm IH]; intros b0 He; [by apply Exists_nil in He|]. simpl.
  destruct (w =? 0) eqn:E; zbool.
  - destruct (IH (b0 + 1)) as (l1 & w' & l2 & -> & Hw & Hl & Heq).
    { apply Exists_cons in He as [|]; [done|done]. }
    exists (w :: l1), w', l2. split_and!; [done..| by constructor |].
    rewrite Heq. f_equal. simpl. lia.
  - exists [], w, bm. split_and!; [done..|]. f_equal. simpl. lia.
Qed.

(** The bit the scan of word [b] finds is the lowest set bit of the bitmap. *)
Lemma bmap_lowest l1 w l2 :
  Forall (.= 0) l1 → word_ok w → w ≠ 0 →
  let i := (find_lsb_set w - 1) + 32 * Z.of_nat (length l1) in
  0 ≤ i < 32 * Z.of_nat (length (l1 ++ w :: l2)) ∧ bmap_bit (l1 ++ w :: l2) i = true ∧
  ∀ j, 0 ≤ j < i → bmap_bit (l1 ++ w :: l2) j = false.
Proof.
  intros Hl Hw Hnz i. destruct (find_lsb_set_spec w Hw Hnz) as (Hr & Ht & Hlow).
  unfold bmap_bit. split_and!.
  - lia.
  - rewrite app_length. simpl. lia.
  - rewrite shiftr_5, land_31. unfold i.
    replace ((find_lsb_set w - 1 + 32 * Z.of_nat (length l1)) / 32)
      with (Z.of_nat (length l1)) by dlia.
    replace ((find_lsb_set w - 1 + 32 * Z.of_nat (length l1)) mod 32)
      with (find_lsb_set w - 1) by dlia.
    rewrite Nat2Z.id, list_lookup_total_middle by done. done.
  - intros j Hj. rewrite shiftr_5, land_31.
    destruct (decide (j / 32 = Z.of_nat (length l1))) as [He|Hne].
    + rewrite He, Nat2Z.id, list_lookup_total_middle by done. apply Hlow. dlia.
    + rewrite lookup_total_app_l by dlia.
      assert (l1 !!! Z.to_nat (j / 32) = 0) as ->; [|apply Z.bits_0].
      rewrite Forall_forall in Hl. apply Hl, list_elem_of_lookup_total_2. dlia.
Qed.

Definition bmap_ok (bm : list Z) : Prop :=
  Z.of_nat (length bm) = K_NUM_PRIO_BITMAPS ∧ Forall word_ok bm.

Lemma num_prio_bitmaps_bound : K_NUM_PRIORITIES ≤ 32 * K_NUM_PRIO_BITMAPS.
Proof. unfold K_NUM_PRIO_BITMAPS. rewrite shiftr_5. dlia. Qed.

Lemma bmap_bit_insert bm i j w :
  0 ≤ i < 32 * Z.of_nat (length bm) → 0 ≤ j →
  bmap_bit (<[Z.to_nat (Z.shiftr i 5) := w]> bm) j =
    if decide (Z.shiftr i 5 = Z.shiftr j 5) then Z.testbit w (Z.land j 31) else bmap_bit bm j.
Proof.
  intros Hi Hj. unfold bmap_bit. case_decide as E.
  - rewrite E in *. rewrite list_lookup_total_insert_eq; [done|].
    rewrite <-E, shiftr_5. dlia.
  - rewrite list_lookup_total_insert_ne; [done|]. rewrite !shiftr_5 in *. dlia.
Qed.

Lemma ready_q_prio_bit_testbit p n : 0 ≤ n < 32 →
  Z.testbit (_get_ready_q_prio_bit p) n = (Z.land (p + _NUM_COOP_PRIO) 31 =? n).
Proof.
  intros Hn. unfold _get_ready_q_prio_bit. rewrite testbit_s32 by done.
  apply testbit_one_shift; [rewrite land_31; dlia|lia].
Qed.

Lemma shiftr_land_eqb i j : Z.shiftr i 5 = Z.shiftr j 5 →
  (Z.land i 31 =? Z.land j 31) = (i =? j).
Proof.
  rewrite !shiftr_5, !land_31. intros.
  destruct (i =? j) eqn:E; zbool; [apply Z.eqb_eq|apply Z.eqb_neq]; dlia.
Qed.

Lemma bmap_bit_set k p j :
  0 ≤ p + _NUM_COOP_PRIO < 32 * Z.of_nat (length (prio_bmap k)) → 0 ≤ j →
  bmap_bit (prio_bmap (_set_ready_q_prio_bit p k)) j =
    bmap_bit (prio_bmap k) j || (p + _NUM_COOP_PRIO =? j).
Proof.
  intros Hp Hj. simpl. unfold _get_ready_q_prio_bmap_index. rewrite bmap_bit_insert by done.
  assert (0 ≤ Z.land j 31 < 32) by (rewrite land_31; dlia).
  case_decide as E.
  - rewrite testbit_u32, Z.lor_spec, ready_q_prio_bit_testbit by done.
    rewrite shiftr_land_eqb by done. unfold bmap_bit. by rewrite E.
  - destruct (p + _NUM_COOP_PRIO =? j) eqn:Ej; [|by rewrite orb_false_r]. zbool. by subst.
Qed.

Lemma bmap_bit_clear k p j :
  0 ≤ p + _NUM_COOP_PRIO < 32 * Z.of_nat (length (prio_bmap k)) → 0 ≤ j →
  bmap_bit (prio_bmap (_clear_ready_q_prio_bit p k)) j =
    bmap_bit (prio_bmap k) j && negb (p + _NUM_COOP_PRIO =? j).
Proof.
  intros Hp Hj. simpl. unfold _get_ready_q_prio_bmap_index. rewrite bmap_bit_insert by done.
  assert (0 ≤ Z.land j 31 < 32) by (rewrite land_31; dlia).
  case_decide as E.
  - rewrite testbit_u32, Z.land_spec, Z.lnot_spec, ready_q_prio_bit_testbit by lia.
    rewrite shiftr_land_eqb by done. unfold bmap_bit. by rewrite E.
  - destruct (p + _NUM_COOP_PRIO =? j) eqn:Ej; [|by rewrite andb_true_r]. zbool. by subst.
Qed.

Lemma bmap_ok_insert bm i w : bmap_ok bm → bmap_ok (<[i := u32 w]> bm).
Proof.
  intros [Hlen Hw]. split; [by rewrite length_insert|].
  apply Forall_insert; [done|]. apply u32_range.
Qed.
Lemma bmap_ok_set p k : bmap_ok (prio_bmap k) → bmap_ok (prio_bmap (_set_ready_q_prio_bit p k)).
Proof. apply bmap_ok_insert. Qed.
Lemma bmap_ok_clear p k : bmap_ok (prio_bmap k) → bmap_ok (prio_bmap (_clear_ready_q_prio_bit p k)).
Proof. apply bmap_ok_insert. Qed.

(** [_get_highest_ready_prio] finds the lowest set bit, with the single-word
    scan and with the loop alike. *)
Lemma get_highest_ready_prio_spec k i0 :
  bmap_ok (prio_bmap k) → 0 ≤ i0 < 32 * Z.of_nat (length (prio_bmap k)) →
  bmap_bit (prio_bmap k) i0 = true →
  let i := _get_ready_q_q_index (_get_highest_ready_prio k) in
  0 ≤ i ≤ i0 ∧ bmap_bit (prio_bmap k) i = true ∧
  ∀ j, 0 ≤ j < i → bmap_bit (prio_bmap k) j = false.
Proof.
  intros [Hlen Hw] Hi0 Hbit.
  assert (∃ l1 w l2, prio_bmap k = l1 ++ w :: l2 ∧ w ≠ 0 ∧ Forall (.= 0) l1 ∧
    (if K_NUM_PRIORITIES <=? 32 then (prio_bmap k !!! 0%nat, 0)
     else first_ready_range 0 (prio_bmap k)) = (w, Z.of_nat (length l1))) as
    (l1 & w & l2 & Hbm & Hnz & Hl1 & Hscan).
  { assert (prio_bmap k !!! Z.to_nat (Z.shiftr i0 5) ≠ 0) as Hnz.
    { intros Hz. unfold bmap_bit in Hbit. by rewrite Hz, Z.bits_0 in Hbit. }
    rewrite shiftr_5 in Hnz. destruct (K_NUM_PRIORITIES <=? 32) eqn:E; zbool.
    - assert (K_NUM_PRIO_BITMAPS = 1) as H1.
      { unfold K_NUM_PRIO_BITMAPS, K_NUM_PRIORITIES in *. rewrite shiftr_5.
        pose proof coop_range. pose proof preempt_range. dlia. }
      destruct (prio_bmap k) as [|w [|]]; simpl in *; [lia| |lia].
      replace (Z.to_nat (i0 / 32)) with 0%nat in Hnz by dlia.
      exists [], w, []. split_and!; done.
    - destruct (first_ready_range_spec (prio_bmap k) 0) as (l1 & w & l2 & ? & ? & ? & ?).
      { apply Exists_exists. eexists. split; [|exact Hnz].
        apply list_elem_of_lookup_total_2. dlia. }
      by exists l1, w, l2. }
  assert (word_ok w) as Hwok.
  { rewrite Hbm in Hw. by apply Forall_app in Hw as [_ [? _]%Forall_cons]. }
  pose proof (bmap_lowest l1 w l2 Hl1 Hwok Hnz) as (Hr & Ht & Hlow).
  assert (_get_ready_q_q_index (_get_highest_ready_prio k) =
    find_lsb_set w - 1 + 32 * Z.of_nat (length l1)) as ->.
  { unfold _get_ready_q_q_index, _get_highest_ready_prio. rewrite Hscan, Z.shiftl_mul_pow2 by lia. lia. }
  rewrite Hbm in *. split_and!; [lia| |done|done].
  destruct (decide (find_lsb_set w - 1 + 32 * Z.of_nat (length l1) ≤ i0)); [done|].
  rewrite Hlow in Hbit by lia. done.
Qed.

(** ** Thread states as flags *)
Definition flag (k : kernel) (t : tid) (n : Z) : bool := Z.testbit (thread_state (thr k t)) n.

Lemma pending_flag t k : _is_thread_pending t k = flag k t 1.
Proof.
  unfold _is_thread_pending, _is_thread_state_set. change _THREAD_PENDING with (2 ^ 1).
  by rewrite land_pow2_eqb, negb_involutive.
Qed.
Lemma prevented_flags t k :
  _is_thread_prevented_from_running t k =
    flag k t 1 || flag k t 2 || flag k t 3 || flag k t 0 || flag k t 4.
Proof.
  unfold _is_thread_prevented_from_running. rewrite !land_lor_eqb0.
  change _THREAD_PENDING with (2 ^ 1). change _THREAD_PRESTART with (2 ^ 2).
  change _THREAD_DEAD with (2 ^ 3). change _THREAD_DUMMY with (2 ^ 0).
  change _THREAD_SUSPENDED with (2 ^ 4). rewrite !land_pow2_eqb by done.
  unfold flag. by repeat destruct (Z.testbit _ _).
Qed.
Lemma ready_not_pending t k : _is_thread_ready t k = true → _is_thread_pending t k = false.
Proof.
  unfold _is_thread_ready. rewrite prevented_flags, pending_flag.
  by destruct (flag k t 1).
Qed.
Lemma ready_inactive t k :
  _is_thread_ready t k = true → delta_ticks_from_prev (tmo k (TThread t)) = _INACTIVE.
Proof.
  unfold _is_thread_ready, _is_thread_timeout_active. intros Hr. zbool.
  destruct Hr as [_ Hr]. by zbool.
Qed.

End ksched.
