(* ===== verification/TimeoutQ.v ===== *)
(** * The timeout queue (kernel/include/timeout_q.h, kernel/sys_clock.c)

    Timeouts are queued in order of expiry and each stores only the number of
    ticks after the previous one.  The definitions are the code of timeout_q.h
    and [handle_timeouts]; the theorems relate the queue to what it means, the
    list of timeouts with the ticks each has left ([deadlines]). *)
From stdpp Require Import gmap list.
From S2P Require Import Prelude Dlist KState Ksched.
Local Open Scope Z_scope.

Section timeout_q_h.
Context `{KConfig}.

Definition delta (k : kernel) (i : timeout_id) : Z := delta_ticks_from_prev (tmo k i).
Definition set_delta (i : timeout_id) (v : Z) : kernel → kernel :=
  upd_timeout i (set_delta_ticks_from_prev (s32 v)).

Definition _init_timeout (i : timeout_id) (func : timeout_func) : kernel → kernel :=
  upd_timeout i (λ _, mk_timeout _INACTIVE None None func).
Definition _init_thread_timeout (t : tid) : kernel → kernel := _init_timeout (TThread t) FNone.

Definition _unpend_thread_timing_out (t : tid) (i : timeout_id) (k : kernel) : kernel :=
  match to_wait_q (tmo k i) with
  | Some _ =>
      let k := _unpend_thread t k in
      upd_timeout (TThread t) (set_to_wait_q None) k
  | None => k
  end.

(** [call f i] is the call [timeout->func(timeout)]. *)
Definition timeout_call := timeout_func → timeout_id → kernel → kernel.

Definition _handle_one_expired_timeout (call : timeout_call) (i : timeout_id) (k : kernel) : kernel :=
  let thread := to_thread (tmo k i) in
  let k := set_delta i _INACTIVE k in
  match thread with
  | Some t =>
      let k := _unpend_thread_timing_out t i k in
      _ready_thread t k
  | None =>
      match to_func (tmo k i) with
      | FNone => k
      | f => call f i k
      end
  end.

(** The loop reads the links of the local list [expired] only, which no one
    else writes. *)
Definition _handle_expired_timeouts (call : timeout_call) (expired : list timeout_id)
    (k : kernel) : kernel :=
  fold_left (λ k i, _handle_one_expired_timeout call i k) expired k.

(** The node after [i], when [i] is linked and not the tail. *)
Fixpoint next_of (i : timeout_id) (l : list timeout_id) : option timeout_id :=
  match l with
  | [] => None
  | j :: l => if decide (j = i) then head l else next_of i l
  end.

(** [_abort_timeout] for a timeout that is inactive or on the timeout queue. *)
Definition _abort_timeout (i : timeout_id) (k : kernel) : Z * kernel :=
  if delta k i =? _INACTIVE then (_INACTIVE, k) else
  let k := match next_of i (timeout_q k) with
           | Some next => set_delta next (delta k next + delta k i) k
           | None => k
           end in
  let k := set_timeout_q (without i (timeout_q k)) k in
  let k := set_delta i _INACTIVE k in
  (0, k).
Definition _abort_thread_timeout (t : tid) (k : kernel) : Z * kernel :=
  _abort_timeout (TThread t) k.

(** The insertion loop of [_add_timeout], over the nodes of the queue. *)
Fixpoint _add_timeout_loop (i : timeout_id) (nodes : list timeout_id) (k : kernel) : kernel :=
  match nodes with
  | [] => set_timeout_q (timeout_q k ++ [i]) k
  | in_q :: nodes =>
      if delta k i <=? delta k in_q then
        let k := set_delta in_q (delta k in_q - delta k i) k in
        set_timeout_q (insert_before in_q i (timeout_q k)) k
      else
        let k := set_delta i (delta k i - delta k in_q) k in
        _add_timeout_loop i nodes k
  end.

Definition _add_timeout (call : timeout_call) (thread : option tid) (i : timeout_id)
    (wait_q : option wq) (timeout_in_ticks : Z) (k : kernel) : kernel :=
  let k := set_delta i timeout_in_ticks k in
  let k := upd_timeout i (set_to_thread thread) k in
  let k := upd_timeout i (set_to_wait_q wait_q) k in
  if timeout_in_ticks =? 0 then _handle_one_expired_timeout call i k
  else _add_timeout_loop i (timeout_q k) k.

(** A thread timeout has a thread to wake, so its function is never called. *)
Definition _add_thread_timeout (t : tid) (wait_q : option wq) (timeout_in_ticks : Z)
    : kernel → kernel :=
  _add_timeout (λ _ _ k, k) (Some t) (TThread t) wait_q timeout_in_ticks.

Definition _get_next_timeout_expiry (k : kernel) : Z :=
  match head (timeout_q k) with
  | Some i => delta k i
  | None => K_FOREVER
  end.

(** ** sys_clock.c: [handle_timeouts]

    The [while] loop dequeues the head while its delta is 0; [fuel] bounds the
    number of rounds, each of which shortens the queue. *)
Fixpoint dequeue_expired (fuel : nat) (expired : list timeout_id) (k : kernel)
    : list timeout_id * kernel :=
  match fuel with
  | O => (expired, k)
  | S fuel =>
      match head (timeout_q k) with
      | Some i =>
          if delta k i =? 0 then
            let k := set_timeout_q (without i (timeout_q k)) k in
            let expired := i :: expired in
            let k := set_delta i _EXPIRED k in
            dequeue_expired fuel expired k
          else (expired, k)
      | None => (expired, k)
      end
  end.

Definition handle_timeouts (call : timeout_call) (ticks : Z) (k : kernel) : kernel :=
  match head (timeout_q k) with
  | None => k
  | Some h =>
      let k := set_delta h (delta k h - ticks) k in
      let k := set_handling_timeouts true k in
      let '(expired, k) := dequeue_expired (S (length (timeout_q k))) [] k in
      let k := _handle_expired_timeouts call expired k in
      set_handling_timeouts false k
  end.

(** ** What the queue means *)

(** The timeouts of [l] with the ticks each has left, from [b] ticks on. *)
Fixpoint expiries (b : Z) (d : timeout_id → Z) (l : list timeout_id) : list (timeout_id * Z) :=
  match l with
  | [] => []
  | i :: l => (i, b + d i) :: expiries (b + d i) d l
  end.
Definition deadlines (k : kernel) : list (timeout_id * Z) := expiries 0 (delta k) (timeout_q k).

Fixpoint total (d : timeout_id → Z) (l : list timeout_id) : Z :=
  match l with [] => 0 | i :: l => d i + total d l end.

Lemma expiries_ext b d d' l :
  (∀ i, i ∈ l → d i = d' i) → expiries b d l = expiries b d' l.
Proof.
  revert b. induction l as [|i l IH]; intros b Hd; simpl; [done|].
  rewrite (Hd i) by set_solver. f_equal. apply IH. set_solver.
Qed.
Lemma total_ext d d' l : (∀ i, i ∈ l → d i = d' i) → total d l = total d' l.
Proof. induction l; intros Hd; simpl; [done|]. rewrite Hd by set_solver. rewrite IHl; set_solver. Qed.
Lemma expiries_app b d l1 l2 :
  expiries b d (l1 ++ l2) = expiries b d l1 ++ expiries (b + total d l1) d l2.
Proof.
  revert b. induction l1 as [|i l1 IH]; intros b; simpl; [by rewrite Z.add_0_r|].
  by rewrite IH, Z.add_assoc.
Qed.
Lemma total_app d l1 l2 : total d (l1 ++ l2) = total d l1 + total d l2.
Proof. induction l1; simpl; lia. Qed.
Lemma total_nonneg d l : (∀ i, i ∈ l → 0 ≤ d i) → 0 ≤ total d l.
Proof.
  induction l; intros Hd; simpl; [lia|].
  assert (0 ≤ d a) by (apply Hd; set_solver). assert (0 ≤ total d l) by (apply IHl; set_solver). lia.
Qed.
Lemma expiries_shift b c d l :
  expiries (b + c) d l = (λ p, (p.1, p.2 + c)) <$> expiries b d l.
Proof.
  revert b. induction l as [|i l IH]; intros b; simpl; [done|].
  replace (b + c + d i) with (b + d i + c) by lia. by rewrite IH.
Qed.
Lemma expiries_fst b d l : (expiries b d l).*1 = l.
Proof. revert b. induction l; intros b; simpl; [done|]. by rewrite IHl. Qed.
Lemma expiries_ge b d l p : (∀ i, i ∈ l → 0 ≤ d i) → p ∈ expiries b d l → b ≤ p.2.
Proof.
  revert b. induction l as [|i l IH]; intros b Hd; simpl; [by intros ?%not_elem_of_nil|].
  assert (0 ≤ d i) by (apply Hd; set_solver).
  intros [->|Hp]%elem_of_cons; simpl; [lia|]. apply IH in Hp; [lia|set_solver].
Qed.

(** ** The queue invariant

    [E] is the list of timeouts taken off the queue and not handled yet. *)
Record tq_inv (E : list timeout_id) (k : kernel) : Prop := {
  tq_nodup : NoDup (timeout_q k);
  tq_mem : ∀ i, i ∈ timeout_q k ↔ 0 ≤ delta k i;
  tq_exp_nodup : NoDup E;
  tq_exp : ∀ i, i ∈ E ↔ delta k i = _EXPIRED;
  tq_min : ∀ i, _EXPIRED ≤ delta k i;
  tq_total : total (delta k) (timeout_q k) ≤ INT32_MAX;
}.
(** Between ticks no queued timeout is due. *)
Definition tq_pos (k : kernel) : Prop := ∀ i, head (timeout_q k) = Some i → 0 < delta k i.

Lemma tmo_upd i f k j : tmo (upd_timeout i f k) j = if decide (i = j) then f (tmo k j) else tmo k j.
Proof. unfold tmo, upd_timeout. simpl. rewrite lookup_total_ins. by case_decide; subst. Qed.
Lemma delta_set i v k j : delta (set_delta i v k) j = if decide (i = j) then s32 v else delta k j.
Proof. unfold delta, set_delta. rewrite tmo_upd. by case_decide. Qed.
Lemma set_delta_id k j : set_delta_ticks_from_prev (delta k j) (tmo k j) = tmo k j.
Proof. unfold delta. by destruct (tmo k j). Qed.

Lemma tq_inv_frame E k k' :
  tq_inv E k → timeout_q k' = timeout_q k → (∀ i, delta k' i = delta k i) → tq_inv E k'.
Proof.
  intros [? Hm ? He Hmin Ht] Hq Hd. split.
  - by rewrite Hq.
  - intros i. by rewrite Hq, Hd.
  - done.
  - intros i. by rewrite Hd.
  - intros i. by rewrite Hd.
  - rewrite Hq, (total_ext _ (delta k)); auto.
Qed.

(** ** Adding *)

(** Where the loop stops, and what it has changed: the deltas of the new
    timeout and of the one it is put before. *)
Lemma add_timeout_loop_spec i nodes l1 k :
  timeout_q k = l1 ++ nodes → NoDup (timeout_q k) → i ∉ timeout_q k →
  (∀ j, j ∈ nodes → 0 ≤ delta k j) → total (delta k) nodes ≤ INT32_MAX →
  0 < delta k i ≤ INT32_MAX →
  ∃ r1 r2, nodes = r1 ++ r2 ∧
    let k' := _add_timeout_loop i nodes k in
    let e := delta k i - total (delta k) r1 in
    timeout_q k' = l1 ++ r1 ++ i :: r2 ∧
    (∀ j, tmo k' j = if decide (i = j) then set_delta_ticks_from_prev e (tmo k j)
                     else if decide (head r2 = Some j)
                          then set_delta_ticks_from_prev (delta k j - e) (tmo k j)
                          else tmo k j) ∧
    k' = set_timeout_q (timeout_q k') (set_timeouts (timeouts k') k) ∧
    0 < e ∧ (∀ j, head r2 = Some j → e ≤ delta k j).
Proof.
  revert l1 k. induction nodes as [|j nodes IH]; intros l1 k Hq Hnd Hi Hpos Htot Hd.
  - exists [], []. simpl. split_and!; [done|by rewrite Hq, app_nil_r| |by destruct k|lia|done].
    intros j. case_decide; [|done]. subst. by rewrite Z.sub_0_r, set_delta_id.
  - assert (i ≠ j) as Hij by (intros ->; apply Hi; rewrite Hq; mem).
    assert (0 ≤ delta k j) by (apply Hpos; mem).
    assert (∀ j', j' ∈ nodes → 0 ≤ delta k j') as Hpos' by (intros; apply Hpos; mem).
    pose proof (total_nonneg _ _ Hpos') as Htn. simpl in Htot. simpl. unfold INT32_MAX in *.
    destruct (delta k i <=? delta k j) eqn:Hle; zbool.
    + exists [], (j :: nodes). simpl. rewrite Z.sub_0_r. split_and!; [done| | |by destruct k|lia|naive_solver].
      * rewrite Hq, insert_before_app; [done|]. intros Hj.
        rewrite Hq in Hnd. apply NoDup_app in Hnd as (_ & Hx & _). apply (Hx _ Hj). mem.
      * intros j'. change (tmo (set_timeout_q ?l ?x) j') with (tmo x j').
        unfold set_delta. rewrite tmo_upd. destruct (decide (j = j')) as [<-|]; simpl.
        -- rewrite decide_False by done. rewrite decide_True by done. by rewrite s32_id by lia.
        -- case_decide; [|by rewrite decide_False by naive_solver].
           subst. by rewrite set_delta_id.
    + set (k1 := set_delta i (delta k i - delta k j) k).
      assert (∀ j', j' ≠ i → tmo k1 j' = tmo k j') as Hk1.
      { intros. unfold k1, set_delta. by rewrite tmo_upd, decide_False by done. }
      assert (∀ j', j' ∈ nodes → delta k1 j' = delta k j') as Hdn.
      { intros j' Hj'. unfold delta. rewrite Hk1; [done|]. intros ->. apply Hi. rewrite Hq. mem. }
      assert (delta k1 i = delta k i - delta k j) as Hdi.
      { unfold k1. rewrite delta_set, decide_True by done. rewrite s32_id; lia. }
      destruct (IH (l1 ++ [j]) k1) as (r1 & r2 & -> & Hq' & Htm & Hfr & He & Hh).
      { by rewrite <-app_assoc. } { done. } { done. }
      { intros j' Hj'. rewrite Hdn by done. auto. }
      { rewrite (total_ext _ (delta k)) by done. lia. } { lia. }
      assert (total (delta k1) r1 = total (delta k) r1) as Ht1.
      { apply total_ext. intros. apply Hdn. mem. }
      exists (j :: r1), r2. simpl. rewrite Ht1, Hdi in *.
      replace (delta k i - (delta k j + total (delta k) r1))
        with (delta k i - delta k j - total (delta k) r1) by lia.
      split_and!; [done|by rewrite Hq', <-app_assoc| | |lia|].
      * intros j'. rewrite Htm. case_decide as E; [subst j'|].
        -- unfold k1, set_delta. rewrite tmo_upd, decide_True by done. by destruct (tmo k i).
        -- unfold delta in *. rewrite Hk1; done.
      * etrans; [exact Hfr|]. by destruct k.
      * intros j' Hj'. rewrite <-(Hdn j'); [auto|]. destruct r2; [done|]. injection Hj' as ->. mem.
Qed.

Lemma expiries_le b d l p : (∀ i, i ∈ l → 0 ≤ d i) → p ∈ expiries b d l → p.2 ≤ b + total d l.
Proof.
  revert b. induction l as [|i l IH]; intros b Hd; simpl; [by intros ?%not_elem_of_nil|].
  assert (∀ j, j ∈ l → 0 ≤ d j) as Hd' by (intros; apply Hd; mem).
  pose proof (total_nonneg d l Hd').
  intros [->|Hp]%elem_of_cons; simpl; [lia|]. apply IH in Hp; [lia|done].
Qed.

(** Inserting [i] with delta [e] before [r2], whose head gives up [e] ticks,
    changes no other deadline. *)
Lemma expiries_insert d d' i r1 r2 e :
  i ∉ r1 ++ r2 → NoDup r2 → d' i = e →
  (∀ j, j ≠ i → d' j = if decide (head r2 = Some j) then d j - e else d j) →
  (∀ j, head r2 = Some j → j ∉ r1) →
  expiries 0 d' (r1 ++ i :: r2) =
    expiries 0 d r1 ++ (i, total d r1 + e) :: expiries (total d r1) d r2.
Proof.
  intros Hi Hnd Hdi Hd Hh. rewrite expiries_app.
  assert (∀ j, j ∈ r1 → d' j = d j) as Hr1.
  { intros j Hj. rewrite Hd, decide_False; [done| |].
    - intros Hx%Hh. done.
    - intros ->. apply Hi. mem. }
  rewrite (expiries_ext 0 d' d r1), (total_ext d' d r1) by done. f_equal. simpl. rewrite Hdi, Z.add_0_l.
  f_equal. destruct r2 as [|j r2]; simpl; [done|].
  assert (i ∉ r2 ∧ i ≠ j) as [Hir2 Hij] by (split; [intros ?|intros ->]; apply Hi; mem).
  apply NoDup_cons in Hnd as [Hj _].
  rewrite Hd, decide_True by done. replace (total d r1 + e + (d j - e)) with (total d r1 + d j) by lia.
  f_equal. apply expiries_ext. intros j' Hj'.
  rewrite Hd, decide_False; [done|intros [= ->]; done|intros ->; done].
Qed.

(** A timeout the operation leaves alone: only its delta may change, and it
    stays queued, expired or inactive as it was. *)
Definition same_timeout (k k' : kernel) (j : timeout_id) : Prop :=
  to_thread (tmo k' j) = to_thread (tmo k j) ∧ to_wait_q (tmo k' j) = to_wait_q (tmo k j) ∧
  to_func (tmo k' j) = to_func (tmo k j) ∧
  (delta k' j = delta k j ∨ 0 ≤ delta k j ∧ 0 ≤ delta k' j).

Lemma total_insert d d' i r1 r2 e :
  i ∉ r1 ++ r2 → NoDup (r1 ++ r2) → d' i = e →
  (∀ j, j ≠ i → d' j = if decide (head r2 = Some j) then d j - e else d j) →
  total d' (r1 ++ i :: r2) = match r2 with [] => total d r1 + e | _ => total d (r1 ++ r2) end.
Proof.
  intros Hi Hnd Hdi Hd. apply NoDup_app in Hnd as (_ & Hdisj & Hnd2). rewrite total_app. simpl. rewrite Hdi.
  assert (total d' r1 = total d r1) as ->.
  { apply total_ext. intros j Hj. rewrite Hd, decide_False; [done| |intros ->; apply Hi; mem].
    destruct r2; intros [= ->]. apply (Hdisj _ Hj). mem. }
  destruct r2 as [|j r2]; simpl; [lia|]. rewrite total_app. simpl.
  assert (j ≠ i) by (intros ->; apply Hi; mem). apply NoDup_cons in Hnd2 as [Hj _].
  rewrite Hd, decide_True, (total_ext d' d r2); [lia| |done|done].
  intros j' Hj'. rewrite Hd, decide_False; [done|by intros [= ->]|intros ->; apply Hi; mem].
Qed.

Lemma tq_inv_insert E k k' i r1 r2 e :
  tq_inv E k → delta k i = _INACTIVE → timeout_q k = r1 ++ r2 → timeout_q k' = r1 ++ i :: r2 →
  delta k' i = e →
  (∀ j, j ≠ i → delta k' j = if decide (head r2 = Some j) then delta k j - e else delta k j) →
  0 < e → (∀ j, head r2 = Some j → e ≤ delta k j) → total (delta k) r1 + e ≤ INT32_MAX →
  tq_inv E k'.
Proof.
  intros [Hnd Hm Hend He Hmin Htot] Hina Hq Hq' Hdi Hd Hpos Hh Hmax.
  assert (i ∉ timeout_q k) as Hi by (rewrite Hm, Hina; unfold _INACTIVE; lia).
  assert (∀ j, j ≠ i → delta k' j = delta k j ∨ 0 ≤ delta k j ∧ 0 ≤ delta k' j) as Hs.
  { intros j Hj. rewrite Hd by done. case_decide as E1; [right|by left]. apply Hh in E1. lia. }
  split; [| |done| | |].
  - rewrite Hq', <-Permutation_middle, <-Hq. by constructor.
  - intros j. rewrite Hq', <-Permutation_middle, <-Hq, elem_of_cons.
    destruct (decide (j = i)) as [->|Hj]; [rewrite Hdi; split; [lia|auto]|].
    rewrite Hm. destruct (Hs j Hj); naive_solver lia.
  - intros j. rewrite He. unfold _EXPIRED, _INACTIVE in *. destruct (decide (j = i)) as [->|Hj]; [lia|].
    destruct (Hs j Hj); lia.
  - intros j. specialize (Hmin j). unfold _EXPIRED, _INACTIVE in *.
    destruct (decide (j = i)) as [->|Hj]; [lia|]. destruct (Hs j Hj); lia.
  - rewrite Hq', (total_insert (delta k) _ _ _ _ e); [|by rewrite <-Hq..|done|done].
    destruct r2; [done|]. by rewrite <-Hq.
Qed.

(** [_add_timeout] of a timeout that is not queued: [deadlines] gains it, in
    front of the first timeout that is not due earlier, and nothing else
    changes. *)
Lemma add_timeout_spec call th i w n E k :
  tq_inv E k → delta k i = _INACTIVE → 0 < n ≤ INT32_MAX →
  let k' := _add_timeout call th i w n k in
  tq_inv E k' ∧ (tq_pos k → tq_pos k') ∧
  deadlines k' = insert_where (λ p, n <=? p.2) (i, n) (deadlines k) ∧
  k' = set_timeout_q (timeout_q k') (set_timeouts (timeouts k') k) ∧
  (∀ j, j ≠ i → same_timeout k k' j) ∧
  to_thread (tmo k' i) = th ∧ to_wait_q (tmo k' i) = w ∧ to_func (tmo k' i) = to_func (tmo k i) ∧
  0 < delta k' i.
Proof.
  intros Hinv Hina Hn. pose proof Hinv as [Hnd Hm Hend He Hmin Htot].
  unfold _add_timeout. cbv zeta. rewrite (proj2 (Z.eqb_neq n 0)) by lia.
  set (k0 := upd_timeout i (set_to_wait_q w) (upd_timeout i (set_to_thread th) (set_delta i n k))).
  assert (∀ j, tmo k0 j = if decide (i = j) then mk_timeout n th w (to_func (tmo k i)) else tmo k j) as Hk0.
  { intros j. unfold k0, set_delta. rewrite !tmo_upd. case_decide; [|done]. subst. simpl.
    rewrite s32_id; [done|]. unfold INT32_MAX in *; lia. }
  assert (∀ j, delta k0 j = if decide (i = j) then n else delta k j) as Hdk0.
  { intros j. unfold delta. rewrite Hk0. by case_decide. }
  assert (i ∉ timeout_q k) as Hiq by (rewrite Hm, Hina; unfold _INACTIVE; lia).
  assert (∀ j, j ∈ timeout_q k → delta k0 j = delta k j) as Hdq.
  { intros j Hj. rewrite Hdk0, decide_False; [done|]. by intros ->. }
  destruct (add_timeout_loop_spec i (timeout_q k0) [] k0) as (r1 & r2 & Hq & Hq' & Htm & Hfr & Hepos & Hh);
    [done|exact Hnd|exact Hiq| | |rewrite Hdk0, decide_True by done; lia|].
  { intros j Hj. rewrite Hdq by done. by apply Hm. }
  { rewrite (total_ext _ (delta k)); [exact Htot|]. exact Hdq. }
  change (timeout_q k0) with (timeout_q k) in *. simpl in Hq'.
  assert (total (delta k0) r1 = total (delta k) r1) as Ht1.
  { apply total_ext. intros. apply Hdq. rewrite Hq. mem. }
  rewrite (Hdk0 i), decide_True, Ht1 in * by done.
  set (k' := _add_timeout_loop i (timeout_q k) k0) in *. set (e := n - total (delta k) r1) in *.
  assert (delta k' i = e) as Hdi by (unfold delta; by rewrite Htm, decide_True).
  assert (∀ j, j ≠ i → delta k' j = if decide (head r2 = Some j) then delta k j - e else delta k j) as Hd.
  { intros j Hj. unfold delta at 1. rewrite Htm, Hdk0, Hk0, !(decide_False (P:=i = j)) by congruence. by case_decide. }
  assert (∀ j, head r2 = Some j → e ≤ delta k j) as Hh'.
  { intros j Hj. rewrite <-Hdq; [auto|]. rewrite Hq. destruct r2; [done|]. injection Hj as ->. mem. }
  split_and!.
  - apply (tq_inv_insert E k k' i r1 r2 e); try done. lia.
  - intros Hpos j. rewrite Hq'. destruct r1 as [|j' r1]; intros [= ->]; [lia|].
    assert (j ≠ i) by (intros ->; apply Hiq; rewrite Hq; mem).
    rewrite Hd, decide_False by (done || (intros Hr2; rewrite Hq in Hnd;
      apply NoDup_cons in Hnd as [Hj _]; apply Hj; destruct r2; simplify_eq/=; mem)).
    apply Hpos. by rewrite Hq.
  - unfold deadlines. rewrite Hq', Hq.
    rewrite (expiries_insert (delta k) _ i r1 r2 e); [|by rewrite <-Hq|..].
    2: { rewrite Hq in Hnd. by apply NoDup_app in Hnd as (_ & _ & ?). } 2-3: done.
    2: { intros j Hj Hin. rewrite Hq in Hnd. apply NoDup_app in Hnd as (_ & Hx & _).
         apply (Hx _ Hin). destruct r2; [done|]. injection Hj as ->. mem. }
    rewrite expiries_app, Z.add_0_l. replace (total (delta k) r1 + e) with n by lia.
    symmetry. apply insert_where_app.
    + intros p Hp%expiries_le; [apply Z.leb_gt; lia|]. intros j Hj. apply Hm. rewrite Hq. mem.
    + intros p Hp. destruct r2 as [|j r2]; simplify_eq/=. apply Z.leb_le. specialize (Hh' j eq_refl). lia.
  - rewrite Hfr. by destruct k.
  - intros j Hj. unfold same_timeout. rewrite Hd by done. rewrite Htm, Hk0, !(decide_False (P:=i = j)) by congruence.
    case_decide as E1; simpl; [|auto 10]. specialize (Hh' j E1). split_and!; [done..|]. lia.
  - by rewrite Htm, decide_True, Hk0, decide_True.
  - by rewrite Htm, decide_True, Hk0, decide_True.
  - by rewrite Htm, decide_True, Hk0, decide_True.
  - lia.
Qed.

(** ** Aborting *)
Lemma next_of_elem i l j : next_of i l = Some j → j ∈ l.
Proof.
  induction l as [|x l IH]; simpl; [done|]. case_decide; [|intros Hj; right; auto]. intros Hj. right. by apply head_Some_elem_of.
Qed.
Lemma next_of_app i r1 r2 : i ∉ r1 → next_of i (r1 ++ i :: r2) = head r2.
Proof.
  induction r1 as [|j r1 IH]; intros Hi; simpl; [by rewrite decide_True|].
  apply not_elem_of_cons in Hi as [? Hi]. rewrite decide_False by done. auto.
Qed.
Lemma expiries_mem b d l p : p ∈ expiries b d l → p.1 ∈ l.
Proof. intros Hp. rewrite <-(expiries_fst b d l). by apply list_elem_of_fmap_2. Qed.

(** What aborting a queued timeout changes. *)
Lemma abort_timeout_queued i E k :
  tq_inv E k → i ∈ timeout_q k →
  ∃ r1 r2, timeout_q k = r1 ++ i :: r2 ∧ i ∉ r1 ++ r2 ∧ NoDup (r1 ++ r2) ∧
    let '(r, k') := _abort_timeout i k in
    r = 0 ∧ timeout_q k' = r1 ++ r2 ∧
    k' = set_timeout_q (timeout_q k') (set_timeouts (timeouts k') k) ∧
    (∀ j, tmo k' j = if decide (i = j) then set_delta_ticks_from_prev _INACTIVE (tmo k j)
                     else if decide (head r2 = Some j)
                          then set_delta_ticks_from_prev (delta k j + delta k i) (tmo k j)
                          else tmo k j).
Proof.
  intros [Hnd Hm _ _ _ Htot] Hi. destruct (NoDup_split_elem _ _ Hnd Hi) as (r1 & r2 & Hq & Hir1).
  assert (i ∉ r1 ++ r2 ∧ NoDup (r1 ++ r2)) as [Hir Hnd'].
  { rewrite Hq, <-Permutation_middle in Hnd. by apply NoDup_cons in Hnd. }
  exists r1, r2. split_and!; [done..|]. unfold _abort_timeout.
  assert (0 ≤ delta k i) by by apply Hm.
  rewrite (proj2 (Z.eqb_neq _ _)) by (unfold _INACTIVE; lia). cbv zeta. rewrite Hq, next_of_app by done.
  set (k1 := match head r2 with Some next => _ | None => k end).
  assert (timeout_q k1 = r1 ++ i :: r2) as Hq1 by (unfold k1; by destruct (head r2)).
  split_and!; [done| | |].
  - simpl. rewrite Hq1, without_app, without_cons_eq, !without_notin; [done|..]; intros ?; apply Hir; mem.
  - unfold k1. by destruct k, (head r2).
  - intros j. unfold set_delta. rewrite tmo_upd. change (tmo (set_timeout_q ?l ?x) j) with (tmo x j).
    assert (i ≠ j → tmo k1 j = if decide (head r2 = Some j)
      then set_delta_ticks_from_prev (delta k j + delta k i) (tmo k j) else tmo k j) as Hk1.
    { intros Hij. unfold k1. destruct r2 as [|n r2]; simpl; [done|]. unfold set_delta. rewrite tmo_upd.
      destruct (decide (n = j)) as [->|]; [|by rewrite decide_False by congruence].
      rewrite decide_True by done. rewrite s32_id; [done|].
      rewrite Hq, total_app in Htot. simpl in Htot.
      assert (∀ x, x ∈ r1 ++ i :: j :: r2 → 0 ≤ delta k x) as Hp by (intros; apply Hm; by rewrite Hq).
      assert (0 ≤ delta k j) by (apply Hp; mem).
      assert (0 ≤ total (delta k) r1) by (apply total_nonneg; intros; apply Hp; mem).
      assert (0 ≤ total (delta k) r2) by (apply total_nonneg; intros; apply Hp; mem).
      unfold INT32_MAX in *. lia. }
    destruct (decide (i = j)) as [<-|Hij]; [|by apply Hk1]. unfold k1. rewrite s32_id by (unfold _INACTIVE; lia).
    destruct r2 as [|n r2]; simpl; [done|]. unfold set_delta. rewrite tmo_upd, decide_False; [done|].
    intros ->. apply Hir. mem.
Qed.

Lemma abort_timeout_spec i E k :
  tq_inv E k → i ∉ E →
  let '(r, k') := _abort_timeout i k in
  r = (if delta k i =? _INACTIVE then _INACTIVE else 0) ∧
  tq_inv E k' ∧ (tq_pos k → tq_pos k') ∧
  deadlines k' = filter (λ p, p.1 ≠ i) (deadlines k) ∧
  k' = set_timeout_q (timeout_q k') (set_timeouts (timeouts k') k) ∧
  (∀ j, j ≠ i → same_timeout k k' j) ∧ delta k' i = _INACTIVE.
Proof.
  intros Hinv HiE. destruct (delta k i =? _INACTIVE) eqn:Ea; zbool.
  - unfold _abort_timeout. rewrite (proj2 (Z.eqb_eq _ _) Ea).
    split_and!; [done..| |by destruct k| |done].
    + symmetry. apply filter_all. intros p Hp%expiries_mem <-.
      apply (tq_mem _ _ Hinv) in Hp. rewrite Ea in Hp. unfold _INACTIVE in Hp. lia.
    + intros j _. unfold same_timeout. auto.
  - assert (i ∈ timeout_q k) as Hi.
    { apply (tq_mem _ _ Hinv). pose proof (tq_min _ _ Hinv i). rewrite (tq_exp _ _ Hinv) in HiE.
      unfold _INACTIVE, _EXPIRED in *. lia. }
    destruct (abort_timeout_queued i E k Hinv Hi) as (r1 & r2 & Hq & Hir & Hnd & Hab).
    destruct (_abort_timeout i k) as [r k']. destruct Hab as (-> & Hq' & Hfr & Htm).
    pose proof Hinv as [_ Hm Hend He Hmin Htot].
    set (e := delta k i) in *. assert (0 ≤ e) by by apply Hm.
    assert (delta k' i = _INACTIVE) as Hdi by (unfold delta; by rewrite Htm, decide_True).
    assert (∀ j, j ≠ i → delta k j = if decide (head r2 = Some j) then delta k' j - e else delta k' j) as Hd.
    { intros j Hj. unfold delta at 2 3. rewrite Htm, (decide_False (P:=i = j)) by congruence.
      case_decide; simpl; [lia|done]. }
    assert (∀ j, j ≠ i → same_timeout k k' j) as Hs.
    { intros j Hj. unfold same_timeout. specialize (Hd j Hj). rewrite Htm, (decide_False (P:=i = j)) by congruence.
      case_decide as E1; simpl; [|auto 10]. split_and!; [done..|]. right.
      assert (0 ≤ delta k j); [|lia]. apply Hm. rewrite Hq. destruct r2; simplify_eq/=. mem. }
    split_and!; [done| | | |done|done|done].
    + split; [by rewrite Hq'| |done| | |].
      * intros j. rewrite Hq'. destruct (decide (j = i)) as [->|Hj]; [rewrite Hdi; unfold _INACTIVE; split; [done|lia]|].
        transitivity (0 ≤ delta k j); [rewrite <-Hm, Hq, <-Permutation_middle, elem_of_cons; naive_solver|].
        destruct (Hs j Hj) as (_ & _ & _ & [->|]); lia.
      * intros j. rewrite He. destruct (decide (j = i)) as [->|Hj].
        { fold e. rewrite Hdi. unfold _INACTIVE, _EXPIRED. lia. }
        destruct (Hs j Hj) as (_ & _ & _ & [->|]); unfold _EXPIRED; lia.
      * intros j. destruct (decide (j = i)) as [->|Hj]; [rewrite Hdi; unfold _INACTIVE, _EXPIRED; lia|].
        destruct (Hs j Hj) as (_ & _ & _ & [->|]); [done|]. unfold _EXPIRED. lia.
      * pose proof (total_insert (delta k') (delta k) i r1 r2 e Hir Hnd eq_refl Hd) as Ht.
        rewrite Hq' . rewrite Hq, Ht in Htot. destruct r2; [rewrite app_nil_r; lia|done].
    + intros Hpos j. rewrite Hq'. unfold tq_pos in Hpos. rewrite Hq in Hpos.
      destruct r1 as [|j' r1]; simpl.
      * intros Hj. assert (j ≠ i) by (intros ->; apply Hir; destruct r2; simplify_eq/=; mem).
        specialize (Hd j ltac:(done)). rewrite decide_True in Hd by done.
        specialize (Hpos i eq_refl). fold e in Hpos.
        assert (0 ≤ delta k j); [|lia]. apply Hm. rewrite Hq. destruct r2; simplify_eq/=. mem.
      * intros [= ->]. specialize (Hpos j eq_refl). assert (j ≠ i) as Hj by (intros ->; apply Hir; mem).
        destruct (Hs j Hj) as (_ & _ & _ & [->|]); [done|].
        specialize (Hd j Hj). rewrite decide_False in Hd; [lia|]. intros Hr2.
        apply NoDup_cons in Hnd as [Hx _]. apply Hx. destruct r2; simplify_eq/=. mem.
    + unfold deadlines. rewrite Hq', Hq, (expiries_insert (delta k') (delta k) i r1 r2 e); [|done|..|done|done|].
      2: by apply NoDup_app in Hnd as (_ & _ & ?).
      2: { intros j Hj Hin. apply NoDup_app in Hnd as (_ & Hx & _). apply (Hx _ Hin).
           destruct r2; simplify_eq/=. mem. }
      rewrite filter_app, filter_cons_False by (simpl; tauto). rewrite expiries_app, Z.add_0_l.
      symmetry. f_equal; apply filter_all; intros p Hp%expiries_mem <-; apply Hir; mem.
Qed.

(** ** Ticks *)

(** Taking a due timeout off the head of the queue. *)
Lemma tq_inv_expire E k i l :
  tq_inv E k → timeout_q k = i :: l → delta k i = 0 →
  let k' := set_delta i _EXPIRED (set_timeout_q (without i (timeout_q k)) k) in
  tq_inv (i :: E) k' ∧ timeout_q k' = l ∧ deadlines k = (i, 0) :: deadlines k' ∧
  (∀ j, tmo k' j = if decide (i = j) then set_delta_ticks_from_prev _EXPIRED (tmo k j) else tmo k j) ∧
  k' = set_timeout_q (timeout_q k') (set_timeouts (timeouts k') k).
Proof.
  intros [Hnd Hm Hend He Hmin Htot] Hq Hdi k'.
  assert (timeout_q k' = l) as Hq'.
  { unfold k'. simpl. rewrite Hq in *. by apply without_head. }
  assert (∀ j, delta k' j = if decide (i = j) then _EXPIRED else delta k j) as Hd.
  { intros j. unfold k'. rewrite delta_set. by case_decide. }
  assert (i ∉ l ∧ NoDup l) as [Hil Hndl] by (rewrite Hq in Hnd; by apply NoDup_cons in Hnd).
  assert (∀ j, j ∈ l → delta k' j = delta k j) as Hdl.
  { intros j Hj. rewrite Hd, decide_False; [done|]. by intros ->. }
  split_and!; [|done| | |by destruct k].
  - split.
    + by rewrite Hq'.
    + intros j. rewrite Hq', Hd. case_decide as Hij; [subst; unfold _EXPIRED; split; [done|lia]|].
      rewrite <-Hm, Hq, elem_of_cons. naive_solver.
    + constructor; [|done]. rewrite He, Hdi. unfold _EXPIRED. lia.
    + intros j. rewrite Hd, elem_of_cons, He. case_decide; naive_solver.
    + intros j. rewrite Hd. case_decide; [done|apply Hmin].
    + rewrite Hq', (total_ext _ (delta k)) by done. rewrite Hq in Htot. simpl in Htot. lia.
  - unfold deadlines. rewrite Hq, Hq'. simpl. rewrite Hdi. simpl. f_equal. apply expiries_ext. intros. symmetry. auto.
  - intros j. unfold k', set_delta. rewrite tmo_upd. by case_decide.
Qed.

(** The dequeuing loop moves exactly the due timeouts, in reverse order. *)
Lemma dequeue_expired_spec fuel E k :
  tq_inv E k → (length (timeout_q k) < fuel)%nat →
  let '(E', k') := dequeue_expired fuel E k in
  ∃ due, E' = rev due ++ E ∧ timeout_q k = due ++ timeout_q k' ∧
    deadlines k = ((λ i, (i, 0)) <$> due) ++ deadlines k' ∧
    tq_inv E' k' ∧ tq_pos k' ∧
    (∀ j, tmo k' j = if decide (j ∈ due) then set_delta_ticks_from_prev _EXPIRED (tmo k j) else tmo k j) ∧
    k' = set_timeout_q (timeout_q k') (set_timeouts (timeouts k') k).
Proof.
  revert E k. induction fuel as [|fuel IH]; intros E k Hinv Hf; [lia|]. simpl.
  destruct (timeout_q k) as [|i l] eqn:Hq; simpl.
  - exists []. split_and!; try done; [|by destruct k]. intros i. by rewrite Hq.
  - destruct (delta k i =? 0) eqn:Hz; zbool.
    + destruct (tq_inv_expire E k i l Hinv Hq Hz) as (Hinv' & Hq' & Hdl & Htm & Hfr).
      rewrite <-Hq in *. set (k1 := set_delta i _EXPIRED _) in *.
      assert (length (timeout_q k1) < fuel)%nat as Hf' by (rewrite Hq'; rewrite Hq in Hf; simpl in Hf; lia).
      specialize (IH (i :: E) k1 Hinv' Hf'). destruct (dequeue_expired fuel (i :: E) k1) as [E' k'].
      destruct IH as (due & -> & Hq1 & Hdl' & Hi' & Hp' & Htm' & Hfr').
      exists (i :: due). split_and!; [| | |done|done| |].
      * simpl. by rewrite <-app_assoc.
      * by rewrite Hq, <-Hq', Hq1.
      * by rewrite Hdl, Hdl'.
      * intros j. rewrite Htm', Htm. destruct (decide (j ∈ due)) as [Hj|Hj].
        { rewrite (decide_True (P:=j ∈ i :: due)) by mem. by case_decide; subst; destruct (tmo k j). }
        destruct (decide (i = j)) as [<-|Hne]; [by rewrite decide_True by mem|].
        rewrite decide_False; [done|]. by rewrite elem_of_cons; intros [?|?].
      * rewrite Hfr', Hfr. by destruct k.
    + exists []. split_and!; try done; [|by destruct k]. intros j. rewrite Hq.
      intros [= <-]. assert (0 ≤ delta k i); [|lia]. apply (tq_mem _ _ Hinv). rewrite Hq. mem.
Qed.

Lemma tq_inv_tick E k h l ticks :
  tq_inv E k → timeout_q k = h :: l → 0 ≤ ticks ≤ delta k h →
  let k' := set_delta h (delta k h - ticks) k in
  tq_inv E k' ∧ deadlines k' = (λ p, (p.1, p.2 - ticks)) <$> deadlines k ∧
  (∀ j, same_timeout k k' j).
Proof.
  intros [Hnd Hm Hend He Hmin Htot] Hq Ht k'. unfold INT32_MAX in *.
  rewrite Hq in Htot. simpl in Htot.
  assert (0 ≤ total (delta k) l) by (apply total_nonneg; intros; apply Hm; rewrite Hq; mem).
  assert (∀ j, delta k' j = if decide (h = j) then delta k h - ticks else delta k j) as Hd.
  { intros j. unfold k'. rewrite delta_set. case_decide; [|done]. apply s32_id. lia. }
  assert (h ∉ l) as Hhl by (rewrite Hq in Hnd; by apply NoDup_cons in Hnd as []).
  assert (∀ j, j ∈ l → delta k' j = delta k j) as Hdl.
  { intros j Hj. rewrite Hd, decide_False; [done|]. by intros ->. }
  split_and!.
  - split; [done| |done| | |]; change (timeout_q k') with (timeout_q k).
    + intros j. rewrite Hm, Hd. case_decide; [subst; lia|done].
    + intros j. rewrite He, Hd. case_decide; [subst; unfold _EXPIRED; lia|done].
    + intros j. rewrite Hd. case_decide; [unfold _EXPIRED; lia|apply Hmin].
    + rewrite Hq. simpl. rewrite Hd, decide_True, (total_ext _ (delta k) l) by done. unfold INT32_MAX. lia.
  - unfold deadlines. change (timeout_q k') with (timeout_q k). rewrite Hq. simpl.
    rewrite Hd, decide_True by done. f_equal. rewrite (expiries_ext _ _ (delta k)) by done.
    replace (0 + (delta k h - ticks)) with (0 + delta k h + - ticks) by lia. by rewrite expiries_shift.
  - intros j. unfold same_timeout. rewrite Hd. unfold k', set_delta. rewrite tmo_upd.
    case_decide; [subst; simpl|auto 10]. split_and!; [done..|]. lia.
Qed.

End timeout_q_h.
