(* ===== verification/SchedInv.v ===== *)
(** * The scheduler invariant

    [rq_inv]: the ready queues, their bitmap and the cache agree.  [kinv]: the
    queues, the thread states and the timeouts of the whole kernel agree.  The
    kernel moves a thread between queues in several steps, so [kinv] carries
    the set of threads that are in between (off the ready queues although
    nothing prevents them from running) and the list of the timeouts that
    [handle_timeouts] has taken off the timeout queue and not handled yet; both
    are empty between kernel operations.  One lemma per step of ksched.h and
    sched.c says how it changes the two. *)
From stdpp Require Import gmap list.
From S2P Require Import Prelude Dlist KState Ksched TimeoutQ.
Local Open Scope Z_scope.

Section rq.
Context `{KConfig}.

Definition prio_ok (p : Z) : Prop := K_HIGHEST_THREAD_PRIO ≤ p ≤ K_LOWEST_THREAD_PRIO.
Definition rq_index (k : kernel) (t : tid) : Z := _get_ready_q_q_index (prio (thr k t)).

(** The ready queues hold exactly the threads of [R], each on the queue of its
    priority, the bitmap marks the queues that are not empty, and the cache is
    the head of the first of them. *)
Record rq_inv (R : tid → Prop) (k : kernel) : Prop := {
  rq_mem : ∀ t i, t ∈ q k (RQ i) ↔ R t ∧ i = rq_index k t;
  rq_nodup : ∀ i, NoDup (q k (RQ i));
  rq_prio : ∀ t, R t → prio_ok (prio (thr k t));
  rq_bmap_ok : bmap_ok (prio_bmap k);
  rq_bmap : ∀ i, 0 ≤ i < 32 * Z.of_nat (length (prio_bmap k)) →
    bmap_bit (prio_bmap k) i = true ↔ q k (RQ i) ≠ [];
  rq_cache : ∃ i, head (q k (RQ i)) = Some (cache k) ∧ ∀ j, j < i → q k (RQ j) = [];
}.

Lemma rq_inv_frame (R R' : tid → Prop) k k' :
  rq_inv R k → (∀ t, R' t ↔ R t) →
  (∀ i, q k' (RQ i) = q k (RQ i)) → (∀ t, R t → prio (thr k' t) = prio (thr k t)) →
  prio_bmap k' = prio_bmap k → cache k' = cache k → rq_inv R' k'.
Proof.
  intros [Hmem Hnd Hp Hok Hb Hc] HR Hq Hpr Hbm Hca. split.
  - intros t i. rewrite Hq, Hmem, HR. unfold rq_index.
    split; intros [Ht ->]; (split; [done|]); by rewrite Hpr.
  - intros i. by rewrite Hq.
  - intros t Ht%HR. rewrite Hpr by done. auto.
  - by rewrite Hbm.
  - intros i. rewrite Hbm, Hq. apply Hb.
  - destruct Hc as (i & Hh & Hl). exists i. rewrite Hq, Hca. split; [done|].
    intros j Hj. rewrite Hq. auto.
Qed.

Lemma prio_ok_index k R t : rq_inv R k → prio_ok (prio (thr k t)) →
  0 ≤ rq_index k t < 32 * Z.of_nat (length (prio_bmap k)).
Proof.
  intros Hrq Hp. destruct (rq_bmap_ok _ _ Hrq) as [Hlen _].
  pose proof num_prio_bitmaps_bound.
  unfold prio_ok, rq_index, _get_ready_q_q_index, K_HIGHEST_THREAD_PRIO, K_LOWEST_THREAD_PRIO,
    K_NUM_PRIORITIES, _NUM_COOP_PRIO in *. lia.
Qed.

(** What the scheduler picks when the queues and the bitmap agree: the head of
    the first queue that is not empty. *)
Definition first_rq (k : kernel) (t : tid) : Prop :=
  ∃ i, head (q k (RQ i)) = Some t ∧ ∀ j, j < i → q k (RQ j) = [].

Lemma first_rq_unique k t t' : first_rq k t → first_rq k t' → t = t'.
Proof.
  intros (i & Hi & Hlo) (i' & Hi' & Hlo').
  assert (i = i') as <-; [|congruence].
  destruct (Z.lt_trichotomy i i') as [Hlt|[?|Hlt]]; [|done|].
  - by rewrite (Hlo' _ Hlt) in Hi.
  - by rewrite (Hlo _ Hlt) in Hi'.
Qed.

Lemma q_neg_empty (R : tid → Prop) k j :
  (∀ t i, t ∈ q k (RQ i) ↔ R t ∧ i = rq_index k t) →
  (∀ t, R t → prio_ok (prio (thr k t))) → j < 0 → q k (RQ j) = [].
Proof.
  intros Hm Hp Hj. destruct (q k (RQ j)) as [|t l] eqn:E; [done|].
  destruct (Hm t j) as [[Ht ->] _]; [rewrite E; set_solver|].
  specialize (Hp t Ht). unfold prio_ok, rq_index, _get_ready_q_q_index, K_HIGHEST_THREAD_PRIO,
    _NUM_COOP_PRIO in *. lia.
Qed.

Lemma get_ready_q_head_first (R : tid → Prop) k t0 :
  (∀ t i, t ∈ q k (RQ i) ↔ R t ∧ i = rq_index k t) →
  (∀ t, R t → prio_ok (prio (thr k t))) → bmap_ok (prio_bmap k) →
  (∀ i, 0 ≤ i < 32 * Z.of_nat (length (prio_bmap k)) →
    bmap_bit (prio_bmap k) i = true ↔ q k (RQ i) ≠ []) →
  R t0 → first_rq k (_get_ready_q_head k).
Proof.
  intros Hm Hp Hok Hb H0.
  assert (t0 ∈ q k (RQ (rq_index k t0))) as Ht0 by by apply Hm.
  assert (0 ≤ rq_index k t0 < 32 * Z.of_nat (length (prio_bmap k))) as Hr.
  { specialize (Hp t0 H0). destruct Hok as [Hlen _]. pose proof num_prio_bitmaps_bound.
    unfold prio_ok, rq_index, _get_ready_q_q_index, K_HIGHEST_THREAD_PRIO, K_LOWEST_THREAD_PRIO,
      K_NUM_PRIORITIES, _NUM_COOP_PRIO in *. lia. }
  destruct (get_highest_ready_prio_spec k (rq_index k t0) Hok Hr) as (Hi & Hbit & Hlow).
  { apply Hb; [done|]. by intros Hq; rewrite Hq in Ht0; apply not_elem_of_nil in Ht0. }
  unfold first_rq, _get_ready_q_head.
  exists (_get_ready_q_q_index (_get_highest_ready_prio k)). split.
  - apply Hb in Hbit; [|lia]. cbv zeta. clear Ht0. by destruct (q k (RQ _)).
  - intros j Hj. destruct (decide (j < 0)); [by eapply q_neg_empty|].
    destruct (decide (q k (RQ j) = [])) as [|Hne]; [done|]. apply Hb in Hne; [|lia].
    by rewrite Hlow in Hne by lia.
Qed.
(** ** The three operations on the ready queues *)
Lemma q_append_lookup r t k r' :
  q (q_append r t k) r' = if decide (r = r') then q k r' ++ [t] else q k r'.
Proof. apply DlistSpec.lookup_append. Qed.
Lemma q_remove_lookup t k r : q (q_remove t k) r = without t (q k r).
Proof. apply DlistSpec.lookup_remove. Qed.

Lemma q_add t k r :
  q (_add_thread_to_ready_q t k) r =
    if decide (RQ (rq_index k t) = r) then q k r ++ [t] else q k r.
Proof. apply DlistSpec.lookup_append. Qed.

Lemma q_remove_ready t k r : q (_remove_thread_from_ready_q t k) r = without t (q k r).
Proof.
  unfold _remove_thread_from_ready_q. cbv zeta.
  destruct (decide (q _ _ = [])); apply DlistSpec.lookup_remove.
Qed.

Lemma thr_add t k t' : thr (_add_thread_to_ready_q t k) t' = thr k t'.
Proof. done. Qed.
Lemma thr_remove_ready t k t' : thr (_remove_thread_from_ready_q t k) t' = thr k t'.
Proof. unfold _remove_thread_from_ready_q. cbv zeta. by destruct (decide (q _ _ = [])). Qed.

Lemma rq_cache_mem R k : rq_inv R k → R (cache k) ∧ first_rq k (cache k) ∧
  ∀ j, j < rq_index k (cache k) → q k (RQ j) = [].
Proof.
  intros Hrq. pose proof (rq_cache _ _ Hrq) as (i & Hh & Hl).
  destruct (rq_mem _ _ Hrq (cache k) i) as [[Hc ->] _]; [by apply head_Some_elem_of|].
  split_and!; [done|by eexists|done].
Qed.

Lemma rq_inv_add R k t :
  rq_inv R k → ¬ R t → prio_ok (prio (thr k t)) →
  rq_inv (λ t', t' = t ∨ R t') (_add_thread_to_ready_q t k).
Proof.
  intros Hrq Ht Hp. pose proof (prio_ok_index _ _ _ Hrq Hp) as Hidx. pose proof Hrq as [Hm Hnd Hpr Hok Hb _].
  destruct (rq_cache_mem _ _ Hrq) as (HRc & (ic & Hh & _) & Hl).
  split.
  - intros t' i. rewrite q_add. change (rq_index (_add_thread_to_ready_q t k) t') with (rq_index k t').
    case_decide as E; simplify_eq.
    + rewrite elem_of_app, Hm, list_elem_of_singleton. naive_solver.
    + rewrite Hm. naive_solver.
  - intros i. rewrite q_add. case_decide as E; [|done].
    apply NoDup_app. split_and!; [done| |apply NoDup_singleton].
    intros t' [Ht' _]%Hm ->%list_elem_of_singleton. done.
  - intros t' [->|Ht']; [done|]. rewrite thr_add. auto.
  - by apply bmap_ok_set.
  - intros i Hi. rewrite q_add.
    change (prio_bmap (_add_thread_to_ready_q t k))
      with (prio_bmap (_set_ready_q_prio_bit (prio (thr k t)) k)) in *.
    assert (0 ≤ i < 32 * Z.of_nat (length (prio_bmap k))) as Hi'.
    { simpl in Hi. by rewrite length_insert in Hi. }
    rewrite bmap_bit_set by (done || lia). fold (_get_ready_q_q_index (prio (thr k t))) (rq_index k t).
    rewrite orb_true_iff, Hb, Z.eqb_eq by done. case_decide as E; simplify_eq.
    + split; [intros _ [_ ?]%app_eq_nil; done|auto].
    + naive_solver.
  - change (cache (_add_thread_to_ready_q t k))
      with (if _is_t1_higher_prio_than_t2 t (cache k) k then t else cache k).
    unfold _is_t1_higher_prio_than_t2, _is_prio1_higher_than_prio2.
    case_test; zbool.
    + exists (rq_index k t). split; [|intros j Hj]; rewrite q_add.
      * rewrite decide_True by done. rewrite Hl; [done|].
        unfold rq_index, _get_ready_q_q_index. lia.
      * rewrite decide_False by (intros [=]; lia). apply Hl.
        unfold rq_index, _get_ready_q_q_index in *. lia.
    + assert (ic = rq_index k (cache k)) as -> by (eapply Hm, head_Some_elem_of, Hh).
      exists (rq_index k (cache k)). split; [|intros j Hj]; rewrite q_add.
      * case_decide; [|done]. by destruct (q k (RQ _)).
      * rewrite decide_False; [auto|]. intros [=].
        unfold rq_index, _get_ready_q_q_index in *. lia.
Qed.

(** Removing or moving the cached thread refills the cache from the queues. *)
Lemma rq_inv_refill (R : tid → Prop) k t0 t :
  (∀ t i, t ∈ q k (RQ i) ↔ R t ∧ i = rq_index k t) →
  (∀ i, NoDup (q k (RQ i))) →
  (∀ t, R t → prio_ok (prio (thr k t))) → bmap_ok (prio_bmap k) →
  (∀ i, 0 ≤ i < 32 * Z.of_nat (length (prio_bmap k)) →
    bmap_bit (prio_bmap k) i = true ↔ q k (RQ i) ≠ []) →
  R t0 → (cache k ≠ t → first_rq k (cache k)) →
  rq_inv R (set_cache (if decide (cache k = t) then _get_ready_q_head k else cache k) k).
Proof.
  intros Hm Hnd Hp Hok Hb H0 Hc.
  split; [exact Hm|exact Hnd|exact Hp|exact Hok|exact Hb|].
  change (first_rq k (if decide (cache k = t) then _get_ready_q_head k else cache k)).
  case_decide; [by eapply get_ready_q_head_first|auto].
Qed.

Lemma rq_inv_remove R k t t0 :
  rq_inv R k → R t → R t0 → t0 ≠ t →
  rq_inv (λ t', t' ≠ t ∧ R t') (_remove_thread_from_ready_q t k).
Proof.
  intros Hrq Ht H0 Hne. pose proof (rq_prio _ _ Hrq t Ht) as Hpt.
  pose proof (prio_ok_index _ _ _ Hrq Hpt) as Hidx. pose proof Hrq as [Hm Hnd Hpr Hok Hb _].
  destruct (rq_cache_mem _ _ Hrq) as (HRc & (ic & Hh & Hl) & _).
  set (k1 := if decide (q (q_remove t k) (RQ (rq_index k t)) = [])
             then _clear_ready_q_prio_bit (prio (thr k t)) (q_remove t k) else q_remove t k).
  change (_remove_thread_from_ready_q t k)
    with (set_cache (if decide (cache k1 = t) then _get_ready_q_head k1 else cache k1) k1).
  assert (∀ r, q k1 r = without t (q k r)) as Hq.
  { intros r. unfold k1. case_decide; apply DlistSpec.lookup_remove. }
  assert (∀ t', thr k1 t' = thr k t') as Hthr by (intros; unfold k1; by case_decide).
  assert (cache k1 = cache k) as Hck by (unfold k1; by case_decide).
  assert (∀ i, i ≠ rq_index k t → q k1 (RQ i) = q k (RQ i)) as Hqo.
  { intros i Hi. rewrite Hq. apply without_notin. intros [_ ?]%Hm. done. }
  apply (rq_inv_refill _ k1 t0).
  - intros t' i. rewrite Hq, elem_of_without, Hm. unfold rq_index. rewrite Hthr. naive_solver.
  - intros i. rewrite Hq. by apply NoDup_without.
  - intros t' [_ Ht']. rewrite Hthr. auto.
  - unfold k1. case_decide; [by apply bmap_ok_clear|done].
  - intros i Hi. unfold k1 in *. case_decide as E.
    + simpl in Hi. rewrite length_insert in Hi.
      rewrite bmap_bit_clear by (done || lia). fold (_get_ready_q_q_index (prio (thr k t))) (rq_index k t).
      change (prio_bmap (q_remove t k)) with (prio_bmap k).
      rewrite andb_true_iff, Hb, negb_true_iff, Z.eqb_neq by done.
      destruct (decide (rq_index k t = i)) as [<-|].
      * split; [naive_solver|]. intros []. exact E.
      * rewrite Hqo by done. naive_solver.
    + change (prio_bmap (q_remove t k)) with (prio_bmap k) in *. rewrite Hb by done.
      destruct (decide (rq_index k t = i)) as [<-|]; [|by rewrite Hqo].
      split; [done|]. intros _ Hnil. assert (t ∈ q k (RQ (rq_index k t))) as Hin by by apply Hm.
      by rewrite Hnil in Hin; apply not_elem_of_nil in Hin.
  - done.
  - rewrite Hck. intros Hc. exists ic. split.
    + rewrite Hq. destruct (q k (RQ ic)) as [|c l]; simplify_eq/=. by rewrite without_cons_ne.
    + intros j Hj. by rewrite Hq, Hl.
Qed.

Lemma rq_inv_move R k t :
  rq_inv R k → R t → rq_inv R (_move_thread_to_end_of_prio_q t k).
Proof.
  intros Hrq Ht. unfold _move_thread_to_end_of_prio_q. cbv zeta. case_decide; [done|].
  pose proof Hrq as [Hm Hnd Hpr Hok Hb _].
  destruct (rq_cache_mem _ _ Hrq) as (HRc & (ic & Hh & Hl) & _).
  fold (rq_index k t). set (k1 := q_append (RQ (rq_index k t)) t (q_remove t k)).
  assert (∀ r, q k1 r = if decide (RQ (rq_index k t) = r) then without t (q k r) ++ [t]
                        else without t (q k r)) as Hq.
  { intros r. unfold k1. by rewrite q_append_lookup, q_remove_lookup. }
  assert (∀ i, i ≠ rq_index k t → q k1 (RQ i) = q k (RQ i)) as Hqo.
  { intros i Hi. rewrite Hq, decide_False by (intros [=]; done).
    apply without_notin. intros [_ ?]%Hm. done. }
  apply (rq_inv_refill _ k1 t).
  - intros t' i. change (rq_index k1 t') with (rq_index k t'). rewrite Hq. case_decide; simplify_eq.
    + rewrite elem_of_app, elem_of_without, Hm, list_elem_of_singleton.
      destruct (decide (t' = t)); naive_solver.
    + rewrite elem_of_without, Hm. naive_solver.
  - intros i. rewrite Hq. case_decide; [|by apply NoDup_without].
    apply NoDup_app. split_and!; [by apply NoDup_without| |apply NoDup_singleton].
    intros t' [? _]%elem_of_without ->%list_elem_of_singleton. done.
  - done.
  - done.
  - intros i Hi. change (prio_bmap k1) with (prio_bmap k) in *. rewrite Hb by done.
    destruct (decide (rq_index k t = i)) as [<-|]; [|by rewrite Hqo].
    rewrite Hq, decide_True by done. split; [by intros _ [_ ?]%app_eq_nil|].
    intros _ Hnil. assert (t ∈ q k (RQ (rq_index k t))) as Hin by by apply Hm.
    by rewrite Hnil in Hin; apply not_elem_of_nil in Hin.
  - done.
  - change (cache k1) with (cache k). intros Hc. exists ic. split.
    + rewrite Hq. destruct (q k (RQ ic)) as [|c l]; simplify_eq/=.
      rewrite without_cons_ne by done. by case_decide.
    + intros j Hj. rewrite Hq, decide_False, Hl; [done|done|].
      intros [=]. assert (t ∈ q k (RQ j)) as Hin by (apply Hm; done).
      rewrite Hl in Hin by done. by apply not_elem_of_nil in Hin.
Qed.

(** The highest ready priority is the priority of the cached thread. *)
Lemma rq_inv_highest R k : rq_inv R k → _get_highest_ready_prio k = prio (thr k (cache k)).
Proof.
  intros Hrq. pose proof Hrq as [Hm Hnd Hpr Hok Hb _].
  destruct (rq_cache_mem _ _ Hrq) as (HRc & Hf & Hl).
  pose proof (prio_ok_index _ _ _ Hrq (Hpr _ HRc)) as Hidx.
  assert (q k (RQ (rq_index k (cache k))) ≠ []) as Hne.
  { intros Hnil. assert (cache k ∈ q k (RQ (rq_index k (cache k)))) as Hin by by apply Hm.
    by rewrite Hnil in Hin; apply not_elem_of_nil in Hin. }
  destruct (get_highest_ready_prio_spec k (rq_index k (cache k)) Hok Hidx) as (Hi & Hbit & _).
  { by apply Hb. }
  apply Hb in Hbit; [|lia].
  destruct (decide (_get_ready_q_q_index (_get_highest_ready_prio k) < rq_index k (cache k))) as [Hlt|].
  - by apply Hl in Hlt.
  - unfold rq_index, _get_ready_q_q_index in *. lia.
Qed.

(** No thread on the ready queues has a higher priority than the cached one. *)
Lemma rq_inv_cache_max R k t : rq_inv R k → R t → prio (thr k (cache k)) ≤ prio (thr k t).
Proof.
  intros Hrq Ht. pose proof Hrq as [Hm _ _ _ _ _].
  destruct (rq_cache_mem _ _ Hrq) as (HRc & _ & Hl).
  assert (t ∈ q k (RQ (rq_index k t))) as Hin by by apply Hm.
  destruct (decide (rq_index k t < rq_index k (cache k))) as [Hlt|].
  - rewrite (Hl _ Hlt) in Hin. by apply not_elem_of_nil in Hin.
  - unfold rq_index, _get_ready_q_q_index in *. lia.
Qed.

End rq.

(** ** The kernel invariant *)
(** [armed k d]: the timeout of the delayed work item [d] is pending or about to be handled. *)
Definition armed (k : kernel) (d : nat) : Prop := TWork d ∈ timeout_q k ∨ delta k (TWork d) ≠ _INACTIVE.
(** [gone k t]: the thread [t] was aborted or never created (or is the dummy
    thread that runs before the scheduler is set up). *)
Definition gone_state (x : k_thread) : bool := Z.testbit (thread_state x) 3 || Z.testbit (thread_state x) 0.
Definition gone (k : kernel) (t : tid) : bool := gone_state (thr k t).
(** [calm k k']: threads that are gone stay gone, and no delayed work item is armed. *)
Definition calm (k k' : kernel) : Prop :=
  (∀ t, gone k t = true → gone k' t = true) ∧ (∀ d, armed k' d → armed k d).
#[export] Instance calm_preorder : PreOrder calm.
Proof.
  split; [by intros k; split|]. intros k1 k2 k3 [D1 A1] [D2 A2]. split; auto.
Qed.
Lemma calm_timeouts k k' : threads k' = threads k → (∀ d, armed k' d → armed k d) → calm k k'.
Proof. intros Et Ha. split; [|done]. intros t. unfold gone, thr. by rewrite Et. Qed.
Lemma calm_same k k' : threads k' = threads k → timeout_q k' = timeout_q k → timeouts k' = timeouts k → calm k k'.
Proof. intros Et Eq Em. apply calm_timeouts; [done|]. intros d. unfold armed, delta, tmo. by rewrite Eq, Em. Qed.

(** Functions that do not raise a dead thread or arm a timeout. *)
Class KeepsDead (f : k_thread → k_thread) : Prop := keeps_dead : ∀ x, gone_state x = true → gone_state (f x) = true.
#[export] Hint Extern 1 (KeepsDead _) => exact (λ x Hx, Hx) : typeclass_instances.
#[export] Instance keeps_dead_set n : KeepsDead (λ x, set_thread_state (u8 (Z.lor (thread_state x) n)) x).
Proof.
  intros x. unfold gone_state. cbn [thread_state set_thread_state]. rewrite !testbit_u8, !Z.lor_spec by lia.
  intros [->| ->]%orb_true_iff; by rewrite ?orb_true_r.
Qed.
Lemma keeps_dead_reset n : 0 ≤ n → n ≠ 3 → n ≠ 0 → KeepsDead (λ x, set_thread_state (u8 (Z.land (thread_state x) (Z.lnot (2 ^ n)))) x).
Proof.
  intros Hn Hn3 Hn0 x. unfold gone_state. cbn [thread_state set_thread_state].
  rewrite !testbit_u8, !Z.land_spec, !Z.lnot_spec, !Z.pow2_bits_eqb by lia.
  rewrite (proj2 (Z.eqb_neq n 3)), (proj2 (Z.eqb_neq n 0)) by done. by rewrite !andb_true_r.
Qed.
#[export] Instance keeps_dead_prestart : KeepsDead (λ x, set_thread_state (u8 (Z.land (thread_state x) (Z.lnot _THREAD_PRESTART))) x).
Proof. by apply (keeps_dead_reset 2). Qed.
#[export] Instance keeps_dead_pending : KeepsDead (λ x, set_thread_state (u8 (Z.land (thread_state x) (Z.lnot _THREAD_PENDING))) x).
Proof. by apply (keeps_dead_reset 1). Qed.
#[export] Instance keeps_dead_suspended : KeepsDead (λ x, set_thread_state (u8 (Z.land (thread_state x) (Z.lnot _THREAD_SUSPENDED))) x).
Proof. by apply (keeps_dead_reset 4). Qed.
Class Disarms (f : timeout → timeout) : Prop :=
  disarms : ∀ x, delta_ticks_from_prev (f x) ≠ _INACTIVE → delta_ticks_from_prev x ≠ _INACTIVE.
#[export] Hint Extern 1 (Disarms _) => exact (λ x Hx, Hx) : typeclass_instances.
#[export] Instance disarms_inactive : Disarms (set_delta_ticks_from_prev (s32 _INACTIVE)).
Proof. by intros x. Qed.

Lemma calm_upd_thread t f k : KeepsDead f → calm k (upd_thread t f k).
Proof.
  intros Hf. split; [|done]. intros t'. unfold gone, thr, upd_thread. simpl. destruct (decide (t = t')) as [<-|Hne].
  - rewrite lookup_total_insert_eq. apply Hf.
  - by rewrite lookup_total_insert_ne.
Qed.
Lemma calm_upd_timeout i f k : (∀ d, i = TWork d → armed k d) ∨ Disarms f → calm k (upd_timeout i f k).
Proof.
  intros Hf. apply calm_timeouts; [done|]. intros d [Hd|Hd]; [by left|]. unfold delta, tmo, upd_timeout in Hd. simpl in Hd.
  destruct (decide (i = TWork d)) as [->|Hne]; [|right; by rewrite lookup_total_insert_ne in Hd]. destruct Hf as [Hf|Hf]; [by apply Hf|right].
  rewrite lookup_total_insert_eq in Hd. by apply Hf.
Qed.

Lemma calm_frame k1 k2 k1' k2' :
  calm k1 k2 → threads k1' = threads k1 → timeout_q k1' = timeout_q k1 → timeouts k1' = timeouts k1 →
  threads k2' = threads k2 → timeout_q k2' = timeout_q k2 → timeouts k2' = timeouts k2 → calm k1' k2'.
Proof. intros Hc ? ? ? ? ? ?. trans k1; [by apply calm_same|]. trans k2; [done|by apply calm_same]. Qed.
(** [calm] of a step that updates at most one thread, among other things that do not matter for it. *)
Ltac calm_done :=
  first [by apply calm_same
        |match goal with |- calm ?k ?k' => match k' with context [upd_thread ?t ?f ?k0] =>
           apply (calm_frame k0 (upd_thread t f k0)); [by apply calm_upd_thread, _|done..] end end].

(** [sframe] of a step that does not touch the threads. *)
Ltac sframe_done := split; [done|split; [reflexivity|first [by apply calm_same|by apply calm_upd_timeout; right; apply _]]].

(** [same_objects] of a step that updates threads in place. *)
Ltac objects_done :=
  split_and!; try done;
  match goal with |- calm _ _ => calm_done | |- _ => cbn; rewrite ?dom_insert_L; clear; set_solver end.

Section kinv.
Context `{KConfig}.

(** A valid thread structure.  Only the idle thread has the idle priority. *)
Definition thread_ok (t : tid) (x : k_thread) : Prop :=
  K_HIGHEST_THREAD_PRIO ≤ prio x ∧
  (if decide (t = _idle_thread) then prio x = K_IDLE_PRIO
   else prio x ≤ K_LOWEST_APPLICATION_THREAD_PRIO) ∧
  0 ≤ sched_locked x < 256.

(** The threads that are on the ready queues. *)
Definition runnable (X : gset tid) (k : kernel) (t : tid) : Prop :=
  t ∈ dom (threads k) ∧ t ∉ X ∧ _is_thread_ready t k = true.

Record kinv (X : gset tid) (E : list timeout_id) (k : kernel) : Prop := {
  inv_current : current k ∈ dom (threads k);
  inv_idle : runnable X k _idle_thread;
  inv_thread : ∀ t, t ∈ dom (threads k) → thread_ok t (thr k t);
  inv_rq : rq_inv (runnable X k) k;
  inv_wq_nodup : ∀ w, NoDup (q k (WQ w));
  inv_wq : ∀ t w, t ∈ q k (WQ w) → t ∈ dom (threads k) ∧ _is_thread_pending t k = true;
  inv_wq_unique : ∀ t w w', t ∈ q k (WQ w) → t ∈ q k (WQ w') → w = w';
  inv_pend : ∀ t, t ∈ dom (threads k) → t ∉ X → _is_thread_pending t k = true →
    ∃ w, t ∈ q k (WQ w);
  inv_tq : tq_inv E k;
  inv_tq_pos : tq_pos k;
  inv_tthread : ∀ t, delta k (TThread t) ≠ _INACTIVE →
    t ∈ dom (threads k) ∧ to_thread (tmo k (TThread t)) = Some t ∧
    (t ∉ X → to_wait_q (tmo k (TThread t)) = None ↔ _is_thread_pending t k = false);
  inv_tother : ∀ i, (∀ t, i ≠ TThread t) → delta k i ≠ _INACTIVE → to_thread (tmo k i) = None;
  inv_handling : E ≠ [] → handling_timeouts k = true;
  inv_forever : ∀ t o, t ∉ X → t ∈ q k (WQ (KTimer, o)) → delta k (TThread t) = _INACTIVE;
}.

Lemma thread_ok_prio t x : thread_ok t x → prio_ok (prio x).
Proof.
  intros (? & Hp & _). unfold prio_ok. split; [done|].
  unfold K_IDLE_PRIO, K_LOWEST_APPLICATION_THREAD_PRIO, K_LOWEST_THREAD_PRIO in *. case_decide; lia.
Qed.

Lemma ready_ext t k k' :
  thread_state (thr k' t) = thread_state (thr k t) →
  (delta k' (TThread t) = _INACTIVE ↔ delta k (TThread t) = _INACTIVE) →
  _is_thread_ready t k' = _is_thread_ready t k.
Proof.
  intros Hs Hd. unfold _is_thread_ready, _is_thread_prevented_from_running, _is_thread_timeout_active.
  rewrite Hs. do 3 f_equal. fold (delta k (TThread t)) (delta k' (TThread t)).
  apply eq_true_iff_eq. by rewrite !Z.eqb_eq.
Qed.
Lemma pending_ext t k k' :
  thread_state (thr k' t) = thread_state (thr k t) →
  _is_thread_pending t k' = _is_thread_pending t k.
Proof. intros Hs. unfold _is_thread_pending, _is_thread_state_set. by rewrite Hs. Qed.

Lemma same_timeout_inactive k k' j :
  same_timeout k k' j → delta k' j = _INACTIVE ↔ delta k j = _INACTIVE.
Proof. intros (_ & _ & _ & Hd). unfold _INACTIVE. lia. Qed.

(** A timeout as the scheduler sees it: active or not, and for whom. *)
Definition like_timeout (k k' : kernel) (j : timeout_id) : Prop :=
  to_thread (tmo k' j) = to_thread (tmo k j) ∧ to_wait_q (tmo k' j) = to_wait_q (tmo k j) ∧
  (delta k' j = _INACTIVE ↔ delta k j = _INACTIVE).
Lemma same_like_timeout k k' j : same_timeout k k' j → like_timeout k k' j.
Proof. intros Hs. pose proof (same_timeout_inactive _ _ _ Hs). by destruct Hs as (? & ? & _). Qed.

Lemma kinv_idle_prio X E k : kinv X E k → _idle_thread ∉ X.
Proof. intros Hk. by destruct (inv_idle _ _ _ Hk) as (_ & ? & _). Qed.

Lemma thr_upd t f k t' : thr (upd_thread t f k) t' = if decide (t = t') then f (thr k t') else thr k t'.
Proof. unfold thr, upd_thread. simpl. rewrite lookup_total_ins. by case_decide; subst. Qed.
Lemma upd_thread_twice t f g k : upd_thread t g (upd_thread t f k) = upd_thread t (λ x, g (f x)) k.
Proof.
  unfold upd_thread at 1. rewrite thr_upd, decide_True by done. destruct k. unfold upd_thread, set_threads. simpl.
  f_equal. apply insert_insert_eq.
Qed.
Lemma upd_thread_id t f k : t ∈ dom (threads k) → f (thr k t) = thr k t → upd_thread t f k = k.
Proof.
  intros Ht Hf. unfold upd_thread. rewrite Hf. destruct k. unfold set_threads, thr. simpl in *. f_equal.
  apply insert_id. by apply lookup_lookup_total_dom.
Qed.
Lemma dom_upd t f k : t ∈ dom (threads k) → dom (threads (upd_thread t f k)) = dom (threads k).
Proof. intros Ht. simpl. rewrite dom_insert_L. set_solver. Qed.

(** Changes outside the fields the invariant reads. *)
Lemma kinv_frame X E k k' :
  kinv X E k → current k' ∈ dom (threads k) → threads k' = threads k → queues k' = queues k →
  cache k' = cache k → prio_bmap k' = prio_bmap k → timeout_q k' = timeout_q k →
  timeouts k' = timeouts k → handling_timeouts k' = handling_timeouts k → kinv X E k'.
Proof.
  destruct k, k'. simpl. intros Hk Hc -> -> -> -> -> -> ->.
  destruct Hk as [? ? ? Hrq ? ? ? ? Htq ? ? ? ?]. split; try done.
  - by eapply rq_inv_frame.
  - by eapply tq_inv_frame.
Qed.
(** ** Threads in between queues *)

(** A thread that is not ready can be taken to be in between. *)
Lemma kinv_enter X E k t :
  kinv X E k → _is_thread_ready t k = false → kinv ({[t]} ∪ X) E k.
Proof.
  intros Hk Hr.
  assert (∀ t', runnable ({[t]} ∪ X) k t' ↔ runnable X k t') as HR.
  { intros t'. unfold runnable. rewrite not_elem_of_union, elem_of_singleton.
    destruct (decide (t' = t)); naive_solver congruence. }
  destruct Hk as [? Hi ? Hrq ? ? ? Hp Htq ? Htt ? ? Hfo]. split; try done.
  - by apply HR.
  - by eapply rq_inv_frame.
  - intros t' ? Ht'. apply Hp; [done|]. set_solver.
  - intros t' Ht'. destruct (Htt t' Ht') as (? & ? & Hw). split_and!; [done..|]. intros. apply Hw. set_solver.
  - intros t' o Ht'. apply Hfo. set_solver.
Qed.

(** It leaves again when it is blocked, with its timeout set up for that. *)
Lemma kinv_leave X E k t :
  kinv ({[t]} ∪ X) E k → _is_thread_ready t k = false →
  (_is_thread_pending t k = true → ∃ w, t ∈ q k (WQ w)) →
  (delta k (TThread t) ≠ _INACTIVE →
    to_wait_q (tmo k (TThread t)) = None ↔ _is_thread_pending t k = false) →
  (∀ o, t ∈ q k (WQ (KTimer, o)) → delta k (TThread t) = _INACTIVE) →
  kinv X E k.
Proof.
  intros Hk Hr Hpend Hto Hfor.
  assert (∀ t', runnable X k t' ↔ runnable ({[t]} ∪ X) k t') as HR.
  { intros t'. unfold runnable. rewrite not_elem_of_union, elem_of_singleton.
    destruct (decide (t' = t)); naive_solver congruence. }
  destruct Hk as [? Hi ? Hrq ? ? ? Hp Htq ? Htt ? ? Hfo]. split; try done.
  - by apply HR.
  - by eapply rq_inv_frame.
  - intros t' ? Ht'. destruct (decide (t' = t)) as [->|]; [done|]. apply Hp; [done|]. set_solver.
  - intros t' Ht'. destruct (Htt t' Ht') as (? & ? & Hw). split_and!; [done..|].
    destruct (decide (t' = t)) as [->|]; [auto|]. intros. apply Hw. set_solver.
  - intros t' o Ht' Hin. destruct (decide (t' = t)) as [->|]; [by apply (Hfor o)|]. apply (Hfo t' o); [set_solver|done].
Qed.

(** ** Thread fields *)

(** The fields of a thread in between may change freely, as long as a thread
    on a wait queue stays marked pending. *)
Lemma kinv_upd_between X E k t f :
  kinv X E k → t ∈ X → t ∈ dom (threads k) → thread_ok t (f (thr k t)) →
  ((∃ w, t ∈ q k (WQ w)) → Z.testbit (thread_state (f (thr k t))) 1 = true) →
  kinv X E (upd_thread t f k).
Proof.
  intros Hk HX Ht Hok Hw.
  assert (∀ t', t' ≠ t → thr (upd_thread t f k) t' = thr k t') as Hthr.
  { intros. rewrite thr_upd. by rewrite decide_False. }
  assert (∀ t', t' ≠ t → _is_thread_pending t' (upd_thread t f k) = _is_thread_pending t' k) as Hpe.
  { intros. apply pending_ext. by rewrite Hthr. }
  assert (∀ t', runnable X (upd_thread t f k) t' ↔ runnable X k t') as HR.
  { intros t'. unfold runnable. rewrite dom_upd by done. destruct (decide (t' = t)) as [->|]; [tauto|].
    rewrite (ready_ext t' k (upd_thread t f k)); [done| |done]. by rewrite Hthr. }
  destruct Hk as [? Hi Hth Hrq ? Hwq ? Hp Htq ? Htt ? ?]. split; rewrite ?dom_upd by done; try done.
  - by apply HR.
  - intros t' Ht'. rewrite thr_upd. case_decide; [by subst|auto].
  - eapply rq_inv_frame; [done|done|done| |done|done]. intros t' (_ & Ht' & _).
    rewrite Hthr; [done|]. by intros ->.
  - intros t' w Hin. destruct (Hwq t' w Hin) as [Hd Hpt]. split; [done|].
    destruct (decide (t' = t)) as [->|]; [|by rewrite Hpe].
    rewrite pending_flag. unfold flag. rewrite thr_upd, decide_True by done. apply Hw. by exists w.
  - intros t' ? Ht' Hpt. assert (t' ≠ t) by (by intros ->). rewrite Hpe in Hpt by done. auto.
  - by eapply tq_inv_frame.
  - intros t' Ht'. destruct (Htt t' Ht') as (? & ? & Hwn). split_and!; [done..|].
    intros HX'. assert (t' ≠ t) by (by intros ->). rewrite Hpe by done. auto.
Qed.

(** Fields that no queue depends on may change for any thread. *)
Lemma kinv_upd_keep X E k t f :
  kinv X E k → t ∈ dom (threads k) → thread_ok t (f (thr k t)) →
  thread_state (f (thr k t)) = thread_state (thr k t) → prio (f (thr k t)) = prio (thr k t) →
  kinv X E (upd_thread t f k).
Proof.
  intros Hk Ht Hok Hst Hpr.
  assert (∀ t', thread_state (thr (upd_thread t f k) t') = thread_state (thr k t')) as Hs.
  { intros t'. rewrite thr_upd. case_decide; [by subst|done]. }
  assert (∀ t', runnable X (upd_thread t f k) t' ↔ runnable X k t') as HR.
  { intros t'. unfold runnable. rewrite dom_upd by done. by rewrite (ready_ext t' k (upd_thread t f k)). }
  assert (∀ t', _is_thread_pending t' (upd_thread t f k) = _is_thread_pending t' k) as Hpe.
  { intros. by apply pending_ext. }
  destruct Hk as [? Hi Hth Hrq ? Hwq ? Hp Htq ? Htt ? ?]. split; rewrite ?dom_upd by done; try done.
  - by apply HR.
  - intros t' Ht'. rewrite thr_upd. case_decide; [by subst|auto].
  - eapply rq_inv_frame; [done|done|done| |done|done]. intros t' _.
    rewrite thr_upd. case_decide; [by subst|done].
  - intros t' w. rewrite Hpe. apply Hwq.
  - intros t'. rewrite Hpe. apply Hp.
  - by eapply tq_inv_frame.
  - intros t'. rewrite Hpe. apply Htt.
Qed.

(** ** Ready queues *)
Lemma dom_add t k : threads (_add_thread_to_ready_q t k) = threads k.
Proof. done. Qed.

Lemma kinv_add X E k t :
  kinv ({[t]} ∪ X) E k → t ∉ X → t ∈ dom (threads k) → _is_thread_ready t k = true →
  kinv X E (_add_thread_to_ready_q t k).
Proof.
  intros Hk HX Ht Hr. set (k' := _add_thread_to_ready_q t k).
  assert (∀ t', runnable X k' t' ↔ t' = t ∨ runnable ({[t]} ∪ X) k t') as HR.
  { intros t'. change (runnable X k' t') with (runnable X k t'). unfold runnable.
    rewrite not_elem_of_union, elem_of_singleton. destruct (decide (t' = t)); naive_solver. }
  assert (∀ w, q k' (WQ w) = q k (WQ w)) as Hq.
  { intros w. unfold k'. by rewrite q_add, decide_False. }
  pose proof Hk as Hk0. destruct Hk as [? Hi Hth Hrq ? Hwq ? Hp Htq ? Htt ? ?]. split; try done.
  - apply HR. by right.
  - eapply rq_inv_frame; [apply (rq_inv_add _ k t Hrq)|done..].
    + intros (_ & Hn & _). set_solver.
    + eapply thread_ok_prio. by apply Hth.
  - intros w. by rewrite Hq.
  - intros t' w. rewrite Hq. apply Hwq.
  - intros t' w w'. rewrite !Hq. eauto.
  - intros t' ? ? Hpt. destruct (decide (t' = t)) as [->|].
    + apply ready_not_pending in Hr. by change (_is_thread_pending t k = true) in Hpt; rewrite Hr in Hpt.
    + destruct (Hp t') as [w Hw]; [done|set_solver|done|]. exists w. by rewrite Hq.
  - by eapply tq_inv_frame.
  - intros t' Ht'. change (delta k (TThread t') ≠ _INACTIVE) in Ht'.
    destruct (Htt t' Ht') as (? & ? & Hw). split_and!; [done..|]. intros HX'. apply Hw.
    assert (t' ≠ t); [|set_solver]. intros ->. by apply ready_inactive in Hr.
  - intros t' o HX'. rewrite Hq. change (delta k' (TThread t')) with (delta k (TThread t')).
    destruct (decide (t' = t)) as [->|]; [by apply ready_inactive in Hr|]. apply (inv_forever _ _ _ Hk0). set_solver.
Qed.

Lemma kinv_remove X E k t :
  kinv X E k → runnable X k t → t ≠ _idle_thread →
  kinv ({[t]} ∪ X) E (_remove_thread_from_ready_q t k).
Proof.
  intros Hk (Ht & HX & Hr) Hidle. set (k' := _remove_thread_from_ready_q t k).
  assert (k' = set_queues (queues k') (set_prio_bmap (prio_bmap k') (set_cache (cache k') k))) as Hfr.
  { unfold k', _remove_thread_from_ready_q. cbv zeta. destruct (decide (q _ _ = [])); by destruct k. }
  assert (∀ w, q k' (WQ w) = q k (WQ w)) as Hq.
  { intros w. unfold k'. rewrite q_remove_ready. apply without_notin. intros Hin.
    apply (inv_wq _ _ _ Hk) in Hin as [_ Hp]. by rewrite ready_not_pending in Hp. }
  assert (threads k' = threads k ∧ timeouts k' = timeouts k ∧ timeout_q k' = timeout_q k ∧
    current k' = current k ∧ handling_timeouts k' = handling_timeouts k) as (Et & Eto & Eq & Ec & Eh).
  { rewrite Hfr. by split_and!. }
  assert (∀ t', thr k' t' = thr k t') as Hthr by (intros; unfold thr; by rewrite Et).
  assert (∀ i, tmo k' i = tmo k i) as Htm by (intros; unfold tmo; by rewrite Eto).
  assert (∀ i, delta k' i = delta k i) as Hd by (intros; unfold delta; by rewrite Htm).
  assert (∀ t', _is_thread_ready t' k' = _is_thread_ready t' k) as Hre.
  { intros. apply ready_ext; by rewrite ?Hthr, ?Hd. }
  assert (∀ t', _is_thread_pending t' k' = _is_thread_pending t' k) as Hpe.
  { intros. apply pending_ext. by rewrite Hthr. }
  assert (∀ t', runnable ({[t]} ∪ X) k' t' ↔ t' ≠ t ∧ runnable X k t') as HR.
  { intros t'. unfold runnable. rewrite Et, Hre. set_solver. }
  pose proof Hk as [? Hi Hth Hrq ? Hwq ? Hp Htq Hpos Htt ? ?]. split; rewrite ?Et, ?Ec; try done.
  - apply HR. done.
  - intros t' ?. rewrite Hthr. auto.
  - eapply rq_inv_frame; [apply (rq_inv_remove _ k t _idle_thread Hrq)|..]; done.
  - intros w. by rewrite Hq.
  - intros t' w. rewrite Hq, Hpe. apply Hwq.
  - intros t' w w'. rewrite !Hq. eauto.
  - intros t' ? HX'. rewrite Hpe. intros Hpt. destruct (Hp t') as [w Hw]; [done|set_solver|done|]. exists w. by rewrite Hq.
  - by eapply tq_inv_frame.
  - intros i. rewrite Eq, Hd. apply Hpos.
  - intros t'. rewrite Hd, Htm, Hpe. intros Ht'. destruct (Htt t' Ht') as (? & ? & Hw). split_and!; [done..|].
    intros. apply Hw. set_solver.
  - intros i. rewrite Hd, Htm. auto.
  - rewrite Eh. auto.
  - intros t' o HX'. rewrite Hq, Hd. apply (inv_forever _ _ _ Hk). set_solver.
Qed.

Lemma kinv_move X E k t :
  kinv X E k → runnable X k t → kinv X E (_move_thread_to_end_of_prio_q t k).
Proof.
  intros Hk Hr. pose proof (rq_inv_move _ _ _ (inv_rq _ _ _ Hk) Hr) as Hrq'.
  revert Hrq'. unfold _move_thread_to_end_of_prio_q. cbv zeta. case_decide; [done|].
  fold (rq_index k t). set (k' := set_cache _ _). intros Hrq'.
  assert (∀ w, q k' (WQ w) = q k (WQ w)) as Hq.
  { intros w. change (q k' (WQ w)) with (q (q_append (RQ (rq_index k t)) t (q_remove t k)) (WQ w)).
    rewrite q_append_lookup, decide_False, q_remove_lookup by done. apply without_notin. intros Hin.
    apply (inv_wq _ _ _ Hk) in Hin as [_ Hp]. destruct Hr as (_ & _ & Hr). by rewrite ready_not_pending in Hp. }
  destruct Hk as [? Hi Hth Hrq ? Hwq ? Hp Htq ? Htt ? ? Hfo]. split; try done.
  - intros w. by rewrite Hq.
  - intros t' w. rewrite Hq. apply Hwq.
  - intros t' w w'. rewrite !Hq. eauto.
  - intros t' ? HX' Hpt. destruct (Hp t') as [w Hw]; [done..|]. exists w. by rewrite Hq.
  - by eapply tq_inv_frame.
  - intros t' o. rewrite Hq. apply Hfo.
Qed.

(** ** Timeouts *)
Lemma kinv_tq_change X E E' k k' :
  kinv X E k → k' = set_timeout_q (timeout_q k') (set_timeouts (timeouts k') k) →
  tq_inv E' k' → tq_pos k' → (E' ≠ [] → handling_timeouts k = true) →
  (∀ t, t ∉ X → like_timeout k k' (TThread t)) →
  (∀ t, t ∈ X → delta k' (TThread t) ≠ _INACTIVE →
    t ∈ dom (threads k) ∧ to_thread (tmo k' (TThread t)) = Some t) →
  (∀ i, (∀ t, i ≠ TThread t) → delta k' i ≠ _INACTIVE → to_thread (tmo k' i) = None) →
  kinv X E' k'.
Proof.
  intros Hk Hfr Htq' Hpos' Hh' Hs HX Ho.
  assert (threads k' = threads k ∧ queues k' = queues k ∧ cache k' = cache k ∧
    prio_bmap k' = prio_bmap k ∧ current k' = current k ∧
    handling_timeouts k' = handling_timeouts k) as (Et & Eq & Eca & Eb & Ec & Eh).
  { rewrite Hfr. by split_and!. }
  assert (∀ t', thr k' t' = thr k t') as Hthr by (intros; unfold thr; by rewrite Et).
  assert (∀ r, q k' r = q k r) as Hq by (intros; unfold q; by rewrite Eq).
  assert (∀ t', _is_thread_pending t' k' = _is_thread_pending t' k) as Hpe.
  { intros. apply pending_ext. by rewrite Hthr. }
  assert (∀ t', runnable X k' t' ↔ runnable X k t') as HR.
  { intros t'. unfold runnable. rewrite Et. destruct (decide (t' ∈ X)) as [|Hn]; [tauto|].
    rewrite (ready_ext t' k k'); [done|by rewrite Hthr|]. by apply Hs. }
  destruct Hk as [? Hi Hth Hrq ? Hwq ? Hp Htq Hpos Htt ? ? Hfo]. split; rewrite ?Et, ?Ec, ?Eh; try done.
  - by apply HR.
  - intros t ?. rewrite Hthr. auto.
  - eapply rq_inv_frame; [done|done|by intros; rewrite Hq|by intros; rewrite Hthr|done|done].
  - intros w. by rewrite Hq.
  - intros t w. rewrite Hq, Hpe. apply Hwq.
  - intros t w w'. rewrite !Hq. eauto.
  - intros t. rewrite Hpe. setoid_rewrite Hq. apply Hp.
  - intros t Ht. destruct (decide (t ∈ X)) as [Hin|Hn].
    { destruct (HX t Hin Ht). split_and!; [done..|]. done. }
    destruct (Hs t Hn) as (-> & -> & Hst). rewrite Hst in Ht. rewrite Hpe. by apply Htt.
  - intros t o Hn. rewrite Hq. intros Hin. apply (Hs t Hn). by apply (Hfo t o).
Qed.

Lemma kinv_add_thread_timeout X E k t w n :
  kinv X E k → t ∈ X → t ∈ dom (threads k) → delta k (TThread t) = _INACTIVE → 0 < n ≤ INT32_MAX →
  kinv X E (_add_thread_timeout t w n k).
Proof.
  intros Hk HX Ht Hd Hn. unfold _add_thread_timeout.
  destruct (add_timeout_spec (λ _ _ k, k) (Some t) (TThread t) w n E k (inv_tq _ _ _ Hk) Hd Hn)
    as (Htq & Hpos & _ & Hfr & Hs & Hth & _).
  eapply kinv_tq_change; [done|done|done| | | | |].
  - apply Hpos, Hk.
  - apply Hk.
  - intros t' Ht'. apply same_like_timeout, Hs. by intros [= ->].
  - intros t' Ht' Hact. destruct (decide (t' = t)) as [->|Hne]; [done|].
    assert (TThread t' ≠ TThread t) as Hne' by congruence. pose proof (Hs _ Hne') as Hst.
    rewrite (same_timeout_inactive _ _ _ Hst) in Hact. destruct Hst as (-> & _).
    by destruct (inv_tthread _ _ _ Hk t' Hact) as (? & ? & _).
  - intros i Hi Hact. pose proof (Hs i (Hi t)) as Hst.
    rewrite (same_timeout_inactive _ _ _ Hst) in Hact. destruct Hst as (-> & _).
    by apply (inv_tother _ _ _ Hk).
Qed.

(** A timeout that wakes no thread: of a timer or of delayed work. *)
Lemma kinv_add_other_timeout X E k call i w n :
  kinv X E k → (∀ t, i ≠ TThread t) → delta k i = _INACTIVE → 0 < n ≤ INT32_MAX →
  kinv X E (_add_timeout call None i w n k).
Proof.
  intros Hk Hi Hd Hn.
  destruct (add_timeout_spec call None i w n E k (inv_tq _ _ _ Hk) Hd Hn)
    as (Htq & Hpos & _ & Hfr & Hs & Hth & _).
  eapply kinv_tq_change; [done|done|done| | | | |].
  - apply Hpos, Hk.
  - apply Hk.
  - intros t' _. apply same_like_timeout, Hs. by intros <-; apply (Hi t').
  - intros t' Ht' Hact. assert (TThread t' ≠ i) as Hne' by (by intros <-; apply (Hi t')).
    pose proof (Hs _ Hne') as Hst. rewrite (same_timeout_inactive _ _ _ Hst) in Hact.
    destruct Hst as (-> & _). by destruct (inv_tthread _ _ _ Hk t' Hact) as (? & ? & _).
  - intros j Hj Hact. destruct (decide (j = i)) as [->|Hne]; [done|]. pose proof (Hs j Hne) as Hst.
    rewrite (same_timeout_inactive _ _ _ Hst) in Hact. destruct Hst as (-> & _).
    by apply (inv_tother _ _ _ Hk).
Qed.

Lemma kinv_abort_timeout X E k i :
  kinv X E k → i ∉ E → (∀ t, i = TThread t → t ∈ X) →
  kinv X E (_abort_timeout i k).2 ∧ delta (_abort_timeout i k).2 i = _INACTIVE.
Proof.
  intros Hk HiE HiX. pose proof (abort_timeout_spec i E k (inv_tq _ _ _ Hk) HiE) as Hab.
  destruct (_abort_timeout i k) as [r k']. destruct Hab as (_ & Htq & Hpos & _ & Hfr & Hs & Hd).
  simpl. split; [|done]. eapply kinv_tq_change; [done|done|done| | | | |].
  - apply Hpos, Hk.
  - apply Hk.
  - intros t Ht. apply same_like_timeout, Hs. intros <-. by specialize (HiX t eq_refl).
  - intros t Ht Hact. destruct (decide (i = TThread t)) as [->|Hne]; [done|].
    pose proof (Hs _ (not_eq_sym Hne)) as Hst. rewrite (same_timeout_inactive _ _ _ Hst) in Hact.
    destruct Hst as (-> & _). by destruct (inv_tthread _ _ _ Hk t Hact) as (? & ? & _).
  - intros j Hj Hact. destruct (decide (j = i)) as [->|Hne]; [done|]. pose proof (Hs j Hne) as Hst.
    rewrite (same_timeout_inactive _ _ _ Hst) in Hact. destruct Hst as (-> & _).
    by apply (inv_tother _ _ _ Hk).
Qed.

(** ** Wait queues *)
Lemma kinv_between_not_ready X E k t i : kinv X E k → t ∈ X → t ∉ q k (RQ i).
Proof. intros Hk HX Hin. apply (rq_mem _ _ (inv_rq _ _ _ Hk)) in Hin as [(_ & Hn & _) _]. done. Qed.

(** Unlinking a thread in between, and the queues of the others. *)
Lemma kinv_q_remove X E k t :
  kinv X E k → t ∈ X → kinv X E (q_remove t k) ∧ ∀ w, t ∉ q (q_remove t k) (WQ w).
Proof.
  intros Hk HX.
  assert (∀ i, q (q_remove t k) (RQ i) = q k (RQ i)) as Hrqs.
  { intros i. rewrite q_remove_lookup. apply without_notin. by eapply kinv_between_not_ready. }
  split; [|intros w; rewrite q_remove_lookup, elem_of_without; naive_solver].
  destruct Hk as [? Hi Hth Hrq ? Hwq Hu Hp Htq ? Htt ? ? Hfo]. split; try done.
  - by eapply rq_inv_frame.
  - intros w. rewrite q_remove_lookup. by apply NoDup_without.
  - intros t' w. rewrite q_remove_lookup, elem_of_without. intros [_ Hin]. by apply (Hwq _ w).
  - intros t' w w'. rewrite !q_remove_lookup, !elem_of_without. intros [_ ?] [_ ?]. eauto.
  - intros t' Ht' HX' Hpt. destruct (Hp t' Ht' HX' Hpt) as [w Hw]. exists w.
    rewrite q_remove_lookup, elem_of_without. split; [|done]. by intros ->.
  - by eapply tq_inv_frame.
  - intros t' o HX'. rewrite q_remove_lookup, elem_of_without. intros [_ Hin]. by apply (Hfo t' o).
Qed.

(** ** State flags *)
Lemma flag_set t n k t' m : 0 ≤ m < 8 → 0 ≤ n →
  flag (_set_thread_states t (2 ^ n) k) t' m =
    if decide (t = t') then flag k t' m || (n =? m) else flag k t' m.
Proof.
  intros Hm Hn. unfold flag, _set_thread_states. rewrite thr_upd. case_decide; [|done]. simpl.
  by rewrite testbit_u8, Z.lor_spec, Z.pow2_bits_eqb by done.
Qed.
Lemma flag_reset t n k t' m : 0 ≤ m < 8 → 0 ≤ n →
  flag (_reset_thread_states t (2 ^ n) k) t' m =
    if decide (t = t') then flag k t' m && negb (n =? m) else flag k t' m.
Proof.
  intros Hm Hn. unfold flag, _reset_thread_states. rewrite thr_upd. case_decide; [|done]. simpl.
  by rewrite testbit_u8, Z.land_spec, Z.lnot_spec, Z.pow2_bits_eqb by lia.
Qed.

Lemma thread_ok_state t x st : thread_ok t (set_thread_state st x) ↔ thread_ok t x.
Proof. done. Qed.

(** Marking a thread in between, with any flag but the pending one. *)
Lemma kinv_set_state X E k t n :
  kinv X E k → t ∈ X → t ∈ dom (threads k) → 0 ≤ n → kinv X E (_set_thread_states t (2 ^ n) k).
Proof.
  intros Hk HX Ht Hn. apply kinv_upd_between; [done..| |].
  - apply thread_ok_state. by apply Hk.
  - intros [w Hw]. apply (inv_wq _ _ _ Hk) in Hw as [_ Hp]. rewrite pending_flag in Hp.
    pose proof (flag_set t n k t 1 ltac:(lia) Hn) as Hf. rewrite decide_True, Hp in Hf by done.
    unfold flag, _set_thread_states in Hf. by rewrite thr_upd, decide_True in Hf.
Qed.
Lemma kinv_reset_state X E k t n :
  kinv X E k → t ∈ X → t ∈ dom (threads k) → 0 ≤ n →
  ((∃ w, t ∈ q k (WQ w)) → n ≠ 1) → kinv X E (_reset_thread_states t (2 ^ n) k).
Proof.
  intros Hk HX Ht Hn Hne. apply kinv_upd_between; [done..| |].
  - apply thread_ok_state. by apply Hk.
  - intros Hex. specialize (Hne Hex). destruct Hex as [w Hw].
    apply (inv_wq _ _ _ Hk) in Hw as [_ Hp]. rewrite pending_flag in Hp.
    pose proof (flag_reset t n k t 1 ltac:(lia) Hn) as Hf.
    rewrite decide_True, Hp, (proj2 (Z.eqb_neq n 1) Hne) in Hf by done.
    unfold flag, _reset_thread_states in Hf. by rewrite thr_upd, decide_True in Hf.
Qed.

Lemma kinv_unpend X E k t :
  kinv X E k → t ∈ X → t ∈ dom (threads k) →
  kinv X E (_unpend_thread t k) ∧ _is_thread_pending t (_unpend_thread t k) = false ∧
  ∀ w, t ∉ q (_unpend_thread t k) (WQ w).
Proof.
  intros Hk HX Ht. destruct (kinv_q_remove X E k t Hk HX) as [Hk' Hq].
  unfold _unpend_thread, _mark_thread_as_not_pending. change _THREAD_PENDING with (2 ^ 1). split_and!.
  - apply kinv_reset_state; [done..|]. by intros [w ?%Hq].
  - by rewrite pending_flag, flag_reset, decide_True, andb_false_r by (done || lia).
  - exact Hq.
Qed.

(** Linking a thread in between to a wait queue, anywhere in it. *)
Lemma kinv_pend_insert X E k t w l :
  kinv X E k → t ∈ X → t ∈ dom (threads k) → _is_thread_pending t k = false →
  l ≡ₚ t :: q k (WQ w) →
  let k' := _mark_thread_as_pending t (set_queues (<[WQ w := l]> (queues k)) k) in
  kinv X E k' ∧ _is_thread_pending t k' = true ∧ q k' (WQ w) = l.
Proof.
  intros Hk HX Ht Hnp Hl k'.
  assert (∀ w', t ∉ q k (WQ w')) as Hnin.
  { intros w' Hin. apply (inv_wq _ _ _ Hk) in Hin as [_ Hp]. congruence. }
  assert (∀ r, q k' r = if decide (WQ w = r) then l else q k r) as Hq.
  { intros r. unfold k', _mark_thread_as_pending, _set_thread_states, q. simpl. by rewrite lookup_total_ins. }
  assert (∀ w' t', t' ∈ q k' (WQ w') ↔ t' ∈ q k (WQ w') ∨ t' = t ∧ w' = w) as Hin.
  { intros w' t'. rewrite Hq. case_decide as Ew; [|naive_solver]. injection Ew as ->.
    rewrite Hl, elem_of_cons. naive_solver. }
  assert (∀ t', t' ≠ t → thr k' t' = thr k t') as Hthr.
  { intros. unfold k', _mark_thread_as_pending, _set_thread_states. by rewrite thr_upd, decide_False by done. }
  assert (∀ t', t' ≠ t → _is_thread_pending t' k' = _is_thread_pending t' k) as Hpe.
  { intros. apply pending_ext. by rewrite Hthr. }
  assert (_is_thread_pending t k' = true) as Hpt.
  { unfold k', _mark_thread_as_pending. change _THREAD_PENDING with (2 ^ 1).
    by rewrite pending_flag, flag_set, decide_True, orb_true_r by (done || lia). }
  assert (dom (threads k') = dom (threads k)) as Hdom.
  { unfold k', _mark_thread_as_pending, _set_thread_states. by rewrite dom_upd. }
  assert (∀ t', runnable X k' t' ↔ runnable X k t') as HR.
  { intros t'. unfold runnable. rewrite Hdom. destruct (decide (t' = t)) as [->|]; [tauto|].
    rewrite (ready_ext t' k k'); [done| |done]. by rewrite Hthr. }
  split_and!; [|done|by rewrite Hq, decide_True].
  destruct Hk as [? Hi Hth Hrq Hnd Hwq Hu Hp Htq ? Htt ? ? Hfo]. split; rewrite ?Hdom; try done.
  - by apply HR.
  - intros t' Ht'. unfold k', _mark_thread_as_pending, _set_thread_states. rewrite thr_upd.
    case_decide; [subst; apply thread_ok_state|]; by apply Hth.
  - eapply rq_inv_frame; [done|done| |..|done|done].
    + intros i. by rewrite Hq, decide_False.
    + intros t' (_ & Ht' & _). rewrite Hthr; [done|]. by intros ->.
  - intros w'. rewrite Hq. case_decide as Ew; [|done]. rewrite Hl. injection Ew as ->. by constructor.
  - intros t' w' [Hin'| [-> ->]]%Hin; [|done]. destruct (Hwq t' w' Hin') as [? Hpt']. split; [done|].
    rewrite Hpe; [done|]. intros ->. by apply (Hnin w').
  - intros t' w1 w2 [H1|[-> ->]]%Hin [H2|[E2 ->]]%Hin; [eauto|subst; by apply Hnin in H1|by apply Hnin in H2|done].
  - intros t' ? Ht' Hpt'. assert (t' ≠ t) by (by intros ->). rewrite Hpe in Hpt' by done.
    destruct (Hp t') as [w' Hw']; [done..|]. exists w'. apply Hin. by left.
  - by eapply tq_inv_frame.
  - intros t' Ht'. destruct (Htt t' Ht') as (? & ? & Hw). split_and!; [done..|].
    intros HX'. assert (t' ≠ t) by (by intros ->). rewrite Hpe by done. auto.
  - intros t' o HX' [Hin'|[-> _]]%Hin; [|done]. by apply (Hfo t' o).
Qed.

(** A thread that is not marked pending is on no wait queue. *)
Lemma kinv_not_queued X E k t w :
  kinv X E k → _is_thread_pending t k = false → t ∉ q k (WQ w).
Proof. intros Hk Hp Hin. apply (inv_wq _ _ _ Hk) in Hin as [_ Hpe]. congruence. Qed.

(** ** Making threads ready *)
Lemma kinv_ready_thread X E k t :
  kinv ({[t]} ∪ X) E k → t ∉ X → t ∈ dom (threads k) →
  (_is_thread_pending t k = true → ∃ w, t ∈ q k (WQ w)) →
  (delta k (TThread t) ≠ _INACTIVE →
    to_wait_q (tmo k (TThread t)) = None ↔ _is_thread_pending t k = false) →
  (∀ o, t ∈ q k (WQ (KTimer, o)) → delta k (TThread t) = _INACTIVE) →
  kinv X E (_ready_thread t k).
Proof.
  intros Hk HX Ht Hp Hto Hfo. unfold _ready_thread, _mark_thread_as_started.
  change _THREAD_PRESTART with (2 ^ 2). cbv zeta.
  assert (kinv ({[t]} ∪ X) E (_reset_thread_states t (2 ^ 2) k)) as Hk1.
  { apply kinv_reset_state; [done|set_solver|done|lia|lia]. }
  assert (_is_thread_pending t (_reset_thread_states t (2 ^ 2) k) = _is_thread_pending t k) as Hpe.
  { rewrite !pending_flag, flag_reset, decide_True by (done || lia). by rewrite andb_true_r. }
  destruct (_is_thread_ready t _) eqn:Hr.
  - apply kinv_add; [done|done| |done]. unfold _reset_thread_states. by rewrite dom_upd.
  - apply (kinv_leave _ _ _ t); [done|done| | |exact Hfo].
    + rewrite Hpe. exact Hp.
    + rewrite Hpe. exact Hto.
Qed.

Lemma kinv_thread_priority_set X E k t p :
  kinv X E k → t ∈ dom (threads k) → t ∉ X → t ≠ _idle_thread →
  K_HIGHEST_THREAD_PRIO ≤ p ≤ K_LOWEST_APPLICATION_THREAD_PRIO →
  kinv X E (_thread_priority_set t p k).
Proof.
  intros Hk Ht HX Hidle Hp.
  assert (∀ x, thread_ok t x → thread_ok t (set_prio (s8 p) x)) as Hok.
  { intros x (_ & _ & ?). unfold thread_ok. rewrite decide_False by done. simpl.
    rewrite s8_id; [split_and!; lia|]. pose proof coop_range. pose proof preempt_range.
    unfold K_HIGHEST_THREAD_PRIO, K_LOWEST_APPLICATION_THREAD_PRIO, K_LOWEST_THREAD_PRIO in *. lia. }
  assert (∀ k', kinv ({[t]} ∪ X) E k' → t ∈ dom (threads k') →
    kinv ({[t]} ∪ X) E (upd_thread t (set_prio (s8 p)) k')) as Hupd.
  { intros k' Hk' Ht'. apply kinv_upd_between; [done|set_solver|done| |].
    - apply Hok. by apply Hk'.
    - intros [w Hw]. apply (inv_wq _ _ _ Hk') in Hw as [_ Hpe]. by rewrite pending_flag in Hpe. }
  unfold _thread_priority_set. destruct (_is_thread_ready t k) eqn:Hr; cbv zeta.
  - pose proof (kinv_remove X E k t Hk (conj Ht (conj HX Hr)) Hidle) as Hk1.
    set (k1 := _remove_thread_from_ready_q t k) in *.
    assert (threads k1 = threads k ∧ timeouts k1 = timeouts k) as [Et Eto].
    { unfold k1, _remove_thread_from_ready_q. cbv zeta. by destruct (decide (q _ _ = [])). }
    assert (t ∈ dom (threads k1)) as Ht1 by by rewrite Et.
    apply kinv_add; [by apply Hupd|done| |].
    + by rewrite dom_upd.
    + rewrite <-Hr. apply ready_ext.
      * rewrite thr_upd, decide_True by done. simpl. unfold thr. by rewrite Et.
      * unfold delta, tmo. change (timeouts (upd_thread _ _ k1)) with (timeouts k1). by rewrite Eto.
  - apply (kinv_leave _ _ _ t).
    + apply Hupd; [by apply kinv_enter|done].
    + rewrite <-Hr. apply ready_ext; [|done]. by rewrite thr_upd, decide_True.
    + intros Hpe. apply (inv_pend _ _ _ Hk t Ht HX). rewrite <-Hpe. symmetry. apply pending_ext.
      by rewrite thr_upd, decide_True.
    + intros Hact. destruct (inv_tthread _ _ _ Hk t Hact) as (_ & _ & Hw).
      rewrite (pending_ext t k (upd_thread t (set_prio (s8 p)) k)); [by apply Hw|].
      by rewrite thr_upd, decide_True.
    + intros o. by apply (inv_forever _ _ _ Hk).
Qed.

(** ** Handling expired timeouts *)
Lemma tq_inv_unexpire E k i :
  tq_inv (i :: E) k → tq_pos k →
  let k' := set_delta i _INACTIVE k in
  tq_inv E k' ∧ tq_pos k' ∧ (∀ j, j ≠ i → tmo k' j = tmo k j).
Proof.
  intros [Hnd Hm Hend He Hmin Htot] Hpos k'.
  assert (delta k i = _EXPIRED) as Hdi by (apply He; mem).
  assert (∀ j, delta k' j = if decide (i = j) then _INACTIVE else delta k j) as Hd.
  { intros j. unfold k'. rewrite delta_set. by case_decide. }
  apply NoDup_cons in Hend as [HiE Hend]. unfold _EXPIRED, _INACTIVE in *.
  assert (∀ j, j ∈ timeout_q k → delta k' j = delta k j) as Hdq.
  { intros j Hj%Hm. rewrite Hd, decide_False; [done|]. intros ->. lia. }
  split_and!.
  - split; [done| |done| | |].
    + intros j. change (timeout_q k') with (timeout_q k). rewrite Hm, Hd. case_decide; [subst; lia|done].
    + intros j. rewrite Hd. specialize (He j). rewrite elem_of_cons in He. case_decide; [subst|naive_solver].
      split; done.
    + intros j. rewrite Hd. case_decide; [done|apply Hmin].
    + change (timeout_q k') with (timeout_q k). by rewrite (total_ext _ (delta k)).
  - intros j Hj. rewrite Hdq; [by apply Hpos|]. by apply head_Some_elem_of.
  - intros j Hj. unfold k', set_delta. by rewrite tmo_upd, decide_False by congruence.
Qed.

Lemma kinv_unexpire_thread E k t :
  kinv ∅ (TThread t :: E) k → kinv ({[t]} ∪ ∅) E (set_delta (TThread t) _INACTIVE k).
Proof.
  intros Hk. assert (delta k (TThread t) = _EXPIRED) as Hd by (apply (inv_tq _ _ _ Hk); mem).
  assert (kinv ({[t]} ∪ ∅) (TThread t :: E) k) as Hk1.
  { apply kinv_enter; [done|]. destruct (_is_thread_ready t k) eqn:Hr; [|done].
    apply ready_inactive in Hr. unfold delta in Hd. by rewrite Hr in Hd. }
  destruct (tq_inv_unexpire E k (TThread t)) as (Htq & Hpos & Htm); [apply Hk..|].
  eapply kinv_tq_change; [done|by destruct k|done|done| | | |].
  - intros _. by apply (inv_handling _ _ _ Hk).
  - intros t' Ht'. unfold like_timeout, delta. rewrite Htm; [done|]. set_solver.
  - intros t' Ht'. assert (t' = t) as -> by set_solver. by rewrite delta_set, decide_True.
  - intros i Hi. unfold delta. rewrite Htm by done. by apply (inv_tother _ _ _ Hk).
Qed.

Lemma kinv_unexpire_other E k i :
  kinv ∅ (i :: E) k → (∀ t, i ≠ TThread t) → kinv ∅ E (set_delta i _INACTIVE k).
Proof.
  intros Hk Hi. destruct (tq_inv_unexpire E k i) as (Htq & Hpos & Htm); [apply Hk..|].
  eapply kinv_tq_change; [done|by destruct k|done|done| | | |].
  - intros _. by apply (inv_handling _ _ _ Hk).
  - intros t' _. unfold like_timeout, delta. rewrite Htm; [done|]. naive_solver.
  - intros t' ?%not_elem_of_empty. done.
  - intros j Hj. destruct (decide (j = i)) as [->|]; [by rewrite delta_set, decide_True|].
    unfold delta. rewrite Htm by done. by apply (inv_tother _ _ _ Hk).
Qed.

(** Fields of an inactive timeout. *)
Lemma kinv_upd_inactive X E k i f :
  kinv X E k → delta k i = _INACTIVE → delta_ticks_from_prev (f (tmo k i)) = _INACTIVE →
  kinv X E (upd_timeout i f k).
Proof.
  intros Hk Hd Hf.
  assert (∀ j, delta (upd_timeout i f k) j = delta k j) as Hde.
  { intros j. unfold delta in *. rewrite tmo_upd. case_decide; [subst; congruence|done]. }
  assert (∀ j, delta (upd_timeout i f k) j ≠ _INACTIVE → tmo (upd_timeout i f k) j = tmo k j) as Htm.
  { intros j. rewrite Hde, tmo_upd. case_decide; [by subst|done]. }
  assert (∀ t, _is_thread_ready t (upd_timeout i f k) = _is_thread_ready t k) as Hre.
  { intros. apply ready_ext; [done|]. by rewrite Hde. }
  destruct Hk as [? Hi Hth Hrq ? Hwq ? Hp Htq Hpos Htt Ho ? Hfo]. split; try done.
  - unfold runnable. by rewrite Hre.
  - eapply rq_inv_frame; [done| |done..]. intros t. unfold runnable. by rewrite Hre.
  - by eapply tq_inv_frame.
  - intros j. rewrite Hde. apply Hpos.
  - intros t Ht. rewrite Htm by done. apply Htt. by rewrite <-Hde.
  - intros j Hj Hact. rewrite Htm by done. apply Ho; [done|]. by rewrite <-Hde.
  - intros t o. rewrite Hde. apply Hfo.
Qed.

(** What the kernel requires of a timeout function: it preserves the
    invariant, whatever expired timeouts are still to be handled, and [P], what
    its callers rely on. *)
Definition call_ok (P : kernel → Prop) (call : timeout_call) : Prop :=
  ∀ f i E k, f ≠ FNone → (∀ t, i ≠ TThread t) → delta k i = _INACTIVE →
    (∃ k0, P k0 ∧ delta k0 i = _EXPIRED ∧ k = set_delta i _INACTIVE k0) → kinv ∅ E k → P k → kinv ∅ E (call f i k) ∧ P (call f i k).

Lemma kinv_expired_thread E k t w k1 :
  kinv ({[t]} ∪ ∅) E k1 → t ∈ dom (threads k1) → delta k1 (TThread t) = _INACTIVE →
  k = (match w : option wq with
       | Some _ => upd_timeout (TThread t) (set_to_wait_q None) (_unpend_thread t k1)
       | None => k1 end) →
  (w = None → _is_thread_pending t k1 = false) → kinv ∅ E (_ready_thread t k).
Proof.
  intros Hk1 Ht Hd -> Hw. destruct w as [w|].
  - destruct (kinv_unpend ({[t]} ∪ ∅) E k1 t) as (Hk2 & Hp2 & _); [done|set_solver|done|].
    apply kinv_ready_thread; [by apply kinv_upd_inactive|set_solver| | | |].
    + change (t ∈ dom (threads (_unpend_thread t k1))). unfold _unpend_thread, _mark_thread_as_not_pending,
        _reset_thread_states. by rewrite dom_upd.
    + intros Hx. change (_is_thread_pending t (_unpend_thread t k1) = true) in Hx. congruence.
    + unfold delta. rewrite tmo_upd, decide_True by done. intros Hx. by destruct Hx.
    + intros o _. unfold delta. by rewrite tmo_upd, decide_True by done.
  - specialize (Hw eq_refl). apply kinv_ready_thread; [done|set_solver|done|congruence|done|done].
Qed.

(** ** What the scheduler leaves alone

    [sframe k k']: only the threads, the queues, the timeouts and the ready
    queue bookkeeping changed, no thread went away or was raised from the dead, and no delayed work item was armed. *)
Definition sframe (k k' : kernel) : Prop :=
  k' = mk_kernel (threads k') (queues k') (cache k') (prio_bmap k') (current k) (nested k)
    (timeout_q k') (timeouts k') (handling_timeouts k) (tick_count k) (time_slice_elapsed k)
    (time_slice_duration k) (time_slice_prio_ceiling k) (all_threads k) (sems k) (mutexes k)
    (msgqs k) (stacks k) (slabs k) (timers k) (mem k) (words k) (objs k) ∧
  dom (threads k) ⊆ dom (threads k') ∧ calm k k'.

#[export] Instance sframe_preorder : PreOrder sframe.
Proof.
  split.
  - intros []; split; [done|]. by split.
  - intros k1 k2 k3 (H12 & Hd1 & C1) (H23 & Hd2 & C2). split; [rewrite H23, H12; done|]. split; by etrans.
Qed.
Lemma sframe_dom k k' : sframe k k' → dom (threads k) ⊆ dom (threads k').
Proof. by intros (_ & ? & _). Qed.

Lemma sframe_upd_thread t f `{!KeepsDead f} k : sframe k (upd_thread t f k).
Proof.
  split; [done|]. split; [|by apply calm_upd_thread]. unfold upd_thread. simpl. rewrite dom_insert_L. apply union_subseteq_r.
Qed.
Lemma sframe_upd_timeout i f `{!Disarms f} k : sframe k (upd_timeout i f k).
Proof. sframe_done. Qed.
Lemma sframe_add t k : sframe k (_add_thread_to_ready_q t k).
Proof. sframe_done. Qed.
Lemma sframe_remove t k : sframe k (_remove_thread_from_ready_q t k).
Proof. unfold _remove_thread_from_ready_q. cbv zeta. destruct (decide (q _ _ = [])); sframe_done. Qed.
Lemma sframe_move t k : sframe k (_move_thread_to_end_of_prio_q t k).
Proof. unfold _move_thread_to_end_of_prio_q. cbv zeta. case_decide; [done|sframe_done]. Qed.
Lemma sframe_ready t k : sframe k (_ready_thread t k).
Proof.
  unfold _ready_thread. cbv zeta. trans (_mark_thread_as_started t k); [apply sframe_upd_thread, _|].
  destruct (_is_thread_ready t _); [apply sframe_add|done].
Qed.
Lemma sframe_unpend t k : sframe k (_unpend_thread t k).
Proof. unfold _unpend_thread. etrans; [|apply sframe_upd_thread, _]. sframe_done. Qed.
Lemma sframe_unpend_timing_out t i k : sframe k (_unpend_thread_timing_out t i k).
Proof.
  unfold _unpend_thread_timing_out. destruct (to_wait_q _); [|done].
  etrans; [apply (sframe_unpend t)|sframe_done].
Qed.
Lemma sframe_prio_set t p k : sframe k (_thread_priority_set t p k).
Proof.
  unfold _thread_priority_set. cbv zeta. destruct (_is_thread_ready t k); [|apply sframe_upd_thread, _].
  etrans; [apply sframe_remove|]. etrans; [|apply sframe_add]. apply sframe_upd_thread, _.
Qed.
Lemma sframe_abort i k : sframe k (_abort_timeout i k).2.
Proof.
  unfold _abort_timeout. destruct (delta k i =? _INACTIVE); [done|]. cbn [snd].
  set (k1 := match next_of i (timeout_q k) with Some _ => _ | None => _ end).
  assert (sframe k k1 ∧ timeout_q k1 = timeout_q k) as [H1 Eq].
  { unfold k1. destruct (next_of i (timeout_q k)) as [j|] eqn:En; [|done]. split; [|done]. split; [done|]. split; [done|].
    apply calm_upd_timeout. left. intros d ->. left. by eapply next_of_elem. }
  etrans; [exact H1|]. etrans; [|apply (sframe_upd_timeout i), _]. split; [done|]. split; [done|].
  apply calm_timeouts; [done|]. intros d [Hd|Hd]; [left|by right]. simpl in Hd. by apply elem_of_without in Hd as [_ ?].
Qed.
Lemma sframe_add_loop i l k : (∀ d, i ≠ TWork d) → l ⊆ timeout_q k → sframe k (_add_timeout_loop i l k).
Proof.
  intros Hi. assert (∀ n k, sframe k (set_delta i n k)) as Hset.
  { intros n k1. split; [done|]. split; [done|]. apply calm_upd_timeout. left. intros d ->. by destruct (Hi d). }
  revert k. induction l as [|j l IH]; intros k Hl; simpl.
  { split; [done|]. split; [done|]. apply calm_timeouts; [done|]. intros d [Hd|Hd]; [left|by right]. simpl in Hd.
    apply elem_of_app in Hd as [Hd|Hd%list_elem_of_singleton]; [done|by destruct (Hi d)]. }
  destruct (_ <=? _).
  - trans (set_delta j (delta k j - delta k i) k).
    + split; [done|]. split; [done|]. apply calm_upd_timeout. left. intros d ->. left. apply Hl. mem.
    + split; [done|]. split; [done|]. apply calm_timeouts; [done|]. intros d [Hd|Hd]; [left|by right]. simpl in Hd.
      apply insert_before_elem in Hd as [Hd|Hd]; [by destruct (Hi d)|done].
  - etrans; [|apply IH]; [apply Hset|]. intros x Hx. apply Hl. mem.
Qed.
Lemma add_loop_threads i l k : threads (_add_timeout_loop i l k) = threads k.
Proof.
  revert k. induction l as [|j l IH]; intros k; simpl; [done|].
  destruct (_ <=? _); [done|]. by rewrite IH.
Qed.
Lemma add_thread_timeout_threads t w n k : n ≠ 0 → threads (_add_thread_timeout t w n k) = threads k.
Proof.
  intros Hn. unfold _add_thread_timeout, _add_timeout. cbv zeta. rewrite (proj2 (Z.eqb_neq _ _) Hn).
  by rewrite add_loop_threads.
Qed.
Lemma sframe_set_thread_delta t n k : sframe k (set_delta (TThread t) n k).
Proof. split; [done|]. split; [done|]. apply calm_upd_timeout. by left. Qed.
Lemma sframe_add_thread_timeout t w n k : sframe k (_add_thread_timeout t w n k).
Proof.
  unfold _add_thread_timeout, _add_timeout. cbv zeta. destruct (n =? 0).
  - unfold _handle_one_expired_timeout. cbv zeta.
    assert (to_thread (tmo (upd_timeout (TThread t) (set_to_wait_q w) (upd_timeout (TThread t)
      (set_to_thread (Some t)) (set_delta (TThread t) n k))) (TThread t)) = Some t) as ->
      by by rewrite !tmo_upd, !decide_True.
    etrans; [|apply sframe_ready]. etrans; [|apply sframe_unpend_timing_out]. do 2 (etrans; [|apply sframe_upd_timeout, _]).
    etrans; [|apply sframe_upd_timeout, _]. by apply sframe_set_thread_delta.
  - etrans; [|by apply sframe_add_loop]. do 2 (etrans; [|apply sframe_upd_timeout, _]). apply sframe_set_thread_delta.
Qed.

Lemma sframe_add_timeout call thread i w n k :
  (∀ d, i ≠ TWork d) → n ≠ 0 → sframe k (_add_timeout call thread i w n k).
Proof.
  intros Hi Hn. unfold _add_timeout. cbv zeta. rewrite (proj2 (Z.eqb_neq _ _) Hn).
  etrans; [|by apply sframe_add_loop]. do 2 (etrans; [|apply sframe_upd_timeout, _]).
  split; [done|]. split; [done|]. apply calm_upd_timeout. left. intros d ->. by destruct (Hi d).
Qed.
Lemma sframe_current k k' : sframe k k' → current k' = current k.
Proof. by intros [-> _]. Qed.
Lemma sframe_nested k k' : sframe k k' → nested k' = nested k.
Proof. by intros [-> _]. Qed.
Lemma sframe_handling k k' : sframe k k' → handling_timeouts k' = handling_timeouts k.
Proof. by intros [-> _]. Qed.

(** [same_objects k k']: the kernel objects, the memory and the list of threads did not change,
    no thread went away or was raised from the dead, and no delayed work item was armed. *)
Definition same_objects (k k' : kernel) : Prop :=
  sems k' = sems k ∧ mutexes k' = mutexes k ∧ msgqs k' = msgqs k ∧ stacks k' = stacks k ∧
  slabs k' = slabs k ∧ timers k' = timers k ∧ mem k' = mem k ∧ words k' = words k ∧
  objs k' = objs k ∧ all_threads k' = all_threads k ∧ dom (threads k) ⊆ dom (threads k') ∧ calm k k'.
#[export] Instance same_objects_preorder : PreOrder same_objects.
Proof.
  split; [by intros ?; split_and!|].
  intros k1 k2 k3 (?&?&?&?&?&?&?&?&?&?&?&?) (?&?&?&?&?&?&?&?&?&?&?&?). split_and!; [congruence..|by etrans|by etrans].
Qed.
Lemma sframe_objects k k' : sframe k k' → same_objects k k'.
Proof. by intros (-> & Hd & Hc); split_and!. Qed.


(** The priority of a thread does not decide whether it can run. *)
Lemma runnable_ext X k k' t :
  dom (threads k) ⊆ dom (threads k') → thread_state (thr k' t) = thread_state (thr k t) →
  (delta k' (TThread t) = _INACTIVE ↔ delta k (TThread t) = _INACTIVE) →
  runnable X k t → runnable X k' t.
Proof.
  intros Hd Hs Hde (? & ? & Hr). split_and!; [set_solver|done|]. rewrite <-Hr. by apply ready_ext.
Qed.

Lemma threads_remove t k : threads (_remove_thread_from_ready_q t k) = threads k.
Proof. unfold _remove_thread_from_ready_q. cbv zeta. by destruct (decide (q _ _ = [])). Qed.
Lemma timeouts_remove t k : timeouts (_remove_thread_from_ready_q t k) = timeouts k.
Proof. unfold _remove_thread_from_ready_q. cbv zeta. by destruct (decide (q _ _ = [])). Qed.

Lemma prio_set_prio t p k :
  K_HIGHEST_THREAD_PRIO ≤ p ≤ K_LOWEST_APPLICATION_THREAD_PRIO → prio (thr (_thread_priority_set t p k) t) = p.
Proof.
  intros Hp. unfold _thread_priority_set. cbv zeta.
  assert (∀ k, prio (thr (upd_thread t (set_prio (s8 p)) k) t) = p) as Hs; [|destruct (_is_thread_ready t k); [rewrite thr_add|]; apply Hs].
  intros k'. rewrite thr_upd, decide_True by done. simpl. apply s8_id.
  unfold K_HIGHEST_THREAD_PRIO, K_LOWEST_APPLICATION_THREAD_PRIO, K_LOWEST_THREAD_PRIO in Hp.
  pose proof coop_range. pose proof preempt_range. lia.
Qed.

Lemma runnable_prio_set X k t p t' :
  t ∈ dom (threads k) → runnable X k t' → runnable X (_thread_priority_set t p k) t'.
Proof.
  intros Ht. unfold _thread_priority_set. cbv zeta. apply runnable_ext.
  - destruct (_is_thread_ready t k); [rewrite dom_add|]; rewrite dom_upd, ?threads_remove by (by rewrite ?threads_remove); done.
  - destruct (_is_thread_ready t k); [rewrite thr_add|];
      rewrite thr_upd, ?thr_remove_ready; by destruct (decide (t = t')).
  - destruct (_is_thread_ready t k); [|done]. unfold delta, tmo.
    change (timeouts (_add_thread_to_ready_q t ?x)) with (timeouts x).
    change (timeouts (upd_thread ?a ?b ?x)) with (timeouts x). by rewrite timeouts_remove.
Qed.

(** ** Handling the expired timeouts, one by one *)

(** Waking [t] does not stop another thread [c]. *)
Lemma runnable_wake k t c :
  t ∈ dom (threads k) → delta k (TThread t) = _EXPIRED → runnable ∅ k c →
  runnable ∅ (_ready_thread t (_unpend_thread_timing_out t (TThread t)
    (set_delta (TThread t) _INACTIVE k))) c.
Proof.
  intros Ht Hd Hr. assert (c ≠ t) as Hne.
  { intros ->. destruct Hr as (_ & _ & Hr%ready_inactive). unfold delta in Hd. rewrite Hr in Hd. done. }
  set (k1 := set_delta (TThread t) _INACTIVE k). set (k2 := _unpend_thread_timing_out t (TThread t) k1).
  assert (dom (threads k2) = dom (threads k) ∧ thr k2 c = thr k c ∧ tmo k2 (TThread c) = tmo k (TThread c))
    as (Hd2 & Ht2 & Hm2).
  { unfold k2, _unpend_thread_timing_out. destruct (to_wait_q _).
    - unfold _unpend_thread, _mark_thread_as_not_pending, _reset_thread_states.
      change (threads (upd_timeout ?a ?b ?x)) with (threads x). rewrite dom_upd by done.
      change (thr (upd_timeout ?a ?b ?x) c) with (thr x c). rewrite thr_upd, decide_False by done.
      rewrite tmo_upd, decide_False by congruence. change (tmo (upd_thread ?a ?b (q_remove ?e ?x))) with (tmo x).
      unfold k1, set_delta. by rewrite tmo_upd, decide_False by congruence.
    - unfold k1, set_delta. by rewrite tmo_upd, decide_False by congruence. }
  clearbody k2. unfold _ready_thread. cbv zeta.
  set (k3 := _mark_thread_as_started t k2).
  assert (runnable ∅ k3 c) as Hr3; [|by destruct (_is_thread_ready t k3)].
  eapply runnable_ext; [..|exact Hr]; unfold k3, _mark_thread_as_started, _reset_thread_states.
  - rewrite dom_upd by by rewrite Hd2. by rewrite Hd2.
  - by rewrite thr_upd, decide_False, Ht2 by done.
  - unfold delta. change (tmo (upd_thread ?a ?b ?x)) with (tmo x). by rewrite Hm2.
Qed.

Section expired.
Context (P : kernel → Prop) (c : tid) (call : timeout_call).
Hypothesis P_frame : ∀ k k', sframe k k' → (runnable ∅ k c → runnable ∅ k' c) → P k → P k'.
Hypothesis call_P : call_ok P call.

Lemma kinv_handle_one_expired i E k :
  kinv ∅ (i :: E) k → P k →
  let k' := _handle_one_expired_timeout call i k in kinv ∅ E k' ∧ P k'.
Proof.
  intros Hk HP.
  assert (delta k i = _EXPIRED) as Hexp by (apply (tq_exp _ _ (inv_tq _ _ _ Hk)); mem).
  assert (delta k i ≠ _INACTIVE) as Hact by by rewrite Hexp.
  unfold _handle_one_expired_timeout. cbv zeta.
  assert (delta (set_delta i _INACTIVE k) i = _INACTIVE) as Hd by (by rewrite delta_set, decide_True).
  assert ((∃ t, i = TThread t) ∨ (∀ t, i ≠ TThread t)) as [[t ->]|Hne] by (destruct i; naive_solver).
  - destruct (inv_tthread _ _ _ Hk t Hact) as (Ht & -> & Hw). split.
    + eapply (kinv_expired_thread E _ t (to_wait_q (tmo k (TThread t)))); [by apply kinv_unexpire_thread|done|done| |].
      * unfold _unpend_thread_timing_out, set_delta. by rewrite tmo_upd, decide_True.
      * apply Hw. set_solver.
    + eapply P_frame; [|by apply runnable_wake|done].
      etrans; [apply sframe_upd_timeout, _|]. etrans; [apply sframe_unpend_timing_out|apply sframe_ready].
  - rewrite (inv_tother _ _ _ Hk _ Hne Hact). pose proof (kinv_unexpire_other E k _ Hk Hne) as Hk1.
    assert (P (set_delta i _INACTIVE k)) as HP1.
    { eapply P_frame; [apply sframe_upd_timeout, _| |done]. apply runnable_ext; [done..|].
      rewrite delta_set, decide_False by done. done. }
    destruct (to_func _); [done|apply call_P; [done..|by exists k|done|done]..].
Qed.

Lemma kinv_handle_expired E k :
  kinv ∅ E k → P k →
  let k' := _handle_expired_timeouts call E k in kinv ∅ [] k' ∧ P k'.
Proof.
  unfold _handle_expired_timeouts. revert k. induction E as [|i E IH]; intros k Hk HP; simpl; [done|].
  destruct (kinv_handle_one_expired i E k Hk HP) as [Hk' HP']. by apply IH.
Qed.

End expired.

Lemma kinv_handling X k b : kinv X [] k → kinv X [] (set_handling_timeouts b k).
Proof.
  intros [? ? ? ? ? ? ? ? ? ? ? ? ?]. split; try done.
  - by eapply rq_inv_frame.
  - by eapply tq_inv_frame.
Qed.

(** The first half of [handle_timeouts]: due timeouts leave the queue. *)
Lemma kinv_dequeue_expired k h ticks c :
  kinv ∅ [] k → head (timeout_q k) = Some h → 0 ≤ ticks ≤ delta k h →
  let '(E, k') := dequeue_expired (S (length (timeout_q k))) []
    (set_handling_timeouts true (set_delta h (delta k h - ticks) k)) in
  kinv ∅ E k' ∧ sframe (set_handling_timeouts true k) k' ∧
  (runnable ∅ k c → runnable ∅ k' c).
Proof.
  intros Hk Hh Ht. assert (∃ l, timeout_q k = h :: l) as [l Hq].
  { destruct (timeout_q k) as [|h' l]; [done|]. exists l. by injection Hh as ->. }
  destruct (tq_inv_tick [] k h l ticks (inv_tq _ _ _ Hk) Hq Ht) as (Htq1 & _ & Hs1).
  set (k1 := set_handling_timeouts true (set_delta h (delta k h - ticks) k)).
  assert (tq_inv [] k1) as Htq1' by (eapply tq_inv_frame; [exact Htq1|done|done]).
  pose proof (dequeue_expired_spec (S (length (timeout_q k))) [] k1 Htq1' (Nat.lt_succ_diag_r _)) as Hde.
  destruct (dequeue_expired _ [] k1) as [E k'].
  destruct Hde as (due & _ & Hqd & _ & Htq' & Hpos' & Htm & Hfr).
  set (k0 := set_handling_timeouts true k).
  assert (k' = set_timeout_q (timeout_q k') (set_timeouts (timeouts k') k0)) as Hfr0.
  { rewrite Hfr at 1. by destruct k. }
  assert (∀ j, like_timeout k0 k' j) as Hlike.
  { intros j. destruct (same_like_timeout _ _ _ (Hs1 j)) as (H1 & H2 & H3).
    unfold like_timeout. unfold delta at 1. rewrite Htm. case_decide as Hdue; [|done]. simpl.
    split_and!; [done..|]. split; [done|]. intros Hina. exfalso.
    assert (0 ≤ delta k1 j) as Hge by (apply (tq_mem _ _ Htq1'); rewrite Hqd; mem).
    change (delta k j = _INACTIVE) in Hina. apply H3 in Hina.
    change (delta k1 j) with (delta (set_delta h (delta k h - ticks) k) j) in Hge. by rewrite Hina in Hge. }
  assert (threads k' = threads k) as Et by by rewrite Hfr0.
  split_and!.
  - eapply kinv_tq_change; [by apply kinv_handling|exact Hfr0|done|done|done| | |].
    + intros t _. apply Hlike.
    + by intros t ?%not_elem_of_empty.
    + intros i Hi Hact. destruct (Hlike i) as (-> & _ & Hia). rewrite Hia in Hact. by apply (inv_tother _ _ _ Hk).
  - split; [rewrite Hfr0; by destruct k|]. split; [by rewrite Et|]. apply calm_timeouts; [done|]. intros d [Hd|Hd].
    + left. change (timeout_q k0) with (timeout_q k1). rewrite Hqd. mem.
    + right. intros Hina. by apply Hd, Hlike.
  - apply runnable_ext; [by rewrite Et|unfold thr; by rewrite Et|]. by destruct (Hlike (TThread c)) as (_ & _ & ?).
Qed.
Lemma abort_timeout_threads i k : threads (_abort_timeout i k).2 = threads k.
Proof.
  unfold _abort_timeout. destruct (delta k i =? _INACTIVE); [done|]. simpl. by destruct (next_of _ _).
Qed.

Lemma runnable_ready_other X k t c : c ≠ t → runnable X k c → runnable X (_ready_thread t k) c.
Proof.
  intros Hne Hr. unfold _ready_thread. cbv zeta.
  assert (runnable X (_mark_thread_as_started t k) c) as Hr'; [|by destruct (_is_thread_ready t _)].
  unfold _mark_thread_as_started, _reset_thread_states.
  apply (runnable_ext X k); [| |done|exact Hr].
  - simpl. rewrite dom_insert_L. set_solver.
  - by rewrite thr_upd, decide_False.
Qed.

Lemma q_abort i k r : q (_abort_timeout i k).2 r = q k r.
Proof.
  unfold _abort_timeout. destruct (delta k i =? _INACTIVE); [done|]. simpl. by destruct (next_of _ _).
Qed.

(** ** Operations on one thread

    [only t k k']: of all threads, [t] is the only one whose state or timeout
    may have changed. *)
Definition only (t : tid) (k k' : kernel) : Prop :=
  sframe k k' ∧
  ∀ c, c ≠ t → thr k' c = thr k c ∧ (delta k' (TThread c) = _INACTIVE ↔ delta k (TThread c) = _INACTIVE).
#[export] Instance only_preorder t : PreOrder (only t).
Proof.
  split.
  - intros k. split; [reflexivity|done].
  - intros k1 k2 k3 (F1 & T1) (F2 & T2). split; [by etrans|].
    intros c Hc. destruct (T1 c Hc) as [E1 I1], (T2 c Hc) as [E2 I2]. by rewrite E2, E1, I2, I1.
Qed.

Lemma only_sframe t k k' : only t k k' → sframe k k'.
Proof. by intros []. Qed.
Lemma only_dom t k k' : only t k k' → dom (threads k) ⊆ dom (threads k').
Proof. by intros ((_ & ? & _) & _). Qed.
Lemma only_runnable t k k' X c : only t k k' → c ≠ t → runnable X k c → runnable X k' c.
Proof.
  intros Ho Hc. pose proof (only_dom _ _ _ Ho) as Hd. destruct (proj2 Ho c Hc) as [E Hi]. apply runnable_ext; [done|by rewrite E|done].
Qed.

Lemma only_upd_thread t f `{!KeepsDead f} k : only t k (upd_thread t f k).
Proof.
  split; [by apply sframe_upd_thread|]. intros c Hc. by rewrite thr_upd, decide_False by done.
Qed.
Lemma only_add t k : only t k (_add_thread_to_ready_q t k).
Proof. split; [apply sframe_add|done]. Qed.
Lemma only_remove t k : only t k (_remove_thread_from_ready_q t k).
Proof.
  split; [apply sframe_remove|]. intros c Hc.
  rewrite thr_remove_ready. unfold delta, tmo. by rewrite timeouts_remove.
Qed.
Lemma only_q_remove t k : only t k (q_remove t k).
Proof. split; [sframe_done|done]. Qed.
Lemma only_unpend t k : only t k (_unpend_thread t k).
Proof. etrans; [apply only_q_remove|apply only_upd_thread, _]. Qed.
Lemma only_ready t k : only t k (_ready_thread t k).
Proof.
  unfold _ready_thread. cbv zeta. destruct (_is_thread_ready t _); [|apply only_upd_thread, _].
  etrans; [|apply only_add]. apply only_upd_thread, _.
Qed.
Lemma only_abort E t k : tq_inv E k → TThread t ∉ E → only t k (_abort_timeout (TThread t) k).2.
Proof.
  intros Htq HE. pose proof (abort_timeout_spec (TThread t) E k Htq HE) as Hab.
  pose proof (sframe_abort (TThread t) k) as Hf. pose proof (abort_timeout_threads (TThread t) k) as Et.
  destruct (_abort_timeout (TThread t) k) as [r k']. destruct Hab as (_ & _ & _ & _ & _ & Hs & _). simpl in *.
  split; [done|]. intros c Hc. unfold thr. rewrite Et. split; [done|].
  apply same_timeout_inactive, Hs. congruence.
Qed.
Lemma only_add_thread_timeout E t w n k :
  tq_inv E k → delta k (TThread t) = _INACTIVE → 0 < n ≤ INT32_MAX → only t k (_add_thread_timeout t w n k).
Proof.
  intros Htq Hd Hn. destruct (add_timeout_spec (λ _ _ k, k) (Some t) (TThread t) w n E k Htq Hd Hn)
    as (_ & _ & _ & Hfr & Hs & _). fold (_add_thread_timeout t w n) in *.
  assert (threads (_add_thread_timeout t w n k) = threads k) as Et by by rewrite Hfr.
  split; [apply sframe_add_thread_timeout|]. intros c Hc. unfold thr. rewrite Et.
  split; [done|]. apply same_timeout_inactive, Hs. congruence.
Qed.

Lemma only_prio_set t p k : only t k (_thread_priority_set t p k).
Proof.
  unfold _thread_priority_set. cbv zeta. destruct (_is_thread_ready t k); [|apply only_upd_thread, _].
  etrans; [apply only_remove|]. etrans; [|apply only_add]. apply only_upd_thread, _.
Qed.
(** Changing a priority does not reorder the wait queues. *)
Lemma prio_set_wq X E k t p w : kinv X E k → q (_thread_priority_set t p k) (WQ w) = q k (WQ w).
Proof.
  intros Hk. unfold _thread_priority_set. cbv zeta. destruct (_is_thread_ready t k) eqn:Hr; [|done].
  rewrite q_add, decide_False by done. change (q (upd_thread ?t ?f ?k) ?r) with (q k r).
  rewrite q_remove_ready, without_notin; [done|]. intros Hin. apply (inv_wq _ _ _ Hk) in Hin as [_ Hp].
  apply ready_not_pending in Hr. congruence.
Qed.
Lemma prio_ready t k c : prio (thr (_ready_thread t k) c) = prio (thr k c).
Proof.
  unfold _ready_thread. cbv zeta.
  assert (prio (thr (_mark_thread_as_started t k) c) = prio (thr k c)) as Hp; [|by destruct (_is_thread_ready t _)].
  unfold _mark_thread_as_started, _reset_thread_states. rewrite thr_upd. by case_decide; [subst|].
Qed.

End kinv.
