(* ===== verification/Outcome.v ===== *)
(** * Operations that may switch threads

    A kernel routine either returns, or swaps its thread out and goes on, later
    and in whatever state the kernel has reached by then, when the scheduler
    gives the thread the CPU back.  [outcome] is that: a resumption monad over
    the kernel state, with a crash as a third ending.  [osafe] is the
    specification of such a routine, relative to an invariant that holds whenever
    threads are switched.  Between its locked sections a routine can also be
    interrupted ([interruptible]); then other threads may run before it goes on. *)
From stdpp Require Import gmap.
From S2P Require Import Prelude KState.
Local Open Scope Z_scope.

Inductive outcome (A : Type) : Type :=
  | Done (a : A) (k : kernel)
  | Swapped (k : kernel) (resume : kernel → outcome A)
  | Fault.  (** a NULL pointer is dereferenced, or memory outside an object written *)
Arguments Done {A} a k.
Arguments Swapped {A} k resume.
Arguments Fault {A}.

Fixpoint obind {A B : Type} (o : outcome A) (f : A → kernel → outcome B) : outcome B :=
  match o with
  | Done a k => f a k
  | Swapped k resume => Swapped k (λ k', obind (resume k') f)
  | Fault => Fault
  end.

Declare Scope outcome_scope.
Delimit Scope outcome_scope with outcome.
Bind Scope outcome_scope with outcome.
(** [let% x k := o in o']: run [o], then [o'] on its result and state. *)
Notation "'let%' x k ':=' o 'in' o'" := (obind o (λ x k, o'))
  (at level 200, x name, k name, o at level 100, o' at level 200) : outcome_scope.

(** [__swap] (arch/mips/core/swap.S) and the context switch of
    [_enter_syscall_exception] (arch/mips/core/except_manage.c): the default
    return value is -EAGAIN, the thread in the cache runs next; when the thread
    comes back it returns what its [return_value] holds then. *)
Definition __swap (k : kernel) : outcome Z :=
  let k := upd_thread (current k) (set_return_value (- EAGAIN)) k in
  let k := set_current (cache k) k in
  Swapped k (λ k, Done (return_value (thr k (current k))) k).

(** [_update_time_slice_before_swap] (kernel/sched.c). *)
Definition _update_time_slice_before_swap (k : kernel) : kernel := set_time_slice_elapsed 0 k.

(** [_Swap] (kernel/include/nano_internal.h). *)
Definition _Swap (k : kernel) : outcome Z := __swap (_update_time_slice_before_swap k).

(** A place where interrupts are enabled: the thread goes on in whatever state
    it finds when it has the CPU again.  An interrupt handler is not interrupted. *)
Definition interruptible (k : kernel) : outcome unit :=
  if nested k =? 0 then Swapped k (λ k, Done tt k) else Done tt k.

(** What a call of the thread [t] does if nothing interrupts it until it waits. *)
Fixpoint undisturbed {A} (t : tid) (o : outcome A) : outcome A :=
  match o with
  | Swapped k resume => if decide (current k = t) then undisturbed t (resume k) else o
  | _ => o
  end.

(** [_set_thread_return_value] and [_set_thread_return_value_with_data]. *)
Definition _set_thread_return_value (t : tid) (v : Z) : kernel → kernel :=
  upd_thread t (set_return_value v).
Definition _set_thread_return_value_with_data (t : tid) (v data : Z) (k : kernel) : kernel :=
  upd_thread t (set_swap_data data) (_set_thread_return_value t v k).

(** [osafe F I t Q o]: every time [o] swaps out the thread [t], the invariant
    [I] holds, it may rely on [I] when [t] runs again, and it returns with [Q];
    it faults only if [F] allows that. *)
Fixpoint osafe {A} (F : Prop) (I : kernel → Prop) (t : tid) (Q : A → kernel → Prop) (o : outcome A) : Prop :=
  match o with
  | Done a k => Q a k
  | Swapped k resume => I k ∧ ∀ k', I k' → current k' = t → osafe F I t Q (resume k')
  | Fault => F
  end.

Lemma osafe_mono {A} F I t (Q Q' : A → kernel → Prop) o :
  osafe F I t Q o → (∀ a k, Q a k → Q' a k) → osafe F I t Q' o.
Proof.
  intros Ho HQ. induction o as [a k|k resume IH|]; simpl in *; [auto| |done].
  destruct Ho as [HI Ho]. split; [done|]. intros k' Hk' Hc. apply IH; auto.
Qed.

Lemma osafe_bind {A B} F I t (Q : A → kernel → Prop) (Q' : B → kernel → Prop) o f :
  osafe F I t Q o → (∀ a k, Q a k → osafe F I t Q' (f a k)) → osafe F I t Q' (obind o f).
Proof.
  intros Ho Hf. induction o as [a k|k resume IH|]; simpl in *; [auto| |done].
  destruct Ho as [HI Ho]. split; [done|]. intros k' Hk' Hc. apply IH; auto.
Qed.

Lemma undisturbed_bind {A B} t (o : outcome A) (f : A → kernel → outcome B) a k :
  undisturbed t o = Done a k → undisturbed t (obind o f) = undisturbed t (f a k).
Proof.
  induction o as [a' k'|k' resume IH|]; simpl; [by intros [= -> ->]| |done]. case_decide; [|done]. apply IH.
Qed.
Lemma undisturbed_fault {A B} t (o : outcome A) (f : A → kernel → outcome B) :
  undisturbed t o = Fault → undisturbed t (obind o f) = Fault.
Proof. induction o as [a' k'|k' resume IH|]; simpl; [done| |done]. case_decide; [|done]. apply IH. Qed.
Lemma undisturbed_interruptible {A} k (f : unit → kernel → outcome A) :
  undisturbed (current k) (obind (interruptible k) f) = undisturbed (current k) (f tt k).
Proof. unfold interruptible. destruct (nested k =? 0); [|done]. simpl. by rewrite decide_True. Qed.
