(* ===== verification/Sched.v ===== *)
(** * The scheduler (kernel/sched.c, kernel/sys_clock.c)

    Pending, rescheduling, yielding, sleeping, priorities, time slicing and the
    tick, on top of the ready queues and the timeout queue. *)
From stdpp Require Import gmap list.
From S2P Require Import Prelude Dlist KState Ksched TimeoutQ SchedInv Outcome.
Local Open Scope Z_scope.
Local Open Scope outcome_scope.

Section sched.
Context `{KConfig}.

(** [_reschedule_threads] *)
Definition _reschedule_threads (k : kernel) : outcome unit :=
  if _must_switch_threads k then
    let% _ k := _Swap k in Done tt k
  else Done tt k.

Definition k_sched_lock (k : kernel) : kernel :=
  if _is_in_isr k then k
  else upd_thread (current k) (λ x, set_sched_locked (u8 (sched_locked x - 1)) x) k.

Definition k_sched_unlock (k : kernel) : outcome unit :=
  if _is_in_isr k then Done tt k else
  let k := upd_thread (current k) (λ x, set_sched_locked (u8 (sched_locked x + 1)) x) k in
  _reschedule_threads k.

(** [_pend_thread]: the loop looks for the first pending thread of lower
    priority. *)
Definition pend_point (t : tid) (w : wq) (k : kernel) : option tid :=
  List.find (λ pending, _is_t1_higher_prio_than_t2 t pending k) (q k (WQ w)).

Definition timeout_ticks (timeout : Z) : Z := s32 (_TICK_ALIGN + _ms_to_ticks timeout).

Definition _pend_thread (t : tid) (w : wq) (timeout : Z) (k : kernel) : kernel :=
  let k := set_queues (DlistSpec.insert_before_node (WQ w) (pend_point t w k) t (queues k)) k in
  let k := _mark_thread_as_pending t k in
  if timeout =? K_FOREVER then k
  else _add_thread_timeout t (Some w) (timeout_ticks timeout) k.

Definition _pend_current_thread (w : wq) (timeout : Z) (k : kernel) : kernel :=
  let k := _remove_thread_from_ready_q (current k) k in
  _pend_thread (current k) w timeout k.

Definition k_thread_priority_get (t : tid) (k : kernel) : Z := prio (thr k t).

Definition k_thread_priority_set (t : tid) (p : Z) (k : kernel) : outcome unit :=
  let k := _thread_priority_set t p k in
  _reschedule_threads k.

Definition k_yield (k : kernel) : outcome unit :=
  let k := _move_thread_to_end_of_prio_q (current k) k in
  if decide (current k = _get_next_ready_thread k) then Done tt k
  else let% _ k := _Swap k in Done tt k.

Definition k_sleep (duration : Z) (k : kernel) : outcome unit :=
  if duration =? 0 then k_yield k else
  let ticks := timeout_ticks duration in
  let k := _remove_thread_from_ready_q (current k) k in
  let k := _add_thread_timeout (current k) None ticks k in
  let% _ k := _Swap k in Done tt k.

Definition k_wakeup (t : tid) (k : kernel) : outcome unit :=
  if _is_thread_pending t k then Done tt k else
  let '(r, k) := _abort_thread_timeout t k in
  if r =? _INACTIVE then Done tt k else
  let k := _ready_thread t k in
  if _is_in_isr k then Done tt k else _reschedule_threads k.

Definition k_current_get (k : kernel) : tid := current k.
Definition k_is_preempt_thread (k : kernel) : bool :=
  negb (_is_in_isr k) && _is_preempt (current k) k.

(** ** Time slicing *)
Definition k_sched_time_slice_set (duration_in_ms p : Z) (k : kernel) : kernel :=
  let k := set_time_slice_duration duration_in_ms k in
  let k := set_time_slice_elapsed 0 k in
  set_time_slice_prio_ceiling p k.

(** [sys_dlist_has_multiple_nodes] *)
Definition has_multiple_nodes (l : list tid) : bool :=
  bool_decide (head l ≠ last l).

Definition _is_thread_time_slicing (t : tid) (k : kernel) : bool :=
  if negb (time_slice_duration k >? 0) || _is_idle_thread_ptr t
     || _is_prio_higher (prio (thr k t)) (time_slice_prio_ceiling k)
  then false
  else has_multiple_nodes (q k (RQ (_get_ready_q_q_index (prio (thr k t))))).

Definition handle_time_slicing (ticks : Z) (k : kernel) : kernel :=
  if negb (_is_thread_time_slicing (current k) k) then k else
  let k := set_time_slice_elapsed (s32 (time_slice_elapsed k + __ticks_to_ms ticks)) k in
  if time_slice_elapsed k >=? time_slice_duration k then
    let k := set_time_slice_elapsed 0 k in
    _move_thread_to_end_of_prio_q (current k) k
  else k.

(** ** The tick *)
Definition _nano_sys_clock_tick_announce (call : timeout_call) (ticks : Z) (k : kernel) : kernel :=
  let k := set_tick_count (u64 (tick_count k + ticks)) k in
  let k := handle_timeouts call ticks k in
  handle_time_slicing ticks k.

(** ** Interrupts

    [_enter_irq] (arch/mips/core/irq_manage.c) runs the handlers with the
    nesting count raised; on the way out [_enter_interrupt_exception] switches
    to the cached thread when the interrupted one is preemptible.  The
    interrupted thread stays on its ready queue. *)
Definition _enter_interrupt_exception (isr : kernel → kernel) (k : kernel) : kernel :=
  let k := set_nested (u32 (nested k + 1)) k in
  let k := isr k in
  let k := set_nested (u32 (nested k - 1)) k in
  if (nested k =? 0) && (preempt (thr k (current k)) <? _NON_PREEMPT_THRESHOLD)
     && negb (bool_decide (cache k = current k))
  then set_current (cache k) k
  else k.

(** ** Pending *)
(** A wait that the timeout queue can represent: for ever, or a positive number
    of ticks once rounded up. *)
Definition timeout_ok (timeout : Z) : Prop := timeout = K_FOREVER ∨ 0 < timeout_ticks timeout.

Lemma timeout_ticks_max timeout : timeout_ticks timeout ≤ INT32_MAX.
Proof.
  apply s32_range.
Qed.

(** Rounding up: the thread waits at least as long as asked. *)
Lemma timeout_ticks_spec ms :
  0 ≤ ms → 2 + ms / ms_per_tick ≤ INT32_MAX → ms ≤ INT32_MAX →
  0 < timeout_ticks ms ∧ ms ≤ (timeout_ticks ms - 1) * ms_per_tick ∧
  (timeout_ticks ms - 2) * ms_per_tick < ms.
Proof.
  intros Hms Hq Hmax. pose proof ms_per_tick_range. unfold INT32_MAX in *.
  set (n := (ms + (ms_per_tick - 1)) / ms_per_tick).
  assert (ms_per_tick * n ≤ ms + (ms_per_tick - 1) < ms_per_tick * n + ms_per_tick) as Hn.
  { assert (ms_per_tick ≠ 0) as Hm by lia. pose proof (Z.div_mod (ms + (ms_per_tick - 1)) _ Hm).
    assert (0 < ms_per_tick) as Hm' by lia.
    pose proof (Z.mod_pos_bound (ms + (ms_per_tick - 1)) _ Hm'). unfold n. lia. }
  assert (0 ≤ n ≤ ms / ms_per_tick + 1) as Hn'.
  { split; [nia|]. rewrite <-(Z.div_add ms 1 ms_per_tick) by lia. apply Z.div_le_mono; lia. }
  assert (_ms_to_ticks ms = n) as E.
  { unfold _ms_to_ticks. rewrite (u32_id ms) by lia. rewrite u32_id by lia. apply s32_id. unfold n in *. lia. }
  unfold timeout_ticks. rewrite E, s32_id by (unfold _TICK_ALIGN; lia). unfold _TICK_ALIGN. nia.
Qed.

(** [_pend_thread] links the thread behind all waiters of its priority or
    higher, and marks it; its timeout is due after [timeout_ticks]. *)
Lemma kinv_pend_thread X E k t w timeout :
  kinv ({[t]} ∪ X) E k → t ∉ X → t ∈ dom (threads k) → _is_thread_pending t k = false →
  delta k (TThread t) = _INACTIVE → timeout_ok timeout → w.1 ≠ KTimer ∨ timeout = K_FOREVER →
  let k' := _pend_thread t w timeout k in
  kinv X E k' ∧ sframe k k' ∧ _is_thread_pending t k' = true ∧
  q k' (WQ w) = insert_where (λ p, _is_t1_higher_prio_than_t2 t p k) t (q k (WQ w)).
Proof.
  intros Hk HX Ht Hnp Hd Hto Hfo k'.
  set (l := insert_where (λ p, _is_t1_higher_prio_than_t2 t p k) t (q k (WQ w))).
  set (k1 := _mark_thread_as_pending t (set_queues (<[WQ w := l]> (queues k)) k)).
  destruct (kinv_pend_insert ({[t]} ∪ X) E k t w l) as (Hk1 & Hp1 & Hq1);
    [done|set_solver|done|done|apply insert_where_perm|]. fold k1 in Hk1, Hp1, Hq1.
  assert (_is_thread_ready t k1 = false) as Hr1.
  { destruct (_is_thread_ready t k1) eqn:Hr; [|done]. apply ready_not_pending in Hr. congruence. }
  assert (t ∈ q k1 (WQ w)) as Hin by (rewrite Hq1; unfold l; rewrite insert_where_perm; mem).
  assert (t ∈ dom (threads k1)) as Ht1.
  { unfold k1, _mark_thread_as_pending, _set_thread_states. by rewrite dom_upd. }
  assert (k' = if timeout =? K_FOREVER then k1 else _add_thread_timeout t (Some w) (timeout_ticks timeout) k1) as Ek'.
  { unfold k', _pend_thread, k1, l, pend_point, q. rewrite <-find_insert_where.
    unfold DlistSpec.insert_before_node, DlistSpec.append. cbv zeta. by destruct (List.find _ _). }
  assert (sframe k k1) as Hf1 by (etrans; [|apply sframe_upd_thread, _]; sframe_done).
  clearbody k'. subst k'. destruct (timeout =? K_FOREVER) eqn:Ef; zbool.
  - split_and!; [|done|done|done]. eapply kinv_leave; [done|done|by exists w|by intros []|done].
  - destruct Hto as [|Hpos]; [done|]. pose proof (timeout_ticks_max timeout) as Hmax.
    assert (delta k1 (TThread t) = _INACTIVE) as Hd1 by exact Hd.
    destruct (add_timeout_spec (λ _ _ k, k) (Some t) (TThread t) (Some w) (timeout_ticks timeout) E k1)
      as (_ & _ & _ & Hfr & _ & _ & Hwq & _ & Hpos'); [apply Hk1|done|done|].
    fold (_add_thread_timeout t (Some w) (timeout_ticks timeout)) in *.
    pose proof (kinv_add_thread_timeout ({[t]} ∪ X) E k1 t (Some w) (timeout_ticks timeout) Hk1
      ltac:(set_solver) Ht1 Hd1 (conj Hpos Hmax)) as Hk2.
    set (k2 := _add_thread_timeout t (Some w) (timeout_ticks timeout) k1) in *.
    assert (threads k2 = threads k1 ∧ queues k2 = queues k1) as [Et Eq] by (rewrite Hfr; done).
    assert (∀ t', thr k2 t' = thr k1 t') as Hthr by (intros; unfold thr; by rewrite Et).
    assert (∀ r, q k2 r = q k1 r) as Hq by (intros; unfold q; by rewrite Eq).
    assert (_is_thread_pending t k2 = true) as Hp2 by (rewrite <-Hp1; apply pending_ext; by rewrite Hthr).
    split_and!; [|etrans; [exact Hf1|apply sframe_add_thread_timeout]|done|by rewrite Hq].
    eapply (kinv_leave _ _ _ t); [done| | | |].
    + destruct (_is_thread_ready t k2) eqn:Hr; [|done]. apply ready_not_pending in Hr. congruence.
    + intros _. exists w. by rewrite Hq.
    + rewrite Hwq, Hp2. done.
    + intros o Ho. destruct (kinv_not_queued _ _ _ t (KTimer, o) Hk Hnp). rewrite Hq in Ho.
      unfold k1, q in Ho. simpl in Ho. rewrite lookup_total_insert_ne in Ho; [done|].
      destruct Hfo as [Hfo|]; [|done]. intros [= ->]. by destruct Hfo.
Qed.

(** ** The system invariant

    What holds whenever threads are switched: the kernel invariant with nothing
    in between, a current thread that can run, no interrupt being served, and
    no preemption overdue: a preemptible current thread has the highest
    priority of all threads that can run. *)
Definition no_preemption_due (k : kernel) : Prop :=
  _is_preempt (current k) k = true → prio (thr k (current k)) ≤ prio (thr k (cache k)).

Record sys_inv (k : kernel) : Prop := {
  sys_kinv : kinv ∅ [] k;
  sys_current : runnable ∅ k (current k);
  sys_nested : nested k = 0;
  sys_handling : handling_timeouts k = false;
  sys_preempt : no_preemption_due k;
}.

Lemma must_switch_false k : kinv ∅ [] k → _must_switch_threads k = false → no_preemption_due k.
Proof.
  intros Hk Hm Hp. unfold _must_switch_threads, __must_switch_threads, _is_prio_higher,
    _is_prio1_higher_than_prio2 in Hm. rewrite Hp, (rq_inv_highest _ _ (inv_rq _ _ _ Hk)) in Hm.
  simpl in Hm. zbool. lia.
Qed.

Lemma cache_runnable X E k : kinv X E k → runnable X k (cache k).
Proof. intros Hk. by destruct (rq_cache_mem _ _ (inv_rq _ _ _ Hk)). Qed.

(** Locking and unlocking the scheduler leaves the state as it was. *)
Lemma sched_lock_unlock k :
  current k ∈ dom (threads k) → 0 ≤ sched_locked (thr k (current k)) < 256 →
  _sched_unlock_no_reschedule (_sched_lock k) = k.
Proof.
  intros Hc Hr. unfold _sched_unlock_no_reschedule, _sched_lock. rewrite upd_thread_twice.
  change (current (upd_thread ?t ?f ?k)) with (current k). apply upd_thread_id; [done|].
  destruct (thr k (current k)). unfold set_sched_locked. simpl in *. f_equal. unfold u8. dlia.
Qed.

Lemma must_switch_due k : kinv ∅ [] k → no_preemption_due k → _must_switch_threads k = false.
Proof.
  intros Hk Hn. unfold _must_switch_threads, __must_switch_threads, _is_prio_higher, _is_prio1_higher_than_prio2.
  rewrite (rq_inv_highest _ _ (inv_rq _ _ _ Hk)). destruct (_is_preempt (current k) k) eqn:Hp; [|done].
  specialize (Hn Hp). apply Z.ltb_ge. lia.
Qed.

Lemma sched_lock_unlock_done k : sys_inv k → k_sched_unlock (_sched_lock k) = Done tt k.
Proof.
  intros Hk. unfold k_sched_unlock, _is_in_isr. change (nested (_sched_lock k)) with (nested k).
  rewrite (sys_nested _ Hk). simpl negb. cbv iota. fold (_sched_unlock_no_reschedule (_sched_lock k)).
  pose proof (inv_current _ _ _ (sys_kinv _ Hk)) as Hc. rewrite sched_lock_unlock; [|done|].
  - unfold _reschedule_threads. by rewrite must_switch_due by apply Hk.
  - by apply (inv_thread _ _ _ (sys_kinv _ Hk)).
Qed.

(** [J] stands for what the rest of the system maintains: it does not look at
    the scheduler's own data. *)
Section with_objects.
Context (J : kernel → Prop) (F : Prop).
Hypothesis J_objects : ∀ k k', same_objects k k' → J k → J k'.

(** Discharges [J] for a state that differs outside the objects. *)
Local Ltac frame_J :=
  match goal with HJ : J ?k |- J ?k' => apply (J_objects k k'); [objects_done|exact HJ] end.

Definition sinv (k : kernel) : Prop := sys_inv k ∧ J k.

(** A state in which a thread may be swapped out. *)
Definition swap_ready (k : kernel) : Prop :=
  kinv ∅ [] k ∧ nested k = 0 ∧ handling_timeouts k = false ∧ J k.

Lemma swap_ready_sinv k : sinv k → swap_ready k.
Proof. by intros [[] ?]. Qed.

Lemma swap_ready_frame k k' :
  swap_ready k → kinv ∅ [] k' → sframe k k' → swap_ready k'.
Proof.
  intros (_ & Hn & Hh & HJ) Hk' Hfr. split_and!; [done| | |].
  - by rewrite (sframe_nested _ _ Hfr).
  - by rewrite (sframe_handling _ _ Hfr).
  - eapply J_objects; [by apply sframe_objects|done].
Qed.

Lemma swap_safe t k : swap_ready k → osafe F sinv t (λ _ k', sinv k' ∧ current k' = t) (_Swap k).
Proof.
  intros (Hk & Hn & Hh & HJ). simpl. split; [|done].
  set (k1 := upd_thread (current k) (set_return_value (- EAGAIN)) (set_time_slice_elapsed 0 k)).
  assert (kinv ∅ [] k1) as Hk1.
  { apply kinv_upd_keep; [by eapply kinv_frame; try apply Hk|apply Hk| |done|done].
    apply (inv_thread _ _ _ Hk (current k)), Hk. }
  assert (kinv ∅ [] (set_current (cache k1) k1)) as Hk2.
  { eapply kinv_frame; [exact Hk1| |done..]. by destruct (cache_runnable _ _ _ Hk1). }
  split; [|frame_J].
  split; [done| |done|done|].
  - apply (cache_runnable _ _ _ Hk2).
  - intros _. change (prio (thr k1 (cache k1)) ≤ prio (thr k1 (cache k1))). lia.
Qed.

Lemma swap_tt_safe t k : swap_ready k →
  osafe F sinv t (λ _ k', sinv k' ∧ current k' = t) (let% _ k := _Swap k in Done tt k).
Proof. intros Hk. eapply osafe_bind; [by apply swap_safe|]. done. Qed.

Lemma reschedule_safe k : swap_ready k → runnable ∅ k (current k) →
  osafe F sinv (current k) (λ _ k', sinv k' ∧ current k' = current k) (_reschedule_threads k).
Proof.
  intros Hk Hr. unfold _reschedule_threads. destruct (_must_switch_threads k) eqn:Hm.
  - by apply swap_tt_safe.
  - destruct Hk as (Hk & ? & ? & ?). simpl. split_and!; [|done]. split; [|done].
    split; try done. by apply must_switch_false.
Qed.

(** ** Every operation of sched.c preserves the system invariant *)
Definition op_safe {A} (o : kernel → outcome A) (k : kernel) : Prop :=
  osafe F sinv (current k) (λ _ k', sinv k' ∧ current k' = current k) (o k).

(** Locking changes only the lock count of the current thread. *)
Lemma kinv_sched_locked X E k t v :
  kinv X E k → t ∈ dom (threads k) → kinv X E (upd_thread t (λ x, set_sched_locked (u8 (v x)) x) k).
Proof.
  intros Hk Ht. apply kinv_upd_keep; [done|done| |done|done].
  destruct (inv_thread _ _ _ Hk t Ht) as (? & ? & _). split_and!; [done..|apply u8_range|apply u8_range].
Qed.

Lemma runnable_upd_keep X k t f t' :
  t ∈ dom (threads k) → thread_state (f (thr k t)) = thread_state (thr k t) →
  runnable X k t' → runnable X (upd_thread t f k) t'.
Proof.
  intros Ht Hs (? & ? & Hr). split_and!; [by rewrite dom_upd|done|]. rewrite <-Hr.
  apply ready_ext; [|done]. rewrite thr_upd. case_decide; [by subst|done].
Qed.

Lemma sched_unlock_safe k :
  swap_ready k → runnable ∅ k (current k) → op_safe k_sched_unlock k.
Proof.
  intros Hk Hr. unfold op_safe, k_sched_unlock, _is_in_isr. rewrite (proj1 (proj2 Hk)). simpl.
  pose proof (inv_current _ _ _ (proj1 Hk)) as Hc.
  set (k1 := upd_thread (current k) _ k). apply (reschedule_safe k1).
  - eapply swap_ready_frame; [done| |apply sframe_upd_thread, _].
    apply (kinv_sched_locked _ _ _ _ (λ x, sched_locked x + 1)); [apply Hk|done].
  - by apply runnable_upd_keep.
Qed.
Lemma k_sched_unlock_safe k : sinv k → op_safe k_sched_unlock k.
Proof. intros Hk. apply sched_unlock_safe; [by apply swap_ready_sinv|apply Hk]. Qed.

Lemma k_thread_priority_set_safe t p k :
  sinv k → t ∈ dom (threads k) → t ≠ _idle_thread →
  K_HIGHEST_THREAD_PRIO ≤ p ≤ K_LOWEST_APPLICATION_THREAD_PRIO →
  op_safe (k_thread_priority_set t p) k.
Proof.
  intros Hk Ht Hidle Hp. unfold op_safe, k_thread_priority_set. cbv zeta.
  pose proof (sframe_prio_set t p k) as Hfr.
  rewrite <-(sframe_current _ _ Hfr). apply reschedule_safe.
  - eapply swap_ready_frame; [by apply swap_ready_sinv| |done].
    apply kinv_thread_priority_set; [apply Hk|done|set_solver|done|done].
  - rewrite (sframe_current _ _ Hfr). apply runnable_prio_set; [done|]. apply Hk.
Qed.

Lemma k_yield_safe k : sinv k → op_safe k_yield k.
Proof.
  intros Hk. unfold op_safe, k_yield. cbv zeta. pose proof (sframe_move (current k) k) as Hfr.
  pose proof (kinv_move ∅ [] k (current k) (sys_kinv _ (proj1 Hk)) (sys_current _ (proj1 Hk))) as Hk1.
  set (k1 := _move_thread_to_end_of_prio_q (current k) k) in *.
  assert (swap_ready k1) as Hs by (eapply swap_ready_frame; [by apply swap_ready_sinv|done|done]).
  case_decide as Hc; [|by apply swap_tt_safe]. unfold _get_next_ready_thread in Hc.
  destruct Hs as (_ & ? & ? & ?). simpl. split; [|by apply sframe_current]. split; [|done].
  split; [done| |done|done|].
  - rewrite Hc. by apply (cache_runnable _ _ _ Hk1).
  - unfold no_preemption_due. rewrite Hc. lia.
Qed.

Lemma k_sleep_safe duration k :
  sinv k → current k ≠ _idle_thread → duration = 0 ∨ 0 < timeout_ticks duration →
  op_safe (k_sleep duration) k.
Proof.
  intros Hk Hidle Hd. unfold k_sleep. unfold op_safe. destruct (duration =? 0) eqn:Ez; zbool.
  { by apply k_yield_safe. }
  destruct Hd as [|Hd]; [done|]. cbv zeta. destruct (sys_current _ (proj1 Hk)) as (Hc & _ & Hr).
  pose proof (kinv_remove ∅ [] k (current k) (sys_kinv _ (proj1 Hk)) (sys_current _ (proj1 Hk)) Hidle) as Hk1.
  pose proof (sframe_remove (current k) k) as Hf1. set (k1 := _remove_thread_from_ready_q (current k) k) in *.
  rewrite (sframe_current _ _ Hf1).
  apply swap_tt_safe. eapply swap_ready_frame; [by apply swap_ready_sinv| |].
  - assert (current k ∈ dom (threads k1)) as Hc1 by (unfold k1; by rewrite threads_remove).
    assert (delta k1 (TThread (current k)) = _INACTIVE) as Hd1.
    { unfold delta, tmo, k1. rewrite timeouts_remove. by apply ready_inactive. }
    assert (_is_thread_pending (current k) k1 = false) as Hp1.
    { rewrite <-(ready_not_pending _ _ Hr). apply pending_ext. unfold k1. by rewrite thr_remove_ready. }
    pose proof (timeout_ticks_max duration) as Hmax.
    destruct (add_timeout_spec (λ _ _ k, k) (Some (current k)) (TThread (current k)) None
      (timeout_ticks duration) [] k1) as (_ & _ & _ & Hfr & _ & _ & Hw & _ & Hpos); [apply Hk1|done|done|].
    fold (_add_thread_timeout (current k) None (timeout_ticks duration)) in *.
    set (k2 := _add_thread_timeout _ _ _ _) in *.
    assert (threads k2 = threads k1) as Et by by rewrite Hfr.
    apply (kinv_leave _ _ _ (current k)).
    + apply kinv_add_thread_timeout; [done|set_solver|done|done|done].
    + destruct (_is_thread_ready (current k) k2) eqn:Hr2; [|done]. apply ready_inactive in Hr2.
      unfold delta in Hpos. rewrite Hr2 in Hpos. done.
    + rewrite (pending_ext _ k1), Hp1; [done|]. unfold thr. by rewrite Et.
    + intros _. rewrite Hw. rewrite (pending_ext _ k1), Hp1; [done|]. unfold thr. by rewrite Et.
    + intros o Ho. destruct (kinv_not_queued _ _ _ (current k) (KTimer, o) Hk1 Hp1).
      unfold q in *. by rewrite Hfr in Ho.
  - etrans; [exact Hf1|apply sframe_add_thread_timeout].
Qed.

(** [k_wakeup] ends a sleep early; it does nothing to a thread that waits for
    an object. *)
Lemma wakeup_kinv X k t :
  kinv X [] k → t ∉ X → t ∈ dom (threads k) → _is_thread_pending t k = false →
  delta k (TThread t) ≠ _INACTIVE →
  let k' := _ready_thread t (_abort_thread_timeout t k).2 in
  kinv X [] k' ∧ sframe k k'.
Proof.
  intros Hk HX Ht Hp Hact. cbv zeta. split; [|etrans; [apply sframe_abort|apply sframe_ready]].
  assert (kinv ({[t]} ∪ X) [] k) as Hk1.
  { apply kinv_enter; [done|]. destruct (_is_thread_ready t k) eqn:Hr; [|done]. by apply ready_inactive in Hr. }
  destruct (kinv_abort_timeout ({[t]} ∪ X) [] k (TThread t) Hk1) as [Hk2 Hd2]; [apply not_elem_of_nil|set_solver|].
  unfold _abort_thread_timeout. pose proof (abort_timeout_threads (TThread t) k) as Et.
  apply kinv_ready_thread; [done|done|by rewrite Et| |done|done].
  rewrite (pending_ext t k), Hp; [done|]. unfold thr. by rewrite Et.
Qed.

Lemma k_wakeup_safe t k : sinv k → t ∈ dom (threads k) → op_safe (k_wakeup t) k.
Proof.
  intros Hk Ht. unfold op_safe, k_wakeup. destruct (_is_thread_pending t k) eqn:Hp; [done|].
  pose proof (abort_timeout_spec (TThread t) [] k (inv_tq _ _ _ (sys_kinv _ (proj1 Hk))) (not_elem_of_nil _)) as Hab.
  unfold _abort_thread_timeout. destruct (_abort_timeout (TThread t) k) as [r k1] eqn:Ea.
  destruct Hab as (Hr & _). destruct (delta k (TThread t) =? _INACTIVE) eqn:Ei.
  { assert (k1 = k) as ->. { unfold _abort_timeout in Ea. rewrite Ei in Ea. by injection Ea. }
    rewrite Hr. simpl. done. }
  zbool. destruct (wakeup_kinv ∅ k t (sys_kinv _ (proj1 Hk))) as [Hk2 Hfr]; [set_solver|done|done|done|].
  unfold _abort_thread_timeout in Hk2, Hfr. rewrite Ea in Hk2, Hfr. simpl in Hk2, Hfr.
  rewrite Hr. simpl. unfold _is_in_isr. rewrite (sframe_nested _ _ Hfr), (sys_nested _ (proj1 Hk)). simpl.
  rewrite <-(sframe_current _ _ Hfr). apply reschedule_safe.
  - by eapply swap_ready_frame; [apply swap_ready_sinv| |].
  - rewrite (sframe_current _ _ Hfr). destruct (sys_current _ (proj1 Hk)) as (Hc & ? & Hrc).
    assert (current k ≠ t) as Hne.
    { intros E. rewrite E in Hrc. apply ready_inactive in Hrc. by apply Ei. }
    apply (runnable_ready_other _ k1); [done|].
    pose proof (abort_timeout_spec (TThread t) [] k (inv_tq _ _ _ (sys_kinv _ (proj1 Hk))) (not_elem_of_nil _)) as Hab.
    rewrite Ea in Hab. destruct Hab as (_ & _ & _ & _ & Hf & Hs & _).
    apply (runnable_ext _ k); [by rewrite Hf|unfold thr; by rewrite Hf| |done].
    apply same_timeout_inactive, Hs. congruence.
Qed.

(** ** The tick interrupt *)

(** Inside an interrupt taken while [c] was running. *)
Record isr_inv (c : tid) (n : Z) (k : kernel) : Prop := {
  isr_kinv : kinv ∅ [] k;
  isr_J : J k;
  isr_current : current k = c;
  isr_nested : nested k = n;
  isr_handling : handling_timeouts k = false;
  isr_runnable : runnable ∅ k c;
}.

(** What is required of timeout functions, which run with expired timeouts
    still to be handled. *)
Definition call_safe (call : timeout_call) : Prop :=
  ∀ c n, n ≠ 0 → call_ok (λ k, J k ∧ current k = c ∧ nested k = n ∧ handling_timeouts k = true ∧
    runnable ∅ k c) call.

Lemma handle_timeouts_isr call c n k :
  call_safe call → n ≠ 0 → isr_inv c n k → isr_inv c n (handle_timeouts call 1 k).
Proof.
  intros Hcall Hn0 [Hk HJ Hc Hn Hh Hr]. unfold handle_timeouts.
  destruct (head (timeout_q k)) as [h|] eqn:Eh; [|done]. cbv zeta.
  assert (0 ≤ 1 ≤ delta k h) as Ht by (pose proof (inv_tq_pos _ _ _ Hk h Eh); lia).
  pose proof (kinv_dequeue_expired k h 1 c Hk Eh Ht) as Hde.
  change (timeout_q (set_handling_timeouts true _)) with (timeout_q k).
  destruct (dequeue_expired _ _ _) as [E k1]. destruct Hde as (Hk1 & Hf1 & Hr1).
  destruct (kinv_handle_expired (λ k, J k ∧ current k = c ∧ nested k = n ∧ handling_timeouts k = true ∧
    runnable ∅ k c) c call) with (E := E) (k := k1) as (Hk2 & HJ2 & Hc2 & Hn2 & _ & Hr2).
  - intros k2 k3 Hf Hrr (? & ? & ? & ? & ?). rewrite (sframe_current _ _ Hf), (sframe_nested _ _ Hf),
      (sframe_handling _ _ Hf). split_and!; try done; [|auto]. by eapply J_objects; [apply sframe_objects|].
  - by apply Hcall.
  - done.
  - rewrite (sframe_current _ _ Hf1), (sframe_nested _ _ Hf1), (sframe_handling _ _ Hf1).
    split_and!; try done; [|auto]. eapply J_objects; [by apply sframe_objects|]. frame_J.
  - split; [by apply kinv_handling| |done|done|done|done]. frame_J.
Qed.

Lemma handle_time_slicing_isr ticks c n k :
  isr_inv c n k → isr_inv c n (handle_time_slicing ticks k).
Proof.
  intros [Hk HJ Hc Hn Hh Hr]. unfold handle_time_slicing. destruct (negb _); [done|]. cbv zeta.
  assert (∀ v, isr_inv c n (set_time_slice_elapsed v k)) as Hv.
  { intros v. split; [by eapply kinv_frame; try apply Hk| |done|done|done|done]. frame_J. }
  destruct (_ >=? _); [|apply Hv].
  destruct (Hv 0) as [Hk1 HJ1 Hc1 Hn1 Hh1 Hr1].
  set (k1 := set_time_slice_elapsed 0 (set_time_slice_elapsed _ k)).
  pose proof (sframe_move (current k1) k1) as Hf.
  assert (runnable ∅ k1 (current k1)) as Hr1' by (change (runnable ∅ k (current k)); by rewrite Hc).
  split.
  - apply kinv_move; [exact Hk1|done].
  - by eapply J_objects; [apply sframe_objects|].
  - by rewrite (sframe_current _ _ Hf).
  - by rewrite (sframe_nested _ _ Hf).
  - by rewrite (sframe_handling _ _ Hf).
  - unfold _move_thread_to_end_of_prio_q. cbv zeta. by case_decide.
Qed.

Lemma tick_announce_isr call c n k :
  call_safe call → n ≠ 0 → isr_inv c n k → isr_inv c n (_nano_sys_clock_tick_announce call 1 k).
Proof.
  intros Hcall Hn0 [Hk HJ Hc Hn Hh Hr]. unfold _nano_sys_clock_tick_announce. cbv zeta.
  apply handle_time_slicing_isr, handle_timeouts_isr; [done|done|].
  split; [by eapply kinv_frame; try apply Hk| |done|done|done|done]. frame_J.
Qed.

(** An interrupt, seen from the threads: whatever its handler did within the
    kernel invariant, the thread that runs after it is the right one. *)
Lemma interrupt_safe isr k :
  sinv k → (∀ k1, isr_inv (current k) 1 k1 → isr_inv (current k) 1 (isr k1)) →
  sinv (_enter_interrupt_exception isr k).
Proof.
  intros [[Hk Hc Hn Hh Hp] HJ] Hisr. unfold _enter_interrupt_exception. cbv zeta. rewrite Hn.
  change (u32 (0 + 1)) with 1.
  destruct (Hisr (set_nested 1 k)) as [Hk1 HJ1 Hc1 Hn1 Hh1 Hr1].
  { split; [by eapply kinv_frame; try apply Hk| |done|done|done|done]. frame_J. }
  set (k1 := isr (set_nested 1 k)) in *. rewrite Hn1. change (u32 (1 - 1)) with 0. simpl.
  set (k2 := set_nested 0 k1).
  assert (kinv ∅ [] k2) as Hk2 by (eapply kinv_frame; try done; apply Hk1).
  assert (J k2) as HJ2 by (frame_J).
  assert (_is_preempt (current k2) k2 = (preempt (thr k1 (current k1)) <? _NON_PREEMPT_THRESHOLD)) as Hpre.
  { unfold _is_preempt, _PREEMPT_THRESHOLD. change (thr k2 (current k2)) with (thr k1 (current k1)).
    apply eq_true_iff_eq. rewrite Z.leb_le, Z.ltb_lt. lia. }
  case_test; zbool.
  - split; [|frame_J].
    split; [|apply (cache_runnable _ _ _ Hk2)|done|done|].
    + eapply kinv_frame; try done. by destruct (cache_runnable _ _ _ Hk2).
    + intros _. change (prio (thr k1 (cache k1)) ≤ prio (thr k1 (cache k1))). lia.
  - split; [|done]. split; [done|by rewrite <-Hc1 in Hr1|done|done|].
    intros Hpt. rewrite Hpre in Hpt. change (prio (thr k1 (current k1)) ≤ prio (thr k1 (cache k1))).
    destruct E as [E|E]; zbool.
    + change (thr k2 (current k1)) with (thr k1 (current k1)) in E. lia.
    + change (cache k1 = current k1) in E. by rewrite E.
Qed.

End with_objects.
End sched.
