(* ===== verification/Thread.v ===== *)
(** * Threads (kernel/thread.c, kernel/thread_abort.c, kernel/init.c)

    Creating, starting, cancelling, suspending, resuming and aborting threads,
    static thread groups, and the initialisation of multithreading. *)
From stdpp Require Import gmap list.
From S2P Require Import Prelude Dlist KState Ksched TimeoutQ SchedInv Outcome Sched.
Local Open Scope Z_scope.
Local Open Scope outcome_scope.

Section thread.
Context `{KConfig}.

Definition K_ESSENTIAL : Z := 1.
Definition k_is_in_isr (k : kernel) : bool := _is_in_isr k.
Definition _thread_essential_set (k : kernel) : kernel :=
  upd_thread (current k) (λ x, set_user_options (u8 (Z.lor (user_options x) K_ESSENTIAL)) x) k.
Definition _thread_essential_clear (k : kernel) : kernel :=
  upd_thread (current k) (λ x, set_user_options (u8 (Z.land (user_options x) (Z.lnot K_ESSENTIAL))) x) k.
Definition _is_thread_essential (k : kernel) : bool :=
  negb (Z.land (user_options (thr k (current k))) K_ESSENTIAL =? 0).

(** The list of all threads.  [_thread_monitor_exit] of a thread that is not
    on it runs over the end of the list: it dereferences NULL. *)
Definition thread_monitor_init (t : tid) (k : kernel) : kernel :=
  set_all_threads (t :: all_threads k) k.
Fixpoint unlink_first (t : tid) (l : list tid) : option (list tid) :=
  match l with
  | [] => None
  | t' :: l => if decide (t = t') then Some l else cons t' <$> unlink_first t l
  end.
Definition _thread_monitor_exit (t : tid) (k : kernel) : outcome unit :=
  match unlink_first t (all_threads k) with
  | Some l => Done tt (set_all_threads l k)
  | None => Fault
  end.

(** ** Creation *)
Definition _init_thread_base (t : tid) (priority initial_state options : Z) (k : kernel) : kernel :=
  let k := upd_thread t (λ x, set_sched_locked 0 (set_prio (s8 priority)
    (set_thread_state (u8 initial_state) (set_user_options (u8 options) x)))) k in
  _init_thread_timeout t k.

(** [_new_thread] and [_new_thread_init], less the stack contents and the saved
    registers. *)
Definition _new_thread (t : tid) (priority options : Z) (k : kernel) : kernel :=
  let k := _init_thread_base t priority _THREAD_PRESTART options k in
  thread_monitor_init t k.

Definition start_thread (t : tid) (k : kernel) : outcome unit :=
  let k := _mark_thread_as_started t k in
  if _is_thread_ready t k then
    let k := _add_thread_to_ready_q t k in
    if _must_switch_threads k then
      let% _ k := _Swap k in Done tt k
    else Done tt k
  else Done tt k.

Definition schedule_new_thread (t : tid) (delay : Z) (k : kernel) : outcome unit :=
  if delay =? 0 then start_thread t k
  else Done tt (_add_thread_timeout t None (timeout_ticks delay) k).

Definition k_thread_create (t : tid) (p options delay : Z) (k : kernel) : outcome tid :=
  let k := _new_thread t p options k in
  let% _ k := schedule_new_thread t delay k in Done t k.

Definition k_thread_cancel (t : tid) (k : kernel) : outcome Z :=
  if _has_thread_started t k || negb (_is_thread_timeout_active t k) then Done (- EINVAL) k else
  let '(_, k) := _abort_thread_timeout t k in
  let% _ k := _thread_monitor_exit t k in
  Done 0 k.

(** ** Operations on one thread *)
Definition _k_thread_single_start (t : tid) (k : kernel) : kernel :=
  let k := _mark_thread_as_started t k in
  if _is_thread_ready t k then _add_thread_to_ready_q t k else k.

Definition _k_thread_single_suspend (t : tid) (k : kernel) : kernel :=
  let k := if _is_thread_ready t k then _remove_thread_from_ready_q t k else k in
  _mark_thread_as_suspended t k.

Definition k_thread_suspend (t : tid) (k : kernel) : outcome unit :=
  let k := _k_thread_single_suspend t k in
  if decide (t = current k) then
    let% _ k := _Swap k in Done tt k
  else Done tt k.

Definition _k_thread_single_resume (t : tid) (k : kernel) : kernel :=
  let k := _mark_thread_as_not_suspended t k in
  if _is_thread_ready t k then _add_thread_to_ready_q t k else k.

Definition k_thread_resume (t : tid) (k : kernel) : outcome unit :=
  let k := _k_thread_single_resume t k in
  _reschedule_threads k.

(** [fn_abort] is the thread's abort function, NULL unless someone set it. *)
Definition _k_thread_single_abort (fn_abort : option (kernel → kernel)) (t : tid) (k : kernel) : kernel :=
  let k := match fn_abort with Some f => f k | None => k end in
  let k :=
    if _is_thread_ready t k then _remove_thread_from_ready_q t k else
    let k := if _is_thread_pending t k then _unpend_thread t k else k in
    if _is_thread_timeout_active t k then (_abort_thread_timeout t k).2 else k in
  _mark_thread_as_dead t k.

Definition k_thread_abort (fn_abort : option (kernel → kernel)) (t : tid) (k : kernel) : outcome unit :=
  let k := _k_thread_single_abort fn_abort t k in
  let% _ k := _thread_monitor_exit t k in
  if decide (current k = t) then
    let% _ k := _Swap k in Done tt k
  else _reschedule_threads k.

(** ** Static threads and groups *)
Record _static_thread_data := mk_static {
  init_thread : tid;
  init_prio : Z;
  init_options : Z;
  init_delay : Z;
  init_groups : Z;
}.

Definition is_in_any_group (d : _static_thread_data) (groups : Z) : bool :=
  negb (Z.land (init_groups d) groups =? 0).

Definition _k_thread_group_op (statics : list _static_thread_data) (groups : Z)
    (func : tid → kernel → kernel) (k : kernel) : outcome unit :=
  let k := _sched_lock k in
  let k := fold_left (λ k d, if is_in_any_group d groups then func (init_thread d) k else k) statics k in
  if _is_thread_ready (current k) k then k_sched_unlock k
  else
    let k := _sched_unlock_no_reschedule k in
    let% _ k := _Swap k in Done tt k.

Definition _k_thread_group_mask_get (d : _static_thread_data) : Z := init_groups d.
Definition _k_thread_group_join (groups : Z) (d : _static_thread_data) : _static_thread_data :=
  mk_static (init_thread d) (init_prio d) (init_options d) (init_delay d) (u32 (Z.lor (init_groups d) groups)).
Definition _k_thread_group_leave (groups : Z) (d : _static_thread_data) : _static_thread_data :=
  mk_static (init_thread d) (init_prio d) (init_options d) (init_delay d) (u32 (Z.land (init_groups d) groups)).

Fixpoint schedule_static_threads (statics : list _static_thread_data) (k : kernel) : outcome unit :=
  match statics with
  | [] => Done tt k
  | d :: statics =>
      if init_delay d =? K_FOREVER then schedule_static_threads statics k
      else
        let% _ k := schedule_new_thread (init_thread d) (init_delay d) k in
        schedule_static_threads statics k
  end.

Definition _init_static_threads (statics : list _static_thread_data) (k : kernel) : outcome unit :=
  let k := fold_left (λ k d, _new_thread (init_thread d) (init_prio d) (init_options d) k) statics k in
  let k := _sched_lock k in
  let% _ k := schedule_static_threads statics k in
  k_sched_unlock k.

(** ** Boot: [prepare_multithreading] and [switch_to_main_thread]

    All kernel data but the time slice is zero on entry; the code runs on a
    dummy thread. *)
Definition zero_kernel (dummy : tid) : kernel :=
  mk_kernel ∅ ∅ 0%nat (replicate (Z.to_nat K_NUM_PRIO_BITMAPS) 0) dummy 0 [] ∅ false 0 0 CONFIG_TIMESLICE_SIZE CONFIG_TIMESLICE_PRIORITY []
    ∅ ∅ ∅ ∅ ∅ ∅ ∅ ∅ (mk_objects ∅ ∅ ∅ ∅ ∅ false).

Definition init_ready_queues (k : kernel) : kernel :=
  set_queues (foldr (λ ii, DlistSpec.init (RQ (Z.of_nat ii))) (queues k)
    (seq 0 (Z.to_nat K_NUM_PRIORITIES))) k.

Definition prepare_multithreading (dummy main : tid) (main_prio : Z) (k : kernel) : kernel :=
  let k := set_current dummy k in
  let k := upd_thread dummy (λ x, set_prio K_HIGHEST_THREAD_PRIO
    (set_thread_state _THREAD_DUMMY (set_user_options K_ESSENTIAL x))) k in
  let k := init_ready_queues k in
  let k := set_cache main k in
  let k := _new_thread main main_prio K_ESSENTIAL k in
  let k := _mark_thread_as_started main k in
  let k := _add_thread_to_ready_q main k in
  let k := _new_thread _idle_thread K_LOWEST_THREAD_PRIO K_ESSENTIAL k in
  let k := _mark_thread_as_started _idle_thread k in
  let k := _add_thread_to_ready_q _idle_thread k in
  let k := set_timeout_q [] k in
  set_nested 0 k.

Definition switch_to_main_thread (k : kernel) : outcome Z := _Swap k.

Definition boot (dummy main : tid) (main_prio : Z) : outcome Z :=
  switch_to_main_thread (prepare_multithreading dummy main main_prio (zero_kernel dummy)).

(** ** Creation preserves the invariant *)

(** A thread structure that may be initialised: new, or of a thread that no
    queue holds any more. *)
Definition reusable (t : tid) (k : kernel) : Prop :=
  t ≠ _idle_thread ∧ delta k (TThread t) = _INACTIVE ∧
  (t ∈ dom (threads k) → _is_thread_ready t k = false ∧ _is_thread_pending t k = false).

Lemma new_thread_flags t p o k :
  let k' := _new_thread t p o k in
  _is_thread_ready t k' = false ∧ _is_thread_pending t k' = false ∧ _has_thread_started t k' = false ∧
  delta k' (TThread t) = _INACTIVE.
Proof.
  cbv zeta. assert (thread_state (thr (_new_thread t p o k) t) = _THREAD_PRESTART) as Hs.
  { unfold _new_thread, _init_thread_base.
    change (thr (thread_monitor_init t (_init_thread_timeout t ?x)) t) with (thr x t).
    by rewrite thr_upd, decide_True. }
  split_and!.
  - unfold _is_thread_ready, _is_thread_prevented_from_running. by rewrite Hs.
  - unfold _is_thread_pending, _is_thread_state_set. by rewrite Hs.
  - unfold _has_thread_started. by rewrite Hs.
  - unfold delta, _new_thread, _init_thread_base.
    change (tmo (thread_monitor_init t ?x)) with (tmo x). unfold _init_thread_timeout, _init_timeout.
    by rewrite tmo_upd, decide_True.
Qed.

Lemma new_thread_ok t p o k :
  t ≠ _idle_thread → K_HIGHEST_THREAD_PRIO ≤ p ≤ K_LOWEST_APPLICATION_THREAD_PRIO →
  thread_ok t (thr (_new_thread t p o k) t).
Proof.
  intros Hidle Hp. unfold _new_thread, _init_thread_base.
  change (thr (thread_monitor_init t (_init_thread_timeout t ?x)) t) with (thr x t).
  rewrite thr_upd, decide_True by done. unfold thread_ok. rewrite decide_False by done. simpl.
  pose proof coop_range. pose proof preempt_range.
  unfold K_HIGHEST_THREAD_PRIO, K_LOWEST_APPLICATION_THREAD_PRIO, K_LOWEST_THREAD_PRIO in *.
  rewrite s8_id by lia. lia.
Qed.

Lemma kinv_new_thread E k t p o :
  kinv ∅ E k → reusable t k → K_HIGHEST_THREAD_PRIO ≤ p ≤ K_LOWEST_APPLICATION_THREAD_PRIO →
  kinv ∅ E (_new_thread t p o k).
Proof.
  intros Hk (Hidle & Hd & Hold) Hp. set (k' := _new_thread t p o k).
  destruct (new_thread_flags t p o k) as (Hr & Hpe & _ & Hd'). fold k' in Hr, Hpe, Hd'.
  assert (dom (threads k') = {[t]} ∪ dom (threads k)) as Hdom by apply dom_insert_L.
  assert (∀ t', t' ≠ t → thr k' t' = thr k t') as Hthr.
  { intros t' Ht'. change (thr k' t') with (thr (upd_thread t (λ x, set_sched_locked 0 (set_prio (s8 p)
      (set_thread_state (u8 _THREAD_PRESTART) (set_user_options (u8 o) x)))) k) t').
    by rewrite thr_upd, decide_False. }
  assert (∀ i, i ≠ TThread t → tmo k' i = tmo k i) as Htm.
  { intros i Hi. change (tmo k' i) with (tmo (_init_thread_timeout t k) i). unfold _init_thread_timeout, _init_timeout.
    by rewrite tmo_upd, decide_False. }
  assert (∀ i, delta k' i = delta k i) as Hde.
  { intros i. destruct (decide (i = TThread t)) as [->|]; [congruence|]. unfold delta. by rewrite Htm. }
  assert (∀ t', t' ≠ t → _is_thread_pending t' k' = _is_thread_pending t' k) as Hpo.
  { intros. apply pending_ext. by rewrite Hthr. }
  assert (∀ t', runnable ∅ k' t' ↔ runnable ∅ k t') as HR.
  { intros t'. unfold runnable. rewrite Hdom. destruct (decide (t' = t)) as [->|].
    - rewrite Hr. split; [by intros (_ & _ & ?)|]. intros (Ht & _ & Hrt). destruct (Hold Ht). congruence.
    - rewrite (ready_ext t' k k'); [set_solver|by rewrite Hthr|by rewrite Hde]. }
  assert (∀ w, t ∉ q k (WQ w)) as Hnw.
  { intros w Hin. apply (inv_wq _ _ _ Hk) in Hin as [Ht Hpt]. destruct (Hold Ht). congruence. }
  pose proof Hk as [Hc Hi Hth Hrq Hnd Hwq Hu Hpd Htq Hpos Htt Ho Hh Hfo]. split; rewrite ?Hdom; try done.
  - apply elem_of_union. by right.
  - by apply HR.
  - intros t' Ht'. destruct (decide (t' = t)) as [->|]; [by apply new_thread_ok|].
    rewrite Hthr by done. apply Hth. set_solver.
  - eapply rq_inv_frame; [done|done|done| |done|done]. intros t' Ht'. rewrite Hthr; [done|].
    intros ->. apply HR in Ht' as (_ & _ & Ht'). congruence.
  - intros t' w Hin. destruct (decide (t' = t)) as [->|]; [by apply Hnw in Hin|].
    rewrite Hpo by done. destruct (Hwq t' w Hin). set_solver.
  - intros t' Ht' _ Hpt. destruct (decide (t' = t)) as [->|]; [congruence|]. rewrite Hpo in Hpt by done.
    apply Hpd; [set_solver|set_solver|done].
  - by eapply tq_inv_frame.
  - intros i. rewrite Hde. apply Hpos.
  - intros t'. rewrite Hde. intros Ha. assert (t' ≠ t) by (intros ->; done).
    rewrite Htm by congruence. rewrite Hpo by done. destruct (Htt t' Ha) as (? & ? & ?).
    split_and!; [set_solver|done|done].
  - intros i Hi'. rewrite Hde, Htm by done. by apply Ho.
  - intros t' o'. rewrite Hde. apply Hfo.
Qed.

(** ** Blocking and unblocking a thread by its state *)

(** Clearing the flag that blocks a thread, and queueing it if that was the
    last reason. *)
Lemma kinv_unblock E k t n :
  kinv ∅ E k → t ∈ dom (threads k) → _is_thread_ready t k = false → 0 ≤ n → n ≠ 1 →
  let k1 := _reset_thread_states t (2 ^ n) k in
  kinv ∅ E (if _is_thread_ready t k1 then _add_thread_to_ready_q t k1 else k1).
Proof.
  intros Hk Ht Hr Hn Hn1. cbv zeta.
  assert (kinv ({[t]} ∪ ∅) E (_reset_thread_states t (2 ^ n) k)) as Hk1.
  { apply kinv_reset_state; [by apply kinv_enter|set_solver|done|done|done]. }
  assert (_is_thread_pending t (_reset_thread_states t (2 ^ n) k) = _is_thread_pending t k) as Hpe.
  { rewrite !pending_flag, flag_reset, decide_True by (done || lia).
    by rewrite (proj2 (Z.eqb_neq n 1) Hn1), andb_true_r. }
  destruct (_is_thread_ready t (_reset_thread_states t (2 ^ n) k)) eqn:Hr1.
  - apply kinv_add; [done|set_solver| |done]. unfold _reset_thread_states. by rewrite dom_upd.
  - apply (kinv_leave _ _ _ t); [done|done| | |].
    + rewrite Hpe. intros. apply (inv_pend _ _ _ Hk); [done|set_solver|done].
    + rewrite Hpe. intros Ha. by apply (inv_tthread _ _ _ Hk t Ha).
    + intros o. by apply (inv_forever _ _ _ Hk).
Qed.

Lemma set_state_not_ready t n k :
  n = 3 ∨ n = 4 → _is_thread_ready t (_set_thread_states t (2 ^ n) k) = false.
Proof.
  intros Hn. unfold _is_thread_ready. rewrite prevented_flags, !flag_set, !decide_True by (done || lia).
  destruct Hn as [-> | ->]; simpl; rewrite ?orb_true_r; done.
Qed.

(** Setting a blocking flag on a thread in between. *)
Lemma kinv_block E k t n :
  kinv ({[t]} ∪ ∅) E k → t ∈ dom (threads k) → n = 3 ∨ n = 4 →
  (_is_thread_pending t k = true → ∃ w, t ∈ q k (WQ w)) →
  (delta k (TThread t) ≠ _INACTIVE →
    to_wait_q (tmo k (TThread t)) = None ↔ _is_thread_pending t k = false) →
  (∀ o, t ∈ q k (WQ (KTimer, o)) → delta k (TThread t) = _INACTIVE) →
  kinv ∅ E (_set_thread_states t (2 ^ n) k).
Proof.
  intros Hk Ht Hn Hp Ha Hfo.
  assert (_is_thread_pending t (_set_thread_states t (2 ^ n) k) = _is_thread_pending t k) as Hpe.
  { rewrite !pending_flag, flag_set, decide_True by (done || lia). by destruct Hn as [-> | ->]; rewrite orb_false_r. }
  apply (kinv_leave _ _ _ t); [apply kinv_set_state; [done|set_solver|done|lia]|by apply set_state_not_ready| | |done];
    by rewrite Hpe.
Qed.

Lemma kinv_single_start E k t :
  kinv ∅ E k → t ∈ dom (threads k) → _is_thread_ready t k = false → kinv ∅ E (_k_thread_single_start t k).
Proof. intros. by apply (kinv_unblock E k t 2). Qed.

Lemma kinv_single_resume E k t :
  kinv ∅ E k → t ∈ dom (threads k) → _is_thread_ready t k = false → kinv ∅ E (_k_thread_single_resume t k).
Proof. intros. by apply (kinv_unblock E k t 4). Qed.

Lemma kinv_single_suspend E k t :
  kinv ∅ E k → t ∈ dom (threads k) → t ≠ _idle_thread → kinv ∅ E (_k_thread_single_suspend t k).
Proof.
  intros Hk Ht Hidle. unfold _k_thread_single_suspend, _mark_thread_as_suspended. cbv zeta.
  change _THREAD_SUSPENDED with (2 ^ 4). destruct (_is_thread_ready t k) eqn:Hr.
  - apply kinv_block; [|by rewrite threads_remove|by right| | |].
    + apply kinv_remove; [done| |done]. split_and!; [done|set_solver|done].
    + rewrite (pending_ext t k), ready_not_pending by (done || by rewrite thr_remove_ready). done.
    + unfold delta, tmo. rewrite timeouts_remove. apply ready_inactive in Hr. unfold tmo in Hr. by rewrite Hr.
    + intros _ _. unfold delta, tmo. rewrite timeouts_remove. by apply ready_inactive in Hr.
  - apply kinv_block; [by apply kinv_enter|done|by right| | |].
    + intros. apply (inv_pend _ _ _ Hk); [done|set_solver|done].
    + intros Ha. by apply (inv_tthread _ _ _ Hk t Ha).
    + intros o. by apply (inv_forever _ _ _ Hk).
Qed.

(** An aborted thread is on no queue and can be initialised anew. *)
Lemma kinv_single_abort E k t :
  kinv ∅ E k → t ∈ dom (threads k) → t ≠ _idle_thread → TThread t ∉ E →
  let k' := _k_thread_single_abort None t k in kinv ∅ E k' ∧ reusable t k'.
Proof.
  intros Hk Ht Hidle HE. unfold _k_thread_single_abort, _mark_thread_as_dead. cbv zeta.
  change _THREAD_DEAD with (2 ^ 3).
  set (k1 := if _is_thread_ready t k then _ else _).
  assert (kinv ({[t]} ∪ ∅) E k1 ∧ t ∈ dom (threads k1) ∧ _is_thread_pending t k1 = false ∧
    delta k1 (TThread t) = _INACTIVE) as (Hk1 & Ht1 & Hp1 & Hd1).
  { unfold k1. destruct (_is_thread_ready t k) eqn:Hr.
    - split_and!; [|by rewrite threads_remove| |].
      + apply kinv_remove; [done| |done]. split_and!; [done|set_solver|done].
      + by rewrite (pending_ext t k), ready_not_pending by (done || by rewrite thr_remove_ready).
      + unfold delta, tmo. rewrite timeouts_remove. by apply ready_inactive in Hr.
    - pose proof (kinv_enter ∅ E k t Hk Hr) as Hk0.
      set (k2 := if _is_thread_pending t k then _unpend_thread t k else k).
      assert (kinv ({[t]} ∪ ∅) E k2 ∧ t ∈ dom (threads k2) ∧ _is_thread_pending t k2 = false) as (Hk2 & Ht2 & Hp2).
      { unfold k2. destruct (_is_thread_pending t k) eqn:Hp; [|done].
        destruct (kinv_unpend ({[t]} ∪ ∅) E k t Hk0) as (? & ? & _); [set_solver|done|].
        split_and!; [done| |done]. unfold _unpend_thread, _mark_thread_as_not_pending, _reset_thread_states.
        by rewrite dom_upd. }
      unfold _is_thread_timeout_active, _abort_thread_timeout. fold (delta k2 (TThread t)).
      destruct (delta k2 (TThread t) =? _INACTIVE) eqn:Ed; zbool; simpl; [done|].
      destruct (kinv_abort_timeout ({[t]} ∪ ∅) E k2 (TThread t) Hk2 HE) as [Hk3 Hd3].
      { intros t' [= ->]. set_solver. }
      split_and!; [done|by rewrite abort_timeout_threads| |done].
      rewrite (pending_ext t k2); [done|]. unfold thr. by rewrite abort_timeout_threads. }
  split; [apply kinv_block; [done|done|by left|by rewrite Hp1|by intros []|done]|].
  split_and!; [done|done|]. intros _. split; [by apply set_state_not_ready; left|].
  rewrite pending_flag, flag_set, decide_True by (done || lia). rewrite <-pending_flag. by rewrite Hp1.
Qed.

Lemma kinv_cancel E k t :
  kinv ∅ E k → t ∈ dom (threads k) → TThread t ∉ E → _has_thread_started t k = false →
  kinv ∅ E (_abort_thread_timeout t k).2.
Proof.
  intros Hk Ht HE Hst. unfold _abort_thread_timeout.
  assert (∀ k', thr k' t = thr k t → _is_thread_ready t k' = false) as Hr.
  { intros k' Hthr. unfold _is_thread_ready. rewrite prevented_flags. unfold _has_thread_started in Hst.
    change _THREAD_PRESTART with (2 ^ 2) in Hst. rewrite land_pow2_eqb in Hst by done.
    unfold flag. rewrite Hthr. apply negb_false_iff in Hst. rewrite Hst. by destruct (Z.testbit _ 1). }
  destruct (kinv_abort_timeout ({[t]} ∪ ∅) E k (TThread t)) as [Hk1 Hd1]; [by apply kinv_enter, Hr|done|set_solver|].
  assert (∀ t', thr (_abort_timeout (TThread t) k).2 t' = thr k t') as Hthr.
  { intros. unfold thr. by rewrite abort_timeout_threads. }
  apply (kinv_leave _ _ _ t); [done|by apply Hr| |done|done].
  rewrite (pending_ext t k) by by rewrite Hthr. intros Hp.
  destruct (inv_pend _ _ _ Hk t Ht (not_elem_of_empty _) Hp) as [w Hw]. exists w.
  by rewrite q_abort.
Qed.

(** ** Every operation preserves the system invariant *)
Section safe.
Context (J : kernel → Prop) (F : Prop).
Hypothesis J_objects : ∀ k k', same_objects k k' → J k → J k'.

(** After an operation on another thread, the current one checks whether it
    must give way. *)
Lemma only_swap_ready t k k' :
  sinv J k → only t k k' → kinv ∅ [] k' → swap_ready J k'.
Proof. intros Hk Ho Hk'. eapply swap_ready_frame; [done|by apply swap_ready_sinv|done|by eapply only_sframe]. Qed.

Lemma only_reschedule t k k' :
  sinv J k → only t k k' → kinv ∅ [] k' → current k ≠ t →
  osafe F (sinv J) (current k) (λ _ k1, sinv J k1 ∧ current k1 = current k) (_reschedule_threads k').
Proof.
  intros Hk Ho Hk' Hc. rewrite <-(sframe_current _ _ (only_sframe _ _ _ Ho)).
  apply reschedule_safe; [done|by eapply only_swap_ready|].
  rewrite (sframe_current _ _ (only_sframe _ _ _ Ho)). eapply only_runnable; [done|done|]. apply Hk.
Qed.

(** Without a check: nothing of higher priority became ready. *)
Lemma only_done t k k' :
  sinv J k → only t k k' → kinv ∅ [] k' → current k ≠ t → no_preemption_due k' →
  sinv J k' ∧ current k' = current k.
Proof.
  intros Hk Ho Hk' Hc Hp. pose proof (sframe_current _ _ (only_sframe _ _ _ Ho)) as Ec.
  destruct (only_swap_ready t k k' Hk Ho Hk') as (_ & Hn & Hh & HJ).
  split; [|done]. split; [|done]. split; [done| |done|done|done].
  rewrite Ec. eapply only_runnable; [done|done|]. apply Hk.
Qed.

Lemma only_single_resume t k : only t k (_k_thread_single_resume t k).
Proof.
  unfold _k_thread_single_resume. cbv zeta. destruct (_is_thread_ready t _); [|apply only_upd_thread, _].
  etrans; [|apply only_add]. apply only_upd_thread, _.
Qed.
Lemma only_single_suspend t k : only t k (_k_thread_single_suspend t k).
Proof.
  unfold _k_thread_single_suspend. cbv zeta. destruct (_is_thread_ready t k); [|apply only_upd_thread, _].
  etrans; [apply only_remove|apply only_upd_thread, _].
Qed.
Lemma only_single_abort t k : tq_inv [] k → only t k (_k_thread_single_abort None t k).
Proof.
  intros Htq. unfold _k_thread_single_abort. cbv zeta. etrans; [|apply only_upd_thread, _].
  destruct (_is_thread_ready t k); [apply only_remove|].
  destruct (_is_thread_pending t k).
  - etrans; [apply only_unpend|]. destruct (_is_thread_timeout_active t _); [|reflexivity].
    eapply only_abort; [by eapply tq_inv_frame|apply not_elem_of_nil].
  - destruct (_is_thread_timeout_active t _); [|reflexivity]. by eapply only_abort; [|apply not_elem_of_nil].
Qed.

(** Resuming a thread that can already run is excluded: see
    [single_resume_duplicates]. *)
Lemma k_thread_resume_safe t k :
  sinv J k → t ∈ dom (threads k) → _is_thread_ready t k = false → op_safe J F (k_thread_resume t) k.
Proof.
  intros Hk Ht Hr. unfold op_safe, k_thread_resume. cbv zeta.
  apply (only_reschedule t); [done|apply only_single_resume|apply kinv_single_resume; [apply Hk|done|done]|].
  intros E. destruct (sys_current _ (proj1 Hk)) as (_ & _ & Hc). congruence.
Qed.

(** A state with fewer ready threads needs no check. *)
Lemma single_suspend_cache k t :
  kinv ∅ [] k → t ∈ dom (threads k) → t ≠ _idle_thread →
  let k' := _k_thread_single_suspend t k in
  prio (thr k (cache k)) ≤ prio (thr k' (cache k')).
Proof.
  intros Hk Ht Hidle k'. pose proof (kinv_single_suspend [] k t Hk Ht Hidle) as Hk'. fold k' in Hk'.
  destruct (cache_runnable _ _ _ Hk') as (Hd & _ & Hr').
  assert (cache k' ≠ t) as Hne.
  { intros E. rewrite E in Hr'. unfold k', _k_thread_single_suspend, _mark_thread_as_suspended in Hr'.
    cbv zeta in Hr'. change _THREAD_SUSPENDED with (2 ^ 4) in Hr'. by rewrite set_state_not_ready in Hr' by auto. }
  destruct (only_single_suspend t k) as (_ & Hot). destruct (Hot _ Hne) as [Et Hi]. fold k' in Et, Hi.
  rewrite Et. apply (rq_inv_cache_max (runnable ∅ k)); [apply Hk|]. split_and!.
  - assert (dom (threads k') = dom (threads k)) as <-; [|done]. unfold k', _k_thread_single_suspend.
    unfold _mark_thread_as_suspended, _set_thread_states.
    destruct (_is_thread_ready t k); rewrite dom_upd by (by rewrite ?threads_remove); by rewrite ?threads_remove.
  - set_solver.
  - rewrite <-Hr'. symmetry. apply ready_ext; [by rewrite Et|done].
Qed.

Lemma k_thread_suspend_safe t k :
  sinv J k → t ∈ dom (threads k) → t ≠ _idle_thread → op_safe J F (k_thread_suspend t) k.
Proof.
  intros Hk Ht Hidle. unfold op_safe, k_thread_suspend. cbv zeta.
  pose proof (kinv_single_suspend [] k t (sys_kinv _ (proj1 Hk)) Ht Hidle) as Hk'.
  pose proof (only_single_suspend t k) as Ho. pose proof (sframe_current _ _ (only_sframe _ _ _ Ho)) as Ec.
  case_decide as Hc.
  - apply swap_tt_safe; [done|]. by eapply only_swap_ready.
  - change (sinv J (_k_thread_single_suspend t k) ∧ current (_k_thread_single_suspend t k) = current k).
    apply (only_done t); [done|done|done|congruence|].
    intros Hp. rewrite Ec. assert (current k ≠ t) as Hne by congruence.
    destruct Ho as (_ & Ho). destruct (Ho _ Hne) as [Et _].
    unfold _is_preempt in Hp. rewrite Ec, Et in Hp. rewrite Et.
    etrans; [apply (sys_preempt _ (proj1 Hk) Hp)|].
    apply single_suspend_cache; [apply Hk|done|done].
Qed.

Lemma single_abort_gone t k : gone (_k_thread_single_abort None t k) t = true.
Proof.
  unfold _k_thread_single_abort. cbv zeta. set (k1 := if _is_thread_ready t k then _ else _). unfold gone, _mark_thread_as_dead, _set_thread_states.
  rewrite thr_upd, decide_True by done. unfold gone_state. cbn [thread_state set_thread_state].
  rewrite testbit_u8, Z.lor_spec by lia. by rewrite orb_true_r.
Qed.
(** Aborting a thread that is on the list of all threads. *)
Lemma k_thread_abort_safe t k :
  (∀ k1 l, only t k k1 → J k1 → gone k1 t = true → unlink_first t (all_threads k) = Some l → J (set_all_threads l k1)) →
  sinv J k → t ∈ dom (threads k) → t ≠ _idle_thread → is_Some (unlink_first t (all_threads k)) ∨ F →
  op_safe J F (k_thread_abort None t) k.
Proof.
  intros HJl Hk Ht Hidle Hl. unfold op_safe, k_thread_abort. cbv zeta.
  destruct (kinv_single_abort [] k t (sys_kinv _ (proj1 Hk)) Ht Hidle (not_elem_of_nil _)) as [Hk1 _].
  pose proof (only_single_abort t k (inv_tq _ _ _ (sys_kinv _ (proj1 Hk)))) as Ho. pose proof (single_abort_gone t k) as Hg.
  set (k1 := _k_thread_single_abort None t k) in *. clearbody k1.
  pose proof (only_swap_ready t k k1 Hk Ho Hk1) as (_ & Hn & Hh & HJ).
  assert (current k1 = current k) as Ec by exact (sframe_current _ _ (only_sframe _ _ _ Ho)).
  assert (all_threads k1 = all_threads k) as Ea by (by rewrite (proj1 (only_sframe _ _ _ Ho))).
  unfold _thread_monitor_exit. rewrite Ea. destruct (unlink_first t (all_threads k)) as [l|] eqn:El; [|by destruct Hl as [[? ?]|]].
  cbn [obind]. assert (swap_ready J (set_all_threads l k1)) as Hs.
  { split_and!; [by eapply kinv_frame; try apply Hk1|done|done|by apply HJl]. }
  change (current (set_all_threads l k1)) with (current k1).
  case_decide as Hc; [by apply swap_tt_safe|].
  rewrite <-Ec. apply (reschedule_safe J F J_objects (set_all_threads l k1)); [done|].
  change (runnable ∅ k1 (current k1)). rewrite Ec. eapply only_runnable; [done|congruence|]. apply Hk.
Qed.

End safe.

(** [k_thread_resume] of a thread that is not suspended and can run links it to
    its ready queue a second time. *)
Lemma single_resume_duplicates k t :
  kinv ∅ [] k → runnable ∅ k t →
  ¬ NoDup (q (_k_thread_single_resume t k) (RQ (rq_index k t))).
Proof.
  intros Hk (Ht & HX & Hr). unfold _k_thread_single_resume. cbv zeta.
  assert (∀ m, 0 ≤ m < 8 → m ≠ 4 → flag (_mark_thread_as_not_suspended t k) t m = flag k t m) as Hfl.
  { intros m Hm Hm4. unfold _mark_thread_as_not_suspended. change _THREAD_SUSPENDED with (2 ^ 4).
    rewrite flag_reset, decide_True by (done || lia). by rewrite (proj2 (Z.eqb_neq 4 m)), andb_true_r. }
  assert (_is_thread_ready t (_mark_thread_as_not_suspended t k) = true) as ->.
  { unfold _is_thread_ready in *. rewrite prevented_flags in *. rewrite !Hfl by lia.
    assert (flag (_mark_thread_as_not_suspended t k) t 4 = false) as ->.
    { unfold _mark_thread_as_not_suspended. change _THREAD_SUSPENDED with (2 ^ 4).
      by rewrite flag_reset, decide_True, andb_false_r by (done || lia). }
    apply negb_true_iff in Hr. apply orb_false_iff in Hr as [Hr1 Hr2].
    apply orb_false_iff in Hr1 as [Hr1 _]. rewrite Hr1. simpl.
    change (_is_thread_timeout_active t (_mark_thread_as_not_suspended t k)) with (_is_thread_timeout_active t k).
    by rewrite Hr2. }
  assert (rq_index (_mark_thread_as_not_suspended t k) t = rq_index k t) as Ei.
  { unfold rq_index, _mark_thread_as_not_suspended, _reset_thread_states. by rewrite thr_upd, decide_True. }
  rewrite q_add, Ei, decide_True by done. intros Hnd. apply NoDup_app in Hnd as (_ & Hnd & _).
  apply (Hnd t); [|mem]. apply (rq_mem _ _ (inv_rq _ _ _ Hk)). by split_and!.
Qed.

(** ** Creating and cancelling *)
Lemma new_thread_sinv (J : kernel → Prop) t p o k :
  J (_new_thread t p o k) → sinv J k → reusable t k → t ≠ current k →
  K_HIGHEST_THREAD_PRIO ≤ p ≤ K_LOWEST_APPLICATION_THREAD_PRIO → sinv J (_new_thread t p o k).
Proof.
  intros HJn Hk Hre Hc Hp. pose proof (sys_kinv _ (proj1 Hk)) as Hki.
  pose proof (kinv_new_thread [] k t p o Hki Hre Hp) as Hk1.
  assert (∀ t', t' ≠ t → thr (_new_thread t p o k) t' = thr k t') as Hthr.
  { intros t' Ht'. change (thr (_new_thread t p o k) t') with (thr (upd_thread t (λ x, set_sched_locked 0
      (set_prio (s8 p) (set_thread_state (u8 _THREAD_PRESTART) (set_user_options (u8 o) x)))) k) t').
    by rewrite thr_upd, decide_False. }
  assert (cache k ≠ t) as Hca.
  { destruct (cache_runnable _ _ _ Hki) as (Hd & _ & Hr). intros E. rewrite E in *.
    destruct Hre as (_ & _ & Hre). destruct (Hre Hd). congruence. }
  split; [|done].
  split; [done| |apply Hk|apply Hk|].
  - change (current (_new_thread t p o k)) with (current k).
    apply (runnable_ext ∅ k); [|by rewrite Hthr by congruence| |apply Hk].
    + change (threads (_new_thread t p o k)) with (threads (upd_thread t (λ x, set_sched_locked 0
        (set_prio (s8 p) (set_thread_state (u8 _THREAD_PRESTART) (set_user_options (u8 o) x)))) k)).
      simpl. rewrite dom_insert_L. set_solver.
    + unfold delta. change (tmo (_new_thread t p o k)) with (tmo (_init_thread_timeout t k)).
      unfold _init_thread_timeout, _init_timeout. by rewrite tmo_upd, decide_False by congruence.
  - unfold no_preemption_due, _is_preempt. change (current (_new_thread t p o k)) with (current k).
    change (cache (_new_thread t p o k)) with (cache k). rewrite !Hthr by congruence. apply Hk.
Qed.

Lemma kinv_delay E k t n :
  kinv ∅ E k → t ∈ dom (threads k) → _is_thread_ready t k = false → _is_thread_pending t k = false →
  delta k (TThread t) = _INACTIVE → 0 < n ≤ INT32_MAX → kinv ∅ E (_add_thread_timeout t None n k).
Proof.
  intros Hk Ht Hr Hp Hd Hn.
  destruct (add_timeout_spec (λ _ _ k, k) (Some t) (TThread t) None n E k) as (_ & _ & _ & Hfr & _ & _ & Hw & _ & Hpos);
    [apply Hk|done|done|]. fold (_add_thread_timeout t None n) in *.
  set (k' := _add_thread_timeout t None n k) in *.
  assert (thr k' t = thr k t) as Et by (unfold thr; by rewrite Hfr).
  apply (kinv_leave _ _ _ t).
  - apply kinv_add_thread_timeout; [by apply kinv_enter|set_solver|done|done|done].
  - destruct (_is_thread_ready t k') eqn:Hr'; [|done]. apply ready_inactive in Hr'. unfold delta in Hpos.
    by rewrite Hr' in Hpos.
  - by rewrite (pending_ext t k), Hp by by rewrite Et.
  - intros _. rewrite Hw. by rewrite (pending_ext t k), Hp by by rewrite Et.
  - intros o' Ho. destruct (kinv_not_queued _ _ _ t (KTimer, o') Hk Hp). unfold q in *. by rewrite Hfr in Ho.
Qed.

Lemma k_thread_create_safe J F t p o delay k :
  (∀ k k', same_objects k k' → J k → J k') → J (_new_thread t p o k) →
  sinv J k → reusable t k → t ≠ current k →
  K_HIGHEST_THREAD_PRIO ≤ p ≤ K_LOWEST_APPLICATION_THREAD_PRIO →
  delay = 0 ∨ 0 < timeout_ticks delay → op_safe J F (k_thread_create t p o delay) k.
Proof.
  intros HJo HJn Hk Hre Hc Hp Hdl. unfold op_safe, k_thread_create. cbv zeta.
  pose proof (new_thread_sinv J t p o k HJn Hk Hre Hc Hp) as Hk1.
  destruct (new_thread_flags t p o k) as (Hr & Hpe & Hst & Hd).
  assert (t ∈ dom (threads (_new_thread t p o k))) as Ht.
  { change (threads (_new_thread t p o k)) with (threads (upd_thread t (λ x, set_sched_locked 0
      (set_prio (s8 p) (set_thread_state (u8 _THREAD_PRESTART) (set_user_options (u8 o) x)))) k)).
    simpl. rewrite dom_insert_L. set_solver. }
  change (current k) with (current (_new_thread t p o k)) in *.
  set (k1 := _new_thread t p o k) in *. clearbody k1.
  eapply (osafe_bind _ _ _ (λ _ k', sinv J k' ∧ current k' = current k1)); [|by intros [] ? ?].
  unfold schedule_new_thread. destruct (delay =? 0) eqn:Ez; zbool.
  - unfold start_thread. cbv zeta. pose proof (kinv_single_start [] k1 t (sys_kinv _ (proj1 Hk1)) Ht Hr) as Hk2.
    pose proof (only_ready t k1) as Ho. unfold _k_thread_single_start in Hk2. unfold _ready_thread in Ho. cbv zeta in *.
    destruct (_is_thread_ready t (_mark_thread_as_started t k1)) eqn:Hr1.
    + by apply (only_reschedule J F HJo t).
    + change (sinv J (_mark_thread_as_started t k1) ∧ current (_mark_thread_as_started t k1) = current k1).
      apply (only_done J HJo t); [done|done|done|done|].
      destruct Ho as (_ & Ho). pose proof (sys_preempt _ (proj1 Hk1)) as Hnp.
      unfold no_preemption_due, _is_preempt in *.
      change (current (_mark_thread_as_started t k1)) with (current k1).
      change (cache (_mark_thread_as_started t k1)) with (cache k1).
      assert (cache k1 ≠ t) as Hca.
      { intros E. destruct (cache_runnable _ _ _ (sys_kinv _ (proj1 Hk1))) as (_ & _ & Hcr). congruence. }
      destruct (Ho (current k1) (not_eq_sym Hc)) as [-> _]. by destruct (Ho (cache k1) Hca) as [-> _].
  - destruct Hdl as [|Hn]; [done|]. pose proof (timeout_ticks_max delay) as Hmax.
    pose proof (only_add_thread_timeout [] t None (timeout_ticks delay) k1 (inv_tq _ _ _ (sys_kinv _ (proj1 Hk1)))
      Hd (conj Hn Hmax)) as Ho.
    assert (threads (_add_thread_timeout t None (timeout_ticks delay) k1) = threads k1 ∧
      cache (_add_thread_timeout t None (timeout_ticks delay) k1) = cache k1) as [Et Eca].
    { destruct (add_timeout_spec (λ _ _ k, k) (Some t) (TThread t) None (timeout_ticks delay) [] k1)
        as (_ & _ & _ & Hfr & _); [apply Hk1|done|done|]. fold (_add_thread_timeout t None (timeout_ticks delay)) in Hfr.
      by rewrite Hfr. }
    set (k2 := _add_thread_timeout t None (timeout_ticks delay) k1) in *.
    change (sinv J k2 ∧ current k2 = current k1).
    apply (only_done J HJo t); [done|done|apply kinv_delay; [apply Hk1|done..]|done|].
    unfold no_preemption_due, _is_preempt, thr. rewrite Et, Eca.
    rewrite (sframe_current _ _ (only_sframe _ _ _ Ho)). apply Hk1.
Qed.

Lemma k_thread_cancel_spec J t k :
  (∀ k k', same_objects k k' → J k → J k') → (∀ k l, J k → J (set_all_threads l k)) → sinv J k → t ∈ dom (threads k) →
  is_Some (unlink_first t (all_threads k)) →
  ∃ r k', k_thread_cancel t k = Done r k' ∧
  (r = - EINVAL ∧ k' = k ∨ r = 0 ∧ delta k' (TThread t) = _INACTIVE ∧ _is_thread_ready t k' = false) ∧
  sinv J k' ∧ current k' = current k.
Proof.
  intros HJo HJl Hk Ht [l Hl]. unfold k_thread_cancel. destruct (_ || _) eqn:E; [do 2 eexists; split; [done|]; by auto|].
  apply orb_false_iff in E as [Hst Hact].
  pose proof (kinv_cancel [] k t (sys_kinv _ (proj1 Hk)) Ht (not_elem_of_nil _) Hst) as Hk1.
  pose proof (only_abort [] t k (inv_tq _ _ _ (sys_kinv _ (proj1 Hk))) (not_elem_of_nil _)) as Ho.
  pose proof (abort_timeout_threads (TThread t) k) as Et.
  pose proof (abort_timeout_spec (TThread t) [] k (inv_tq _ _ _ (sys_kinv _ (proj1 Hk))) (not_elem_of_nil _)) as Hab.
  unfold _abort_thread_timeout in *. destruct (_abort_timeout (TThread t) k) as [r k1].
  destruct Hab as (_ & _ & _ & _ & Hfr & _ & Hd). simpl in Hk1, Ho, Et.
  assert (∀ k', thr k' t = thr k t → _is_thread_ready t k' = false) as Hnr.
  { intros k' E. unfold _has_thread_started in Hst. change _THREAD_PRESTART with (2 ^ 2) in Hst.
    rewrite land_pow2_eqb in Hst by done. apply negb_false_iff in Hst.
    unfold _is_thread_ready. rewrite prevented_flags. unfold flag. rewrite E, Hst. by destruct (Z.testbit _ 1). }
  assert (current k ≠ t) as Hc.
  { intros E. destruct (sys_current _ (proj1 Hk)) as (_ & _ & Hr). rewrite E, (Hnr k) in Hr; done. }
  destruct (only_done J HJo t k k1 Hk Ho Hk1 Hc) as [[[Hki Hcu Hn Hh Hp] HJ] Ec].
  { unfold no_preemption_due, _is_preempt, thr. rewrite Et.
    assert (cache k1 = cache k ∧ current k1 = current k) as [-> ->] by by rewrite Hfr. apply Hk. }
  assert (all_threads k1 = all_threads k) as Ea by (by rewrite (proj1 (only_sframe _ _ _ Ho))).
  unfold _thread_monitor_exit. rewrite Ea, Hl. do 2 eexists. split; [done|]. split_and!; [right|..|done].
  - split_and!; [done|done|]. apply Hnr. unfold thr. simpl. by rewrite Et.
  - split; [|by apply HJl].
    split; [by eapply kinv_frame; try apply Hki|done|done|done|done].
Qed.

(** ** Boot *)
Section boot.
Context (dummy main : tid) (main_prio : Z).
Hypothesis main_idle : main ≠ _idle_thread.
Hypothesis dummy_main : dummy ≠ main.
Hypothesis dummy_idle : dummy ≠ _idle_thread.
Hypothesis main_prio_ok : K_HIGHEST_THREAD_PRIO ≤ main_prio ≤ K_LOWEST_APPLICATION_THREAD_PRIO.

(** The state before the idle thread is created. *)
Definition boot_main : kernel :=
  let k := set_current dummy (zero_kernel dummy) in
  let k := upd_thread dummy (λ x, set_prio K_HIGHEST_THREAD_PRIO
    (set_thread_state _THREAD_DUMMY (set_user_options K_ESSENTIAL x))) k in
  let k := set_cache main (init_ready_queues k) in
  _mark_thread_as_started main (_new_thread main main_prio K_ESSENTIAL k).

(** Adding both threads to the ready queue. *)
Definition boot_idle (k : kernel) : kernel :=
  let k := _add_thread_to_ready_q main k in
  let k := _mark_thread_as_started _idle_thread (_new_thread _idle_thread K_LOWEST_THREAD_PRIO K_ESSENTIAL k) in
  let k := _add_thread_to_ready_q _idle_thread k in
  set_nested 0 (set_timeout_q [] k).

Lemma prepare_eq : prepare_multithreading dummy main main_prio (zero_kernel dummy) = boot_idle boot_main.
Proof. reflexivity. Qed.

Lemma init_ready_queues_empty k r : queues k = ∅ → q (init_ready_queues k) r = [].
Proof.
  intros E. unfold q, init_ready_queues. simpl. rewrite E.
  induction (seq 0 _) as [|ii l IH]; simpl; [by rewrite lookup_total_empty|].
  unfold DlistSpec.init at 1. rewrite lookup_total_ins. by case_decide.
Qed.

Lemma rq_inv_first k t :
  (∀ i, q k (RQ i) = []) → bmap_ok (prio_bmap k) →
  (∀ i, 0 ≤ i < 32 * Z.of_nat (length (prio_bmap k)) → bmap_bit (prio_bmap k) i = false) →
  cache k = t → prio_ok (prio (thr k t)) → rq_inv (λ t', t' = t) (_add_thread_to_ready_q t k).
Proof.
  intros Hq Hok Hb Hc Hp.
  assert (0 ≤ rq_index k t < 32 * Z.of_nat (length (prio_bmap k))) as Hidx.
  { destruct Hok as [Hlen _]. pose proof num_prio_bitmaps_bound.
    unfold prio_ok, rq_index, _get_ready_q_q_index, K_HIGHEST_THREAD_PRIO, K_LOWEST_THREAD_PRIO,
      K_NUM_PRIORITIES, _NUM_COOP_PRIO in *. lia. }
  assert (∀ i, q (_add_thread_to_ready_q t k) (RQ i) = if decide (rq_index k t = i) then [t] else []) as Hq'.
  { intros i. rewrite q_add, Hq. by repeat case_decide; simplify_eq. }
  split.
  - intros t' i. rewrite Hq'. change (rq_index (_add_thread_to_ready_q t k) t') with (rq_index k t').
    case_decide; [rewrite list_elem_of_singleton|rewrite elem_of_nil]; naive_solver.
  - intros i. rewrite Hq'. case_decide; [apply NoDup_singleton|constructor].
  - by intros t' ->.
  - by apply bmap_ok_set.
  - intros i Hi. rewrite Hq'. change (prio_bmap (_add_thread_to_ready_q t k))
      with (prio_bmap (_set_ready_q_prio_bit (prio (thr k t)) k)) in *.
    assert (0 ≤ i < 32 * Z.of_nat (length (prio_bmap k))) as Hi'.
    { simpl in Hi. by rewrite length_insert in Hi. }
    rewrite bmap_bit_set by (done || lia). fold (_get_ready_q_q_index (prio (thr k t))) (rq_index k t).
    rewrite Hb by done. simpl. rewrite Z.eqb_eq. by case_decide.
  - exists (rq_index k t). split; [|intros j Hj]; rewrite Hq'.
    + rewrite decide_True by done. simpl. f_equal. rewrite Hc.
      unfold _is_t1_higher_prio_than_t2, _is_prio1_higher_than_prio2.
      by destruct (_ <? _).
    + rewrite decide_False; [done|lia].
Qed.

Lemma zero_bmap_bit n i : 0 ≤ i < 32 * Z.of_nat n → bmap_bit (replicate n 0) i = false.
Proof.
  intros Hi. unfold bmap_bit. rewrite lookup_total_replicate_2; [apply Z.bits_0|]. rewrite shiftr_5. dlia.
Qed.


Lemma thr_new t p o k t' :
  thr (_mark_thread_as_started t (_new_thread t p o k)) t' =
    if decide (t = t') then mk_thread (s8 p) 0 0 (u8 o) (swap_data (thr k t)) (return_value (thr k t)) else thr k t'.
Proof.
  unfold _mark_thread_as_started, _reset_thread_states. rewrite thr_upd. unfold _new_thread, _init_thread_base.
  change (thr (thread_monitor_init t (_init_thread_timeout t ?x)) t') with (thr x t').
  rewrite thr_upd. case_decide; [subst|done]. done.
Qed.

(** What the first half of the boot leaves. *)
Record main_ready (k : kernel) : Prop := {
  mr_dom : dom (threads k) = {[main; dummy]};
  mr_main : ∃ x, thr k main = x ∧ prio x = main_prio ∧ thread_state x = 0 ∧ sched_locked x = 0;
  mr_dummy : ∃ x, thr k dummy = x ∧ prio x = K_HIGHEST_THREAD_PRIO ∧ thread_state x = _THREAD_DUMMY ∧ sched_locked x = 0;
  mr_queues : ∀ r, q k r = [];
  mr_bmap : prio_bmap k = replicate (Z.to_nat K_NUM_PRIO_BITMAPS) 0;
  mr_cache : cache k = main;
  mr_current : current k = dummy;
  mr_timeouts : ∀ i, delta k i = _INACTIVE;
  mr_timeout_q : timeout_q k = [];
  mr_handling : handling_timeouts k = false;
}.

Lemma boot_main_ready : main_ready boot_main.
Proof.
  unfold boot_main. cbv zeta.
  set (k0 := upd_thread dummy _ (set_current dummy (zero_kernel dummy))).
  assert (∀ t, thr k0 t = if decide (dummy = t)
    then mk_thread K_HIGHEST_THREAD_PRIO 0 _THREAD_DUMMY K_ESSENTIAL 0 0 else inhabitant) as Hk0.
  { intros t. unfold k0. rewrite thr_upd. case_decide; [|apply lookup_total_empty].
    change (thr (set_current dummy (zero_kernel dummy)) t) with ((∅ : gmap tid k_thread) !!! t).
    by rewrite lookup_total_empty. }
  assert (dom (threads k0) = {[dummy]}) as Hd0.
  { unfold k0, upd_thread. simpl. rewrite dom_insert_L, dom_empty_L. set_solver. }
  assert (∀ i, tmo k0 i = inhabitant) as Ht0 by (intros; apply lookup_total_empty).
  set (k1 := set_cache main (init_ready_queues k0)).
  assert (∀ r, q k1 r = []) as Hq1 by (intros r; apply (init_ready_queues_empty k0); done).
  split.
  - unfold _mark_thread_as_started, _reset_thread_states. rewrite dom_upd.
    + change (dom (<[main := (set_sched_locked 0 (set_prio (s8 main_prio) (set_thread_state (u8 _THREAD_PRESTART)
        (set_user_options (u8 K_ESSENTIAL) (thr k0 main)))))]> (threads k0)) = {[main; dummy]}).
      rewrite dom_insert_L, Hd0. set_solver.
    + change (main ∈ dom (<[main := (set_sched_locked 0 (set_prio (s8 main_prio) (set_thread_state (u8 _THREAD_PRESTART)
        (set_user_options (u8 K_ESSENTIAL) (thr k0 main)))))]> (threads k0))). rewrite dom_insert_L. set_solver.
  - eexists. split; [reflexivity|]. rewrite thr_new, decide_True by done. simpl.
    pose proof coop_range. pose proof preempt_range.
    unfold K_HIGHEST_THREAD_PRIO, K_LOWEST_APPLICATION_THREAD_PRIO, K_LOWEST_THREAD_PRIO in *.
    rewrite s8_id by lia. done.
  - eexists. split; [reflexivity|]. rewrite thr_new, decide_False by done.
    change (thr k1 dummy) with (thr k0 dummy). by rewrite Hk0, decide_True.
  - exact Hq1.
  - done.
  - done.
  - done.
  - intros i. unfold delta. unfold _mark_thread_as_started, _reset_thread_states, _new_thread, _init_thread_base.
    change (tmo (upd_thread main ?f (thread_monitor_init main ?x)) i) with (tmo x i).
    unfold _init_thread_timeout, _init_timeout. rewrite tmo_upd. case_decide; [done|]. 
    change (delta_ticks_from_prev (tmo k0 i) = _INACTIVE). by rewrite Ht0.
  - done.
  - done.
Qed.

Lemma main_ready_rq k : main_ready k → rq_inv (λ t', t' = main) (_add_thread_to_ready_q main k).
Proof.
  intros [_ (x & Hx & Hp & _) _ Hq Hb Hc _ _ _ _]. apply rq_inv_first.
  - done.
  - rewrite Hb. split; [|by apply Forall_replicate]. rewrite length_replicate, Z2Nat.id; [done|].
    pose proof coop_range. pose proof preempt_range.
    unfold K_NUM_PRIO_BITMAPS, K_NUM_PRIORITIES. rewrite shiftr_5. dlia.
  - rewrite Hb. intros i Hi. apply zero_bmap_bit. by rewrite length_replicate in Hi.
  - done.
  - rewrite Hx, Hp. unfold prio_ok, K_LOWEST_APPLICATION_THREAD_PRIO in *. lia.
Qed.

(** The second half, as changes to the state it started from. *)
Definition boot_finish (k : kernel) : kernel :=
  set_nested 0 (set_timeout_q [] (_add_thread_to_ready_q _idle_thread k)).
Definition boot_new_idle (k : kernel) : kernel :=
  _mark_thread_as_started _idle_thread (_new_thread _idle_thread K_LOWEST_THREAD_PRIO K_ESSENTIAL k).

Lemma boot_idle_eq k : boot_idle k = boot_finish (boot_new_idle (_add_thread_to_ready_q main k)).
Proof. reflexivity. Qed.
Lemma boot_finish_thr k t : thr (boot_finish k) t = thr k t.
Proof. reflexivity. Qed.
Lemma boot_finish_tmo k i : tmo (boot_finish k) i = tmo k i.
Proof. reflexivity. Qed.
Lemma boot_new_idle_tmo k i :
  tmo (boot_new_idle k) i = if decide (TThread _idle_thread = i) then mk_timeout _INACTIVE None None FNone else tmo k i.
Proof.
  unfold boot_new_idle, _new_thread, _init_thread_base.
  change (tmo (_mark_thread_as_started ?a (thread_monitor_init ?b ?x)) i) with (tmo x i).
  unfold _init_thread_timeout, _init_timeout. rewrite tmo_upd. by case_decide.
Qed.
Lemma boot_new_idle_dom k : dom (threads (boot_new_idle k)) = {[_idle_thread]} ∪ dom (threads k).
Proof.
  unfold boot_new_idle, _mark_thread_as_started, _reset_thread_states.
  assert (dom (threads (_new_thread _idle_thread K_LOWEST_THREAD_PRIO K_ESSENTIAL k)) =
    {[_idle_thread]} ∪ dom (threads k)) as E by apply dom_insert_L.
  rewrite dom_upd by (rewrite E; set_solver). done.
Qed.

(** Both threads initialised, the main thread queued. *)
Record both_ready (k : kernel) : Prop := {
  br_dom : dom (threads k) = {[_idle_thread; main; dummy]};
  br_state : ∀ t, t ∈ dom (threads k) →
    thread_state (thr k t) = (if decide (t = dummy) then _THREAD_DUMMY else 0) ∧ thread_ok t (thr k t);
  br_rq : rq_inv (λ t, t = main) k;
  br_wq : ∀ w, q k (WQ w) = [];
  br_current : current k = dummy;
  br_timeouts : ∀ i, delta k i = _INACTIVE;
  br_main : prio (thr k main) = main_prio;
  br_cache : cache k = main;
  br_handling : handling_timeouts k = false;
}.

Lemma main_both_ready k : main_ready k → both_ready (boot_new_idle (_add_thread_to_ready_q main k)).
Proof.
  intros Hk. pose proof (main_ready_rq k Hk) as Hrq.
  pose proof Hk as [Hd (xm & Hm & Hmp & Hms & Hml) (xd & Hdm & Hdp & Hds & Hdl) Hq Hb Hc Hcu Ht Htq Hh].
  assert (cache (_add_thread_to_ready_q main k) = main) as Hca.
  { change (cache (_add_thread_to_ready_q main k))
      with (if _is_t1_higher_prio_than_t2 main (cache k) k then main else cache k). rewrite Hc. by case_test. }
  assert (∀ w, q (_add_thread_to_ready_q main k) (WQ w) = []) as Hw by (intros; by rewrite q_add, decide_False).
  assert (dom (threads (_add_thread_to_ready_q main k)) = {[main; dummy]}) as Hd1 by done.
  assert (∀ t, thr (_add_thread_to_ready_q main k) t = thr k t) as Hthr by done.
  assert (∀ i, delta (_add_thread_to_ready_q main k) i = _INACTIVE) as Ht1 by done.
  assert (current (_add_thread_to_ready_q main k) = dummy) as Hcu1 by done.
  assert (handling_timeouts (_add_thread_to_ready_q main k) = false) as Hh1 by done.
  set (k1 := _add_thread_to_ready_q main k) in *. clearbody k1.
  assert (∀ t, thr (boot_new_idle k1) t = if decide (_idle_thread = t)
    then mk_thread K_IDLE_PRIO 0 0 1 (swap_data (thr k t)) (return_value (thr k t)) else thr k t) as Hthr'.
  { intros t. unfold boot_new_idle. rewrite thr_new, !Hthr. pose proof preempt_range.
    unfold K_IDLE_PRIO, K_LOWEST_THREAD_PRIO. rewrite s8_id by lia. case_decide; [by subst|done]. }
  split.
  - rewrite boot_new_idle_dom, Hd1. set_solver.
  - rewrite boot_new_idle_dom, Hd1. intros t Ht'. rewrite Hthr'. pose proof preempt_range. pose proof coop_range.
    unfold thread_ok. unfold K_HIGHEST_THREAD_PRIO, K_LOWEST_APPLICATION_THREAD_PRIO, K_LOWEST_THREAD_PRIO in *.
    destruct (decide (_idle_thread = t)) as [<-|Hne].
    { rewrite decide_False by congruence. rewrite decide_True by done. simpl.
      unfold K_IDLE_PRIO, K_LOWEST_THREAD_PRIO. split; [done|]. lia. }
    rewrite (decide_False (P:=t = _idle_thread)) by congruence.
    assert (t = main ∨ t = dummy) as [-> | ->] by set_solver.
    + rewrite decide_False by congruence. rewrite Hm, Hms, Hmp, Hml. split; [done|]. lia.
    + rewrite decide_True by done. rewrite Hdm, Hds, Hdp, Hdl. split; [done|]. unfold K_HIGHEST_THREAD_PRIO. lia.
  - eapply rq_inv_frame; [exact Hrq|done|done| |done|done]. intros t ->. rewrite Hthr', decide_False by done. by rewrite Hthr.
  - exact Hw.
  - done.
  - intros i. unfold delta. rewrite boot_new_idle_tmo. case_decide; [done|]. apply Ht1.
  - rewrite Hthr', decide_False by done. by rewrite Hm.
  - done.
  - done.
Qed.

Lemma both_ready_kinv k : both_ready k → kinv ∅ [] (boot_finish k).
Proof.
  intros [Hd Hs Hrq Hw Hcu Ht Hmp Hca _].
  assert (∀ t, t ∈ dom (threads k) → _is_thread_ready t k = negb (bool_decide (t = dummy))) as Hready.
  { intros t Htd. unfold _is_thread_ready, _is_thread_prevented_from_running, _is_thread_timeout_active.
    rewrite (proj1 (Hs t Htd)). fold (delta k (TThread t)). rewrite Ht. by case_decide; simplify_option_eq. }
  assert (∀ t, t = _idle_thread ∨ t = main ↔ runnable ∅ k t) as HR.
  { intros t. unfold runnable. rewrite Hd. split.
    - intros Hor. split_and!; [set_solver|set_solver|]. rewrite Hready by (rewrite Hd; set_solver).
      by rewrite bool_decide_eq_false_2 by naive_solver.
    - intros (Htd & _ & Hr). rewrite Hready in Hr by by rewrite Hd. zbool. set_solver. }
  split; change (threads (boot_finish k)) with (threads k).
  - change (current (boot_finish k)) with (current k). rewrite Hcu, Hd. set_solver.
  - apply (HR _idle_thread). by left.
  - intros t Htd. by apply Hs.
  - eapply rq_inv_frame; [apply (rq_inv_add _ k _idle_thread Hrq)| |done..].
    + done.
    + eapply thread_ok_prio, Hs. rewrite Hd. set_solver.
    + intros t. symmetry. apply HR.
  - intros w. change (NoDup (q (_add_thread_to_ready_q _idle_thread k) (WQ w))).
    rewrite q_add, decide_False, Hw by done. constructor.
  - intros t w. change (q (boot_finish k) (WQ w)) with (q (_add_thread_to_ready_q _idle_thread k) (WQ w)).
    by rewrite q_add, decide_False, Hw, elem_of_nil by done.
  - intros t w w'. change (q (boot_finish k) (WQ w)) with (q (_add_thread_to_ready_q _idle_thread k) (WQ w)).
    by rewrite q_add, decide_False, Hw, elem_of_nil by done.
  - intros t Htd _ Hp. exfalso. change (_is_thread_pending t k = true) in Hp.
    unfold _is_thread_pending, _is_thread_state_set in Hp. rewrite (proj1 (Hs t Htd)) in Hp. by case_decide.
  - split; change (timeout_q (boot_finish k)) with (@nil timeout_id).
    + constructor.
    + intros i. change (delta (boot_finish k) i) with (delta k i). by rewrite Ht, elem_of_nil.
    + constructor.
    + intros i. change (delta (boot_finish k) i) with (delta k i). by rewrite Ht, elem_of_nil.
    + intros i. change (delta (boot_finish k) i) with (delta k i). by rewrite Ht.
    + done.
  - by intros i.
  - intros t. change (delta (boot_finish k) (TThread t)) with (delta k (TThread t)). by rewrite Ht.
  - intros i _. change (delta (boot_finish k) i) with (delta k i). by rewrite Ht.
  - done.
  - intros t o _ _. exact (Ht (TThread t)).
Qed.

Lemma both_ready_cache k : both_ready k → cache (boot_finish k) = main.
Proof.
  intros [Hd Hs _ _ _ _ Hmp Hca _].
  change (cache (boot_finish k)) with (if _is_t1_higher_prio_than_t2 _idle_thread (cache k) k then _idle_thread else cache k).
  rewrite Hca. unfold _is_t1_higher_prio_than_t2, _is_prio1_higher_than_prio2. rewrite Hmp.
  destruct (Hs _idle_thread) as [_ (_ & Hp & _)]; [rewrite Hd; set_solver|]. rewrite decide_True in Hp by done.
  rewrite Hp, (proj2 (Z.ltb_ge _ _)); [done|]. unfold K_LOWEST_APPLICATION_THREAD_PRIO, K_IDLE_PRIO in *. lia.
Qed.

Lemma both_ready_swap k : both_ready k →
  ∃ k' r, _Swap (boot_finish k) = Swapped k' r ∧ sinv (λ _, True) k' ∧ current k' = main.
Proof.
  intros Hb. destruct (swap_safe (λ _, True) False ltac:(done) main (boot_finish k)) as [HI _].
  { split_and!; [by apply both_ready_kinv|done|apply (br_handling _ Hb)|done]. }
  eexists _, _. split; [reflexivity|]. split; [exact HI|]. by apply both_ready_cache.
Qed.

(** After the switch to the main thread the system invariant holds, and the
    main thread runs. *)
Lemma boot_sinv :
  ∃ k r, boot dummy main main_prio = Swapped k r ∧ sinv (λ _, True) k ∧ current k = main.
Proof.
  unfold boot, switch_to_main_thread. rewrite prepare_eq, boot_idle_eq.
  apply both_ready_swap, main_both_ready, boot_main_ready.
Qed.

End boot.
End thread.
