(* ===== verification/WaitQ.v ===== *)
(** * Waiting and waking: what kernel objects rely on

    Every kernel object blocks the current thread with [_pend_current_thread]
    and [_Swap], and wakes the first waiter with [_unpend_first_thread],
    [_abort_thread_timeout], [_ready_thread] and [_set_thread_return_value].
    The lemmas of this file are the contract of these steps, which the proofs
    about the objects use instead of the scheduler's internals. *)
From stdpp Require Import gmap list.
From S2P Require Import Prelude Dlist KState Ksched TimeoutQ SchedInv Outcome Sched Thread.
Local Open Scope Z_scope.
Local Open Scope outcome_scope.
Local Open Scope outcome_scope.

Section waitq.
Context `{KConfig}.

(** ** Waking *)

(** A thread taken off its wait queue and not queued anywhere yet. *)
Record unpended (E : list timeout_id) (t : tid) (k : kernel) : Prop := {
  up_kinv : kinv ({[t]} ∪ ∅) E k;
  up_dom : t ∈ dom (threads k);
  up_pending : _is_thread_pending t k = false;
  up_expired : TThread t ∉ E;
}.

Lemma unpend_waiter E w k t :
  kinv ∅ E k → t ∈ q k (WQ w) → TThread t ∉ E → unpended E t (_unpend_thread t k).
Proof.
  intros Hk Hin HE. destruct (inv_wq _ _ _ Hk t w Hin) as [Ht Hp].
  assert (kinv ({[t]} ∪ ∅) E k) as Hk0.
  { apply kinv_enter; [done|]. destruct (_is_thread_ready t k) eqn:Hr; [|done].
    apply ready_not_pending in Hr. congruence. }
  destruct (kinv_unpend ({[t]} ∪ ∅) E k t Hk0) as (? & ? & _); [set_solver|done|].
  split; [done| |done|done]. unfold _unpend_thread, _mark_thread_as_not_pending, _reset_thread_states. by rewrite dom_upd.
Qed.

Lemma unpend_first_Some E w k t k1 :
  kinv ∅ E k → _unpend_first_thread w k = (Some t, k1) →
  t ∈ q k (WQ w) ∧ k1 = _unpend_thread t k ∧ unpended E t k1 ∧
  (handling_timeouts k = false → head (q k (WQ w)) = Some t).
Proof.
  intros Hk Hu. unfold _unpend_first_thread, _find_first_thread_to_unpend in Hu.
  assert (t ∈ q k (WQ w) ∧ k1 = _unpend_thread t k ∧ TThread t ∉ E ∧
    (handling_timeouts k = false → head (q k (WQ w)) = Some t)) as (Hin & -> & HE & Hh).
  { destruct (handling_timeouts k) eqn:Hh.
    - destruct (List.find _ _) as [t'|] eqn:Hf; [|done]. injection Hu as -> <-.
      apply find_some in Hf as [Hin Hex]. apply list_elem_of_In in Hin. split_and!; [done|done| |done].
      rewrite (tq_exp _ _ (inv_tq _ _ _ Hk)). unfold _is_thread_timeout_expired in Hex. by zbool.
    - destruct (head (q k (WQ w))) as [t'|] eqn:Hf; [|done]. injection Hu as -> <-.
      split_and!; [by apply head_Some_elem_of|done| |done].
      assert (E = []) as ->; [|apply not_elem_of_nil].
      destruct E; [done|]. by rewrite (inv_handling _ _ _ Hk) in Hh. }
  split_and!; [done|done|by apply (unpend_waiter E w)|done].
Qed.

Lemma unpend_first_None w k k1 :
  _unpend_first_thread w k = (None, k1) → k1 = k ∧ (handling_timeouts k = false → q k (WQ w) = []).
Proof.
  unfold _unpend_first_thread, _find_first_thread_to_unpend. intros Hu. destruct (handling_timeouts k).
  - destruct (List.find _ _); [done|]. by injection Hu.
  - destruct (q k (WQ w)); [|done]. by injection Hu.
Qed.

Lemma unpended_set_return E t v k : unpended E t k → unpended E t (_set_thread_return_value t v k).
Proof.
  intros [Hk Ht Hp HE]. split; [|by unfold _set_thread_return_value; rewrite dom_upd| |done].
  - apply kinv_upd_keep; [done|done| |done|done]. by apply (inv_thread _ _ _ Hk).
  - rewrite (pending_ext t k); [done|]. unfold _set_thread_return_value. by rewrite thr_upd, decide_True.
Qed.
Lemma unpended_set_data E t d k : unpended E t k → unpended E t (upd_thread t (set_swap_data d) k).
Proof.
  intros [Hk Ht Hp HE]. split; [|by rewrite dom_upd| |done].
  - apply kinv_upd_keep; [done|done| |done|done]. by apply (inv_thread _ _ _ Hk).
  - rewrite (pending_ext t k); [done|]. by rewrite thr_upd, decide_True.
Qed.
(** Changes outside the scheduler's data. *)
Lemma unpended_frame E t k k' :
  unpended E t k → current k' = current k → threads k' = threads k → queues k' = queues k → cache k' = cache k →
  prio_bmap k' = prio_bmap k → timeout_q k' = timeout_q k → timeouts k' = timeouts k →
  handling_timeouts k' = handling_timeouts k → unpended E t k'.
Proof.
  intros [Hk Ht Hp HE] Ec Et Eq Eca Eb Etq Eto Eh. split; [|by rewrite Et| |done].
  - eapply kinv_frame; [exact Hk|rewrite Ec; apply Hk|done..].
  - rewrite (pending_ext t k); [done|]. unfold thr. by rewrite Et.
Qed.

Lemma unpended_abort E t k :
  unpended E t k →
  unpended E t (_abort_thread_timeout t k).2 ∧ delta (_abort_thread_timeout t k).2 (TThread t) = _INACTIVE.
Proof.
  intros [Hk Ht Hp HE]. unfold _abort_thread_timeout.
  destruct (kinv_abort_timeout ({[t]} ∪ ∅) E k (TThread t) Hk HE) as [Hk' Hd].
  { intros t' [= ->]. set_solver. }
  split; [|done]. split; [done|by rewrite abort_timeout_threads| |done].
  rewrite (pending_ext t k); [done|]. unfold thr. by rewrite abort_timeout_threads.
Qed.

Lemma unpended_ready E t k :
  unpended E t k → delta k (TThread t) = _INACTIVE → kinv ∅ E (_ready_thread t k).
Proof. intros [Hk Ht Hp HE] Hd. apply kinv_ready_thread; [done|set_solver|done|by rewrite Hp|by intros []|done]. Qed.

Lemma only_set_return t v k : only t k (_set_thread_return_value t v k).
Proof. apply only_upd_thread, _. Qed.
Lemma unpended_only_abort E t k : unpended E t k → only t k (_abort_thread_timeout t k).2.
Proof. intros [Hk _ _ HE]. by apply (only_abort E); [apply Hk|]. Qed.

Lemma unpend_prio t k : prio (thr (_unpend_thread t k) t) = prio (thr k t).
Proof. unfold _unpend_thread, _mark_thread_as_not_pending, _reset_thread_states. by rewrite thr_upd, decide_True. Qed.

(** ** Waking a waiter

    The kernel objects write the woken thread's return value, and some its
    swap data, before or after they make it ready. *)
Record ret_upd (f : k_thread → k_thread) : Prop := {
  ru_prio : ∀ x, prio (f x) = prio x;
  ru_state : ∀ x, thread_state (f x) = thread_state x;
  ru_locked : ∀ x, sched_locked (f x) = sched_locked x;
  ru_comm : ∀ s x, f (set_thread_state s x) = set_thread_state s (f x);
}.
Lemma ret_upd_value v : ret_upd (set_return_value v).
Proof. done. Qed.
Lemma ret_upd_data v d : ret_upd (λ x, set_swap_data d (set_return_value v x)).
Proof. done. Qed.
Lemma ret_upd_ok f t x : ret_upd f → thread_ok t x → thread_ok t (f x).
Proof. intros [Hp _ Hl _] Hx. unfold thread_ok in *. by rewrite Hp, Hl. Qed.

(** Kept from running by something other than waiting. *)
Definition held (t : tid) (k : kernel) : bool :=
  _is_thread_state_set t (Z.lor (Z.lor _THREAD_DEAD _THREAD_DUMMY) _THREAD_SUSPENDED) k.
Lemma held_flags t k : held t k = flag k t 3 || flag k t 0 || flag k t 4.
Proof.
  unfold held, _is_thread_state_set. rewrite !land_lor_eqb0. change _THREAD_DEAD with (2 ^ 3).
  change _THREAD_DUMMY with (2 ^ 0). change _THREAD_SUSPENDED with (2 ^ 4). rewrite !land_pow2_eqb by done.
  unfold flag. by repeat destruct (Z.testbit _ _).
Qed.
Lemma held_ext t k k' : thread_state (thr k' t) = thread_state (thr k t) → held t k' = held t k.
Proof. intros E. unfold held, _is_thread_state_set. by rewrite E. Qed.
Lemma held_unpend t k : held t (_unpend_thread t k) = held t k.
Proof.
  rewrite !held_flags. unfold _unpend_thread, _mark_thread_as_not_pending. change _THREAD_PENDING with (2 ^ 1).
  by rewrite !flag_reset, !decide_True, !andb_true_r by (done || lia).
Qed.

(** [woken E t f k k']: the waiter [t], already off its queue in [k], has been
    made ready, with no timeout left and its thread structure updated by [f]. *)
Record woken (E : list timeout_id) (t : tid) (f : k_thread → k_thread) (k k' : kernel) : Prop := {
  wk_kinv : kinv ∅ E k';
  wk_only : only t k k';
  wk_thr : ∃ s, thr k' t = set_thread_state s (f (thr k t));
  wk_inactive : delta k' (TThread t) = _INACTIVE;
  wk_pending : _is_thread_pending t k' = false;
  wk_wq : ∀ w, q k' (WQ w) = q k (WQ w);
  wk_ready : _is_thread_ready t k' = negb (held t k);
}.

Lemma ready_thr t k : ∃ s, thr (_ready_thread t k) t = set_thread_state s (thr k t).
Proof.
  unfold _ready_thread. cbv zeta.
  assert (∃ s, thr (_mark_thread_as_started t k) t = set_thread_state s (thr k t)) as Hs;
    [|by destruct (_is_thread_ready t _)].
  unfold _mark_thread_as_started, _reset_thread_states. rewrite thr_upd, decide_True by done. by eexists.
Qed.
Lemma ready_not_pended t k : _is_thread_pending t k = false → _is_thread_pending t (_ready_thread t k) = false.
Proof.
  intros Hp. unfold _ready_thread. cbv zeta.
  assert (_is_thread_pending t (_mark_thread_as_started t k) = false) as Hp'; [|by destruct (_is_thread_ready t _)].
  unfold _mark_thread_as_started. change _THREAD_PRESTART with (2 ^ 2).
  rewrite pending_flag, flag_reset, decide_True by (done || lia). by rewrite <-pending_flag, Hp.
Qed.
Lemma q_ready_wq t k w : q (_ready_thread t k) (WQ w) = q k (WQ w).
Proof.
  unfold _ready_thread. cbv zeta. destruct (_is_thread_ready t _); [|done]. by rewrite q_add, decide_False.
Qed.
Lemma delta_ready t k i : delta (_ready_thread t k) i = delta k i.
Proof. unfold _ready_thread. cbv zeta. by destruct (_is_thread_ready t _). Qed.

(** A thread that no longer waits is made ready, unless it is suspended. *)
Lemma ready_thread_ready t k :
  _is_thread_pending t k = false → delta k (TThread t) = _INACTIVE →
  _is_thread_ready t (_ready_thread t k) = negb (held t k).
Proof.
  intros Hp Hd. assert (_is_thread_ready t (_mark_thread_as_started t k) = negb (held t k)) as Hr.
  { unfold _is_thread_ready, _is_thread_timeout_active. fold (delta (_mark_thread_as_started t k) (TThread t)).
    change (delta (_mark_thread_as_started t k) (TThread t)) with (delta k (TThread t)).
    rewrite Hd, prevented_flags, held_flags. unfold _mark_thread_as_started. change _THREAD_PRESTART with (2 ^ 2).
    rewrite !flag_reset, !decide_True by (done || lia). rewrite <-pending_flag, Hp. simpl.
    by rewrite !andb_true_r, !andb_false_r, !orb_false_r. }
  unfold _ready_thread. cbv zeta. destruct (_is_thread_ready t _) eqn:E; [|congruence].
  rewrite <-Hr, <-E. by apply ready_ext.
Qed.

Lemma unpended_ret_upd E t f k : ret_upd f → unpended E t k → unpended E t (upd_thread t f k).
Proof.
  intros Hf [Hk Ht Hp HE]. split; [|by rewrite dom_upd| |done].
  - apply kinv_upd_keep; [done|done| |by rewrite (ru_state _ Hf)|by rewrite (ru_prio _ Hf)].
    apply ret_upd_ok; [done|]. by apply (inv_thread _ _ _ Hk).
  - rewrite (pending_ext t k); [done|]. by rewrite thr_upd, decide_True, (ru_state _ Hf).
Qed.

Lemma wake_ready E t k :
  unpended E t k → woken E t (λ x, x) k (_ready_thread t (_abort_thread_timeout t k).2).
Proof.
  intros Hu. destruct (unpended_abort E t k Hu) as [Hu1 Hd1].
  assert (∀ c, thr (_abort_thread_timeout t k).2 c = thr k c) as Ht1.
  { intros c. unfold thr, _abort_thread_timeout. by rewrite abort_timeout_threads. }
  assert (∀ r, q (_abort_thread_timeout t k).2 r = q k r) as Hq1 by (intros; apply q_abort).
  pose proof (unpended_only_abort E t k Hu) as Ho1. set (k1 := (_abort_thread_timeout t k).2) in *. clearbody k1.
  split.
  - by apply unpended_ready.
  - etrans; [exact Ho1|apply only_ready].
  - rewrite <-Ht1. apply ready_thr.
  - by rewrite delta_ready.
  - apply ready_not_pended. by destruct Hu1.
  - intros w. by rewrite q_ready_wq, Hq1.
  - rewrite ready_thread_ready by (done || by destruct Hu1). f_equal. apply held_ext. by rewrite Ht1.
Qed.

Lemma ret_upd_keeps_dead f : ret_upd f → KeepsDead f.
Proof. intros Hf x Hx. unfold gone_state in *. by rewrite (ru_state _ Hf). Qed.
Lemma wake_before E t f k :
  unpended E t k → ret_upd f →
  woken E t f k (_ready_thread t (_abort_thread_timeout t (upd_thread t f k)).2).
Proof.
  intros Hu Hf. destruct (wake_ready E t (upd_thread t f k)) as [? Ho [s Hs] ? ? Hq Hr]; [by apply unpended_ret_upd|].
  split; [done| | |done|done|done|].
  - trans (upd_thread t f k); [by apply only_upd_thread, ret_upd_keeps_dead|exact Ho].
  - exists s. by rewrite Hs, thr_upd, decide_True.
  - rewrite Hr. f_equal. apply held_ext. by rewrite thr_upd, decide_True, (ru_state _ Hf).
Qed.
Lemma wake_after E t f k :
  unpended E t k → ret_upd f →
  woken E t f k (upd_thread t f (_ready_thread t (_abort_thread_timeout t k).2)).
Proof.
  intros Hu Hf. destruct (wake_ready E t k Hu) as [Hk Ho [s Hs] Hd Hp Hq Hr].
  set (k1 := _ready_thread t _) in *. clearbody k1.
  assert (t ∈ dom (threads k1)) as Ht by (apply (only_dom _ _ _ Ho); by destruct Hu).
  split; [| | |done| |done|].
  - apply kinv_upd_keep; [done|done| |by rewrite (ru_state _ Hf)|by rewrite (ru_prio _ Hf)].
    apply ret_upd_ok; [done|]. by apply (inv_thread _ _ _ Hk).
  - etrans; [exact Ho|by apply only_upd_thread, ret_upd_keeps_dead].
  - exists s. by rewrite thr_upd, decide_True, Hs, (ru_comm _ Hf).
  - rewrite (pending_ext t k1); [done|]. by rewrite thr_upd, decide_True, (ru_state _ Hf).
  - rewrite <-Hr. apply ready_ext; [|done]. by rewrite thr_upd, decide_True, (ru_state _ Hf).
Qed.

(** [awake t k k']: the thread [t], which waits in [k], does not wait any more
    in [k']: it is on no wait queue and has no timeout; unless it is also
    suspended, it is ready, and on the ready queue of its priority. *)
Record awake (t : tid) (k k' : kernel) : Prop := {
  aw_wq : ∀ w, q k' (WQ w) = without t (q k (WQ w));
  aw_pending : _is_thread_pending t k' = false;
  aw_timeout : delta k' (TThread t) = _INACTIVE;
  aw_ready : _is_thread_ready t k' = negb (held t k);
  aw_rq : _is_thread_ready t k' = true → t ∈ q k' (RQ (rq_index k' t));
}.
Lemma awake_ext t k k1 k' :
  (∀ w, q k (WQ w) = q k1 (WQ w)) → thread_state (thr k t) = thread_state (thr k1 t) → awake t k k' → awake t k1 k'.
Proof.
  intros Hq Hs [Hw ? ? Hr ?]. split; [intros w; by rewrite Hw, Hq|done|done|rewrite Hr|done].
  f_equal. by apply held_ext.
Qed.
Lemma ready_in_rq E k t :
  kinv ∅ E k → t ∈ dom (threads k) → _is_thread_ready t k = true → t ∈ q k (RQ (rq_index k t)).
Proof. intros Hk Ht Hr. apply (rq_mem _ _ (inv_rq _ _ _ Hk)). split; [|done]. split_and!; [done|apply not_elem_of_empty|done]. Qed.

Lemma woken_prio E t f k k' : ret_upd f → woken E t f k k' → prio (thr k' t) = prio (thr k t).
Proof. intros Hf [_ _ [s ->] _ _ _]. apply (ru_prio _ Hf). Qed.

(** The state with a name, so that proofs do not carry it around. *)
Lemma wake_ex E t k :
  unpended E t k →
  ∃ k', k' = _set_thread_return_value t 0 (_ready_thread t (_abort_thread_timeout t k).2) ∧
    woken E t (set_return_value 0) k k'.
Proof. intros Hu. eexists. split; [reflexivity|]. apply wake_after; [done|apply ret_upd_value]. Qed.

(** A waiter is never the current thread. *)
Lemma waiter_not_current k t w :
  kinv ∅ [] k → runnable ∅ k (current k) → t ∈ q k (WQ w) → current k ≠ t.
Proof.
  intros Hk (_ & _ & Hr) Hin E. apply (inv_wq _ _ _ Hk) in Hin as [_ Hp].
  apply ready_not_pending in Hr. congruence.
Qed.

(** ** Waiting *)
Lemma pend_current_spec E w timeout k :
  kinv ∅ E k → runnable ∅ k (current k) → current k ≠ _idle_thread → timeout_ok timeout →
  w.1 ≠ KTimer ∨ timeout = K_FOREVER →
  let k' := _pend_current_thread w timeout k in
  kinv ∅ E k' ∧ sframe k k' ∧ current k ∈ dom (threads k') ∧ _is_thread_pending (current k) k' = true ∧
  q k' (WQ w) = insert_where (λ p, _is_t1_higher_prio_than_t2 (current k) p k) (current k) (q k (WQ w)).
Proof.
  intros Hk Hc Hidle Hto Hfo k'. pose proof Hc as (Ht & _ & Hr).
  pose proof (kinv_remove ∅ E k (current k) Hk Hc Hidle) as Hk1.
  pose proof (sframe_remove (current k) k) as Hf1.
  unfold k', _pend_current_thread. cbv zeta. rewrite (sframe_current _ _ Hf1).
  set (k1 := _remove_thread_from_ready_q (current k) k) in *.
  assert (∀ t, thr k1 t = thr k t) as Hthr by (intros; apply thr_remove_ready).
  destruct (kinv_pend_thread ∅ E k1 (current k) w timeout) as (Hk2 & Hf2 & Hp2 & Hq2).
  - done.
  - set_solver.
  - unfold k1. by rewrite threads_remove.
  - rewrite (pending_ext _ k); [by apply ready_not_pending|by rewrite Hthr].
  - unfold delta, tmo, k1. rewrite timeouts_remove. by apply ready_inactive in Hr.
  - done.
  - done.
  - split_and!; [done|by etrans| |done|].
    + destruct (inv_wq _ _ _ Hk2 (current k) w) as [? _]; [rewrite Hq2, insert_where_perm; mem|done].
    + rewrite Hq2. unfold k1 at 2. rewrite q_remove_ready, without_notin.
      * unfold _is_t1_higher_prio_than_t2. by setoid_rewrite Hthr.
      * intros Hin. apply (inv_wq _ _ _ Hk) in Hin as [_ Hp]. apply ready_not_pending in Hr. congruence.
Qed.

Lemma pend_current_thr w timeout k c :
  timeout_ok timeout →
  let k' := _pend_current_thread w timeout k in
  prio (thr k' c) = prio (thr k c) ∧ (c ≠ current k → thr k' c = thr k c).
Proof.
  intros Hto. cbv zeta. unfold _pend_current_thread. cbv zeta.
  rewrite (sframe_current _ _ (sframe_remove (current k) k)), <-(thr_remove_ready (current k) k c).
  set (k1 := _remove_thread_from_ready_q (current k) k). unfold _pend_thread. cbv zeta.
  set (k2 := set_queues _ k1).
  assert (thr k2 c = thr k1 c) as <- by done. clearbody k2. clear k1.
  assert (∀ k3, threads k3 = threads (_mark_thread_as_pending (current k) k2) →
    prio (thr k3 c) = prio (thr k2 c) ∧ (c ≠ current k → thr k3 c = thr k2 c)) as Hk3.
  { intros k3 Et. assert (thr k3 c = thr (_mark_thread_as_pending (current k) k2) c) as ->
      by (unfold thr; by rewrite Et).
    unfold _mark_thread_as_pending, _set_thread_states. rewrite thr_upd. case_decide; [by subst|done]. }
  destruct (timeout =? K_FOREVER) eqn:Ef; apply Hk3; [done|]. zbool. destruct Hto; [done|].
  apply add_thread_timeout_threads. lia.
Qed.

(** The timeout of a wait is queued with its deadline. *)
Definition queued_deadline (i : timeout_id) (timeout : Z) (l : list (timeout_id * Z)) : list (timeout_id * Z) :=
  if timeout =? K_FOREVER then l
  else insert_where (λ p, timeout_ticks timeout <=? p.2) (i, timeout_ticks timeout) l.
Lemma pend_current_deadlines E w timeout k :
  kinv ∅ E k → runnable ∅ k (current k) → timeout_ok timeout →
  deadlines (_pend_current_thread w timeout k) = queued_deadline (TThread (current k)) timeout (deadlines k).
Proof.
  intros Hk (_ & _ & Hr) Hto. unfold _pend_current_thread. cbv zeta.
  rewrite (sframe_current _ _ (sframe_remove (current k) k)).
  assert (∀ k', timeouts k' = timeouts k → timeout_q k' = timeout_q k → deadlines k' = deadlines k ∧ tq_inv E k' ∧
    delta k' (TThread (current k)) = _INACTIVE) as Hsame.
  { intros k' Et Eq. assert (∀ i, delta k' i = delta k i) as Hd by (intros i; unfold delta, tmo; by rewrite Et).
    split_and!; [unfold deadlines; by rewrite Eq; apply expiries_ext|eapply tq_inv_frame; [apply Hk|done|done]|].
    rewrite Hd. by apply ready_inactive in Hr. }
  assert (timeouts (_remove_thread_from_ready_q (current k) k) = timeouts k ∧
    timeout_q (_remove_thread_from_ready_q (current k) k) = timeout_q k) as [Et Eq].
  { split; [apply timeouts_remove|]. unfold _remove_thread_from_ready_q. cbv zeta. by destruct (decide (q _ _ = [])). }
  unfold _pend_thread, queued_deadline. cbv zeta. destruct (timeout =? K_FOREVER) eqn:Ef; zbool; [by apply Hsame|].
  destruct Hto as [|Hto]; [done|]. set (k1 := _mark_thread_as_pending _ _).
  destruct (Hsame k1) as (Ed & Htq & Hina); [done|done|]. rewrite <-Ed.
  destruct (add_timeout_spec (λ _ _ k, k) (Some (current k)) (TThread (current k)) (Some w) (timeout_ticks timeout) E k1)
    as (_ & _ & Hd & _); [done|done|split; [done|apply timeout_ticks_max]|exact Hd].
Qed.

(** ** Within an operation

    [running J k]: the current thread can run and the state is one in which it
    may be swapped out, but a thread of higher priority may have become ready. *)
Section running.
Context (J : kernel → Prop) (F : Prop).
Hypothesis J_objects : ∀ k k', same_objects k k' → J k → J k'.

Definition running (k : kernel) : Prop := swap_ready J k ∧ runnable ∅ k (current k).

Lemma running_sinv k : sinv J k → running k.
Proof. intros Hk. split; [by apply swap_ready_sinv|apply Hk]. Qed.

Lemma running_frame k k' :
  running k → kinv ∅ [] k' → sframe k k' → runnable ∅ k' (current k) → running k' ∧ current k' = current k.
Proof.
  intros [Hs _] Hk' Hf Hr. pose proof (sframe_current _ _ Hf) as Ec.
  split; [|done]. split; [by eapply swap_ready_frame|]. by rewrite Ec.
Qed.

Lemma running_only t k k' :
  running k → only t k k' → kinv ∅ [] k' → current k ≠ t → running k' ∧ current k' = current k.
Proof.
  intros Hk Ho Hk' Hne. apply running_frame; [done|done|by eapply only_sframe|].
  eapply only_runnable; [done|done|]. apply Hk.
Qed.

Lemma running_sched_lock k : running k → running (_sched_lock k).
Proof.
  intros Hk. pose proof (inv_current _ _ _ (proj1 (proj1 Hk))) as Hc.
  apply (running_frame k); [done| |apply sframe_upd_thread, _|].
  - apply (kinv_sched_locked _ _ _ _ (λ x, sched_locked x - 1)); [apply Hk|done].
  - apply runnable_upd_keep; [done|done|apply Hk].
Qed.

Lemma running_prio_set t p k :
  running k → t ∈ dom (threads k) → t ≠ _idle_thread →
  K_HIGHEST_THREAD_PRIO ≤ p ≤ K_LOWEST_APPLICATION_THREAD_PRIO →
  running (_thread_priority_set t p k) ∧ current (_thread_priority_set t p k) = current k.
Proof.
  intros Hk Ht Hidle Hp. apply running_frame; [done| |apply sframe_prio_set|].
  - apply kinv_thread_priority_set; [apply Hk|done|set_solver|done|done].
  - apply runnable_prio_set; [done|apply Hk].
Qed.

Lemma running_unlock k : running k → op_safe J F k_sched_unlock k.
Proof. intros [Hk Hr]. by apply sched_unlock_safe. Qed.
End running.
Lemma running_J (J : kernel → Prop) k : running (λ _, True) k → J k → running J k.
Proof. intros [(? & ? & ? & _) ?] HJ. by split. Qed.
Lemma running_any (J : kernel → Prop) k : running J k → running (λ _, True) k.
Proof. intros [(? & ? & ? & _) ?]. by split. Qed.

Lemma waiter_not_idle E k t w : kinv ∅ E k → t ∈ q k (WQ w) → t ≠ _idle_thread.
Proof.
  intros Hk Hin ->. destruct (inv_idle _ _ _ Hk) as (_ & _ & Hr).
  apply (inv_wq _ _ _ Hk) in Hin as [_ Hp]. apply ready_not_pending in Hr. congruence.
Qed.


(** ** The state in which the next thread runs *)
Definition switched (k : kernel) : kernel :=
  let k := upd_thread (current k) (set_return_value (- EAGAIN)) (_update_time_slice_before_swap k) in
  set_current (cache k) k.
Lemma swap_switched k : _Swap k = Swapped (switched k) (λ k, Done (return_value (thr k (current k))) k).
Proof. done. Qed.
Lemma switched_sys_inv J k :
  (∀ k k', same_objects k k' → J k → J k') → swap_ready J k → sinv J (switched k).
Proof. intros HJ Hk. exact (proj1 (swap_safe J False HJ 0%nat k Hk)). Qed.
Lemma switched_prio k c : prio (thr (switched k) c) = prio (thr k c).
Proof.
  unfold switched. cbv zeta. change (thr (set_current ?c ?k) ?t) with (thr k t). rewrite thr_upd.
  by case_decide; [subst|].
Qed.


(** ** Wait queues after a wake-up *)
Lemma q_unpend t k r : q (_unpend_thread t k) r = without t (q k r).
Proof. apply DlistSpec.lookup_remove. Qed.
Lemma unpend_first_empty w k : handling_timeouts k = false → q k (WQ w) = [] → _unpend_first_thread w k = (None, k).
Proof.
  intros Hh Hq. unfold _unpend_first_thread, _find_first_thread_to_unpend. by rewrite Hh, Hq.
Qed.
Lemma unpend_first_cons w k t ws :
  handling_timeouts k = false → q k (WQ w) = t :: ws → _unpend_first_thread w k = (Some t, _unpend_thread t k).
Proof.
  intros Hh Hq. unfold _unpend_first_thread, _find_first_thread_to_unpend. by rewrite Hh, Hq.
Qed.

(** Finding a waiter does not depend on the kernel objects. *)
Lemma unpend_first_objs w k t k1 k' :
  kinv ∅ [] k → _unpend_first_thread w k = (Some t, k1) →
  queues k' = queues k → timeouts k' = timeouts k → handling_timeouts k' = handling_timeouts k →
  k1 = _unpend_thread t k ∧ _unpend_first_thread w k' = (Some t, _unpend_thread t k').
Proof.
  intros Hk Hu Eq Et Eh. destruct (unpend_first_Some [] w k t k1 Hk Hu) as (_ & E1 & _). split; [done|].
  unfold _unpend_first_thread in *.
  assert (_find_first_thread_to_unpend w None k' = _find_first_thread_to_unpend w None k) as ->.
  { unfold _find_first_thread_to_unpend, _is_thread_timeout_expired, q, tmo. by rewrite Eq, Et, Eh. }
  destruct (_find_first_thread_to_unpend w None k); by simplify_eq.
Qed.

Lemma sys_running k : sys_inv k → running (λ _, True) k.
Proof. intros Hk. by apply running_sinv. Qed.

(** The first waiter of [w] is woken; [k] is the state with the object itself
    already updated. *)
Record woken_first (w : wq) (t : tid) (f : k_thread → k_thread) (k k' : kernel) : Prop := {
  wf_head : head (q k (WQ w)) = Some t;
  wf_woken : woken [] t f (_unpend_thread t k) k';
  wf_only : only t k k';
  wf_other : current k ≠ t;
  wf_wq : ∀ w', q k' (WQ w') = without t (q k (WQ w'));
}.
Lemma unpend_woken w k t k1 f k' :
  running (λ _, True) k → _unpend_first_thread w k = (Some t, k1) →
  (unpended [] t (_unpend_thread t k) → woken [] t f (_unpend_thread t k) k') → woken_first w t f k k'.
Proof.
  intros Hk Hu Hw. destruct (unpend_first_Some [] w k t k1 (proj1 (proj1 Hk)) Hu) as (Hin & -> & Hup & Hh).
  specialize (Hw Hup). split; [by apply Hh, Hk|done| | |].
  - etrans; [apply only_unpend|apply Hw].
  - by apply (waiter_not_current k t w); [apply Hk|apply Hk|].
  - intros w'. by rewrite (wk_wq _ _ _ _ _ Hw), q_unpend.
Qed.
Lemma woken_awake E t f k k' :
  t ∈ dom (threads k) → woken E t f (_unpend_thread t k) k' → awake t k k'.
Proof.
  intros Ht [Hk Ho _ Hd Hp Hq Hr]. split; [intros w; by rewrite Hq, q_unpend|done|done|by rewrite Hr, held_unpend|].
  intros Hrd. eapply ready_in_rq; [done| |done]. apply (only_dom _ _ _ Ho).
  by apply (sframe_dom _ _ (sframe_unpend t k)).
Qed.
Lemma wf_tail w t f k k' ws : kinv ∅ [] k → woken_first w t f k k' → q k (WQ w) = t :: ws → q k' (WQ w) = ws.
Proof.
  intros Hk Hw Hq. rewrite (wf_wq _ _ _ _ _ Hw), Hq. apply without_head. rewrite <-Hq. apply Hk.
Qed.
(** The waker gives way if it must. *)
Lemma switch_safe {A} (J : kernel → Prop) F (v : A) w t f k k' :
  (∀ k k', same_objects k k' → J k → J k') → sinv J k → woken_first w t f k k' →
  osafe F (sinv J) (current k) (λ _ k1, sinv J k1 ∧ current k1 = current k)
    (if _must_switch_threads k' then let% _ k := _Swap k' in Done v k else Done v k').
Proof.
  intros HJ Hk [_ Hw Ho Hne _]. pose proof (only_reschedule J F HJ t k k' Hk Ho (wk_kinv _ _ _ _ _ Hw) Hne) as Hr.
  unfold _reschedule_threads in Hr. destruct (_must_switch_threads k'); exact Hr.
Qed.
Lemma give_way_safe {A} (J : kernel → Prop) F (v : A) w t f k k' :
  (∀ k k', same_objects k k' → J k → J k') → sinv J k → woken_first w t f k k' →
  osafe F (sinv J) (current k) (λ _ k1, sinv J k1 ∧ current k1 = current k)
    (if negb (_is_in_isr k') && _must_switch_threads k' then let% _ k := _Swap k' in Done v k else Done v k').
Proof.
  intros HJ Hk Hw. unfold _is_in_isr.
  rewrite (sframe_nested _ _ (only_sframe _ _ _ (wf_only _ _ _ _ _ Hw))), (sys_nested _ (proj1 Hk)). simpl andb.
  by eapply switch_safe.
Qed.

(** ** Interrupt handlers

    What a routine called in an interrupt handler, also by a timeout function
    with the expired timeouts [E] still to be handled, must keep. *)
Definition isr_kept (J : kernel → Prop) (E : list timeout_id) (k k' : kernel) : Prop :=
  kinv ∅ E k' ∧ J k' ∧ current k' = current k ∧ nested k' = nested k ∧
  handling_timeouts k' = handling_timeouts k ∧ runnable ∅ k' (current k).

Lemma isr_kept_trans J E k1 k2 k3 : isr_kept J E k1 k2 → isr_kept J E k2 k3 → isr_kept J E k1 k3.
Proof. intros (_ & _ & Ec & En & Eh & _) (? & ? & ? & ? & ? & Hr). rewrite Ec in Hr. split_and!; congruence. Qed.

(** Waking a waiter. *)
Lemma isr_woken J E w t f k k' :
  (∀ k k', same_objects k k' → J k → J k') → kinv ∅ E k → J k → runnable ∅ k (current k) →
  t ∈ q k (WQ w) → woken E t f (_unpend_thread t k) k' → isr_kept J E k k'.
Proof.
  intros HJ Hk Hj (Hc & Hx & Hr) Hin Hw. assert (only t k k') as Ho by (etrans; [apply only_unpend|apply Hw]).
  pose proof (only_sframe _ _ _ Ho) as Hf.
  split_and!; [apply Hw| |by apply sframe_current|by apply sframe_nested|by apply sframe_handling|].
  - by eapply HJ; [apply sframe_objects|].
  - eapply only_runnable; [done| |done]. intros E'. apply (inv_wq _ _ _ Hk) in Hin as [_ Hp].
    apply ready_not_pending in Hr. congruence.
Qed.

End waitq.
