(* ===== verification/Scenario.v ===== *)
(** * A concrete system

    The system that the theorems are evaluated on: after boot the thread [main]
    (3 with the boot-time [dummy] thread 0 and the idle thread 1) has started a
    worker (4) of lower priority.  The states are computed with the model's own
    operations. *)
From stdpp Require Import gmap list.
From S2P Require Import Prelude Dlist KState Ksched TimeoutQ SchedInv Outcome Sched Thread WaitQ.
Local Open Scope Z_scope.

#[local] Existing Instance default_config.

(** The state in which an operation leaves the kernel. *)
Definition after {A} (o : outcome A) : kernel :=
  match o with Done _ k | Swapped k _ => k | Fault => zero_kernel 0 end.

Definition sc_main : tid := 3%nat.
Definition sc_worker : tid := 4%nat.
Definition booted : kernel := after (boot 0%nat sc_main 0).
Notation two_threads := (after (k_thread_create sc_worker 5 0 0 booted)).

Lemma in_dom {A} (m : gmap nat A) i : bool_decide (is_Some (m !! i)) = true → i ∈ dom m.
Proof. intros Hb. apply elem_of_dom. by apply bool_decide_eq_true in Hb. Qed.

Lemma booted_sys_inv : sys_inv booted.
Proof.
  destruct (boot_sinv 0%nat sc_main 0) as (k & r & E & Hk & _); [done|done|done|by vm_compute|].
  unfold booted. rewrite E. apply Hk.
Qed.

Definition no_fault {A} (o : outcome A) : bool := match o with Fault => false | _ => true end.
Lemma op_safe_state {A} J F (o : kernel → outcome A) k : op_safe J F o k → no_fault (o k) = true → sinv J (after (o k)).
Proof. unfold op_safe. destruct (o k); [by intros [] _|by intros [] _|done]. Qed.
Lemma op_safe_after {A} J (o : kernel → outcome A) k : op_safe J False o k → sinv J (after (o k)).
Proof. unfold op_safe. destruct (o k); [by intros []|by intros []|done]. Qed.

Lemma two_threads_sys_inv : sys_inv two_threads.
Proof.
  refine (proj1 (op_safe_after (λ _, True) (k_thread_create sc_worker 5 0 0) booted _)).
  apply k_thread_create_safe; [done|done|split; [apply booted_sys_inv|done]|..].
  - split; [done|]. split; [by vm_compute|]. intros []%(not_elem_of_dom_2 (D := gset tid)). by vm_compute.
  - by vm_compute.
  - by vm_compute.
  - by left.
Qed.
