(* ===== verification/SchedProps.v ===== *)
(** * Properties of the scheduler and the timeout queue

    The theorems that sum up SchedInv.v, TimeoutQ.v, Sched.v and Thread.v, with
    instances of them on the states of Scenario.v. *)
From stdpp Require Import gmap list sorting.
From S2P Require Import Prelude Dlist KState Ksched TimeoutQ SchedInv Outcome Sched Thread WaitQ Scenario.
Local Open Scope Z_scope.
Local Open Scope outcome_scope.

Section props.
Context `{KConfig}.

(** ** The ready queues *)

(** C3: the ready queues are a priority queue of the ready threads [R]: the
    bitmap scan [_get_highest_ready_prio] and the cached next thread agree on
    the highest priority of all of them, and adding a thread (behind those of
    its priority), removing one and moving one to the end of its priority keep
    the queues, the bitmap and the cache consistent. *)
Theorem ready_queues_refine R k :
  rq_inv R k →
  (_get_highest_ready_prio k = prio (thr k (cache k)) ∧ R (_get_next_ready_thread k) ∧
    ∀ t, R t → _get_highest_ready_prio k ≤ prio (thr k t)) ∧
  (∀ t, ¬ R t → prio_ok (prio (thr k t)) →
    let k' := _add_thread_to_ready_q t k in
    rq_inv (λ t', t' = t ∨ R t') k' ∧ q k' (RQ (rq_index k t)) = q k (RQ (rq_index k t)) ++ [t]) ∧
  (∀ t t0, R t → R t0 → t0 ≠ t →
    let k' := _remove_thread_from_ready_q t k in
    rq_inv (λ t', t' ≠ t ∧ R t') k' ∧ ∀ i, q k' (RQ i) = without t (q k (RQ i))) ∧
  (∀ t, R t →
    let k' := _move_thread_to_end_of_prio_q t k in
    rq_inv R k' ∧ q k' (RQ (rq_index k t)) = without t (q k (RQ (rq_index k t))) ++ [t]).
Proof.
  intros Hrq. split; [|split_and!].
  - rewrite (rq_inv_highest R k Hrq). split; [done|]. split; [by apply (rq_cache_mem R k Hrq)|].
    intros t Ht. by apply (rq_inv_cache_max R k t Hrq).
  - intros t Ht Hp k'. split; [by apply rq_inv_add|]. unfold k'. rewrite q_add, decide_True; [done|].
    unfold rq_index. done.
  - intros t t0 Ht Ht0 Hne k'. split; [by apply (rq_inv_remove R k t t0)|]. intros i. apply q_remove_ready.
  - intros t Ht k'. split; [by apply rq_inv_move|]. unfold k', _move_thread_to_end_of_prio_q. cbv zeta.
    fold (rq_index k t). case_decide as Hl.
    + apply last_Some in Hl as [l Hl]. pose proof (rq_nodup _ _ Hrq (rq_index k t)) as Hnd. rewrite Hl in *.
      apply NoDup_app in Hnd as (_ & Hnin & _). rewrite without_app, without_cons_eq, without_nil, app_nil_r.
      rewrite without_notin; [done|]. intros Hin. apply (Hnin _ Hin). mem.
    + change (q (set_cache ?c ?x) ?r) with (q x r). by rewrite q_append_lookup, decide_True, q_remove_lookup.
Qed.

(** ** The timeout queue *)

(** C4: the queue of deltas means a list of deadlines: adding a timeout inserts
    its deadline in order, before those due at the same tick, aborting one
    deletes it, and when ticks pass all deadlines move, the timeouts due leave
    the queue and the others remain, none of them due. *)
Theorem timeout_queue_refines E k :
  tq_inv E k →
  (∀ call th i w n, delta k i = _INACTIVE → 0 < n ≤ INT32_MAX →
    let k' := _add_timeout call th i w n k in
    tq_inv E k' ∧ deadlines k' = insert_where (λ p, n <=? p.2) (i, n) (deadlines k)) ∧
  (∀ i, i ∉ E →
    let '(r, k') := _abort_timeout i k in
    r = (if delta k i =? _INACTIVE then _INACTIVE else 0) ∧ tq_inv E k' ∧
    deadlines k' = filter (λ p, p.1 ≠ i) (deadlines k)) ∧
  (∀ h ticks, E = [] → head (timeout_q k) = Some h → 0 ≤ ticks ≤ delta k h →
    let '(expired, k') := dequeue_expired (S (length (timeout_q k))) [] (set_delta h (delta k h - ticks) k) in
    ∃ due, expired = rev due ∧ tq_inv expired k' ∧ tq_pos k' ∧
      (λ p, (p.1, p.2 - ticks)) <$> deadlines k = ((λ i, (i, 0)) <$> due) ++ deadlines k').
Proof.
  intros Htq. split_and!.
  - intros call th i w n Hd Hn k'. destruct (add_timeout_spec call th i w n E k Htq Hd Hn) as (? & _ & ? & _). done.
  - intros i Hi. pose proof (abort_timeout_spec i E k Htq Hi) as Hab. destruct (_abort_timeout i k).
    destruct Hab as (? & ? & _ & ? & _). done.
  - intros h ticks -> Hh Ht. assert (∃ l, timeout_q k = h :: l) as [l Hq].
    { destruct (timeout_q k) as [|h' l]; [done|]. exists l. by injection Hh as ->. }
    destruct (tq_inv_tick [] k h l ticks Htq Hq Ht) as (Htq1 & Hd1 & _).
    set (k1 := set_delta h _ k) in *.
    pose proof (dequeue_expired_spec (S (length (timeout_q k))) [] k1 Htq1 (Nat.lt_succ_diag_r _)) as Hde.
    destruct (dequeue_expired _ [] k1) as [X k']. destruct Hde as (due & -> & _ & Hd & ? & ? & _).
    exists due. rewrite <-Hd1. rewrite app_nil_r in *. done.
Qed.

(** A thread waits at least as long as it asked for, and less than two ticks
    longer: the timeout in ticks, counted from the tick in progress, is the
    smallest number of whole ticks that covers the milliseconds. *)
Theorem timeout_rounds_up ms :
  0 ≤ ms → 2 + ms / ms_per_tick ≤ INT32_MAX → ms ≤ INT32_MAX →
  0 < timeout_ticks ms ∧ ms ≤ (timeout_ticks ms - 1) * ms_per_tick ∧ (timeout_ticks ms - 2) * ms_per_tick < ms.
Proof. apply timeout_ticks_spec. Qed.

(** ** Wait queues *)

(** The order of wait queues: no thread behind one of lower priority. *)
Definition wq_ordered (k : kernel) (w : wq) : Prop :=
  StronglySorted (λ t t', prio (thr k t) ≤ prio (thr k t')) (q k (WQ w)).

Lemma sorted_mono {A} (R R' : A → A → Prop) l :
  (∀ a b, R a b → R' a b) → StronglySorted R l → StronglySorted R' l.
Proof. intros HR. induction 1 as [|a l Hs IH Ha]; constructor; [done|]. eapply Forall_impl; [exact Ha|auto]. Qed.
Lemma sorted_insert_where k t l :
  StronglySorted (λ t t', prio (thr k t) ≤ prio (thr k t')) l →
  StronglySorted (λ t t', prio (thr k t) ≤ prio (thr k t')) (insert_where (λ p, _is_t1_higher_prio_than_t2 t p k) t l).
Proof.
  induction 1 as [|p l Hs IH Hp]; simpl; [by repeat constructor|].
  destruct (_is_t1_higher_prio_than_t2 t p k) eqn:Hc; unfold _is_t1_higher_prio_than_t2, _is_prio1_higher_than_prio2 in Hc; zbool.
  - constructor; [by constructor|]. constructor; [lia|]. eapply Forall_impl; [exact Hp|]. simpl. intros; lia.
  - constructor; [done|]. rewrite insert_where_perm. constructor; [lia|done].
Qed.

(** C21: waiting threads are queued by priority, first come first served within
    one: [_pend_current_thread] puts the thread behind all waiters of its
    priority or higher and before all others, and so keeps the queue ordered:
    the thread woken first is one of the highest priority, and of those the one
    that waited longest. *)
Theorem pend_keeps_order w timeout k :
  sys_inv k → current k ≠ _idle_thread → timeout_ok timeout → w.1 ≠ KTimer → wq_ordered k w →
  let k' := _pend_current_thread w timeout k in
  wq_ordered k' w ∧ kinv ∅ [] k' ∧
  ∃ l1 l2, q k (WQ w) = l1 ++ l2 ∧ q k' (WQ w) = l1 ++ current k :: l2 ∧
    (∀ t, t ∈ l1 → prio (thr k t) ≤ prio (thr k (current k))) ∧ (∀ t, t ∈ l2 → prio (thr k (current k)) < prio (thr k t)).
Proof.
  intros Hk Hi Hto Hw Ho k'.
  destruct (pend_current_spec [] w timeout k) as (Hk' & Hf & _ & _ & Hq); [apply Hk|apply Hk|done|done|by left|]. fold k' in Hk', Hf, Hq.
  assert (∀ t, prio (thr k' t) = prio (thr k t)) as Hp by (intros; by apply pend_current_thr). split_and!; [|done|].
  - unfold wq_ordered. rewrite Hq. eapply sorted_mono; [|by apply sorted_insert_where]. intros t t'. by rewrite !Hp.
  - rewrite Hq. clear Hk' Hf Hq Hp k'. unfold wq_ordered in Ho. induction Ho as [|p l Hs IH Hl]; simpl.
    + exists [], []. split_and!; [done|done|by intros ? ?%elem_of_nil..].
    + destruct (_is_t1_higher_prio_than_t2 (current k) p k) eqn:Hc;
        unfold _is_t1_higher_prio_than_t2, _is_prio1_higher_than_prio2 in Hc; zbool.
      * exists [], (p :: l). split_and!; [done|done|by intros ? ?%elem_of_nil|]. rewrite Forall_forall in Hl.
        intros t [->|Ht]%elem_of_cons; [done|]. specialize (Hl t Ht). lia.
      * destruct IH as (l1 & l2 & -> & -> & H1 & H2). exists (p :: l1), l2. split_and!; [done|done| |done].
        intros t [->|Ht]%elem_of_cons; [lia|by apply H1].
Qed.

(** ** Threads *)

(** C22: booting leads to a running main thread: after [prepare_multithreading]
    and the switch to the main thread the system invariant holds, for every
    priority the main thread may have. *)
Theorem boot_runs_main dummy main main_prio :
  main ≠ _idle_thread → dummy ≠ main → dummy ≠ _idle_thread →
  K_HIGHEST_THREAD_PRIO ≤ main_prio ≤ K_LOWEST_APPLICATION_THREAD_PRIO →
  ∃ k r, boot dummy main main_prio = Swapped k r ∧ sys_inv k ∧ current k = main.
Proof.
  intros. destruct (boot_sinv dummy main main_prio) as (k & r & E & [Hk _] & Hc); [done..|]. by exists k, r.
Qed.

(** [k_thread_resume] of a thread that is ready and not suspended links it to
    its ready queue a second time (the interface says it has no effect then). *)
Theorem k_thread_resume_duplicates k t :
  kinv ∅ [] k → runnable ∅ k t → ¬ NoDup (q (_k_thread_single_resume t k) (RQ (rq_index k t))).
Proof. apply single_resume_duplicates. Qed.

End props.

(** ** The properties at work *)
#[local] Existing Instance default_config.

Lemma ready_queues_refine_witness :
  _get_highest_ready_prio two_threads = 0 ∧
  rq_inv (λ t, t ≠ sc_main ∧ runnable ∅ two_threads t) (_remove_thread_from_ready_q sc_main two_threads).
Proof.
  destruct two_threads_sys_inv as [Hk Hc _ _ _]. assert (current two_threads = sc_main) as Ec by by vm_compute. rewrite Ec in Hc.
  destruct (ready_queues_refine (runnable ∅ two_threads) two_threads (inv_rq _ _ _ Hk)) as ([Hp _] & _ & Hr & _).
  split; [rewrite Hp; by vm_compute|]. apply (Hr sc_main _idle_thread); [done|apply (inv_idle _ _ _ Hk)|done].
Defined.

Lemma timeout_queue_refines_witness :
  deadlines (_add_timeout (λ _ _ k, k) None (TTimer 0) None 5 two_threads) = [(TTimer 0, 5)].
Proof.
  destruct (timeout_queue_refines [] two_threads (inv_tq _ _ _ (sys_kinv _ two_threads_sys_inv))) as [Ha _].
  destruct (Ha (λ _ _ k, k) None (TTimer 0) None 5) as [_ Hd]; [by vm_compute|done|]. rewrite Hd. by vm_compute.
Defined.

Lemma timeout_rounds_up_witness : 0 < timeout_ticks 7 ∧ 7 ≤ (timeout_ticks 7 - 1) * ms_per_tick.
Proof. destruct (timeout_rounds_up 7) as (? & ? & _); [done..|]. done. Defined.

Lemma pend_keeps_order_witness :
  wq_ordered (_pend_current_thread (KSem, 0%nat) K_FOREVER two_threads) (KSem, 0%nat).
Proof.
  apply (pend_keeps_order (KSem, 0%nat) K_FOREVER two_threads); [apply two_threads_sys_inv|by vm_compute|by left|done|].
  unfold wq_ordered. assert (q two_threads (WQ (KSem, 0%nat)) = []) as -> by by vm_compute. constructor.
Defined.

Lemma boot_runs_main_witness : ∃ k r, boot 0%nat sc_main 0 = Swapped k r ∧ sys_inv k ∧ current k = sc_main.
Proof. apply boot_runs_main; [done..|by vm_compute]. Defined.

Lemma k_thread_resume_duplicates_witness :
  ¬ NoDup (q (_k_thread_single_resume sc_worker two_threads) (RQ (rq_index two_threads sc_worker))).
Proof.
  apply k_thread_resume_duplicates; [apply two_threads_sys_inv|]. split_and!; [apply in_dom; by vm_compute|by apply not_elem_of_empty|by vm_compute].
Defined.
