(* ===== verification/Sem.v ===== *)
(** * Semaphores (kernel/sem.c) *)
From stdpp Require Import gmap list.
From S2P Require Import Prelude Dlist KState Ksched TimeoutQ SchedInv Outcome Sched Thread WaitQ Scenario.
Local Open Scope Z_scope.
Local Open Scope outcome_scope.

Section sem.
Context `{KConfig}.

Definition sem (k : kernel) (o : nat) : k_sem := sems k !!! o.
Definition upd_sem (o : nat) (f : k_sem → k_sem) (k : kernel) : kernel :=
  set_sems (<[o := f (sem k o)]> (sems k)) k.

Definition k_sem_init (o : nat) (initial_count limit : Z) (k : kernel) : kernel :=
  let k := upd_sem o (λ _, mk_sem initial_count limit) k in
  set_queues (DlistSpec.init (WQ (KSem, o)) (queues k)) k.

Definition increment_count_up_to_limit (o : nat) : kernel → kernel :=
  upd_sem o (λ x, set_count (u32 (count x + b2z (negb (count x =? limit x)))) x).

(** Returns whether [_Swap] must be called. *)
Definition do_sem_give (o : nat) (k : kernel) : bool * kernel :=
  match _unpend_first_thread (KSem, o) k with
  | (None, k) => (false, increment_count_up_to_limit o k)
  | (Some t, k) =>
      let k := (_abort_thread_timeout t k).2 in
      let k := _ready_thread t k in
      let k := _set_thread_return_value t 0 k in
      (negb (_is_in_isr k) && _must_switch_threads k, k)
  end.

Definition _sem_give_non_preemptible (o : nat) (k : kernel) : kernel :=
  match _unpend_first_thread (KSem, o) k with
  | (None, k) => increment_count_up_to_limit o k
  | (Some t, k) =>
      let k := (_abort_thread_timeout t k).2 in
      let k := _ready_thread t k in
      _set_thread_return_value t 0 k
  end.

Definition k_sem_give (o : nat) (k : kernel) : outcome unit :=
  let '(swap, k) := do_sem_give o k in
  if swap then
    let% _ k := _Swap k in Done tt k
  else Done tt k.

Definition k_sem_take (o : nat) (timeout : Z) (k : kernel) : outcome Z :=
  if count (sem k o) >? 0 then
    Done 0 (upd_sem o (λ x, set_count (count x - 1) x) k)
  else if timeout =? K_NO_WAIT then Done (- EBUSY) k
  else
    let k := _pend_current_thread (KSem, o) timeout k in
    _Swap k.

Definition k_sem_reset (o : nat) : kernel → kernel := upd_sem o (set_count 0).
Definition k_sem_count_get (o : nat) (k : kernel) : Z := count (sem k o).

(** ** Counts stay within their limit *)
Definition sem_ok (x : k_sem) : Prop := 0 ≤ count x ≤ limit x ∧ limit x < 4294967296.

Lemma increment_sem_ok x :
  sem_ok x → let x' := set_count (u32 (count x + b2z (negb (count x =? limit x)))) x in
  sem_ok x' ∧ count x' = Z.min (count x + 1) (limit x).
Proof.
  intros [Hc Hl]. cbv zeta. simpl. destruct (count x =? limit x) eqn:E; zbool; simpl.
  - rewrite u32_id by lia. unfold sem_ok. simpl. lia.
  - rewrite u32_id by lia. unfold sem_ok. simpl. lia.
Qed.

(** ** Giving to a waiter *)

Lemma upd_sem_kinv E o f k : kinv ∅ E k → kinv ∅ E (upd_sem o f k).
Proof. intros Hk. by eapply kinv_frame; try apply Hk. Qed.

(** Without a waiter the count goes up, to the limit at most. *)
Lemma do_sem_give_counts o k k1 :
  sem_ok (sem k o) → _unpend_first_thread (KSem, o) k = (None, k1) →
  do_sem_give o k = (false, upd_sem o (set_count (Z.min (count (sem k o) + 1) (limit (sem k o)))) k).
Proof.
  intros Hok Hu. unfold do_sem_give. rewrite Hu. apply unpend_first_None in Hu as [-> _].
  destruct (increment_sem_ok _ Hok) as [_ Hc]. simpl in Hc.
  unfold increment_count_up_to_limit, upd_sem. by rewrite Hc.
Qed.

(** With one, it gets the unit. *)
Lemma do_sem_give_wakes E o k t k1 :
  kinv ∅ E k → _unpend_first_thread (KSem, o) k = (Some t, k1) →
  ∃ k', do_sem_give o k = (negb (_is_in_isr k') && _must_switch_threads k', k') ∧
    t ∈ q k (WQ (KSem, o)) ∧ (handling_timeouts k = false → head (q k (WQ (KSem, o))) = Some t) ∧
    woken E t (set_return_value 0) (_unpend_thread t k) k' ∧ only t k k'.
Proof.
  intros Hk Hu. unfold do_sem_give. rewrite Hu.
  destruct (unpend_first_Some E (KSem, o) k t k1 Hk Hu) as (Hin & -> & Hup & Hh).
  destruct (wake_ex E t (_unpend_thread t k) Hup) as (k' & Ek' & Hw). cbv zeta. rewrite <-Ek'. exists k'.
  split_and!; [done..|]. etrans; [apply only_unpend|apply Hw].
Qed.

(** ** Safety within the system *)
Class SemInv (J : kernel → Prop) := {
  sem_inv_get : ∀ k o, J k → sem_ok (sem k o);
  sem_inv_set : ∀ k o x, J k → sem_ok x → J (set_sems (<[o := x]> (sems k)) k);
}.

Section safe.
Context (J : kernel → Prop) (F : Prop) `{!SemInv J}.
Hypothesis J_objects : ∀ k k', same_objects k k' → J k → J k'.

Lemma upd_sem_J o f k : J k → sem_ok (f (sem k o)) → J (upd_sem o f k).
Proof. intros HJ Hf. by apply sem_inv_set. Qed.

Lemma upd_sem_sinv o f k : sinv J k → sem_ok (f (sem k o)) → sinv J (upd_sem o f k).
Proof.
  intros [[Hk Hc Hn Hh Hp] HJ] Hf. split; [|by apply upd_sem_J].
  split; [by apply upd_sem_kinv|done|done|done|done].
Qed.

Lemma k_sem_give_safe o k : sinv J k → op_safe J F (k_sem_give o) k.
Proof.
  intros Hk. unfold op_safe, k_sem_give. pose proof (sys_kinv _ (proj1 Hk)) as Hki.
  destruct (_unpend_first_thread (KSem, o) k) as [[t|] k1] eqn:Hu.
  - destruct (do_sem_give_wakes [] o k t k1 Hki Hu) as (k' & -> & Hin & _ & Hw & Ho).
    pose proof (wk_kinv _ _ _ _ _ Hw) as Hk'.
    pose proof (waiter_not_current k t (KSem, o) Hki (sys_current _ (proj1 Hk)) Hin) as Hne.
    unfold _is_in_isr. rewrite (sframe_nested _ _ (only_sframe _ _ _ Ho)), (sys_nested _ (proj1 Hk)). simpl.
    exact (only_reschedule J F J_objects t k k' Hk Ho Hk' Hne).
  - rewrite (do_sem_give_counts o k k1); [|by apply sem_inv_get, Hk|done]. simpl. split; [|done].
    apply upd_sem_sinv; [done|]. destruct (sem_inv_get k o (proj2 Hk)). unfold sem_ok. simpl. lia.
Qed.

Lemma k_sem_take_safe o timeout k :
  sinv J k → timeout = K_NO_WAIT ∨ (timeout_ok timeout ∧ current k ≠ _idle_thread) →
  op_safe J F (k_sem_take o timeout) k.
Proof.
  intros Hk Hto. unfold op_safe, k_sem_take. pose proof (sem_inv_get k o (proj2 Hk)) as [Hc Hl].
  destruct (count (sem k o) >? 0) eqn:Ec; [|destruct (timeout =? K_NO_WAIT) eqn:Et].
  - simpl. split; [|done]. apply upd_sem_sinv; [done|]. unfold sem_ok. simpl. apply Z.gtb_lt in Ec. lia.
  - done.
  - zbool. destruct Hto as [|[Hto Hidle]]; [done|]. cbv zeta.
    destruct (pend_current_spec [] (KSem, o) timeout k) as (Hk' & Hf & _); [apply Hk|apply Hk|done|done|by left|].
    apply swap_safe; [done|]. by eapply swap_ready_frame; [|apply swap_ready_sinv| |].
Qed.

(** Giving from an interrupt handler, also from a timer function with expired
    timeouts still to be handled. *)
Lemma sem_give_isr E o k :
  kinv ∅ E k → J k → runnable ∅ k (current k) → nested k ≠ 0 →
  ∃ k', k_sem_give o k = Done tt k' ∧ kinv ∅ E k' ∧ J k' ∧ current k' = current k ∧ nested k' = nested k ∧
    handling_timeouts k' = handling_timeouts k ∧ runnable ∅ k' (current k).
Proof.
  intros Hk HJ Hc Hn. unfold k_sem_give. destruct (_unpend_first_thread (KSem, o) k) as [[t|] k1] eqn:Hu.
  - destruct (do_sem_give_wakes E o k t k1 Hk Hu) as (k' & -> & Hin & _ & Hw & Ho).
    pose proof (wk_kinv _ _ _ _ _ Hw) as Hk'. pose proof (only_sframe _ _ _ Ho) as Hf.
    unfold _is_in_isr. rewrite (sframe_nested _ _ Hf), (proj2 (Z.eqb_neq _ _) Hn). simpl.
    exists k'. split_and!; [done|done| |by apply sframe_current|by apply sframe_nested|by apply sframe_handling|].
    + by eapply J_objects; [apply sframe_objects|].
    + eapply only_runnable; [done| |done]. intros E'. destruct Hc as (_ & _ & Hr).
      apply (inv_wq _ _ _ Hk) in Hin as [_ Hp]. apply ready_not_pending in Hr. congruence.
  - rewrite (do_sem_give_counts o k k1); [|by apply sem_inv_get|done]. eexists. split_and!; [done|..|done|done|done|done].
    + by apply upd_sem_kinv.
    + apply upd_sem_J; [done|]. destruct (sem_inv_get k o HJ). unfold sem_ok. simpl. lia.
Qed.
End safe.

(** ** The abstract semaphore

    A semaphore is its count, its limit and the threads waiting for it; a unit
    goes to the first of them or is kept. *)
Record asem := mk_asem { a_count : Z; a_limit : Z; a_waiters : list tid }.
(** The new state, and the thread that gets the unit. *)
Definition asem_give (s : asem) : asem * option tid :=
  match a_waiters s with
  | [] => (mk_asem (Z.min (a_count s + 1) (a_limit s)) (a_limit s) [], None)
  | t :: ws => (mk_asem (a_count s) (a_limit s) ws, Some t)
  end.
(** The new state, and the value returned, unless the thread has to wait; [lt p]
    tells whether the thread taking the semaphore goes before [p]. *)
Definition asem_take (wait : bool) (t : tid) (lt : tid → bool) (s : asem) : asem * option Z :=
  if a_count s >? 0 then (mk_asem (a_count s - 1) (a_limit s) (a_waiters s), Some 0)
  else if wait then (mk_asem (a_count s) (a_limit s) (insert_where lt t (a_waiters s)), None)
  else (s, Some (- EBUSY)).
Definition sem_abs (o : nat) (k : kernel) : asem :=
  mk_asem (count (sem k o)) (limit (sem k o)) (q k (WQ (KSem, o))).

Lemma sem_upd o f k : sem (upd_sem o f k) o = f (sem k o).
Proof. unfold sem at 1, upd_sem. simpl. by rewrite lookup_total_insert_eq. Qed.
Lemma sem_sframe o k k' : sframe k k' → sem k' o = sem k o.
Proof. intros [-> _]. done. Qed.

(** What giving does to the kernel: the thread [w] that gets the unit is woken
    and its [k_sem_take] returns 0, and the giver gives way to it if it must;
    without a waiter only the semaphore changes. *)
Definition given (o : nat) (w : option tid) (k k' : kernel) : Prop :=
  match w with
  | None => k_sem_give o k = Done tt k' ∧ k' = set_sems (sems k') k
  | Some t =>
      k_sem_give o k = (if _must_switch_threads k' then let% _ k := _Swap k' in Done tt k else Done tt k') ∧
      awake t k k' ∧ return_value (thr k' t) = 0 ∧ sems k' = sems k
  end.
(** What taking does: it returns at once and only the semaphore changes, or the
    thread waits, with its timeout queued, and returns what it is woken with. *)
Definition taken (o : nat) (timeout : Z) (r : option Z) (k k' : kernel) : Prop :=
  match r with
  | Some v => k_sem_take o timeout k = Done v k' ∧ k' = set_sems (sems k') k
  | None =>
      k_sem_take o timeout k = Swapped k' (λ k, Done (return_value (thr k (current k))) k) ∧
      _is_thread_pending (current k) k' = true ∧
      deadlines k' = queued_deadline (TThread (current k)) timeout (deadlines k) ∧
      return_value (thr k' (current k)) = - EAGAIN ∧ sems k' = sems k
  end.

Lemma sem_give_refines o k :
  sys_inv k → sem_ok (sem k o) →
  ∃ k', given o (asem_give (sem_abs o k)).2 k k' ∧ sem_abs o k' = (asem_give (sem_abs o k)).1.
Proof.
  intros Hk Hok. unfold given, k_sem_give, asem_give, sem_abs. cbn [a_waiters a_count a_limit].
  destruct (_unpend_first_thread (KSem, o) k) as [[t|] k1] eqn:Hu.
  - destruct (do_sem_give_wakes [] o k t k1 (sys_kinv _ Hk) Hu) as (k' & E & Hin & Hh & Hw & Ho).
    specialize (Hh (sys_handling _ Hk)). destruct (inv_wq _ _ _ (sys_kinv _ Hk) _ _ Hin) as [Ht _].
    pose proof (woken_awake _ _ _ _ _ Ht Hw) as Haw. pose proof (only_sframe _ _ _ Ho) as Hf.
    pose proof (inv_wq_nodup _ _ _ (sys_kinv _ Hk) (KSem, o)) as Hnd. pose proof (aw_wq _ _ _ Haw (KSem, o)) as Hq.
    destruct (q k (WQ (KSem, o))) as [|t' ws]; [done|]. injection Hh as ->. rewrite without_head in Hq by done.
    exists k'. rewrite E. unfold _is_in_isr. rewrite (sframe_nested _ _ Hf), (sys_nested _ Hk), (sem_sframe o k k' Hf), Hq.
    destruct (wk_thr _ _ _ _ _ Hw) as [s Hs]. cbn [fst snd]. split_and!; [done|done|by rewrite Hs|by rewrite (proj1 Hf)|done].
  - rewrite (do_sem_give_counts o k k1 Hok Hu). apply unpend_first_None in Hu as [_ Hq].
    rewrite (Hq (sys_handling _ Hk)). cbn [fst snd]. eexists. split; [by split|]. rewrite sem_upd.
    change (q (upd_sem ?o ?f ?k) ?r) with (q k r). by rewrite (Hq (sys_handling _ Hk)).
Qed.

Lemma sem_take_refines o timeout k :
  sys_inv k → timeout = K_NO_WAIT ∨ (timeout_ok timeout ∧ current k ≠ _idle_thread) →
  let r := asem_take (negb (timeout =? K_NO_WAIT)) (current k)
    (λ p, _is_t1_higher_prio_than_t2 (current k) p k) (sem_abs o k) in
  ∃ k', taken o timeout r.2 k k' ∧ sem_abs o k' = r.1.
Proof.
  intros Hk Hto. unfold taken, k_sem_take, asem_take. cbv zeta.
  change (a_count (sem_abs o k)) with (count (sem k o)).
  destruct (count (sem k o) >? 0) eqn:Ec; cbn [fst snd].
  - eexists. split; [by split|]. unfold sem_abs. by rewrite sem_upd.
  - destruct (timeout =? K_NO_WAIT) eqn:Et; cbn [negb fst snd]; [exists k; split; [split; [done|by destruct k]|done]|]. zbool.
    destruct Hto as [|[Hto Hi]]; [done|].
    destruct (pend_current_spec [] (KSem, o) timeout k) as (_ & Hf & _ & Hp & Hq); [apply Hk|apply Hk|done|done|by left|].
    pose proof (pend_current_deadlines [] (KSem, o) timeout k (sys_kinv _ Hk) (sys_current _ Hk) Hto) as Hd.
    cbv zeta. rewrite swap_switched. set (k1 := _pend_current_thread (KSem, o) timeout k) in *.
    pose proof (sframe_current _ _ Hf) as Ecu. exists (switched k1).
    assert (thr (switched k1) (current k) = set_return_value (- EAGAIN) (thr k1 (current k))) as Ht.
    { rewrite <-Ecu. unfold switched. cbv zeta. change (thr (set_current ?c ?k) ?t) with (thr k t).
      by rewrite thr_upd, decide_True. }
    split_and!; [done| |exact Hd|by rewrite Ht| |].
    + rewrite <-Hp. apply pending_ext. by rewrite Ht.
    + change (sems k1 = sems k). by rewrite (proj1 Hf).
    + change (sem_abs o k1 = mk_asem (count (sem k o)) (limit (sem k o)) (insert_where
        (λ p, _is_t1_higher_prio_than_t2 (current k) p k) (current k) (q k (WQ (KSem, o))))).
      unfold sem_abs. by rewrite Hq, (sem_sframe o k) by done.
Qed.

Definition sems_ok (k : kernel) : Prop := ∀ o, sem_ok (sem k o).
#[export] Instance sems_ok_inv : SemInv sems_ok.
Proof.
  split; [by intros|]. intros k o x Hk Hx o'. unfold sem. simpl. destruct (decide (o = o')) as [<-|Hne].
  - by rewrite lookup_total_insert_eq.
  - rewrite lookup_total_insert_ne by done. apply Hk.
Qed.
Lemma sems_ok_objects k k' : same_objects k k' → sems_ok k → sems_ok k'.
Proof. intros (Es & _) Hk o. unfold sem. rewrite Es. apply Hk. Qed.
Lemma sems_ok_none k : sems k = ∅ → sems_ok k.
Proof. intros E o. unfold sem. rewrite E, lookup_total_empty. by unfold sem_ok. Qed.
Lemma upd_sem_sys_inv o f k : sys_inv k → sys_inv (upd_sem o f k).
Proof. intros [Hk Hc Hn Hh Hp]. split; [by eapply kinv_frame; try apply Hk|done..]. Qed.

(** ** Properties *)

(** C7: [k_sem_give] and [k_sem_take] implement the abstract semaphore.  A unit
    given goes to the first waiter, or to the count up to its limit: the waiter
    leaves the wait queue and the timeout queue, is ready unless it is also
    suspended, and its [k_sem_take] returns 0; the giver gives way to it if it
    must.  A unit taken comes from the count, and the call returns 0; without
    one the call returns -EBUSY if told not to wait, or the thread is queued by
    priority, behind the waiters of its own, with its timeout, and returns
    -EAGAIN if nobody wakes it before that.  Nothing else of the semaphores
    changes. *)
Theorem sem_ops_refine o timeout k :
  sys_inv k → sem_ok (sem k o) → timeout = K_NO_WAIT ∨ (timeout_ok timeout ∧ current k ≠ _idle_thread) →
  (let '(s, w) := asem_give (sem_abs o k) in ∃ k', given o w k k' ∧ sem_abs o k' = s) ∧
  (let '(s, r) := asem_take (negb (timeout =? K_NO_WAIT)) (current k)
      (λ p, _is_t1_higher_prio_than_t2 (current k) p k) (sem_abs o k) in
    ∃ k', taken o timeout r k k' ∧ sem_abs o k' = s).
Proof.
  intros Hk Hok Hto. pose proof (sem_give_refines o k Hk Hok) as Hg. pose proof (sem_take_refines o timeout k Hk Hto) as Ht.
  cbv zeta in Ht. destruct (asem_give _), (asem_take _ _ _ _). by split.
Qed.

End sem.

(** ** The properties at work *)

(** A semaphore with a count of 2 and a limit of 3, and the main thread waiting
    for an empty one while the worker runs. *)
Notation sc_sem c := (upd_sem 0 (λ _, mk_sem c 3) two_threads).
Definition sc_sem_waiting : kernel := after (k_sem_take 0 K_FOREVER (sc_sem 0)).

Lemma sc_sem_sys_inv c : sys_inv (sc_sem c).
Proof. apply upd_sem_sys_inv, two_threads_sys_inv. Qed.
Lemma sc_sem_ok c : 0 ≤ c ≤ 3 → sems_ok (sc_sem c).
Proof.
  intros Hc. apply (sem_inv_set (J := sems_ok)); [apply sems_ok_none; by vm_compute|]. unfold sem_ok, count, limit. lia.
Qed.
Lemma sc_sem_waiting_sys_inv : sys_inv sc_sem_waiting.
Proof.
  refine (proj1 (op_safe_after sems_ok (k_sem_take 0 K_FOREVER) (sc_sem 0) _)).
  apply k_sem_take_safe; [apply sems_ok_inv|apply sems_ok_objects|split; [apply sc_sem_sys_inv|by apply sc_sem_ok]|].
  right. split; [by left|by vm_compute].
Qed.

(** The worker gives to the waiting main thread, and would have to wait itself. *)
Lemma sem_ops_refine_witness :
  (∃ k', _is_thread_ready sc_main k' = true ∧ return_value (thr k' sc_main) = 0 ∧ sem_abs 0 k' = mk_asem 0 3 []) ∧
  (∃ k', k_sem_take 0 K_NO_WAIT sc_sem_waiting = Done (- EBUSY) k' ∧ sem_abs 0 k' = mk_asem 0 3 [sc_main]).
Proof.
  assert (sem_abs 0 sc_sem_waiting = mk_asem 0 3 [sc_main]) as Ha by by vm_compute.
  assert (sem sc_sem_waiting 0 = mk_sem 0 3) as Es by by vm_compute.
  destruct (sem_ops_refine 0 K_NO_WAIT sc_sem_waiting) as [Hg Ht].
  - apply sc_sem_waiting_sys_inv.
  - rewrite Es. clear. unfold sem_ok, count, limit. lia.
  - by left.
  - rewrite Ha in Hg, Ht. destruct Hg as (k' & (_ & [_ _ _ Hr _] & Hv & _) & Hk'), Ht as (k2 & (Hb & _) & Hk2).
    split; [exists k'|exists k2; exact (conj Hb Hk2)]. split; [rewrite Hr; by vm_compute|exact (conj Hv Hk')].
Defined.
