(* ===== verification/Mutex.v ===== *)
(** * Mutexes with priority inheritance (kernel/mutex.c)

    A routine runs with the scheduler locked; it switches threads only where it
    waits and in [k_sched_unlock].  The dereference of a NULL owner is the
    outcome [Fault]. *)
From stdpp Require Import gmap list.
From S2P Require Import Prelude Dlist KState Ksched TimeoutQ SchedInv Outcome Sched Thread WaitQ Scenario Sem.
Local Open Scope Z_scope.
Local Open Scope outcome_scope.

Section mutex.
Context `{KConfig}.

Definition mutex (k : kernel) (o : nat) : k_mutex := mutexes k !!! o.
Definition upd_mutex (o : nat) (f : k_mutex → k_mutex) (k : kernel) : kernel :=
  set_mutexes (<[o := f (mutex k o)]> (mutexes k)) k.

Definition k_mutex_init (o : nat) (k : kernel) : kernel :=
  let k := upd_mutex o (λ x, mk_mutex None 0 (owner_orig_prio x)) k in
  set_queues (DlistSpec.init (WQ (KMutex, o)) (queues k)) k.

Definition new_prio_for_inheritance (target limit : Z) : Z :=
  let new_prio := if _is_prio_higher target limit then target else limit in
  _get_new_prio_with_ceiling new_prio.

(** [None] when the mutex has no owner to dereference. *)
Definition adjust_owner_prio (o : nat) (new_prio : Z) (k : kernel) : option kernel :=
  match owner (mutex k o) with
  | None => None
  | Some t =>
      Some (if prio (thr k t) =? new_prio then k else _thread_priority_set t new_prio k)
  end.

Definition k_mutex_lock (o : nat) (timeout : Z) (k : kernel) : outcome Z :=
  let k := _sched_lock k in
  let m := mutex k o in
  if (lock_count m =? 0) || bool_decide (owner m = Some (current k)) then
    let orig := if lock_count m =? 0 then prio (thr k (current k)) else owner_orig_prio m in
    let k := upd_mutex o (λ _, mk_mutex (Some (current k)) (u32 (lock_count m + 1)) orig) k in
    let% _ k := k_sched_unlock k in Done 0 k
  else if timeout =? K_NO_WAIT then
    let% _ k := k_sched_unlock k in Done (- EBUSY) k
  else
    match owner m with
    | None => Fault
    | Some t =>
        let new_prio := new_prio_for_inheritance (prio (thr k (current k))) (prio (thr k t)) in
        match (if _is_prio_higher new_prio (prio (thr k t)) then adjust_owner_prio o new_prio k else Some k) with
        | None => Fault
        | Some k =>
            let k := _pend_current_thread (KMutex, o) timeout k in
            let% got_mutex k := _Swap k in
            if got_mutex =? 0 then
              let% _ k := k_sched_unlock k in Done 0 k
            else
              let orig := owner_orig_prio (mutex k o) in
              let new_prio := match head (q k (WQ (KMutex, o))) with
                | Some waiter => new_prio_for_inheritance (prio (thr k waiter)) orig
                | None => orig
                end in
              match adjust_owner_prio o new_prio k with
              | None => Fault
              | Some k => let% _ k := k_sched_unlock k in Done (- EAGAIN) k
              end
        end
    end.

Definition k_mutex_unlock (o : nat) (k : kernel) : outcome unit :=
  let k := _sched_lock k in
  let k := upd_mutex o (λ x, mk_mutex (owner x) (u32 (lock_count x - 1)) (owner_orig_prio x)) k in
  if negb (lock_count (mutex k o) =? 0) then k_sched_unlock k else
  match adjust_owner_prio o (owner_orig_prio (mutex k o)) k with
  | None => Fault
  | Some k =>
      match _unpend_first_thread (KMutex, o) k with
      | (Some t, k) =>
          let k := (_abort_thread_timeout t k).2 in
          let k := _ready_thread t k in
          let k := _set_thread_return_value t 0 k in
          let k := upd_mutex o (λ x, mk_mutex (Some t) (u32 (lock_count x + 1)) (prio (thr k t))) k in
          k_sched_unlock k
      | (None, k) =>
          let k := upd_mutex o (λ x, mk_mutex None (lock_count x) (owner_orig_prio x)) k in
          k_sched_unlock k
      end
  end.

(** ** Ownership *)
Definition app_prio (p : Z) : Prop := K_HIGHEST_THREAD_PRIO ≤ p ≤ K_LOWEST_APPLICATION_THREAD_PRIO.

(** A mutex is free or has an owner, a thread whose priority at the time it
    took the mutex is recorded. *)
Definition mutex_ok (k : kernel) (x : k_mutex) : Prop :=
  0 ≤ lock_count x < 4294967296 ∧ (owner x = None ↔ lock_count x = 0) ∧
  ∀ t, owner x = Some t → t ∈ dom (threads k) ∧ t ≠ _idle_thread ∧ app_prio (owner_orig_prio x).

Class MutexInv (J : kernel → Prop) := {
  mutex_inv_get : ∀ k o, J k → mutex_ok k (mutex k o);
  mutex_inv_set : ∀ k o x, J k → mutex_ok k x → J (set_mutexes (<[o := x]> (mutexes k)) k);
}.

Lemma mutex_upd o f k : mutex (upd_mutex o f k) o = f (mutex k o).
Proof. unfold mutex at 1, upd_mutex. simpl. by rewrite lookup_total_insert_eq. Qed.

Lemma thread_app_prio E k t : kinv ∅ E k → t ∈ dom (threads k) → t ≠ _idle_thread → app_prio (prio (thr k t)).
Proof.
  intros Hk Ht Hidle. destruct (inv_thread _ _ _ Hk t Ht) as (? & Hp & _). rewrite decide_False in Hp by done. done.
Qed.

(** The new priority is between the ceiling and the higher of the two. *)
Lemma inheritance_spec target limit :
  new_prio_for_inheritance target limit = Z.max (Z.min target limit) CONFIG_PRIORITY_CEILING.
Proof.
  unfold new_prio_for_inheritance, _get_new_prio_with_ceiling, _is_under_prio_ceiling, _is_prio_higher,
    _is_prio1_higher_than_prio2. destruct (target <? limit) eqn:E; zbool.
  - rewrite Z.min_l by lia. destruct (target >=? CONFIG_PRIORITY_CEILING) eqn:E'; lia.
  - rewrite Z.min_r by lia. destruct (limit >=? CONFIG_PRIORITY_CEILING) eqn:E'; lia.
Qed.
Lemma inheritance_app target limit :
  app_prio target → app_prio limit → app_prio (new_prio_for_inheritance target limit).
Proof.
  intros Ht Hl. rewrite inheritance_spec. unfold app_prio, K_LOWEST_APPLICATION_THREAD_PRIO, K_LOWEST_THREAD_PRIO in *.
  pose proof ceiling_range. lia.
Qed.

Lemma adjust_running J o p k t :
  (∀ k k', same_objects k k' → J k → J k') → running J k →
  owner (mutex k o) = Some t → t ∈ dom (threads k) → t ≠ _idle_thread → app_prio p →
  ∃ k', adjust_owner_prio o p k = Some k' ∧ running J k' ∧ current k' = current k ∧ only t k k' ∧
    prio (thr k' t) = p ∧ ∀ w, q k' (WQ w) = q k (WQ w).
Proof.
  intros HJ Hk Ho Ht Hidle Hp. unfold adjust_owner_prio. rewrite Ho. eexists. split; [done|].
  destruct (prio (thr k t) =? p) eqn:E; zbool; [done|]. pose proof (only_prio_set t p k) as Hf.
  destruct (running_prio_set J HJ t p k Hk Ht Hidle Hp).
  split_and!; [done..|by apply prio_set_prio|]. intros w. eapply prio_set_wq, Hk.
Qed.

Section safe.
Context (J : kernel → Prop) `{!MutexInv J}.
Hypothesis J_objects : ∀ k k', same_objects k k' → J k → J k'.

Lemma running_upd_mutex o f k : running J k → mutex_ok k (f (mutex k o)) → running J (upd_mutex o f k).
Proof.
  intros [(Hk & Hn & Hh & HJ) Hr] Hf. split; [|done]. split_and!; [|done|done|].
  - by eapply kinv_frame; try apply Hk.
  - by apply mutex_inv_set.
Qed.

(** The mutex may be in any state until the operation ends. *)
Lemma mutex_J_final o f g k k1 :
  J k → sframe (upd_mutex o f k) k1 → mutex_ok k1 (g (mutex k1 o)) → J (upd_mutex o g k1).
Proof.
  intros HJ (Hf & Hd & Hc) Hok. set (k0 := set_mutexes (mutexes k) k1).
  assert (J k0) as HJ0.
  { apply (J_objects k); [|done]. split_and!; [by unfold k0; rewrite Hf..|done|by apply (calm_frame _ _ _ _ Hc)]. }
  assert (upd_mutex o g k1 = set_mutexes (<[o := g (mutex k1 o)]> (mutexes k0)) k0) as ->.
  { unfold upd_mutex, k0. rewrite Hf. unfold set_mutexes. simpl. f_equal. apply insert_insert_eq. }
  by apply mutex_inv_set.
Qed.
(** What the last [k_mutex_unlock] has done when it unlocks the scheduler. *)
Definition handed_over (o : nat) (k kf : kernel) : Prop :=
  prio (thr kf (current k)) = owner_orig_prio (mutex k o) ∧
  match head (q k (WQ (KMutex, o))) with
  | None => mutex kf o = mk_mutex None 0 (owner_orig_prio (mutex k o))
  | Some t =>
      mutex kf o = mk_mutex (Some t) 1 (prio (thr k t)) ∧ return_value (thr kf t) = 0 ∧
      awake t k kf ∧ prio (thr kf t) = prio (thr k t)
  end.

Lemma unlock_no_waiter o k k1 :
  J k → sframe (upd_mutex o (λ x, mk_mutex (owner x) 0 (owner_orig_prio x)) k) k1 → running (λ _, True) k1 →
  let kf := upd_mutex o (λ x, mk_mutex None (lock_count x) (owner_orig_prio x)) k1 in
  running J kf ∧ mutex kf o = mk_mutex None 0 (owner_orig_prio (mutex k o)).
Proof.
  intros HJ Hf Hr kf.
  assert (mutex k1 o = mk_mutex (owner (mutex k o)) 0 (owner_orig_prio (mutex k o))) as Hm.
  { rewrite <-(mutex_upd o (λ x, mk_mutex (owner x) 0 (owner_orig_prio x)) k). unfold mutex at 1. by rewrite (proj1 Hf). }
  split; [|unfold kf; by rewrite mutex_upd, Hm]. apply running_J.
  - destruct Hr as [(Hk & ? & ? & _) Hr]. split; [|done]. split_and!; try done. by eapply kinv_frame; try apply Hk.
  - eapply mutex_J_final; [done|done|]. rewrite Hm. unfold mutex_ok. simpl. by split_and!.
Qed.

Lemma unlock_waiter o k k1 t :
  J k → sframe (upd_mutex o (λ x, mk_mutex (owner x) 0 (owner_orig_prio x)) k) k1 → running (λ _, True) k1 →
  t ∈ dom (threads k1) → t ≠ _idle_thread →
  let kf := upd_mutex o (λ x, mk_mutex (Some t) (u32 (lock_count x + 1)) (prio (thr k1 t))) k1 in
  running J kf ∧ mutex kf o = mk_mutex (Some t) 1 (prio (thr k1 t)).
Proof.
  intros HJ Hf Hr Ht Hidle kf.
  assert (mutex k1 o = mk_mutex (owner (mutex k o)) 0 (owner_orig_prio (mutex k o))) as Hm.
  { rewrite <-(mutex_upd o (λ x, mk_mutex (owner x) 0 (owner_orig_prio x)) k). unfold mutex at 1. by rewrite (proj1 Hf). }
  split; [|unfold kf; by rewrite mutex_upd, Hm]. apply running_J.
  - destruct Hr as [(Hk & ? & ? & _) Hr]. split; [|done]. split_and!; try done. by eapply kinv_frame; try apply Hk.
  - eapply mutex_J_final; [done|done|]. rewrite Hm. unfold mutex_ok. simpl. split_and!; [done|done|done|].
    intros t' [= <-]. split_and!; [done|done|..]; eapply thread_app_prio; eauto; apply Hr.
Qed.

Lemma sched_lock_prio k t : prio (thr (_sched_lock k) t) = prio (thr k t).
Proof. unfold _sched_lock. rewrite thr_upd. by case_decide; [subst|]. Qed.

Lemma sched_lock_state k t : thread_state (thr (_sched_lock k) t) = thread_state (thr k t).
Proof. unfold _sched_lock. rewrite thr_upd. by case_decide; [subst|]. Qed.

(** The part of [k_mutex_unlock] after the priority is restored. *)
Lemma unlock_hand_over o k0 k2 :
  J k0 → sframe (upd_mutex o (λ x, mk_mutex (owner x) 0 (owner_orig_prio x)) k0) k2 → running (λ _, True) k2 →
  ∃ kf,
    match _unpend_first_thread (KMutex, o) k2 with
    | (Some t, k) =>
        let k4 := _set_thread_return_value t 0 (_ready_thread t (_abort_thread_timeout t k).2) in
        k_sched_unlock (upd_mutex o (λ x, mk_mutex (Some t) (u32 (lock_count x + 1)) (prio (thr k4 t))) k4)
    | (None, k) => k_sched_unlock (upd_mutex o (λ x, mk_mutex None (lock_count x) (owner_orig_prio x)) k)
    end = k_sched_unlock kf ∧ running J kf ∧ current kf = current k2 ∧ thr kf (current k2) = thr k2 (current k2) ∧
    match head (q k2 (WQ (KMutex, o))) with
    | None => mutex kf o = mk_mutex None 0 (owner_orig_prio (mutex k0 o))
    | Some t =>
        t ≠ current k2 ∧ mutex kf o = mk_mutex (Some t) 1 (prio (thr k2 t)) ∧ return_value (thr kf t) = 0 ∧
        awake t k2 kf ∧ prio (thr kf t) = prio (thr k2 t)
    end.
Proof.
  intros HJ0 Hf2 Hk2. assert (handling_timeouts k2 = false) as Hh2 by apply Hk2.
  destruct (_unpend_first_thread (KMutex, o) k2) as [[t|] k3] eqn:Hu.
  - destruct (unpend_first_Some [] (KMutex, o) k2 t k3) as (Hin & -> & Hup & Hh); [apply Hk2|done|].
    rewrite (Hh Hh2). pose proof (waiter_not_current k2 t _ (proj1 (proj1 Hk2)) (proj2 Hk2) Hin) as Hne.
    pose proof (waiter_not_idle _ _ _ _ (proj1 (proj1 Hk2)) Hin) as Hti.
    destruct (wake_ex [] t (_unpend_thread t k2) Hup) as (k4 & Ek4 & Hw4).
    rewrite <-Ek4. clear Ek4. pose proof (woken_prio _ _ _ _ _ (ret_upd_value 0) Hw4) as Hpt.
    destruct (inv_wq _ _ _ (proj1 (proj1 Hk2)) _ _ Hin) as [Htd _].
    pose proof (woken_awake _ _ _ _ _ Htd Hw4) as Haw. destruct Hw4 as [Hk4 Ho4 [s Hs4] _ _ _ _].
    assert (return_value (thr k4 t) = 0) as Hrv by by rewrite Hs4.
    rewrite unpend_prio in Hpt.
    assert (only t k2 k4) as Ho4' by (etrans; [apply only_unpend|exact Ho4]).
    destruct (running_only (λ _, True) ltac:(done) t k2 k4 Hk2 Ho4' Hk4 Hne) as [Hr4 Ec4].
    destruct (unlock_waiter o k0 k4 t) as [Hkf Hmf]; [done|by etrans; [|by eapply only_sframe]|done| |done|].
    { by apply (only_dom _ _ _ Ho4'). }
    eexists. split; [done|]. split_and!; [exact Hkf|done| |congruence|by rewrite Hmf, Hpt|done| |done].
    + by apply (proj2 Ho4').
    + by destruct Haw.
  - apply unpend_first_None in Hu as [-> Hq]. rewrite (Hq Hh2).
    destruct (unlock_no_waiter o k0 k2) as [Hkf Hmf]; [done|done|done|].
    eexists. split; [done|]. by split_and!.
Qed.

Lemma unlock_last o k :
  running J k → owner (mutex k o) = Some (current k) → lock_count (mutex k o) = 1 →
  ∃ kf, k_mutex_unlock o k = k_sched_unlock kf ∧ running J kf ∧ current kf = current k ∧ handed_over o k kf.
Proof.
  intros Hk Hown Hcnt. pose proof (running_sched_lock J J_objects k Hk) as Hk0.
  unfold k_mutex_unlock. cbv zeta. pose proof (sched_lock_prio k) as Hpr0.
  assert (∀ t, thread_state (thr (_sched_lock k) t) = thread_state (thr k t)) as Hst0 by apply sched_lock_state. set (k0 := _sched_lock k) in *.
  assert (mutex k0 o = mutex k o ∧ current k0 = current k ∧ ∀ r, q k0 r = q k r) as (Em & Ec & Eq) by done.
  clearbody k0.
  assert (upd_mutex o (λ x, mk_mutex (owner x) (u32 (lock_count x - 1)) (owner_orig_prio x)) k0 =
    upd_mutex o (λ x, mk_mutex (owner x) 0 (owner_orig_prio x)) k0) as ->.
  { unfold upd_mutex. by rewrite Em, Hcnt. }
  set (k1 := upd_mutex o (λ x, mk_mutex (owner x) 0 (owner_orig_prio x)) k0).
  assert (mutex k1 o = mk_mutex (Some (current k)) 0 (owner_orig_prio (mutex k o))) as Em1.
  { unfold k1. by rewrite mutex_upd, Em, Hown. }
  assert (running (λ _, True) k1) as Hk1.
  { destruct Hk0 as [(Hki & ? & ? & _) Hr]. split; [|done]. split_and!; try done. by eapply kinv_frame; try apply Hki. }
  destruct (mutex_inv_get k o) as (_ & _ & Ho); [apply Hk|]. destruct (Ho _ Hown) as (_ & Hidle & Hpr).
  rewrite Em1. simpl negb. cbv iota. simpl owner_orig_prio at 1.
  destruct (adjust_running (λ _, True) o (owner_orig_prio (mutex k o)) k1 (current k))
    as (k2 & -> & Hk2 & Ec2 & Ho2 & Hp2 & Hq2); [done|done|by rewrite Em1|rewrite <-Ec; apply Hk1|done|done|].
  destruct (unlock_hand_over o k0 k2) as (kf & Ekf & Hkf & Ecf & Hcur & Hh);
    [apply Hk0|by apply (only_sframe (current k))|done|].
  assert (current k2 = current k) as Ec2' by (rewrite Ec2; exact Ec). rewrite Ec2' in *.
  exists kf. split_and!; [exact Ekf|done..|]. split; [by rewrite Hcur|].
  rewrite Hq2 in Hh. change (q k1 ?r) with (q k0 r) in Hh. rewrite Eq in Hh.
  destruct (head (q k (WQ (KMutex, o)))) as [t|]; [|by rewrite Em in Hh].
  destruct Hh as (Hne & Hm & Hrv & Haw & Hpt). rewrite (proj1 (proj2 Ho2 t Hne)) in Hm, Hpt.
  change (thr k1 t) with (thr k0 t) in Hm, Hpt. rewrite Hpr0 in Hm, Hpt. split_and!; [done|done| |done].
  apply (awake_ext t k2); [intros w; by rewrite Hq2; apply Eq| |done].
  rewrite (proj1 (proj2 Ho2 t Hne)). change (thr k1 t) with (thr k0 t). apply Hst0.
Qed.

End safe.


Lemma upd_mutex_sched_lock o f k : upd_mutex o f (_sched_lock k) = _sched_lock (upd_mutex o f k).
Proof. done. Qed.

Lemma upd_mutex_sys_inv o f k : sys_inv k → sys_inv (upd_mutex o f k).
Proof. intros [Hk Hc Hn Hh Hp]. split; [by eapply kinv_frame; try apply Hk|done..]. Qed.

(** An operation that only changes the mutex ends where it began. *)
Lemma sched_unlock_stays k o f :
  sys_inv k → k_sched_unlock (upd_mutex o f (_sched_lock k)) = Done tt (upd_mutex o f k).
Proof. intros Hk. rewrite upd_mutex_sched_lock. by apply sched_lock_unlock_done, upd_mutex_sys_inv. Qed.

(** ** Without contention *)

(** A free mutex is taken at once, and the owner may take it again. *)
Lemma lock_takes o timeout k :
  sys_inv k → lock_count (mutex k o) = 0 ∨ owner (mutex k o) = Some (current k) →
  k_mutex_lock o timeout k =
    Done 0 (upd_mutex o (λ x, mk_mutex (Some (current k)) (u32 (lock_count x + 1))
      (if lock_count x =? 0 then prio (thr k (current k)) else owner_orig_prio x)) k).
Proof.
  intros Hk Hf. unfold k_mutex_lock. cbv zeta. change (mutex (_sched_lock k) o) with (mutex k o).
  change (current (_sched_lock k)) with (current k). rewrite sched_lock_prio.
  assert ((lock_count (mutex k o) =? 0) || bool_decide (owner (mutex k o) = Some (current k)) = true) as ->.
  { apply orb_true_iff. destruct Hf as [->| ->]; [by left|right]. by apply bool_decide_eq_true. }
  by rewrite sched_unlock_stays.
Qed.

(** A mutex owned by another thread is refused without waiting. *)
Lemma lock_busy o k t :
  sys_inv k → lock_count (mutex k o) ≠ 0 → owner (mutex k o) = Some t → t ≠ current k →
  k_mutex_lock o K_NO_WAIT k = Done (- EBUSY) k.
Proof.
  intros Hk Hc Ho Hne. unfold k_mutex_lock. cbv zeta. change (mutex (_sched_lock k) o) with (mutex k o).
  change (current (_sched_lock k)) with (current k).
  rewrite (proj2 (Z.eqb_neq _ _) Hc), bool_decide_eq_false_2 by congruence. simpl orb. cbv iota.
  change (K_NO_WAIT =? K_NO_WAIT) with true. cbv iota.
  by rewrite sched_lock_unlock_done.
Qed.

Lemma unlock_nested o k :
  sys_inv k → 1 < lock_count (mutex k o) < 4294967296 →
  k_mutex_unlock o k =
    Done tt (upd_mutex o (λ x, mk_mutex (owner x) (lock_count x - 1) (owner_orig_prio x)) k).
Proof.
  intros Hk Hc. unfold k_mutex_unlock. cbv zeta. rewrite mutex_upd. change (mutex (_sched_lock k) o) with (mutex k o).
  simpl lock_count. rewrite u32_id by lia. rewrite (proj2 (Z.eqb_neq _ _)) by lia. simpl negb. cbv iota.
  rewrite sched_unlock_stays by done. unfold upd_mutex. by rewrite u32_id by lia.
Qed.
(** ** With contention *)

(** The continuation of a thread that has to wait. *)
Definition lock_resumes (o : nat) (k : kernel) : outcome Z :=
  if return_value (thr k (current k)) =? 0 then let% _ k := k_sched_unlock k in Done 0 k
  else
    let orig := owner_orig_prio (mutex k o) in
    let new_prio := match head (q k (WQ (KMutex, o))) with
      | Some waiter => new_prio_for_inheritance (prio (thr k waiter)) orig
      | None => orig
      end in
    match adjust_owner_prio o new_prio k with
    | None => Fault
    | Some k => let% _ k := k_sched_unlock k in Done (- EAGAIN) k
    end.

Lemma lock_waits o timeout k t :
  sys_inv k → mutex_ok k (mutex k o) → owner (mutex k o) = Some t → t ≠ current k →
  current k ≠ _idle_thread → timeout ≠ K_NO_WAIT → timeout_ok timeout →
  ∃ k1, k_mutex_lock o timeout k = Swapped k1 (lock_resumes o) ∧ sys_inv k1 ∧ mutex k1 o = mutex k o ∧
    current k ∈ q k1 (WQ (KMutex, o)) ∧
    prio (thr k1 t) = Z.min (prio (thr k t)) (Z.max (prio (thr k (current k))) CONFIG_PRIORITY_CEILING) ∧
    ∀ c, c ≠ t → prio (thr k1 c) = prio (thr k c).
Proof.
  intros Hk (Hcnt & Hfree & Hown) Ho Hne Hidle Hnw Hto.
  pose proof (running_sched_lock (λ _, True) ltac:(done) k (running_sinv _ k (conj Hk I))) as Hk0.
  destruct (Hown t Ho) as (Ht & Hti & _).
  assert (lock_count (mutex k o) ≠ 0) as Hnz by (rewrite <-Hfree; congruence).
  unfold k_mutex_lock. cbv zeta. change (mutex (_sched_lock k) o) with (mutex k o).
  change (current (_sched_lock k)) with (current k). rewrite Ho, !sched_lock_prio.
  rewrite (proj2 (Z.eqb_neq _ _) Hnz), bool_decide_eq_false_2 by congruence. simpl orb. cbv iota.
  rewrite (proj2 (Z.eqb_neq _ _) Hnw). pose proof (sched_lock_prio k) as Hp0.
  set (k0 := _sched_lock k) in *.
  assert (current k0 = current k ∧ mutex k0 o = mutex k o) as [Ec0 Em0] by done.
  assert (t ∈ dom (threads k0)) as Ht0 by (eapply sframe_dom; [apply sframe_upd_thread, _|done]).
  clearbody k0. set (p := new_prio_for_inheritance _ _).
  assert (app_prio p) as Hpp.
  { pose proof (sys_kinv _ Hk) as Hki. apply inheritance_app; eapply thread_app_prio; eauto. apply Hki. }
  assert (∃ k1, (if _is_prio_higher p (prio (thr k t)) then adjust_owner_prio o p k0 else Some k0) = Some k1 ∧
    running (λ _, True) k1 ∧ only t k0 k1 ∧
    prio (thr k1 t) = Z.min (prio (thr k t)) (Z.max (prio (thr k (current k))) CONFIG_PRIORITY_CEILING))
    as (k1 & -> & Hk1 & Ho1 & Hp1).
  { unfold _is_prio_higher, _is_prio1_higher_than_prio2. destruct (p <? prio (thr k t)) eqn:Hlt; zbool.
    - destruct (adjust_running (λ _, True) o p k0 t) as (k1 & ? & ? & _ & ? & Hp1 & _); [done|done|congruence|done..|].
      exists k1. split_and!; try done. rewrite Hp1. unfold p in *. rewrite inheritance_spec in *. lia.
    - exists k0. split_and!; try done. rewrite Hp0. unfold p in *. rewrite inheritance_spec in *. lia. }
  pose proof (only_sframe _ _ _ Ho1) as Hf1. pose proof (sframe_current _ _ Hf1) as Ec1. rewrite Ec0 in Ec1.
  rewrite <-Ec1 in Hidle.
  destruct (pend_current_spec [] (KMutex, o) timeout k1) as (Hk2 & Hf2 & _ & _ & Hq2); [apply Hk1|apply Hk1|done|done|by left|].
  pose proof (λ c, pend_current_thr (KMutex, o) timeout k1 c Hto) as Hp2. cbv zeta in Hp2.
  set (k2 := _pend_current_thread (KMutex, o) timeout k1) in *.
  exists (switched k2). split; [done|]. split_and!.
  - apply (switched_sys_inv (λ _, True)); [done|]. eapply swap_ready_frame; [done|apply Hk1|done|done].
  - rewrite <-Em0. unfold mutex. by rewrite (proj1 Hf2), (proj1 Hf1).
  - change (current k ∈ q k2 (WQ (KMutex, o))). rewrite Hq2, insert_where_perm, Ec1. mem.
  - by rewrite switched_prio, (proj1 (Hp2 t)).
  - intros c Hc. rewrite switched_prio, (proj1 (Hp2 c)), (proj1 (proj2 Ho1 c Hc)). apply Hp0.
Qed.


(** ** Safety within the system *)
Section ops_safe.
Context (J : kernel → Prop) (F : Prop) `{!MutexInv J}.
Hypothesis J_objects : ∀ k k', same_objects k k' → J k → J k'.

Lemma unlock_then {A} (v : A) k c :
  running J k → current k = c →
  osafe F (sinv J) c (λ _ k', sinv J k' ∧ current k' = c) (let% _ k := k_sched_unlock k in Done v k).
Proof.
  intros Hk <-. eapply osafe_bind; [by apply running_unlock|]. by intros [] k' Hk'.
Qed.

(** The thread that waited and timed out gives the owner back the priority the
    remaining waiters call for; if there is no owner any more, that faults. *)
Lemma timed_out_safe o k c :
  F → sinv J k → current k = c →
  osafe F (sinv J) c (λ _ k', sinv J k' ∧ current k' = c)
    (let orig := owner_orig_prio (mutex k o) in
     let new_prio := match head (q k (WQ (KMutex, o))) with
       | Some waiter => new_prio_for_inheritance (prio (thr k waiter)) orig
       | None => orig
       end in
     match adjust_owner_prio o new_prio k with
     | None => Fault
     | Some k => let% _ k := k_sched_unlock k in Done (- EAGAIN) k
     end).
Proof.
  intros HF Hk Hc. cbv zeta. destruct (owner (mutex k o)) as [t|] eqn:Ho.
  - destruct (mutex_inv_get k o (proj2 Hk)) as (_ & _ & Hown). destruct (Hown t Ho) as (Ht & Hidle & Hp).
    set (p := match head _ with Some _ => _ | None => _ end).
    assert (app_prio p) as Hpp.
    { unfold p. destruct (head (q k _)) as [w|] eqn:Hh; [|done]. apply head_Some_elem_of in Hh.
      pose proof (sys_kinv _ (proj1 Hk)) as Hki.
      apply inheritance_app; [|done]. eapply thread_app_prio; [done|by apply (inv_wq _ _ _ Hki) in Hh as []|].
      by eapply waiter_not_idle. }
    destruct (adjust_running J o p k t) as (k' & -> & Hk' & Ec & _); [done|by apply running_sinv|done..|].
    apply unlock_then; [done|congruence].
  - unfold adjust_owner_prio. by rewrite Ho.
Qed.

Lemma k_mutex_lock_safe o timeout k :
  timeout = K_NO_WAIT ∨ F → sinv J k → current k ≠ _idle_thread → lock_count (mutex k o) < 4294967295 →
  timeout = K_NO_WAIT ∨ timeout_ok timeout → op_safe J F (k_mutex_lock o timeout) k.
Proof.
  intros HF Hk Hidle Hmax Hto. pose proof (running_sched_lock J J_objects k (running_sinv J k Hk)) as Hk0.
  unfold op_safe, k_mutex_lock. cbv zeta. change (mutex (_sched_lock k) o) with (mutex k o).
  change (current (_sched_lock k)) with (current k). rewrite sched_lock_prio.
  set (k0 := _sched_lock k) in *.
  assert (current k0 = current k ∧ mutex k0 o = mutex k o) as [Ec Em] by done.
  assert (dom (threads k0) ⊆ dom (threads k0) ∧ current k ∈ dom (threads k0)) as [_ Hc] by (split; [done|apply Hk0]).
  clearbody k0. destruct (mutex_inv_get k0 o) as (Hcnt & Hfree & Hown); [apply Hk0|]. rewrite Em in Hcnt, Hfree, Hown.
  assert (app_prio (prio (thr k (current k)))) as Hcp.
  { eapply thread_app_prio; [apply Hk|apply Hk|done]. }
  destruct ((lock_count (mutex k o) =? 0) || bool_decide (owner (mutex k o) = Some (current k))) eqn:Hfree'.
  - apply unlock_then; [|done]. apply running_upd_mutex; [done|done|]. unfold mutex_ok. simpl.
    rewrite u32_id by lia. split_and!; [lia|lia|split; [done|lia]|]. intros t [= <-].
    split_and!; [done|done|..]; destruct (lock_count (mutex k o) =? 0) eqn:E; try apply Hcp;
      simpl in Hfree'; apply bool_decide_eq_true in Hfree'; apply (Hown _ Hfree').
  - destruct (timeout =? K_NO_WAIT) eqn:Et; [by apply unlock_then|]. zbool. destruct Hto as [|Hto]; [done|]. destruct HF as [|HF]; [done|].
    destruct (owner (mutex k o)) as [t|] eqn:Ho; [|by rewrite (proj1 Hfree eq_refl) in Hfree'].
    destruct (Hown t eq_refl) as (Ht & Hti & Hop).
    assert (app_prio (prio (thr k0 t))) as Htp by (eapply thread_app_prio; eauto; apply Hk0).
    set (p := new_prio_for_inheritance _ _). assert (app_prio p) as Hpp by by apply inheritance_app.
    assert (∃ k1, (if _is_prio_higher p (prio (thr k0 t)) then adjust_owner_prio o p k0 else Some k0) = Some k1 ∧
      running J k1 ∧ current k1 = current k) as (k1 & -> & Hk1 & Ec1).
    { destruct (_is_prio_higher p _); [|by exists k0].
      destruct (adjust_running J o p k0 t) as (k1 & ? & ? & ? & _); [done|done|by rewrite Em|done..|].
      exists k1. split_and!; congruence. }
    rewrite <-Ec1. rewrite <-Ec1 in Hidle. clear -Hk1 Hidle Hto HF J_objects MutexInv0.
    destruct (pend_current_spec [] (KMutex, o) timeout k1) as (Hk2 & Hf & _); [apply Hk1|apply Hk1|done|done|by left|].
    eapply osafe_bind.
    { apply swap_safe; [done|]. eapply swap_ready_frame; [done|apply Hk1|done|done]. }
    intros got k3 [Hk3 Hc3]. destruct (got =? 0); [|by apply timed_out_safe].
    apply unlock_then; [by apply running_sinv|done].
Qed.

Lemma k_mutex_unlock_safe o k :
  sinv J k → owner (mutex k o) = Some (current k) → op_safe J F (k_mutex_unlock o) k.
Proof.
  intros Hk Ho. pose proof (running_sinv J k Hk) as Hr.
  destruct (mutex_inv_get k o (proj2 Hk)) as (Hcnt & Hfree & Hown).
  assert (lock_count (mutex k o) ≠ 0) as Hnz by (rewrite <-Hfree; congruence).
  unfold op_safe. destruct (decide (lock_count (mutex k o) = 1)) as [E1|E1].
  - destruct (unlock_last J J_objects o k Hr Ho E1) as (kf & -> & Hkf & <- & _). by apply running_unlock.
  - rewrite unlock_nested by (lia || apply Hk). simpl. split; [|done].
    destruct Hk as [Hk HJ]. split.
    + by apply upd_mutex_sys_inv.
    + apply mutex_inv_set; [done|]. unfold mutex_ok. simpl. rewrite Ho in *.
      split_and!; [lia|lia|split; [done|lia]|]. intros t [= <-]. by apply Hown.
Qed.
End ops_safe.


(** ** Properties *)
Definition mutexes_ok (k : kernel) : Prop := ∀ o, mutex_ok k (mutex k o).

#[export] Instance mutexes_ok_inv : MutexInv mutexes_ok.
Proof.
  split; [by intros|]. intros k o x Hk Hx o'. unfold mutex. simpl. destruct (decide (o = o')) as [<-|Hne].
  - by rewrite lookup_total_insert_eq.
  - rewrite lookup_total_insert_ne by done. apply Hk.
Qed.
Lemma mutexes_ok_dom k k' : mutexes k' = mutexes k → dom (threads k) ⊆ dom (threads k') → mutexes_ok k → mutexes_ok k'.
Proof.
  intros Em Hd Hk o. unfold mutex. rewrite Em. destruct (Hk o) as (? & ? & Hown). split; [done|]. split; [done|].
  intros t Ht. destruct (Hown t Ht) as (? & ? & ?). split_and!; auto.
Qed.
Lemma mutexes_ok_objects k k' : same_objects k k' → mutexes_ok k → mutexes_ok k'.
Proof. intros (_ & Em & _ & _ & _ & _ & _ & _ & _ & _ & Hd & _). by apply mutexes_ok_dom. Qed.

(** C5: a thread that finds the mutex owned by another one waits, and the owner
    runs at the waiter's priority from then on, capped at the priority
    ceiling, unless its own is higher; nobody else's priority changes and the
    system stays in order. *)
Theorem k_mutex_lock_inherits o timeout k t :
  sys_inv k → mutex_ok k (mutex k o) → owner (mutex k o) = Some t → t ≠ current k →
  current k ≠ _idle_thread → timeout ≠ K_NO_WAIT → timeout_ok timeout →
  ∃ k1 resume, k_mutex_lock o timeout k = Swapped k1 resume ∧ sys_inv k1 ∧ mutex k1 o = mutex k o ∧
    current k ∈ q k1 (WQ (KMutex, o)) ∧
    prio (thr k1 t) = Z.min (prio (thr k t)) (Z.max (prio (thr k (current k))) CONFIG_PRIORITY_CEILING) ∧
    ∀ c, c ≠ t → prio (thr k1 c) = prio (thr k c).
Proof.
  intros Hk Hm Ho Hne Hi Hnw Hto. destruct (lock_waits o timeout k t) as (k1 & ? & ?); try done. by exists k1, (lock_resumes o).
Qed.

(** C6: releasing the last level of a mutex gives the owner its own priority
    back and makes the first waiter, of which there may be none, the owner:
    it holds the mutex once, its priority is recorded, its [k_mutex_lock]
    returns 0, its timeout is cancelled, the wait queue holds the other waiters
    in the same order, and the new owner is ready, on the ready queue of its
    priority, unless someone has also suspended it ([awake]). *)
Theorem k_mutex_unlock_hands_over o k :
  sys_inv k → mutexes_ok k → owner (mutex k o) = Some (current k) → lock_count (mutex k o) = 1 →
  ∃ kf, k_mutex_unlock o k = k_sched_unlock kf ∧ current kf = current k ∧ mutexes_ok kf ∧ handed_over o k kf.
Proof.
  intros Hk Hm Ho Hc. destruct (unlock_last mutexes_ok mutexes_ok_objects o k) as (kf & ? & Hr & ? & ?); [|done|done|].
  - by apply running_sinv.
  - exists kf. split_and!; try done. apply Hr.
Qed.

(** The owner can lock a mutex again, whatever the timeout, and unlocking
    it undoes exactly that. *)
Theorem k_mutex_recursive_roundtrip o timeout k :
  sys_inv k → owner (mutex k o) = Some (current k) → 0 < lock_count (mutex k o) < 4294967295 →
  o ∈ dom (mutexes k) →
  ∃ k1, k_mutex_lock o timeout k = Done 0 k1 ∧ lock_count (mutex k1 o) = lock_count (mutex k o) + 1 ∧
    k_mutex_unlock o k1 = Done tt k.
Proof.
  intros Hk Ho Hc Hd. rewrite lock_takes by (done || by right). eexists. split; [done|]. rewrite mutex_upd. simpl.
  rewrite u32_id by lia. split; [done|]. rewrite unlock_nested.
  - f_equal. unfold upd_mutex, mutex. simpl. destruct k. unfold set_mutexes. simpl in *. f_equal.
    rewrite insert_insert_eq, lookup_total_insert_eq. apply insert_id. rewrite lookup_lookup_total_dom by done.
    unfold mutex in *. simpl in *. rewrite u32_id by lia. rewrite (proj2 (Z.eqb_neq _ _)) by lia.
    destruct (mutexes !!! o) as [ow c p]. simpl in *. subst. do 2 f_equal. lia.
  - by apply upd_mutex_sys_inv.
  - rewrite mutex_upd. simpl. rewrite u32_id by lia. lia.
Qed.

(** If the owner released the mutex after a waiter's timeout expired and
    before the waiter ran again, the waiter's [k_mutex_lock] dereferences the
    mutex's NULL owner. *)
Theorem k_mutex_lock_owner_gone o timeout k t :
  sys_inv k → mutex_ok k (mutex k o) → owner (mutex k o) = Some t → t ≠ current k →
  current k ≠ _idle_thread → timeout ≠ K_NO_WAIT → timeout_ok timeout →
  ∃ k1 resume, k_mutex_lock o timeout k = Swapped k1 resume ∧
    ∀ k2, owner (mutex k2 o) = None → return_value (thr k2 (current k2)) ≠ 0 → resume k2 = Fault.
Proof.
  intros Hk Hm Ho Hne Hi Hnw Hto. destruct (lock_waits o timeout k t) as (k1 & E & _); try done.
  exists k1, (lock_resumes o). split; [done|]. intros k2 Hn Hrv. unfold lock_resumes, adjust_owner_prio.
  by rewrite (proj2 (Z.eqb_neq _ _) Hrv), Hn.
Qed.

End mutex.

(** ** The properties at work *)

(** The mutex 0 belongs to the worker, or to the current thread. *)
Definition sc_mutex (t : tid) (n p : Z) : kernel :=
  upd_mutex 0 (λ _, mk_mutex (Some t) n p) two_threads.
Lemma sc_mutex_sys_inv t n p : sys_inv (sc_mutex t n p).
Proof. apply upd_mutex_sys_inv, two_threads_sys_inv. Qed.
Lemma sc_mutex_mutex t n p : mutex (sc_mutex t n p) 0 = mk_mutex (Some t) n p.
Proof. unfold sc_mutex. by rewrite mutex_upd. Qed.
Lemma mutexes_ok_none k : mutexes k = ∅ → mutexes_ok k.
Proof. intros E o. unfold mutex. rewrite E, lookup_total_empty. by split_and!. Qed.
Lemma sc_mutex_ok t n p :
  t ∈ dom (threads two_threads) → t ≠ _idle_thread → 0 < n < 4294967296 → app_prio p → mutexes_ok (sc_mutex t n p).
Proof.
  intros Ht Hi Hn Hp. apply (mutex_inv_set (J := mutexes_ok)); [apply mutexes_ok_none; by vm_compute|].
  unfold mutex_ok, lock_count, owner, owner_orig_prio. split_and!; [lia|lia|split; [done|lia]|]. by intros t' [= <-].
Qed.
Lemma sc_worker_dom : sc_worker ∈ dom (threads two_threads).
Proof. apply in_dom. by vm_compute. Qed.
Lemma sc_worker_ok : mutexes_ok (sc_mutex sc_worker 1 5).
Proof. apply sc_mutex_ok; [apply sc_worker_dom|done|lia|by vm_compute]. Qed.
Lemma sc_main_ok : mutexes_ok (sc_mutex sc_main 1 0).
Proof. apply sc_mutex_ok; [apply in_dom; by vm_compute|done|lia|by vm_compute]. Qed.

(** The worker, of priority 5, inherits the priority 0 of the main thread. *)
Lemma k_mutex_lock_inherits_witness :
  ∃ k1 resume, k_mutex_lock 0 100 (sc_mutex sc_worker 1 5) = Swapped k1 resume ∧ prio (thr k1 sc_worker) = 0.
Proof.
  destruct (k_mutex_lock_inherits 0 100 (sc_mutex sc_worker 1 5) sc_worker) as (k1 & r & E & _ & _ & _ & Hp & _).
  - apply sc_mutex_sys_inv.
  - apply sc_worker_ok.
  - by rewrite sc_mutex_mutex.
  - by vm_compute.
  - by vm_compute.
  - done.
  - right. by vm_compute.
  - exists k1, r. split; [exact E|]. rewrite Hp. by vm_compute.
Defined.

(** The main thread waits for the worker's mutex, and the worker runs. *)
Definition sc_mutex_waiting : kernel := after (k_mutex_lock 0 K_FOREVER (sc_mutex sc_worker 1 5)).
Lemma sc_mutex_waiting_ok : sinv mutexes_ok sc_mutex_waiting.
Proof.
  refine (op_safe_state mutexes_ok True (k_mutex_lock 0 K_FOREVER) (sc_mutex sc_worker 1 5) _ _); [|by vm_compute].
  apply k_mutex_lock_safe; [apply _|apply mutexes_ok_objects|by right|split; [apply sc_mutex_sys_inv|apply sc_worker_ok]| | |].
  - by vm_compute.
  - rewrite sc_mutex_mutex. by vm_compute.
  - right. by left.
Qed.

Lemma k_mutex_unlock_hands_over_witness :
  ∃ kf, k_mutex_unlock 0 sc_mutex_waiting = k_sched_unlock kf ∧ mutex kf 0 = mk_mutex (Some sc_main) 1 0 ∧
    prio (thr kf sc_worker) = 5 ∧ q kf (WQ (KMutex, 0%nat)) = [] ∧ _is_thread_ready sc_main kf = true.
Proof.
  destruct (k_mutex_unlock_hands_over 0 sc_mutex_waiting) as (kf & E & _ & _ & Hp & Hh).
  - apply sc_mutex_waiting_ok.
  - apply sc_mutex_waiting_ok.
  - by vm_compute.
  - by vm_compute.
  - assert (q sc_mutex_waiting (WQ (KMutex, 0%nat)) = [sc_main]) as Eq by by vm_compute.
    rewrite Eq in Hh. destruct Hh as (Hm & _ & [Hq _ _ Hr _] & _). exists kf.
    rewrite Hm, Hq, Hr, Eq. split_and!; [exact E|by vm_compute|by etrans; [exact Hp|by vm_compute]|done|by vm_compute].
Defined.

Lemma k_mutex_recursive_roundtrip_witness :
  ∃ k1, k_mutex_lock 0 K_FOREVER (sc_mutex sc_main 1 0) = Done 0 k1 ∧ lock_count (mutex k1 0) = 2 ∧
    k_mutex_unlock 0 k1 = Done tt (sc_mutex sc_main 1 0).
Proof.
  destruct (k_mutex_recursive_roundtrip 0 K_FOREVER (sc_mutex sc_main 1 0)) as (k1 & E & Hc & Eu).
  - apply sc_mutex_sys_inv.
  - rewrite sc_mutex_mutex. by vm_compute.
  - by rewrite sc_mutex_mutex.
  - apply in_dom. by vm_compute.
  - exists k1. rewrite sc_mutex_mutex in Hc. exact (conj E (conj Hc Eu)).
Defined.

Lemma k_mutex_lock_owner_gone_witness :
  ∃ k1 resume, k_mutex_lock 0 100 (sc_mutex sc_worker 1 5) = Swapped k1 resume ∧
    resume (upd_thread sc_main (set_return_value (- EAGAIN)) two_threads) = Fault.
Proof.
  destruct (k_mutex_lock_owner_gone 0 100 (sc_mutex sc_worker 1 5) sc_worker) as (k1 & r & E & Hr).
  - apply sc_mutex_sys_inv.
  - apply sc_worker_ok.
  - by rewrite sc_mutex_mutex.
  - by vm_compute.
  - by vm_compute.
  - done.
  - right. by vm_compute.
  - exists k1, r. split; [exact E|]. apply Hr; by vm_compute.
Defined.
