(* ===== verification/MsgQ.v ===== *)
(** * Message queues (kernel/msg_q.c)

    A message queue is a ring of fixed-size messages.  A sender finding threads
    on the wait queue hands its message to the first of them, a receiver takes
    the oldest message and lets the first waiting sender in. *)
From stdpp Require Import gmap list.
From S2P Require Import Prelude Mem Dlist KState Ksched TimeoutQ SchedInv Outcome Sched Thread WaitQ Scenario.
Local Open Scope Z_scope.
Local Open Scope outcome_scope.

Section msgq.
Context `{KConfig}.

Definition msgq (k : kernel) (o : nat) : k_msgq := msgqs k !!! o.
Definition upd_msgq (o : nat) (f : k_msgq → k_msgq) (k : kernel) : kernel :=
  set_msgqs (<[o := f (msgq k o)]> (msgqs k)) k.

Definition k_msgq_init (o : nat) (buffer size max : Z) (k : kernel) : kernel :=
  let k := upd_msgq o (λ _, mk_msgq size max buffer (u32 (buffer + u32 (max * size))) buffer buffer 0) k in
  set_queues (DlistSpec.init (WQ (KMsgq, o)) (queues k)) k.

(** A pointer into the buffer moves on by one message and wraps at the end. *)
Definition advance (x : k_msgq) (p : Z) : Z :=
  let p := p + msg_size x in
  if p =? buffer_end x then buffer_start x else p.

Definition put_ptr (x : k_msgq) : k_msgq :=
  set_used_msgs (u32 (used_msgs x + 1)) (set_write_ptr (advance x (write_ptr x)) x).
Definition get_ptr (x : k_msgq) : k_msgq :=
  set_used_msgs (u32 (used_msgs x - 1)) (set_read_ptr (advance x (read_ptr x)) x).

(** The message at [data] is written to the ring, the one at its head read. *)
Definition enqueue (o : nat) (data : Z) (k : kernel) : kernel :=
  let x := msgq k o in
  let k := set_mem (memcpy (write_ptr x) data (msg_size x) (mem k)) k in
  upd_msgq o put_ptr k.
Definition dequeue (o : nat) (data : Z) (k : kernel) : kernel :=
  let x := msgq k o in
  let k := set_mem (memcpy data (read_ptr x) (msg_size x) (mem k)) k in
  upd_msgq o get_ptr k.

Definition wake_waiter (t : tid) (v : Z) (k : kernel) : kernel :=
  let k := _set_thread_return_value t v k in
  let k := (_abort_thread_timeout t k).2 in
  _ready_thread t k.

Definition k_msgq_put (o : nat) (data timeout : Z) (k : kernel) : outcome Z :=
  let x := msgq k o in
  if used_msgs x <? max_msgs x then
    match _unpend_first_thread (KMsgq, o) k with
    | (Some t, k) =>
        let k := set_mem (memcpy (swap_data (thr k t)) data (msg_size x) (mem k)) k in
        let k := wake_waiter t 0 k in
        if negb (_is_in_isr k) && _must_switch_threads k
        then let% _ k := _Swap k in Done 0 k else Done 0 k
    | (None, k) => Done 0 (enqueue o data k)
    end
  else if timeout =? K_NO_WAIT then Done (- ENOMSG) k
  else
    let k := _pend_current_thread (KMsgq, o) timeout k in
    let k := upd_thread (current k) (set_swap_data data) k in
    _Swap k.

Definition k_msgq_get (o : nat) (data timeout : Z) (k : kernel) : outcome Z :=
  if used_msgs (msgq k o) >? 0 then
    let k := dequeue o data k in
    match _unpend_first_thread (KMsgq, o) k with
    | (Some t, k) =>
        let k := enqueue o (swap_data (thr k t)) k in
        let k := wake_waiter t 0 k in
        if negb (_is_in_isr k) && _must_switch_threads k
        then let% _ k := _Swap k in Done 0 k else Done 0 k
    | (None, k) => Done 0 k
    end
  else if timeout =? K_NO_WAIT then Done (- ENOMSG) k
  else
    let k := _pend_current_thread (KMsgq, o) timeout k in
    let k := upd_thread (current k) (set_swap_data data) k in
    _Swap k.

(** The [while] loop of [k_msgq_purge]: each round takes one thread off the wait
    queue. *)
Fixpoint purge_waiters (fuel : nat) (o : nat) (k : kernel) : kernel :=
  match fuel with
  | O => k
  | S fuel =>
      match _unpend_first_thread (KMsgq, o) k with
      | (Some t, k) => purge_waiters fuel o (wake_waiter t (- ENOMSG) k)
      | (None, k) => k
      end
  end.
Definition k_msgq_purge (o : nat) (k : kernel) : outcome unit :=
  let k := purge_waiters (length (q k (WQ (KMsgq, o)))) o k in
  let k := upd_msgq o (λ x, set_read_ptr (write_ptr x) (set_used_msgs 0 x)) k in
  _reschedule_threads k.

(** [k_msgq_num_free_get], [k_msgq_num_used_get] (include/kernel.h). *)
Definition k_msgq_num_free_get (o : nat) (k : kernel) : Z := u32 (max_msgs (msgq k o) - used_msgs (msgq k o)).
Definition k_msgq_num_used_get (o : nat) (k : kernel) : Z := used_msgs (msgq k o).

(** ** The ring *)
Definition slot (x : k_msgq) (i : Z) : Z := buffer_start x + i * msg_size x.

(** The ring [x] whose oldest message is in slot [r]. *)
Record ring_at (x : k_msgq) (r : Z) : Prop := {
  ring_size : 0 < msg_size x;
  ring_max : 0 < max_msgs x < 4294967296;
  ring_end : buffer_end x = slot x (max_msgs x);
  ring_used : 0 ≤ used_msgs x ≤ max_msgs x;
  ring_pos : 0 ≤ r < max_msgs x;
  ring_read : read_ptr x = slot x r;
  ring_write : write_ptr x = slot x ((r + used_msgs x) mod max_msgs x);
}.
Definition msgq_ok (x : k_msgq) : Prop := ∃ r, ring_at x r.

(** Its messages, the oldest first. *)
Definition ring_messages (x : k_msgq) (r : Z) (m : gmap Z Z) : list (list Z) :=
  (λ i, bytes m (slot x ((r + i) mod max_msgs x)) (msg_size x)) <$> seqZ 0 (used_msgs x).
Definition head_slot (x : k_msgq) : Z := (read_ptr x - buffer_start x) / msg_size x.
Definition messages (o : nat) (k : kernel) : list (list Z) :=
  ring_messages (msgq k o) (head_slot (msgq k o)) (mem k).

Lemma ring_head x r : ring_at x r → head_slot x = r.
Proof.
  intros [Hs _ _ _ _ Hr _]. unfold head_slot, slot in *. rewrite Hr.
  replace (buffer_start x + r * msg_size x - buffer_start x) with (r * msg_size x) by lia. apply Z.div_mul. lia.
Qed.
Lemma advance_slot x i : 0 < msg_size x → buffer_end x = slot x (max_msgs x) → 0 ≤ i < max_msgs x →
  advance x (slot x i) = slot x ((i + 1) mod max_msgs x).
Proof.
  intros Hs He Hi. unfold advance. rewrite He. unfold slot. destruct (_ =? _) eqn:E; zbool.
  - assert (i + 1 = max_msgs x) as -> by nia. rewrite Z.mod_same by lia. lia.
  - rewrite Z.mod_small by nia. lia.
Qed.
(** Different slots do not overlap. *)
Lemma slot_disjoint x i j :
  0 < msg_size x → i ≠ j → disjoint_ranges (slot x i) (msg_size x) (slot x j) (msg_size x).
Proof. intros Hs Hij. unfold disjoint_ranges, slot. nia. Qed.
Lemma mod_ne a i n : 0 ≤ i < n → a mod n ≠ (a + i) mod n ∨ i = 0.
Proof.
  intros Hi. destruct (decide (i = 0)) as [|Hz]; [by right|left]. intros E.
  assert (((a + i) - a) mod n = 0) as E0 by (rewrite Zminus_mod, E, Z.sub_diag; apply Z.mod_0_l; lia).
  replace (a + i - a) with i in E0 by lia. rewrite Z.mod_small in E0; lia.
Qed.
Lemma ring_put x r m data :
  ring_at x r → used_msgs x < max_msgs x →
  ring_at (put_ptr x) r ∧
  ring_messages (put_ptr x) r (memcpy (write_ptr x) data (msg_size x) m) =
    ring_messages x r m ++ [bytes m data (msg_size x)].
Proof.
  intros [Hs Hm He Hu Hp Hr Hw] Hlt. assert (u32 (used_msgs x + 1) = used_msgs x + 1) as Eu by (apply u32_id; lia).
  split.
  - split; unfold put_ptr; simpl; rewrite ?Eu; try done; [lia|].
    rewrite Hw, advance_slot by (done || apply Z.mod_pos_bound; lia).
    change (slot (set_used_msgs ?u (set_write_ptr ?p x)) ?i) with (slot x i).
    rewrite Zplus_mod_idemp_l. by rewrite Z.add_assoc.
  - unfold ring_messages, put_ptr. simpl. rewrite Eu, seqZ_app by lia. rewrite fmap_app. f_equal.
    + apply list_fmap_ext. intros j i Hi. apply list_elem_of_lookup_2 in Hi. apply elem_of_seqZ in Hi.
      change (slot (set_used_msgs ?u (set_write_ptr ?p x)) ?i) with (slot x i).
      apply bytes_memcpy_other; [lia|]. rewrite Hw. apply slot_disjoint; [done|].
      destruct (mod_ne (r + i) (used_msgs x - i) (max_msgs x)) as [Hne|]; [lia| |lia].
      replace (r + i + (used_msgs x - i)) with (r + used_msgs x) in Hne by lia. congruence.
    + simpl. change (slot (set_used_msgs ?u (set_write_ptr ?p x)) ?i) with (slot x i).
      change (Z.of_nat 0) with 0. rewrite !Z.add_0_l, <-Hw. by rewrite bytes_memcpy.
Qed.

Lemma ring_get_ptr x r : ring_at x r → 0 < used_msgs x → ring_at (get_ptr x) ((r + 1) mod max_msgs x).
Proof.
  intros [Hs Hm He Hu Hp Hr Hw] Hlt. assert (u32 (used_msgs x - 1) = used_msgs x - 1) as Eu by (apply u32_id; lia).
  assert (∀ i, slot (get_ptr x) i = slot x i) as Hsl by done.
  split; simpl; rewrite ?Eu; try done; try lia.
  - pose proof (Z.mod_pos_bound (r + 1) (max_msgs x)). lia.
  - by rewrite Hsl, Hr, advance_slot.
  - rewrite Hsl, Hw, Zplus_mod_idemp_l. do 2 f_equal. lia.
Qed.

Lemma ring_get x r m data :
  ring_at x r → 0 < used_msgs x → disjoint_ranges data (msg_size x) (buffer_start x) (max_msgs x * msg_size x) →
  let m' := memcpy data (read_ptr x) (msg_size x) m in
  ring_messages x r m = bytes m' data (msg_size x) :: ring_messages (get_ptr x) ((r + 1) mod max_msgs x) m'.
Proof.
  intros [Hs Hm He Hu Hp Hr Hw] Hlt Hd. assert (u32 (used_msgs x - 1) = used_msgs x - 1) as Eu by (apply u32_id; lia).
  cbv zeta. unfold ring_messages. rewrite bytes_memcpy. rewrite seqZ_cons by lia. simpl. f_equal.
  - by rewrite Z.add_0_r, Z.mod_small, Hr.
  - unfold get_ptr at 1. simpl. rewrite Eu. change (Z.succ 0) with (0 + 1). rewrite <-(fmap_add_seqZ 1 0).
    rewrite <-list_fmap_compose. apply list_fmap_ext. intros j i Hi. apply list_elem_of_lookup_2, elem_of_seqZ in Hi.
    change (slot (set_used_msgs ?u (set_read_ptr ?p x)) ?i) with (slot x i). simpl.
    rewrite Zplus_mod_idemp_l, <-Z.add_assoc. symmetry. apply bytes_memcpy_other; [lia|].
    pose proof (Z.mod_pos_bound (r + (1 + i)) (max_msgs x)). unfold disjoint_ranges, slot in *. nia.
Qed.

(** ** The ring of a queue *)
Lemma msgq_upd o f k : msgq (upd_msgq o f k) o = f (msgq k o).
Proof. unfold msgq at 1, upd_msgq. simpl. by rewrite lookup_total_insert_eq. Qed.

Lemma messages_at o k r : ring_at (msgq k o) r → messages o k = ring_messages (msgq k o) r (mem k).
Proof. intros Hr. unfold messages. by rewrite (ring_head _ r). Qed.

Lemma messages_length o k : msgq_ok (msgq k o) → Z.of_nat (length (messages o k)) = used_msgs (msgq k o).
Proof.
  intros [r Hr]. rewrite (messages_at o k r) by done. unfold ring_messages. rewrite length_fmap, length_seqZ.
  destruct Hr. lia.
Qed.

Lemma messages_enqueue o data k :
  msgq_ok (msgq k o) → used_msgs (msgq k o) < max_msgs (msgq k o) →
  msgq_ok (msgq (enqueue o data k) o) ∧
  messages o (enqueue o data k) = messages o k ++ [bytes (mem k) data (msg_size (msgq k o))].
Proof.
  intros [r Hr] Hlt. destruct (ring_put _ r (mem k) data Hr Hlt) as [Hr' Hm].
  assert (msgq (enqueue o data k) o = put_ptr (msgq k o)) as E
    by (unfold enqueue; cbv zeta; by rewrite msgq_upd).
  split; [exists r; by rewrite E|]. rewrite (messages_at o k r), (messages_at _ _ r) by (done || by rewrite E).
  rewrite E, <-Hm. done.
Qed.

(** The receiver's buffer is not part of the ring. *)
Definition outside (x : k_msgq) (data : Z) : Prop :=
  disjoint_ranges data (msg_size x) (buffer_start x) (max_msgs x * msg_size x).

Lemma messages_dequeue o data k :
  msgq_ok (msgq k o) → 0 < used_msgs (msgq k o) → outside (msgq k o) data →
  msgq_ok (msgq (dequeue o data k) o) ∧
  messages o k = bytes (mem (dequeue o data k)) data (msg_size (msgq k o)) :: messages o (dequeue o data k).
Proof.
  intros [r Hr] Hlt Hd. pose proof (ring_get_ptr _ r Hr Hlt) as Hr'. pose proof (ring_get _ r (mem k) data Hr Hlt Hd) as Hm.
  assert (msgq (dequeue o data k) o = get_ptr (msgq k o)) as E
    by (unfold dequeue; cbv zeta; by rewrite msgq_upd).
  split; [eexists; by rewrite E|]. rewrite (messages_at o k r), (messages_at _ (dequeue o data k) _) by (done || by rewrite E).
  rewrite E. exact Hm.
Qed.

Lemma unpend_swap_data t k : swap_data (thr (_unpend_thread t k) t) = swap_data (thr k t).
Proof. unfold _unpend_thread, _mark_thread_as_not_pending, _reset_thread_states. by rewrite thr_upd, decide_True. Qed.

(** ** Safety within the system *)
Class MsgqInv (J : kernel → Prop) := {
  msgq_inv_get : ∀ k o, J k → o ∈ dom (msgqs k) → msgq_ok (msgq k o);
  msgq_inv_set : ∀ k o x, J k → msgq_ok x → J (set_msgqs (<[o := x]> (msgqs k)) k);
  msgq_inv_mem : ∀ k m, J k → J (set_mem m k);
}.

Lemma sys_inv_msgq m x k : sys_inv k → sys_inv (set_msgqs x (set_mem m k)).
Proof. intros [Hk Hc Hn Hh Hp]. split; [by eapply kinv_frame; try apply Hk|done..]. Qed.
Lemma enqueue_sys_inv o data k : sys_inv k → sys_inv (enqueue o data k).
Proof. apply sys_inv_msgq. Qed.
Lemma dequeue_sys_inv o data k : sys_inv k → sys_inv (dequeue o data k).
Proof. apply sys_inv_msgq. Qed.

Lemma wake_waiter_woken E t v k : unpended E t k → woken E t (set_return_value v) k (wake_waiter t v k).
Proof. intros Hu. apply wake_before; [done|apply ret_upd_value]. Qed.

Lemma unpend_wake w k t k1 v :
  running (λ _, True) k → _unpend_first_thread w k = (Some t, k1) →
  woken_first w t (set_return_value v) k (wake_waiter t v (_unpend_thread t k)).
Proof. intros Hk Hu. eapply unpend_woken; [done|done|]. apply wake_waiter_woken. Qed.
Section safe.
Context (J : kernel → Prop) (F : Prop) `{!MsgqInv J}.
Hypothesis J_objects : ∀ k k', same_objects k k' → J k → J k'.

Lemma msgq_room k o : J k → msgq_ok (msgq k o) → used_msgs (msgq k o) < max_msgs (msgq k o) → ∀ data, J (enqueue o data k).
Proof.
  intros HJ [r Hr] Hlt data. apply msgq_inv_set; [by apply msgq_inv_mem|].
  exists r. by apply (ring_put _ r (mem k) data).
Qed.
Lemma msgq_some k o : J k → msgq_ok (msgq k o) → 0 < used_msgs (msgq k o) → ∀ data, J (dequeue o data k).
Proof.
  intros HJ [r Hr] Hlt data. apply msgq_inv_set; [by apply msgq_inv_mem|].
  eexists. by apply ring_get_ptr.
Qed.

(** Waiting with the address of the message. *)
Lemma msgq_wait_safe o data timeout k :
  sinv J k → timeout_ok timeout → current k ≠ _idle_thread →
  osafe F (sinv J) (current k) (λ _ k', sinv J k' ∧ current k' = current k)
    (let k := _pend_current_thread (KMsgq, o) timeout k in
     let k := upd_thread (current k) (set_swap_data data) k in _Swap k).
Proof.
  intros Hk Hto Hi. cbv zeta.
  destruct (pend_current_spec [] (KMsgq, o) timeout k) as (Hk' & Hf & _); [apply Hk|apply Hk|done|done|by left|].
  pose proof (swap_ready_frame J J_objects _ _ (swap_ready_sinv _ _ Hk) Hk' Hf) as Hs.
  set (k1 := _pend_current_thread _ _ _) in *. apply swap_safe; [done|].
  eapply swap_ready_frame; [done|exact Hs| |apply sframe_upd_thread, _].
  apply kinv_upd_keep; [done|apply Hk'| |done|done]. apply (inv_thread _ _ _ Hk'), Hk'.
Qed.

Lemma k_msgq_put_safe o data timeout k :
  sinv J k → o ∈ dom (msgqs k) → timeout = K_NO_WAIT ∨ (timeout_ok timeout ∧ current k ≠ _idle_thread) →
  op_safe J F (k_msgq_put o data timeout) k.
Proof.
  intros Hk Hdom Hto. pose proof (msgq_inv_get k o (proj2 Hk) Hdom) as Hok. unfold op_safe, k_msgq_put. cbv zeta.
  destruct (used_msgs (msgq k o) <? max_msgs (msgq k o)) eqn:Hlt; zbool.
  - destruct (_unpend_first_thread (KMsgq, o) k) as [[t|] k1] eqn:Hu.
    + assert (k1 = _unpend_thread t k) as -> by by eapply (unpend_first_objs _ k t k1 k); [apply Hk|..].
      set (m := memcpy _ _ _ _).
      assert (sinv J (set_mem m k)) as Hm.
      { split; [|by apply msgq_inv_mem, Hk]. destruct (proj1 Hk) as [Hki ? ? ? ?].
        split; [by eapply kinv_frame; try apply Hki|done..]. }
      change (set_mem m (_unpend_thread t k)) with (_unpend_thread t (set_mem m k)).
      apply (give_way_safe J F 0 (KMsgq, o) t (set_return_value 0) (set_mem m k)); [done|done|].
      eapply unpend_wake; [apply sys_running, Hm|]. by eapply unpend_first_objs; [apply Hk|exact Hu|..].
    + apply unpend_first_None in Hu as [-> _]. simpl. split; [|done].
      split; [apply enqueue_sys_inv, Hk|by apply msgq_room; [apply Hk|..]].
  - destruct (timeout =? K_NO_WAIT) eqn:Et; [done|]. zbool. destruct Hto as [|[Hto Hi]]; [done|].
    by apply msgq_wait_safe.
Qed.

Lemma dequeue_room k o data :
  msgq_ok (msgq k o) → 0 < used_msgs (msgq k o) →
  used_msgs (msgq (dequeue o data k) o) < max_msgs (msgq (dequeue o data k) o).
Proof.
  intros [r [_ Hm _ Hu _ _ _]] Hlt. unfold dequeue. cbv zeta. rewrite msgq_upd. simpl.
  change (msgq (set_mem ?m k) o) with (msgq k o). rewrite u32_id; lia.
Qed.

Lemma k_msgq_get_safe o data timeout k :
  sinv J k → o ∈ dom (msgqs k) → timeout = K_NO_WAIT ∨ (timeout_ok timeout ∧ current k ≠ _idle_thread) →
  op_safe J F (k_msgq_get o data timeout) k.
Proof.
  intros Hk Hdom Hto. pose proof (msgq_inv_get k o (proj2 Hk) Hdom) as Hok. unfold op_safe, k_msgq_get. cbv zeta.
  destruct (used_msgs (msgq k o) >? 0) eqn:Hgt.
  - assert (0 < used_msgs (msgq k o)) as Hlt by lia.
    pose proof (dequeue_room k o data Hok Hlt) as Hroom.
    assert (msgq_ok (msgq (dequeue o data k) o)) as Hok0.
    { destruct Hok as [r Hr]. unfold dequeue. cbv zeta. rewrite msgq_upd. eexists. by apply ring_get_ptr. }
    assert (sinv J (dequeue o data k)) as Hd.
    { split; [apply dequeue_sys_inv, Hk|by apply msgq_some; [apply Hk|..]]. }
    change (current k) with (current (dequeue o data k)). set (k0 := dequeue o data k) in *. clearbody k0.
    destruct (_unpend_first_thread (KMsgq, o) k0) as [[t|] k1] eqn:Hu.
    + assert (k1 = _unpend_thread t k0) as -> by by eapply (unpend_first_objs _ k0 t k1 k0); [apply Hd|..].
      rewrite unpend_swap_data.
      change (enqueue o ?d (_unpend_thread t k0)) with (_unpend_thread t (enqueue o d k0)).
      assert (sinv J (enqueue o (swap_data (thr k0 t)) k0)) as He.
      { split; [apply enqueue_sys_inv, Hd|by apply msgq_room; [apply Hd|..]]. }
      apply (give_way_safe J F 0 (KMsgq, o) t (set_return_value 0) (enqueue o (swap_data (thr k0 t)) k0)); [done|done|].
      eapply unpend_wake; [apply sys_running, He|]. by eapply unpend_first_objs; [apply Hd|exact Hu|..].
    + apply unpend_first_None in Hu as [-> _]. done.
  - destruct (timeout =? K_NO_WAIT) eqn:Et; [done|]. zbool. destruct Hto as [|[Hto Hi]]; [done|].
    by apply msgq_wait_safe.
Qed.

(** The loop of [k_msgq_purge] empties the wait queue; every thread on it gets
    -ENOMSG. *)
Lemma purge_waiters_spec fuel o k :
  running J k → (length (q k (WQ (KMsgq, o))) ≤ fuel)%nat →
  let k' := purge_waiters fuel o k in
  running J k' ∧ current k' = current k ∧ sframe k k' ∧ q k' (WQ (KMsgq, o)) = [] ∧
  (∀ t, t ∈ q k (WQ (KMsgq, o)) → return_value (thr k' t) = - ENOMSG ∧ _is_thread_pending t k' = false) ∧
  (∀ t, t ∉ q k (WQ (KMsgq, o)) → thr k' t = thr k t).
Proof.
  revert k. induction fuel as [|fuel IH]; intros k Hk Hl; simpl.
  { destruct (q k (WQ (KMsgq, o))) eqn:Hq; [|simpl in Hl; lia].
    split_and!; [done..| |done]. intros t Ht. by apply elem_of_nil in Ht. }
  pose proof (proj1 (proj1 Hk)) as Hki. assert (handling_timeouts k = false) as Hh by apply Hk.
  destruct (_unpend_first_thread (KMsgq, o) k) as [[t|] k1] eqn:Hu.
  - pose proof (unpend_wake (KMsgq, o) k t k1 (- ENOMSG) (running_any J k Hk) Hu) as Hw.
    assert (k1 = _unpend_thread t k) as -> by by eapply (unpend_first_objs _ k t k1 k).
    set (k2 := wake_waiter _ _ _) in *. clearbody k2. pose proof (wf_head _ _ _ _ _ Hw) as Hhd.
    destruct (q k (WQ (KMsgq, o))) as [|t' ws] eqn:Hq; [done|]. injection Hhd as ->.
    pose proof (wf_tail _ _ _ _ _ ws Hki Hw Hq) as Hq2.
    destruct Hw as [_ [Hk2 _ [s Hs] _ Hp2 _] Ho Hne _].
    destruct (running_only J J_objects t k k2 Hk Ho Hk2 Hne) as [Hr2 Ec2].
    destruct (IH k2 Hr2) as (Hr' & Ec & Hf & Hq' & Hin & Hout); [rewrite Hq2; simpl in Hl; lia|].
    rewrite Hq2 in Hin, Hout. pose proof (inv_wq_nodup _ _ _ Hki (KMsgq, o)) as Hnd. rewrite Hq in Hnd.
    apply NoDup_cons in Hnd as [Hnt _].
    split_and!; [done|congruence| |done| |].
    + etrans; [by eapply only_sframe|done].
    + intros t'. rewrite elem_of_cons. intros [->|Ht']; [|auto]. rewrite (pending_ext t k2); rewrite Hout by done; [|done].
      by rewrite Hs.
    + intros t' Ht'. rewrite not_elem_of_cons in Ht'. destruct Ht'. rewrite Hout by done. by apply (proj2 Ho).
  - apply unpend_first_None in Hu as [-> Hq]. specialize (Hq Hh). rewrite Hq.
    split_and!; [done..| |done]. intros t Ht. by apply elem_of_nil in Ht.
Qed.

Lemma purged_ok x : msgq_ok x → msgq_ok (set_read_ptr (write_ptr x) (set_used_msgs 0 x)).
Proof.
  intros [r [Hs Hm He Hu Hp Hr Hw]]. exists ((r + used_msgs x) mod max_msgs x).
  pose proof (Z.mod_pos_bound (r + used_msgs x) (max_msgs x)).
  split; simpl; try done; [lia|lia|]. rewrite Z.add_0_r, Zmod_mod. done.
Qed.

Lemma k_msgq_purge_safe o k : sinv J k → o ∈ dom (msgqs k) → op_safe J F (k_msgq_purge o) k.
Proof.
  intros Hk Hdom. pose proof (msgq_inv_get k o (proj2 Hk) Hdom) as Hok. unfold op_safe, k_msgq_purge. cbv zeta.
  destruct (purge_waiters_spec (length (q k (WQ (KMsgq, o)))) o k) as ([(Hk1 & Hn & Hh & HJ) Hr1] & Ec & Hf & _);
    [by apply running_sinv|done|].
  set (k1 := purge_waiters _ _ _) in *. clearbody k1. rewrite <-Ec.
  assert (msgq k1 o = msgq k o) as Em by (unfold msgq; by rewrite (proj1 Hf)).
  apply (reschedule_safe J F J_objects (upd_msgq o _ k1)); [|done].
  split_and!; [by eapply kinv_frame; try apply Hk1|done|done|].
  apply msgq_inv_set; [done|]. rewrite Em. by apply purged_ok.
Qed.
End safe.

(** ** Properties *)
Lemma msgq_put_queued o data timeout k :
  sys_inv k → msgq_ok (msgq k o) → q k (WQ (KMsgq, o)) = [] → used_msgs (msgq k o) < max_msgs (msgq k o) →
  k_msgq_put o data timeout k = Done 0 (enqueue o data k).
Proof.
  intros Hk Hok Hq Hlt. unfold k_msgq_put. cbv zeta. rewrite (proj2 (Z.ltb_lt _ _) Hlt).
  by rewrite (unpend_first_empty _ k (sys_handling _ Hk) Hq).
Qed.
Lemma msgq_get_queued o data timeout k :
  sys_inv k → q k (WQ (KMsgq, o)) = [] → 0 < used_msgs (msgq k o) →
  k_msgq_get o data timeout k = Done 0 (dequeue o data k).
Proof.
  intros Hk Hq Hlt. unfold k_msgq_get. rewrite (proj2 (Z.gtb_lt _ _) Hlt). cbv zeta.
  by rewrite (unpend_first_empty _ (dequeue o data k) (sys_handling _ Hk) Hq).
Qed.

(** C8: with no thread waiting, a message queue is a bounded FIFO: putting
    appends the message's bytes unless the queue is full, getting copies the
    bytes of the oldest message to the caller's buffer and removes it unless
    the queue is empty; the refusals (-ENOMSG) change nothing. *)
Theorem msgq_fifo_refines o data timeout k :
  sys_inv k → msgq_ok (msgq k o) → q k (WQ (KMsgq, o)) = [] → outside (msgq k o) data →
  (Z.of_nat (length (messages o k)) < max_msgs (msgq k o) →
    ∃ k', k_msgq_put o data timeout k = Done 0 k' ∧ msgq_ok (msgq k' o) ∧
      messages o k' = messages o k ++ [bytes (mem k) data (msg_size (msgq k o))]) ∧
  (Z.of_nat (length (messages o k)) = max_msgs (msgq k o) →
    k_msgq_put o data K_NO_WAIT k = Done (- ENOMSG) k) ∧
  (∀ m ms, messages o k = m :: ms →
    ∃ k', k_msgq_get o data timeout k = Done 0 k' ∧ msgq_ok (msgq k' o) ∧
      bytes (mem k') data (msg_size (msgq k o)) = m ∧ messages o k' = ms) ∧
  (messages o k = [] → k_msgq_get o data K_NO_WAIT k = Done (- ENOMSG) k).
Proof.
  intros Hk Hok Hq Hd. pose proof (messages_length o k Hok) as Hlen. rewrite Hlen.
  split_and!.
  - intros Hlt. rewrite msgq_put_queued by done. eexists. split; [done|]. by apply messages_enqueue.
  - intros Hful. unfold k_msgq_put. cbv zeta. by rewrite Hful, Z.ltb_irrefl.
  - intros m ms Hm. rewrite Hm in Hlen. simpl in Hlen. rewrite msgq_get_queued by (done || lia).
    destruct (messages_dequeue o data k) as [Hok' Hms]; [done|lia|done|]. rewrite Hm in Hms. simplify_eq.
    eexists. by split_and!.
  - intros Hm. rewrite Hm in Hlen. simpl in Hlen. unfold k_msgq_get. by rewrite <-Hlen.
Qed.

(** C17: a receiver that takes the oldest message lets the first waiting sender
    in: its message goes to the end of the queue, so messages keep their
    order, and its [k_msgq_put] returns 0. *)
Theorem k_msgq_get_admits_sender o data timeout k t ws m ms :
  sys_inv k → msgq_ok (msgq k o) → q k (WQ (KMsgq, o)) = t :: ws → messages o k = m :: ms →
  outside (msgq k o) data →
  disjoint_ranges data (msg_size (msgq k o)) (swap_data (thr k t)) (msg_size (msgq k o)) →
  ∃ k', k_msgq_get o data timeout k =
      (if negb (_is_in_isr k') && _must_switch_threads k' then let% _ k := _Swap k' in Done 0 k else Done 0 k') ∧
    messages o k' = ms ++ [bytes (mem k) (swap_data (thr k t)) (msg_size (msgq k o))] ∧
    bytes (mem k') data (msg_size (msgq k o)) = m ∧ q k' (WQ (KMsgq, o)) = ws ∧
    return_value (thr k' t) = 0 ∧ _is_thread_pending t k' = false.
Proof.
  intros Hk Hok Hq Hm Hd Hdd. pose proof (messages_length o k Hok) as Hlen. rewrite Hm in Hlen. simpl in Hlen.
  assert (0 < used_msgs (msgq k o)) as Hlt by lia. set (d := swap_data (thr k t)) in *.
  destruct (messages_dequeue o data k Hok Hlt Hd) as [Hok0 Hms]. rewrite Hm in Hms.
  assert (m = bytes (mem (dequeue o data k)) data (msg_size (msgq k o)) ∧ ms = messages o (dequeue o data k))
    as [Em Ems] by (split; congruence).
  pose proof (dequeue_room k o data Hok Hlt) as Hroom. pose proof (dequeue_sys_inv o data k Hk) as Hk0.
  assert (swap_data (thr (dequeue o data k) t) = d) as Ed by done.
  assert (bytes (mem (dequeue o data k)) d (msg_size (msgq k o)) = bytes (mem k) d (msg_size (msgq k o))) as Ebd.
  { apply bytes_memcpy_other; [|done]. destruct Hok as [r []]. lia. }
  assert (msg_size (msgq (dequeue o data k) o) = msg_size (msgq k o) ∧
    max_msgs (msgq (dequeue o data k) o) = max_msgs (msgq k o) ∧
    buffer_start (msgq (dequeue o data k) o) = buffer_start (msgq k o)) as (Es & Emx & Eb).
  { unfold dequeue. cbv zeta. rewrite msgq_upd. done. }
  change (q (dequeue o data k) (WQ (KMsgq, o)) = t :: ws) in Hq.
  unfold k_msgq_get. rewrite (proj2 (Z.gtb_lt _ _) Hlt). cbv zeta. set (k0 := dequeue o data k) in *. clearbody k0.
  rewrite (unpend_first_cons _ k0 t ws (sys_handling _ Hk0) Hq), unpend_swap_data, Ed.
  change (enqueue o d (_unpend_thread t k0)) with (_unpend_thread t (enqueue o d k0)).
  destruct (messages_enqueue o d k0 Hok0 Hroom) as [Hok1 Hms1]. rewrite Es, Ebd, <-Ems in Hms1.
  pose proof (enqueue_sys_inv o d k0 Hk0) as Hk1.
  assert (bytes (mem (enqueue o d k0)) data (msg_size (msgq k o)) = m) as Ebm.
  { rewrite Em. unfold enqueue. simpl. rewrite Es. apply bytes_memcpy_other; [destruct Hok as [r []]; lia|].
    destruct Hok0 as [r0 [? ? ? ? ? ? Hw]]. rewrite Hw.
    pose proof (Z.mod_pos_bound (r0 + used_msgs (msgq k0 o)) (max_msgs (msgq k0 o))).
    unfold outside, disjoint_ranges, slot in *. rewrite ?Es, ?Emx, ?Eb in *. nia. }
  change (q (enqueue o d k0) (WQ (KMsgq, o)) = t :: ws) in Hq.
  assert (_unpend_first_thread (KMsgq, o) (enqueue o d k0) = (Some t, _unpend_thread t (enqueue o d k0))) as Hu
    by by apply (unpend_first_cons _ _ t ws); [apply Hk1|].
  pose proof (unpend_wake (KMsgq, o) _ t _ 0 (sys_running _ Hk1) Hu) as Hw. set (k1 := enqueue o d k0) in *. clearbody k1.
  set (k2 := wake_waiter _ _ _) in *. clearbody k2.
  exists k2. split; [done|]. pose proof (wf_tail _ _ _ _ _ ws (sys_kinv _ Hk1) Hw Hq) as Hq2.
  destruct Hw as [_ [_ _ [s Hs] _ Hp _] Ho _ _]. pose proof (proj1 (only_sframe _ _ _ Ho)) as Hf.
  split_and!; [|by rewrite Hf|done|by rewrite Hs|done].
  rewrite <-Hms1. unfold messages, msgq. by rewrite Hf.
Qed.


(** A sender that finds a receiver waiting copies its message straight into
    the receiver's buffer; the queue itself does not change and the receiver's
    [k_msgq_get] returns 0. *)
Theorem k_msgq_put_hands_over o data timeout k t ws :
  sys_inv k → msgq_ok (msgq k o) → q k (WQ (KMsgq, o)) = t :: ws → used_msgs (msgq k o) < max_msgs (msgq k o) →
  outside (msgq k o) (swap_data (thr k t)) →
  ∃ k', k_msgq_put o data timeout k =
      (if negb (_is_in_isr k') && _must_switch_threads k' then let% _ k := _Swap k' in Done 0 k else Done 0 k') ∧
    bytes (mem k') (swap_data (thr k t)) (msg_size (msgq k o)) = bytes (mem k) data (msg_size (msgq k o)) ∧
    messages o k' = messages o k ∧ q k' (WQ (KMsgq, o)) = ws ∧
    return_value (thr k' t) = 0 ∧ _is_thread_pending t k' = false.
Proof.
  intros Hk Hok Hq Hlt Hd. unfold k_msgq_put. cbv zeta. rewrite (proj2 (Z.ltb_lt _ _) Hlt).
  rewrite (unpend_first_cons _ k t ws (sys_handling _ Hk) Hq), unpend_swap_data.
  set (m := memcpy _ _ _ _). change (set_mem m (_unpend_thread t k)) with (_unpend_thread t (set_mem m k)).
  assert (sys_inv (set_mem m k)) as Hk1.
  { destruct Hk as [Hki ? ? ? ?]. split; [by eapply kinv_frame; try apply Hki|done..]. }
  assert (messages o (set_mem m k) = messages o k) as Em.
  { destruct Hok as [r Hr]. rewrite !(messages_at o _ r) by done. destruct Hr as [? ? ? ? ? ? ?].
    apply list_fmap_ext. intros j i Hi. apply list_elem_of_lookup_2, elem_of_seqZ in Hi.
    apply bytes_memcpy_other; [lia|]. pose proof (Z.mod_pos_bound (r + i) (max_msgs (msgq k o))).
    unfold outside, disjoint_ranges, slot in *. nia. }
  pose proof (unpend_first_cons (KMsgq, o) (set_mem m k) t ws (sys_handling _ Hk1) Hq) as Hu.
  pose proof (unpend_wake (KMsgq, o) _ t _ 0 (sys_running _ Hk1) Hu) as Hw.
  set (k1 := set_mem m k) in *. set (k2 := wake_waiter _ _ _) in *. clearbody k2.
  exists k2. split; [done|]. pose proof (wf_tail _ _ _ _ _ ws (sys_kinv _ Hk1) Hw Hq) as Hq2.
  destruct Hw as [_ [_ _ [s Hs] _ Hp _] Ho _ _]. pose proof (proj1 (only_sframe _ _ _ Ho)) as Hf.
  split_and!; [|rewrite <-Em; unfold messages, msgq; by rewrite Hf|done|by rewrite Hs|done].
  assert (mem k2 = m) as -> by by rewrite Hf. apply bytes_memcpy.
Qed.

(** Purging empties the queue and its wait queue: every waiting thread is
    woken with -ENOMSG, and no other thread changes before the purging thread
    gives way. *)
Theorem k_msgq_purge_empties o k :
  sys_inv k → msgq_ok (msgq k o) →
  ∃ k', k_msgq_purge o k = _reschedule_threads k' ∧ msgq_ok (msgq k' o) ∧ messages o k' = [] ∧
    q k' (WQ (KMsgq, o)) = [] ∧
    (∀ t, t ∈ q k (WQ (KMsgq, o)) → return_value (thr k' t) = - ENOMSG ∧ _is_thread_pending t k' = false) ∧
    (∀ t, t ∉ q k (WQ (KMsgq, o)) → thr k' t = thr k t).
Proof.
  intros Hk Hok. unfold k_msgq_purge. cbv zeta.
  destruct (purge_waiters_spec (λ _, True) ltac:(done) (length (q k (WQ (KMsgq, o)))) o k)
    as (_ & _ & Hf & Hq & Hin & Hout); [by apply sys_running|done|].
  set (k1 := purge_waiters _ _ _) in *. clearbody k1.
  assert (msgq k1 o = msgq k o) as Em by (unfold msgq; by rewrite (proj1 Hf)).
  eexists. split; [done|]. rewrite msgq_upd, Em. split_and!; [by apply purged_ok| |done|done|done].
  unfold messages, ring_messages. by rewrite msgq_upd.
Qed.

(** Every queue that has been initialised is well formed. *)
Definition msgqs_ok (k : kernel) : Prop := ∀ o, o ∈ dom (msgqs k) → msgq_ok (msgq k o).
#[export] Instance msgqs_ok_inv : MsgqInv msgqs_ok.
Proof.
  split; [by intros k o Hk; apply Hk| |done]. intros k o x Hk Hx o'. unfold msgq. simpl.
  rewrite dom_insert_L, elem_of_union, elem_of_singleton. destruct (decide (o = o')) as [<-|Hne].
  - by rewrite lookup_total_insert_eq.
  - rewrite lookup_total_insert_ne by done. intros [|Hd]; [done|]. by apply Hk.
Qed.
Lemma msgqs_ok_objects k k' : same_objects k k' → msgqs_ok k → msgqs_ok k'.
Proof. intros (_ & _ & Em & _) Hk o. unfold msgq. rewrite Em. apply Hk. Qed.
Lemma msgqs_ok_none k : msgqs k = ∅ → msgqs_ok k.
Proof. intros E o. rewrite E, dom_empty_L. by intros ?%not_elem_of_empty. Qed.

End msgq.

(** ** The properties at work *)

(** A queue of [max] messages of two bytes at 1000, [used] of which are there. *)
Notation sc_queue max used :=
  (mk_msgq 2 max 1000 (1000 + max * 2) 1000 (1000 + (used mod max) * 2) used).
Notation sc_msgq max used :=
  (upd_msgq 0 (λ _, sc_queue max used) (set_mem (write_bytes 1000 [1; 2; 3; 4; 5; 6; 7; 8] ∅) two_threads)).
Lemma sc_queue_ok max used : 0 < max < 4294967296 → 0 ≤ used ≤ max → msgq_ok (sc_queue max used).
Proof.
  intros Hm Hu. exists 0. split; unfold slot; simpl; try lia; done.
Qed.
Lemma sc_msgq_sys_inv max used : sys_inv (sc_msgq max used).
Proof. apply sys_inv_msgq, two_threads_sys_inv. Qed.
Lemma sc_msgq_sinv max used :
  0 < max < 4294967296 → 0 ≤ used ≤ max → sinv msgqs_ok (sc_msgq max used).
Proof.
  intros Hm Hu. split; [apply sc_msgq_sys_inv|]. apply (msgq_inv_set (J := msgqs_ok)); [|by apply sc_queue_ok].
  apply msgqs_ok_none. by vm_compute.
Qed.
(** The main thread waits to receive at 500, or to send the bytes at 1004. *)
Notation sc_receiver := (after (k_msgq_get 0 500 K_FOREVER (sc_msgq 3 0))).
Notation sc_sender := (after (k_msgq_put 0 1004 K_FOREVER (sc_msgq 1 1))).
Lemma sc_receiver_sys_inv : sys_inv sc_receiver.
Proof.
  refine (proj1 (op_safe_after msgqs_ok (k_msgq_get 0 500 K_FOREVER) (sc_msgq 3 0) _)).
  apply k_msgq_get_safe; [apply msgqs_ok_inv|apply msgqs_ok_objects|by apply sc_msgq_sinv|apply in_dom; by vm_compute|].
  right. split; [by left|by vm_compute].
Qed.
Lemma sc_sender_sys_inv : sys_inv sc_sender.
Proof.
  refine (proj1 (op_safe_after msgqs_ok (k_msgq_put 0 1004 K_FOREVER) (sc_msgq 1 1) _)).
  apply k_msgq_put_safe; [apply msgqs_ok_inv|apply msgqs_ok_objects|by apply sc_msgq_sinv|apply in_dom; by vm_compute|].
  right. split; [by left|by vm_compute].
Qed.
Lemma sc_receiver_msgq : msgq sc_receiver 0 = sc_queue 3 0.
Proof. by vm_compute. Qed.
Lemma sc_sender_msgq : msgq sc_sender 0 = sc_queue 1 1.
Proof. by vm_compute. Qed.

Lemma msgq_fifo_refines_witness :
  ∃ k', k_msgq_put 0 1004 K_NO_WAIT (sc_msgq 2 1) = Done 0 k' ∧ messages 0 k' = [[1; 2]; [5; 6]].
Proof.
  destruct (msgq_fifo_refines 0 1004 K_NO_WAIT (sc_msgq 2 1)) as (Hput & _).
  - apply sc_msgq_sys_inv.
  - rewrite msgq_upd. by apply sc_queue_ok.
  - by vm_compute.
  - right. by vm_compute.
  - destruct Hput as (k' & E & _ & Hm); [by vm_compute|]. exists k'. split; [exact E|]. rewrite Hm. by vm_compute.
Defined.

Lemma k_msgq_get_admits_sender_witness :
  ∃ k', messages 0 k' = [[5; 6]] ∧ bytes (mem k') 500 2 = [1; 2] ∧ return_value (thr k' sc_main) = 0.
Proof.
  destruct (k_msgq_get_admits_sender 0 500 K_NO_WAIT sc_sender sc_main [] [1; 2] [])
    as (k' & _ & Hm & Hb & _ & Hr & _).
  - apply sc_sender_sys_inv.
  - rewrite sc_sender_msgq. by apply sc_queue_ok.
  - by vm_compute.
  - by vm_compute.
  - left. by vm_compute.
  - left. by vm_compute.
  - exists k'. rewrite sc_sender_msgq in Hb. split; [rewrite Hm; by vm_compute|]. exact (conj Hb Hr).
Defined.

Lemma k_msgq_put_hands_over_witness :
  ∃ k', bytes (mem k') 500 2 = [5; 6] ∧ messages 0 k' = [] ∧ return_value (thr k' sc_main) = 0.
Proof.
  destruct (k_msgq_put_hands_over 0 1004 K_NO_WAIT sc_receiver sc_main [])
    as (k' & _ & Hb & Hm & _ & Hr & _).
  - apply sc_receiver_sys_inv.
  - rewrite sc_receiver_msgq. by apply sc_queue_ok.
  - by vm_compute.
  - by vm_compute.
  - left. by vm_compute.
  - exists k'. rewrite sc_receiver_msgq in Hb. assert (swap_data (thr sc_receiver sc_main) = 500) as Es by by vm_compute.
    rewrite Es in Hb. change (msg_size (sc_queue 3 0)) with 2 in Hb.
    split; [rewrite Hb; by vm_compute|]. split; [rewrite Hm; by vm_compute|exact Hr].
Defined.

Lemma k_msgq_purge_empties_witness :
  ∃ k', k_msgq_purge 0 sc_sender = _reschedule_threads k' ∧ messages 0 k' = [] ∧ return_value (thr k' sc_main) = - ENOMSG.
Proof.
  destruct (k_msgq_purge_empties 0 sc_sender) as (k' & E & _ & Hm & _ & Hin & _).
  - apply sc_sender_sys_inv.
  - rewrite sc_sender_msgq. by apply sc_queue_ok.
  - exists k'. split; [exact E|]. split; [exact Hm|]. apply Hin.
    assert (q sc_sender (WQ (KMsgq, 0%nat)) = [sc_main]) as -> by by vm_compute. apply list_elem_of_here.
Defined.
