(* ===== verification/KStack.v ===== *)
(** * Stacks (kernel/stack.c)

    A stack is an array of words with a pointer to the next free one; a word
    pushed while threads wait goes to the first of them instead. *)
From stdpp Require Import gmap list.
From S2P Require Import Prelude Dlist KState Ksched TimeoutQ SchedInv Outcome Sched Thread WaitQ Scenario.
Local Open Scope Z_scope.
Local Open Scope outcome_scope.

Section stack.
Context `{KConfig}.

Definition stack (k : kernel) (o : nat) : k_stack := stacks k !!! o.
Definition upd_stack (o : nat) (f : k_stack → k_stack) (k : kernel) : kernel :=
  set_stacks (<[o := f (stack k o)]> (stacks k)) k.
(** A word is four bytes. *)
Definition store (a v : Z) (k : kernel) : kernel := set_words (<[a := v]> (words k)) k.
Definition load (a : Z) (k : kernel) : Z := words k !!! a.

Definition k_stack_init (o : nat) (buffer num_entries : Z) (k : kernel) : kernel :=
  let k := set_queues (DlistSpec.init (WQ (KStack, o)) (queues k)) k in
  upd_stack o (λ _, mk_stack buffer buffer (buffer + 4 * num_entries)) k.

Definition k_stack_push (o : nat) (data : Z) (k : kernel) : outcome unit :=
  match _unpend_first_thread (KStack, o) k with
  | (Some t, k) =>
      let k := (_abort_thread_timeout t k).2 in
      let k := _ready_thread t k in
      let k := _set_thread_return_value_with_data t 0 data k in
      if negb (_is_in_isr k) && _must_switch_threads k
      then let% _ k := _Swap k in Done tt k else Done tt k
  | (None, k) =>
      let k := store (st_next (stack k o)) data k in
      Done tt (upd_stack o (λ x, set_st_next (st_next x + 4) x) k)
  end.

Definition k_stack_pop (o : nat) (data timeout : Z) (k : kernel) : outcome Z :=
  if st_next (stack k o) >? st_base (stack k o) then
    let k := upd_stack o (λ x, set_st_next (st_next x - 4) x) k in
    Done 0 (store data (load (st_next (stack k o)) k) k)
  else if timeout =? K_NO_WAIT then Done (- EBUSY) k
  else
    let k := _pend_current_thread (KStack, o) timeout k in
    let% result k := _Swap k in
    if result =? 0 then Done result (store data (u32 (swap_data (thr k (current k)))) k)
    else Done result k.

(** ** Contents *)
Definition stack_ok (x : k_stack) (n : Z) : Prop :=
  0 ≤ n ∧ st_next x = st_base x + 4 * n ∧ st_next x ≤ st_top x.

(** The words of the stack, the last one pushed first. *)
Fixpoint words_below (n : nat) (a : Z) (w : gmap Z Z) : list Z :=
  match n with
  | O => []
  | S n => w !!! (a - 4) :: words_below n (a - 4) w
  end.
Definition depth (x : k_stack) : Z := (st_next x - st_base x) / 4.
Definition contents (o : nat) (k : kernel) : list Z :=
  words_below (Z.to_nat (depth (stack k o))) (st_next (stack k o)) (words k).

Lemma words_below_insert n a b v w :
  a ≤ b ∨ b < a - 4 * Z.of_nat n → words_below n a (<[b := v]> w) = words_below n a w.
Proof.
  revert a. induction n as [|n IH]; intros a Hb; simpl; [done|]. rewrite IH by lia.
  rewrite lookup_total_insert_ne by lia. done.
Qed.
Lemma stack_upd o f k : stack (upd_stack o f k) o = f (stack k o).
Proof. unfold stack at 1, upd_stack. simpl. by rewrite lookup_total_insert_eq. Qed.
Lemma depth_ok x n : stack_ok x n → depth x = n.
Proof.
  intros (Hn & Hx & _). unfold depth. rewrite Hx. replace (st_base x + 4 * n - st_base x) with (n * 4) by lia.
  apply Z.div_mul. lia.
Qed.
Lemma contents_ok o k n :
  stack_ok (stack k o) n → contents o k = words_below (Z.to_nat n) (st_next (stack k o)) (words k).
Proof. intros Hok. unfold contents. by rewrite (depth_ok _ n). Qed.

(** ** Safety within the system *)

(** [J] says nothing about stacks and the words in memory. *)
Class StackFree (J : kernel → Prop) := stack_free : ∀ k s w, J k → J (set_words w (set_stacks s k)).

Lemma sys_inv_stack s w k : sys_inv k → sys_inv (set_words w (set_stacks s k)).
Proof. intros [Hk Hc Hn Hh Hp]. split; [by eapply kinv_frame; try apply Hk|done..]. Qed.
Lemma sinv_stack J `{!StackFree J} s w k : sinv J k → sinv J (set_words w (set_stacks s k)).
Proof. intros [Hk HJ]. split; [by apply sys_inv_stack|by apply stack_free]. Qed.

Lemma push_woken o data k t k1 :
  running (λ _, True) k → _unpend_first_thread (KStack, o) k = (Some t, k1) →
  woken_first (KStack, o) t (λ x, set_swap_data data (set_return_value 0 x)) k
    (_set_thread_return_value_with_data t 0 data (_ready_thread t (_abort_thread_timeout t (_unpend_thread t k)).2)).
Proof.
  intros Hk Hu. eapply unpend_woken; [done|done|]. intros Hup.
  unfold _set_thread_return_value_with_data, _set_thread_return_value. rewrite upd_thread_twice.
  apply wake_after; [done|apply ret_upd_data].
Qed.

Section safe.
Context (J : kernel → Prop) (F : Prop) `{!StackFree J}.
Hypothesis J_objects : ∀ k k', same_objects k k' → J k → J k'.

Lemma k_stack_push_safe o data k : sinv J k → op_safe J F (k_stack_push o data) k.
Proof.
  intros Hk. unfold op_safe, k_stack_push. destruct (_unpend_first_thread (KStack, o) k) as [[t|] k1] eqn:Hu.
  - assert (k1 = _unpend_thread t k) as -> by by eapply (unpend_first_objs _ k t k1 k); [apply Hk|..].
    cbv zeta. eapply give_way_safe; [done|done|]. eapply push_woken; [apply sys_running, Hk|done].
  - apply unpend_first_None in Hu as [-> _]. simpl. split; [|done]. by apply sinv_stack.
Qed.
Lemma k_stack_pop_safe o data timeout k :
  sinv J k → timeout = K_NO_WAIT ∨ (timeout_ok timeout ∧ current k ≠ _idle_thread) →
  op_safe J F (k_stack_pop o data timeout) k.
Proof.
  intros Hk Hto. unfold op_safe, k_stack_pop. destruct (_ >? _).
  - simpl. split; [|done]. by apply sinv_stack.
  - destruct (timeout =? K_NO_WAIT) eqn:Et; [done|]. zbool. destruct Hto as [|[Hto Hi]]; [done|]. cbv zeta.
    destruct (pend_current_spec [] (KStack, o) timeout k) as (Hk' & Hf & _); [apply Hk|apply Hk|done|done|by left|].
    eapply osafe_bind; [apply swap_safe; [done|]|].
    { by eapply swap_ready_frame; [|apply swap_ready_sinv| |]. }
    intros r k2 [Hk2 Hc2]. destruct (r =? 0); simpl; [|done]. split; [|done].
    by apply (sinv_stack J (stacks k2) _ k2).
Qed.
End safe.
(** ** Properties *)

(** C24: with no thread waiting, a stack is a LIFO of words: pushing puts the
    word on top, popping stores the top word at the given address and removes
    it, and popping an empty stack without waiting is refused with -EBUSY and
    changes nothing. *)
Theorem stack_lifo_refines o data addr timeout k n :
  sys_inv k → stack_ok (stack k o) n → q k (WQ (KStack, o)) = [] →
  addr + 4 ≤ st_base (stack k o) ∨ st_top (stack k o) ≤ addr →
  (st_next (stack k o) + 4 ≤ st_top (stack k o) →
    ∃ k', k_stack_push o data k = Done tt k' ∧ stack_ok (stack k' o) (n + 1) ∧ contents o k' = data :: contents o k) ∧
  (∀ v vs, contents o k = v :: vs →
    ∃ k', k_stack_pop o addr timeout k = Done 0 k' ∧ stack_ok (stack k' o) (n - 1) ∧ load addr k' = v ∧
      contents o k' = vs) ∧
  (contents o k = [] → k_stack_pop o addr K_NO_WAIT k = Done (- EBUSY) k).
Proof.
  intros Hk Hok Hq Ha. pose proof Hok as (Hn & Hx & Ht). rewrite (contents_ok o k n Hok). split_and!.
  - intros Hroom. unfold k_stack_push. rewrite (unpend_first_empty _ k (sys_handling _ Hk) Hq).
    eexists. split; [done|]. rewrite stack_upd. change (stack (store ?a ?v k) o) with (stack k o).
    assert (stack_ok (set_st_next (st_next (stack k o) + 4) (stack k o)) (n + 1)) as Hok' by (unfold stack_ok; simpl; lia).
    split; [done|]. rewrite (contents_ok o _ (n + 1)) by (rewrite stack_upd; exact Hok').
    rewrite stack_upd. change (stack (store ?a ?v k) o) with (stack k o). simpl.
    replace (Z.to_nat (n + 1)) with (S (Z.to_nat n)) by lia. simpl.
    replace (st_next (stack k o) + 4 - 4) with (st_next (stack k o)) by lia.
    rewrite lookup_total_insert_eq, words_below_insert by lia. done.
  - intros v vs Hc. destruct (Z.to_nat n) as [|n'] eqn:En; [done|]. simpl in Hc. injection Hc as Hv Hvs.
    unfold k_stack_pop. rewrite (proj2 (Z.gtb_lt _ _)) by lia. cbv zeta. eexists. split; [done|].
    change (stack (store ?a ?v ?k) o) with (stack k o). rewrite stack_upd.
    assert (stack_ok (set_st_next (st_next (stack k o) - 4) (stack k o)) (n - 1)) as Hok' by (unfold stack_ok; simpl; lia).
    split; [done|]. split; [unfold load, store; simpl; by rewrite lookup_total_insert_eq|].
    rewrite (contents_ok o _ (n - 1)) by (change (stack (store ?a ?v ?k) o) with (stack k o); rewrite stack_upd; exact Hok').
    change (stack (store ?a ?v ?k) o) with (stack k o). rewrite stack_upd. simpl.
    replace (Z.to_nat (n - 1)) with n' by lia. by rewrite words_below_insert by lia.
  - intros Hc. destruct (Z.to_nat n) eqn:En; [|done]. unfold k_stack_pop.
    assert (st_next (stack k o) >? st_base (stack k o) = false) as -> by lia. done.
Qed.

(** A word pushed while threads wait goes to the first of them and not on
    the stack; a [k_stack_pop] that waited stores the word it was given at its
    address and returns 0, or returns the error and stores nothing. *)
Theorem k_stack_push_hands_over o data addr timeout k t ws :
  sys_inv k → q k (WQ (KStack, o)) = t :: ws → timeout ≠ K_NO_WAIT →
  (∃ k', k_stack_push o data k =
      (if negb (_is_in_isr k') && _must_switch_threads k' then let% _ k := _Swap k' in Done tt k else Done tt k') ∧
    contents o k' = contents o k ∧ q k' (WQ (KStack, o)) = ws ∧ _is_thread_pending t k' = false ∧
    return_value (thr k' t) = 0 ∧ swap_data (thr k' t) = data) ∧
  (st_next (stack k o) = st_base (stack k o) →
    ∃ k1 resume, k_stack_pop o addr timeout k = Swapped k1 resume ∧
      ∀ k2, let x := thr k2 (current k2) in
        resume k2 = if return_value x =? 0 then Done 0 (store addr (u32 (swap_data x)) k2)
                    else Done (return_value x) k2).
Proof.
  intros Hk Hq Hnw. split.
  - unfold k_stack_push. pose proof (unpend_first_cons _ k t ws (sys_handling _ Hk) Hq) as Hu. rewrite Hu.
    pose proof (push_woken o data k t _ (sys_running _ Hk) Hu) as Hw.
    cbv zeta. set (k' := _set_thread_return_value_with_data _ _ _ _) in *. clearbody k'. exists k'. split; [done|].
    pose proof (wf_tail _ _ _ _ _ ws (sys_kinv _ Hk) Hw Hq) as Hq'.
    destruct Hw as [_ [_ _ [s Hs] _ Hp _] Ho _ _]. pose proof (proj1 (only_sframe _ _ _ Ho)) as Hf.
    split_and!; [unfold contents, stack; by rewrite Hf|done|done|by rewrite Hs|by rewrite Hs].
  - intros He. unfold k_stack_pop. assert (st_next (stack k o) >? st_base (stack k o) = false) as -> by lia.
    rewrite (proj2 (Z.eqb_neq _ _) Hnw). cbv zeta. rewrite swap_switched. eexists _, _. split; [reflexivity|].
    intros k2. simpl. destruct (return_value (thr k2 (current k2)) =? 0) eqn:E; zbool; [by rewrite E|done].
Qed.

End stack.

(** ** The properties at work *)

(** An array of four words at 2000, two of them pushed. *)
Notation sc_stack n :=
  (set_words (<[2000 := 7]> (<[2004 := 9]> ∅)) (set_stacks (<[0%nat := mk_stack 2000 (2000 + 4 * n) 2016]> ∅) two_threads)).
Notation sc_popping := (after (k_stack_pop 0 500 K_FOREVER (sc_stack 0))).
Lemma sc_popping_sys_inv : sys_inv sc_popping.
Proof.
  refine (proj1 (op_safe_after (λ _, True) (k_stack_pop 0 500 K_FOREVER) (sc_stack 0) _)).
  apply k_stack_pop_safe; [done|done|split; [apply sys_inv_stack, two_threads_sys_inv|done]|].
  right. split; [by left|by vm_compute].
Qed.

Lemma stack_lifo_refines_witness :
  ∃ k', k_stack_pop 0 500 K_FOREVER (sc_stack 2) = Done 0 k' ∧ load 500 k' = 9 ∧ contents 0 k' = [7].
Proof.
  destruct (stack_lifo_refines 0 5 500 K_FOREVER (sc_stack 2) 2) as (_ & Hpop & _).
  - apply sys_inv_stack, two_threads_sys_inv.
  - by vm_compute.
  - by vm_compute.
  - left. by vm_compute.
  - destruct (Hpop 9 [7]) as (k' & E & _ & Hl & Hc); [by vm_compute|]. exists k'. exact (conj E (conj Hl Hc)).
Defined.

Lemma k_stack_push_hands_over_witness :
  ∃ k', contents 0 k' = [] ∧ return_value (thr k' sc_main) = 0 ∧ swap_data (thr k' sc_main) = 5.
Proof.
  destruct (k_stack_push_hands_over 0 5 500 K_FOREVER sc_popping sc_main []) as [(k' & _ & Hc & _ & _ & Hr & Hs) _].
  - apply sc_popping_sys_inv.
  - by vm_compute.
  - done.
  - exists k'. split; [rewrite Hc; by vm_compute|exact (conj Hr Hs)].
Defined.
