(* ===== verification/MemSlab.v ===== *)
(** * Memory slabs (kernel/mem_slab.c)

    A slab is an array of equal blocks; the free ones are chained through their
    first words. *)
From stdpp Require Import gmap list.
From S2P Require Import Prelude Dlist KState Slist Ksched TimeoutQ SchedInv Outcome Sched Thread WaitQ Scenario KStack.
Local Open Scope Z_scope.
Local Open Scope outcome_scope.

Section slab.
Context `{KConfig}.

Definition slab (k : kernel) (o : nat) : k_mem_slab := slabs k !!! o.
Definition upd_slab (o : nat) (f : k_mem_slab → k_mem_slab) (k : kernel) : kernel :=
  set_slabs (<[o := f (slab k o)]> (slabs k)) k.

(** The [for] loop of [create_free_list]. *)
Fixpoint create_loop (n : nat) (block_size p free : Z) (w : gmap Z Z) : Z * gmap Z Z :=
  match n with
  | O => (free, w)
  | S n => create_loop n block_size (p + block_size) p (<[p := free]> w)
  end.
Definition create_free_list (o : nat) (k : kernel) : kernel :=
  let x := slab k o in
  let '(free, w) := create_loop (Z.to_nat (num_blocks x)) (block_size x) (sl_buffer x) NULL (words k) in
  upd_slab o (set_free_list free) (set_words w k).

Definition k_mem_slab_init (o : nat) (buffer size blocks : Z) (k : kernel) : kernel :=
  let k := upd_slab o (λ x, mk_slab blocks size buffer (free_list x) 0) k in
  let k := create_free_list o k in
  set_queues (DlistSpec.init (WQ (KSlab, o)) (queues k)) k.

(** [ptr] is the address at which the block's address is stored. *)
Definition k_mem_slab_alloc (o : nat) (ptr timeout : Z) (k : kernel) : outcome Z :=
  let b := free_list (slab k o) in
  if negb (b =? NULL) then
    let k := store ptr b k in
    let k := upd_slab o (λ x, set_free_list (load b k) x) k in
    Done 0 (upd_slab o (λ x, set_num_used (u32 (num_used x + 1)) x) k)
  else if timeout =? K_NO_WAIT then Done (- ENOMEM) (store ptr NULL k)
  else
    let k := _pend_current_thread (KSlab, o) timeout k in
    let% result k := _Swap k in
    if result =? 0 then Done result (store ptr (swap_data (thr k (current k))) k)
    else Done result k.

Definition k_mem_slab_free (o : nat) (ptr : Z) (k : kernel) : outcome unit :=
  match _unpend_first_thread (KSlab, o) k with
  | (Some t, k) =>
      let k := _set_thread_return_value_with_data t 0 (load ptr k) k in
      let k := (_abort_thread_timeout t k).2 in
      let k := _ready_thread t k in
      if _must_switch_threads k then let% _ k := _Swap k in Done tt k else Done tt k
  | (None, k) =>
      let k := store (load ptr k) (free_list (slab k o)) k in
      let k := upd_slab o (set_free_list (load ptr k)) k in
      Done tt (upd_slab o (λ x, set_num_used (u32 (num_used x - 1)) x) k)
  end.

(** [k_mem_slab_num_used_get], [k_mem_slab_num_free_get] (include/kernel.h). *)
Definition k_mem_slab_num_used_get (o : nat) (k : kernel) : Z := num_used (slab k o).
Definition k_mem_slab_num_free_get (o : nat) (k : kernel) : Z := u32 (num_blocks (slab k o) - num_used (slab k o)).

(** ** The free list *)
Definition block (x : k_mem_slab) (i : Z) : Z := sl_buffer x + i * block_size x.
Definition is_block (x : k_mem_slab) (b : Z) : Prop := ∃ i, 0 ≤ i < num_blocks x ∧ b = block x i.

(** The free blocks of the slab are [l]; blocks hold at least a pointer. *)
Record slab_ok (x : k_mem_slab) (w : gmap Z Z) (l : list Z) : Prop := {
  so_buffer : 0 < sl_buffer x;
  so_size : 4 ≤ block_size x;
  so_blocks : 0 ≤ num_blocks x < 4294967296;
  so_chain : chain w (free_list x) l;
  so_nodup : NoDup l;
  so_in : ∀ b, b ∈ l → is_block x b;
  so_used : 0 ≤ num_used x;
  so_count : Z.of_nat (length l) + num_used x = num_blocks x;
}.

(** The blocks from [p] on, in the order the loop links them. *)
Fixpoint blocks_from (n : nat) (size p : Z) (acc : list Z) : list Z :=
  match n with
  | O => acc
  | S n => blocks_from n size (p + size) (p :: acc)
  end.
Lemma create_loop_chain n size p free w acc :
  0 < size → 0 < p → chain w free acc → (∀ b, b ∈ acc → b < p) →
  let '(free', w') := create_loop n size p free w in chain w' free' (blocks_from n size p acc).
Proof.
  revert p free w acc. induction n as [|n IH]; intros p free w acc Hs Hp Hc Hacc; simpl; [done|].
  apply IH; [done|lia| |].
  - simpl. split_and!; [done|unfold NULL; lia|]. rewrite lookup_total_insert_eq. apply chain_insert; [|done].
    intros Hin. specialize (Hacc _ Hin). lia.
  - intros b [->|Hb]%elem_of_cons; [lia|]. specialize (Hacc _ Hb). lia.
Qed.
Lemma blocks_from_elem n size p acc b :
  b ∈ blocks_from n size p acc ↔ b ∈ acc ∨ ∃ i, 0 ≤ i < Z.of_nat n ∧ b = p + i * size.
Proof.
  revert p acc. induction n as [|n IH]; intros p acc; simpl.
  - split; [auto|]. intros [?|(i & ? & _)]; [done|lia].
  - rewrite IH, elem_of_cons. split.
    + intros [[->|?]|(i & Hi & ->)]; [right; exists 0; lia|by left|right; exists (i + 1); lia].
    + intros [?|(i & Hi & ->)]; [by left; right|]. destruct (decide (i = 0)) as [->|]; [left; left; lia|].
      right. exists (i - 1). lia.
Qed.
Lemma blocks_from_nodup n size p acc :
  0 < size → NoDup acc → (∀ b, b ∈ acc → b < p) → NoDup (blocks_from n size p acc).
Proof.
  revert p acc. induction n as [|n IH]; intros p acc Hs Hnd Hacc; simpl; [done|]. apply IH; [done| |].
  - constructor; [|done]. intros Hin. specialize (Hacc _ Hin). lia.
  - intros b [->|Hb]%elem_of_cons; [lia|]. specialize (Hacc _ Hb). lia.
Qed.
Lemma blocks_from_length n size p acc : length (blocks_from n size p acc) = (n + length acc)%nat.
Proof. revert p acc. induction n as [|n IH]; intros; simpl; [done|]. rewrite IH. simpl. lia. Qed.

Lemma slab_upd o f k : slab (upd_slab o f k) o = f (slab k o).
Proof. unfold slab at 1, upd_slab. simpl. by rewrite lookup_total_insert_eq. Qed.
(** A slab has no more free blocks than blocks. *)
Lemma block_count x l i :
  0 < block_size x → NoDup l → (∀ b, b ∈ l → is_block x b) → 0 ≤ i < num_blocks x → block x i ∉ l →
  Z.of_nat (length l) + 1 ≤ num_blocks x.
Proof.
  intros Hs Hnd Hin Hi Hni.
  assert (block x i :: l ⊆+ (λ j, block x j) <$> seqZ 0 (num_blocks x)) as Hsub.
  { apply NoDup_submseteq; [by constructor|]. intros b. rewrite elem_of_cons, list_elem_of_fmap.
    intros [->|Hb]; [exists i|destruct (Hin _ Hb) as (j & Hj & ->); exists j]; (split; [done|]);
      apply elem_of_seqZ; lia. }
  apply submseteq_length in Hsub. rewrite length_fmap, length_seqZ in Hsub. simpl in Hsub. lia.
Qed.
(** ** Safety within the system *)
Class SlabFree (J : kernel → Prop) := slab_free : ∀ k s w, J k → J (set_words w (set_slabs s k)).

Lemma sys_inv_slab s w k : sys_inv k → sys_inv (set_words w (set_slabs s k)).
Proof. intros [Hk Hc Hn Hh Hp]. split; [by eapply kinv_frame; try apply Hk|done..]. Qed.
Lemma sinv_slab J `{!SlabFree J} s w k : sinv J k → sinv J (set_words w (set_slabs s k)).
Proof. intros [Hk HJ]. split; [by apply sys_inv_slab|by apply slab_free]. Qed.

Lemma upd_slab_sinv J `{!SlabFree J} o f k : sinv J k → sinv J (upd_slab o f k).
Proof. apply (sinv_slab J _ (words k)). Qed.
Lemma store_sinv J `{!SlabFree J} a v k : sinv J k → sinv J (store a v k).
Proof. apply (sinv_slab J (slabs k)). Qed.

Lemma load_unpend a t k : load a (_unpend_thread t k) = load a k.
Proof. done. Qed.
Lemma free_woken o b k t k1 :
  running (λ _, True) k → _unpend_first_thread (KSlab, o) k = (Some t, k1) →
  woken_first (KSlab, o) t (λ x, set_swap_data b (set_return_value 0 x)) k
    (_ready_thread t (_abort_thread_timeout t (_set_thread_return_value_with_data t 0 b (_unpend_thread t k))).2).
Proof.
  intros Hk Hu. eapply unpend_woken; [done|done|]. intros Hup.
  unfold _set_thread_return_value_with_data, _set_thread_return_value. rewrite upd_thread_twice.
  apply wake_before; [done|apply ret_upd_data].
Qed.

Section safe.
Context (J : kernel → Prop) (F : Prop) `{!SlabFree J}.
Hypothesis J_objects : ∀ k k', same_objects k k' → J k → J k'.

Lemma k_mem_slab_alloc_safe o ptr timeout k :
  sinv J k → timeout = K_NO_WAIT ∨ (timeout_ok timeout ∧ current k ≠ _idle_thread) →
  op_safe J F (k_mem_slab_alloc o ptr timeout) k.
Proof.
  intros Hk Hto. unfold op_safe, k_mem_slab_alloc. cbv zeta. destruct (negb _).
  - simpl. split; [|done]. do 2 (apply upd_slab_sinv; [done|]). by apply store_sinv.
  - destruct (timeout =? K_NO_WAIT) eqn:Et.
    { simpl. split; [|done]. by apply store_sinv. }
    zbool. destruct Hto as [|[Hto Hi]]; [done|].
    destruct (pend_current_spec [] (KSlab, o) timeout k) as (Hk' & Hf & _); [apply Hk|apply Hk|done|done|by left|].
    eapply osafe_bind; [apply swap_safe; [done|]|].
    { by eapply swap_ready_frame; [|apply swap_ready_sinv| |]. }
    intros r k2 [Hk2 Hc2]. destruct (r =? 0); simpl; [|done]. split; [|done].
    by apply store_sinv.
Qed.
Lemma k_mem_slab_free_safe o ptr k : sinv J k → op_safe J F (k_mem_slab_free o ptr) k.
Proof.
  intros Hk. unfold op_safe, k_mem_slab_free. destruct (_unpend_first_thread (KSlab, o) k) as [[t|] k1] eqn:Hu.
  - assert (k1 = _unpend_thread t k) as -> by by eapply (unpend_first_objs _ k t k1 k); [apply Hk|..].
    cbv zeta. rewrite load_unpend.
    pose proof (free_woken o (load ptr k) k t _ (sys_running _ (proj1 Hk)) Hu) as Hw.
    by eapply switch_safe.
  - apply unpend_first_None in Hu as [-> _]. simpl. split; [|done].
    do 2 (apply upd_slab_sinv; [done|]). by apply store_sinv.
Qed.
End safe.

(** ** Properties *)

(** Initialisation chains every block of the slab, each once. *)
Theorem k_mem_slab_init_all_free o buffer size blocks k :
  0 < buffer → 4 ≤ size → 0 ≤ blocks < 4294967296 →
  let k' := k_mem_slab_init o buffer size blocks k in
  ∃ l, slab_ok (slab k' o) (words k') l ∧ num_used (slab k' o) = 0 ∧
    ∀ b, b ∈ l ↔ ∃ i, 0 ≤ i < blocks ∧ b = buffer + i * size.
Proof.
  intros Hb Hs Hn. cbv zeta. unfold k_mem_slab_init, create_free_list. cbv zeta. rewrite slab_upd. simpl.
  pose proof (create_loop_chain (Z.to_nat blocks) size buffer NULL (words k) []) as Hc.
  destruct (create_loop _ _ _ _ _) as [free w]. specialize (Hc ltac:(lia) Hb eq_refl ltac:(by intros ? []%elem_of_nil)).
  set (k1 := set_words w (upd_slab o _ k)).
  assert (slab k1 o = mk_slab blocks size buffer (free_list (slab k o)) 0) as E1 
    by (unfold k1; change (slab (set_words ?w ?k) o) with (slab k o); by rewrite slab_upd).
  change (slab (set_queues ?x ?k) o) with (slab k o). rewrite slab_upd, E1. simpl.
  exists (blocks_from (Z.to_nat blocks) size buffer []). split; [|split; [done|]].
  - split; simpl; try done; try lia.
    + apply blocks_from_nodup; [lia|constructor|by intros ? []%elem_of_nil].
    + intros b. rewrite blocks_from_elem. intros [[]%elem_of_nil|(i & Hi & ->)]. exists i. split; simpl; [lia|done].
    + rewrite blocks_from_length. simpl. lia.
  - intros b. rewrite blocks_from_elem. split.
    + intros [[]%elem_of_nil|(i & Hi & ->)]. exists i. lia.
    + intros (i & Hi & ->). right. exists i. lia.
Qed.

(** An address outside the blocks. *)
Definition off_blocks (x : k_mem_slab) (a : Z) : Prop :=
  a + 4 ≤ sl_buffer x ∨ sl_buffer x + num_blocks x * block_size x ≤ a.
Lemma off_blocks_notin x w l a : slab_ok x w l → off_blocks x a → a ∉ l.
Proof.
  intros Hok Ha Hin. destruct (so_in _ _ _ Hok _ Hin) as (i & Hi & ->). destruct Hok. unfold off_blocks, block in Ha. nia.
Qed.

(** Freeing a block that nobody waits for. *)
Lemma free_no_waiter o ptr k l b :
  handling_timeouts k = false → q k (WQ (KSlab, o)) = [] → slab_ok (slab k o) (words k) l →
  off_blocks (slab k o) ptr → load ptr k = b → is_block (slab k o) b → b ∉ l →
  ∃ k', k_mem_slab_free o ptr k = Done tt k' ∧ slab_ok (slab k' o) (words k') (b :: l) ∧
    slab k' o = set_num_used (num_used (slab k o) - 1) (set_free_list b (slab k o)) ∧
    words k' = <[b := free_list (slab k o)]> (words k).
Proof.
  intros Hh Hq Hok Hp Hb Hib Hbl. unfold k_mem_slab_free. rewrite (unpend_first_empty _ k Hh Hq).
  assert (b ≠ ptr ∧ b ≠ NULL) as [Hbp Hbn].
  { destruct Hib as (i & Hi & ->). destruct Hok. unfold off_blocks, block, NULL in *. nia. }
  assert (1 ≤ num_used (slab k o)) as Hu.
  { destruct Hib as (i & Hi & ->). destruct Hok as [? ? ? ? Hnd Hin ? Hcnt].
    pose proof (block_count (slab k o) l i ltac:(lia) Hnd Hin Hi Hbl). lia. }
  destruct Hok as [? ? ? Hc Hnd Hin ? Hcnt]. eexists. split; [done|].
  rewrite !slab_upd. change (slab (store ?a ?v k) o) with (slab k o). rewrite Hb.
  assert (load ptr (store b (free_list (slab k o)) k) = b) as ->.
  { unfold load, store. simpl. by rewrite lookup_total_insert_ne. }
  split; [|split; [simpl; rewrite u32_id by lia; done|done]].
  split; simpl; try done; rewrite ?u32_id by lia; try lia.
  - split_and!; [done|done|]. rewrite lookup_total_insert_eq. by apply chain_insert.
  - by constructor.
  - intros c [->|Hc']%elem_of_cons; [done|]. by apply Hin.
Qed.
(** Allocating from a slab with a free block. *)
Lemma alloc_first o ptr timeout k b l :
  slab_ok (slab k o) (words k) (b :: l) → off_blocks (slab k o) ptr →
  ∃ k', k_mem_slab_alloc o ptr timeout k = Done 0 k' ∧ load ptr k' = b ∧ b ∉ l ∧
    slab_ok (slab k' o) (words k') l ∧
    slab k' o = set_num_used (num_used (slab k o) + 1) (set_free_list (words k !!! b) (slab k o)) ∧
    words k' = <[ptr := b]> (words k) ∧ queues k' = queues k ∧ handling_timeouts k' = handling_timeouts k.
Proof.
  intros Hok Hp. pose proof (off_blocks_notin _ _ _ _ Hok Hp) as Hpl. destruct Hok as [? ? ? Hc Hnd Hin ? Hcnt].
  destruct Hc as (Hf & Hb & Hc). unfold k_mem_slab_alloc. cbv zeta. rewrite Hf, (proj2 (Z.eqb_neq _ _) Hb). simpl.
  apply NoDup_cons in Hnd as [Hbl Hnd]. apply not_elem_of_cons in Hpl as [Hpb Hpl]. simpl in Hcnt.
  eexists. split; [done|]. split; [unfold load; simpl; by rewrite lookup_total_insert_eq|]. split; [done|].
  rewrite !slab_upd. change (slab (store ?a ?v k) o) with (slab k o). unfold load. simpl.
  rewrite lookup_total_insert_ne, u32_id by (done || lia). split_and!; [|done..].
  split; simpl; try done; try lia.
  - by apply chain_insert.
  - intros c Hcl. apply Hin. by apply list_elem_of_further.
Qed.

(** C23: allocation and release of a slab's blocks are inverse.  Freeing the block
    whose address is at [ptr], while no thread waits, makes it the first free
    one: the next allocation, whatever its timeout, hands out that block again
    and leaves the slab as it was before.  While threads wait for a block the
    first of them gets it directly: it is woken, its [k_mem_slab_alloc] returns 0
    and the block, and the free list is unchanged.  Allocating a block and then
    freeing it, while no thread waits, restores the slab; without a free block
    an allocation told not to wait returns -ENOMEM and NULL.  The pointers are
    kept outside the slab's own blocks. *)
Theorem k_mem_slab_free_returns o ptr k l :
  sys_inv k → slab_ok (slab k o) (words k) l → off_blocks (slab k o) ptr →
  (∀ b, load ptr k = b → is_block (slab k o) b → b ∉ l →
    match q k (WQ (KSlab, o)) with
    | [] => ∃ k', k_mem_slab_free o ptr k = Done tt k' ∧ slab_ok (slab k' o) (words k') (b :: l) ∧
        ∀ ptr' timeout, off_blocks (slab k o) ptr' →
          ∃ k2, k_mem_slab_alloc o ptr' timeout k' = Done 0 k2 ∧ load ptr' k2 = b ∧
            slab k2 o = slab k o ∧ slab_ok (slab k2 o) (words k2) l
    | t :: ws =>
        ∃ k', k_mem_slab_free o ptr k =
            (if _must_switch_threads k' then let% _ k := _Swap k' in Done tt k else Done tt k') ∧
          slab k' o = slab k o ∧ words k' = words k ∧ q k' (WQ (KSlab, o)) = ws ∧ awake t k k' ∧
          return_value (thr k' t) = 0 ∧ swap_data (thr k' t) = b
    end) ∧
  match l with
  | [] => k_mem_slab_alloc o ptr K_NO_WAIT k = Done (- ENOMEM) (store ptr NULL k)
  | b :: l' => ∀ timeout, q k (WQ (KSlab, o)) = [] →
      ∃ k1 k2, k_mem_slab_alloc o ptr timeout k = Done 0 k1 ∧ load ptr k1 = b ∧ b ∉ l' ∧
        slab_ok (slab k1 o) (words k1) l' ∧ k_mem_slab_free o ptr k1 = Done tt k2 ∧
        slab k2 o = slab k o ∧ slab_ok (slab k2 o) (words k2) l
  end.
Proof.
  intros Hk Hok Hp. split.
  - intros b Hb Hib Hbl. destruct (q k (WQ (KSlab, o))) as [|t ws] eqn:Hq.
    + destruct (free_no_waiter o ptr k l b) as (k' & E & Hok' & Es & Ew); [apply Hk|done..|].
      exists k'. split; [done|]. split; [done|]. intros ptr' timeout Hp'.
      destruct (alloc_first o ptr' timeout k' b l Hok') as (k2 & ? & ? & _ & ? & Es2 & _); [by rewrite Es|].
      exists k2. split_and!; [done|done| |done]. rewrite Es2, Es, Ew, lookup_total_insert_eq.
      destruct (slab k o) as [? ? ? ? n]. unfold set_num_used, set_free_list. simpl. f_equal. lia.
    + pose proof (unpend_first_cons _ k t ws (sys_handling _ Hk) Hq) as Hu. unfold k_mem_slab_free. rewrite Hu.
      pose proof (free_woken o b k t _ (sys_running _ Hk) Hu) as Hw. cbv zeta. rewrite load_unpend, Hb.
      set (k' := _ready_thread _ _) in *. clearbody k'. exists k'. split; [done|].
      pose proof (wf_tail _ _ _ _ _ ws (sys_kinv _ Hk) Hw Hq) as Hq'.
      destruct (inv_wq _ _ _ (sys_kinv _ Hk) t (KSlab, o)) as [Ht _]; [rewrite Hq; mem|].
      destruct Hw as [_ Hw Ho _ _]. pose proof (woken_awake _ _ _ _ _ Ht Hw) as Haw.
      destruct (wk_thr _ _ _ _ _ Hw) as [s Hs]. pose proof (proj1 (only_sframe _ _ _ Ho)) as Hf.
      split_and!; [unfold slab; by rewrite Hf|by rewrite Hf|done|done|by rewrite Hs|by rewrite Hs].
  - destruct l as [|b l'].
    + unfold k_mem_slab_alloc. pose proof (so_chain _ _ _ Hok) as Hc. simpl in Hc. cbv zeta. by rewrite Hc.
    + intros timeout Hq. destruct (alloc_first o ptr timeout k b l' Hok Hp) as (k1 & E1 & Hl & Hb & Hok1 & Es & Ew & Eq & Eh).
      destruct (free_no_waiter o ptr k1 l' b) as (k2 & E2 & Hok2 & Es2 & Ew2); try done.
      * rewrite Eh. apply Hk.
      * unfold q. by rewrite Eq.
      * by rewrite Es.
      * rewrite Es. apply (so_in _ _ _ Hok b). mem.
      * exists k1, k2. split_and!; try done. rewrite Es2, Es. pose proof (so_chain _ _ _ Hok) as (Hf & _).
        destruct (slab k o) as [? ? ? fl n]. unfold set_num_used, set_free_list. simpl in *. subst fl. f_equal. lia.
Qed.

End slab.

(** ** The properties at work *)

(** Two blocks of eight bytes at 3000, and the main thread waiting for a third. *)
Notation sc_slab := (k_mem_slab_init 0 3000 8 2 two_threads).
Notation sc_slab_used := (mk_slab 2 8 3000 3000 1).
Notation sc_slab_one :=
  (set_words (<[3000 := NULL]> (<[500 := 3008]> ∅)) (set_slabs (<[0%nat := sc_slab_used]> ∅) two_threads)).
Notation sc_slab_none :=
  (set_words (<[500 := 3008]> ∅) (set_slabs (<[0%nat := mk_slab 2 8 3000 NULL 2]> ∅) two_threads)).
Notation sc_slab_waiting := (after (k_mem_slab_alloc 0 504 K_FOREVER sc_slab_none)).

Lemma sc_slab_one_ok : slab_ok (slab sc_slab_one 0) (words sc_slab_one) [3000].
Proof.
  split; try by vm_compute.
  - apply NoDup_singleton.
  - intros b Hb%list_elem_of_singleton. subst b. exists 0. by vm_compute.
Qed.

Lemma k_mem_slab_init_all_free_witness :
  let k' := sc_slab in ∃ l, slab_ok (slab k' 0) (words k') l ∧ num_used (slab k' 0) = 0 ∧ 3008 ∈ l.
Proof.
  destruct (k_mem_slab_init_all_free 0 3000 8 2 two_threads) as (l & Hok & Hu & Hl); [done|done|done|].
  exists l. split; [exact Hok|]. split; [exact Hu|]. apply Hl. exists 1. done.
Defined.

Lemma k_mem_slab_free_returns_witness :
  (∃ k', k_mem_slab_free 0 500 sc_slab_one = Done tt k' ∧ slab_ok (slab k' 0) (words k') [3008; 3000] ∧
    ∃ k2, k_mem_slab_alloc 0 504 K_NO_WAIT k' = Done 0 k2 ∧ load 504 k2 = 3008 ∧ slab k2 0 = slab sc_slab_one 0) ∧
  ∃ k1 k2, k_mem_slab_alloc 0 504 K_NO_WAIT sc_slab_one = Done 0 k1 ∧ load 504 k1 = 3000 ∧
    k_mem_slab_free 0 504 k1 = Done tt k2 ∧ slab k2 0 = slab sc_slab_one 0.
Proof.
  assert (sys_inv sc_slab_one) as Hk by apply sys_inv_slab, two_threads_sys_inv.
  assert (q sc_slab_one (WQ (KSlab, 0%nat)) = []) as Eq by by vm_compute.
  split.
  - destruct (k_mem_slab_free_returns 0 500 sc_slab_one [3000] Hk sc_slab_one_ok) as [Hf _]; [left; by vm_compute|].
    rewrite Eq in Hf. destruct (Hf 3008) as (k' & E & Hok & Ha).
    + by vm_compute.
    + exists 1. by vm_compute.
    + intros Hb%list_elem_of_singleton. done.
    + exists k'. split; [exact E|]. split; [exact Hok|]. destruct (Ha 504 K_NO_WAIT) as (k2 & E2 & Hl & Hs & _);
        [left; by vm_compute|]. exists k2. exact (conj E2 (conj Hl Hs)).
  - destruct (k_mem_slab_free_returns 0 504 sc_slab_one [3000] Hk sc_slab_one_ok) as [_ Ha]; [left; by vm_compute|].
    destruct (Ha K_NO_WAIT Eq) as (k1 & k2 & E1 & Hl & _ & _ & E2 & Hs & _). exists k1, k2.
    exact (conj E1 (conj Hl (conj E2 Hs))).
Defined.

(** Unlike the other kernel objects, a slab does not check for an interrupt
    before it switches threads: a block freed in an interrupt handler while a
    thread of higher priority than the interrupted one waits for it makes the
    handler call [_Swap]. *)
Theorem k_mem_slab_free_isr_switches :
  let k := set_nested 1 sc_slab_waiting in
  _is_in_isr k = true ∧ ∃ k1 resume, k_mem_slab_free 0 500 k = Swapped k1 resume.
Proof.
  cbv zeta. split; [done|].
  assert (match k_mem_slab_free 0 500 (set_nested 1 sc_slab_waiting) with Swapped _ _ => true | _ => false end = true) as E
    by by vm_compute.
  destruct (k_mem_slab_free _ _ _) as [| k1 resume|]; [done| |done]. by exists k1, resume.
Qed.
