(* ===== verification/MemPool.v ===== *)
(** * Memory pools (kernel/mempool.c)

    A pool divides blocks into quarters, level by level; free blocks are on
    the list of their level and marked in its bitmap.  The file has the
    allocator itself, as functions on a [k_mem_pool]: each of [alloc_block],
    [free_step] (one locked section of [free_block]) and [break_block] runs with
    interrupts locked, and the theorems are about any order of such steps.  A write
    to a bit outside its word is [None].  The functions whose names end in [_alone]
    are what whole operations come to when nothing runs between their sections.
    MemPoolInv.v has the invariant, MemPoolProps.v what it gives, and MemPoolK.v
    the whole operations and the kernel calls. *)
From stdpp Require Import gmap list.
From S2P Require Import Prelude Dlist KState.
Local Open Scope Z_scope.

Definition _ALIGN4 (n : Z) : Z := u32 (n + 3) / 4 * 4.

(** ** Bits *)

(** [levels[l].bits], and [levels[l].bits_p] *)
Definition lvl_word (p : k_mem_pool) (l : Z) : Z := default 0 (lvl_bits p !! l).
(** The word of a bit: that of the level, or one at an address.  [None]: outside the word of the level. *)
Definition get_bit_ptr (p : k_mem_pool) (level bn : Z) : option (Z + Z) :=
  if level <=? max_inline_level p then (if bn / 32 =? 0 then Some (inl level) else None)
  else Some (inr (lvl_word p level + 4 * (bn / 32))).
Definition bit_index (bn : Z) : Z := Z.land bn 31.
Definition word_at (p : k_mem_pool) (w : Z + Z) : Z :=
  match w with inl l => lvl_word p l | inr a => default 0 (bit_words p !! a) end.
Definition set_word (w : Z + Z) (v : Z) (p : k_mem_pool) : k_mem_pool :=
  match w with inl l => set_lvl_bits (<[l := v]> (lvl_bits p)) p | inr a => set_bit_words (<[a := v]> (bit_words p)) p end.

Definition set_free_bit (level bn : Z) (p : k_mem_pool) : option k_mem_pool :=
  w ← get_bit_ptr p level bn;
  Some (set_word w (Z.lor (word_at p w) (u32 (Z.shiftl 1 (bit_index bn)))) p).
Definition clear_free_bit (level bn : Z) (p : k_mem_pool) : option k_mem_pool :=
  w ← get_bit_ptr p level bn;
  Some (set_word w (Z.land (word_at p w) (u32 (Z.lnot (Z.shiftl 1 (bit_index bn))))) p).
Definition partner_bits (p : k_mem_pool) (level bn : Z) : option Z :=
  w ← get_bit_ptr p level bn;
  Some (Z.land (Z.shiftr (word_at p w) (4 * (bit_index bn / 4))) 15).

(** ** Blocks *)

Definition block_ptr (p : k_mem_pool) (lsz block : Z) : Z := u32 (mp_buf p + u32 (lsz * block)).
Definition block_num (p : k_mem_pool) (block sz : Z) : Z := Z.quot (s32 (block - mp_buf p)) sz.
Definition level_empty (p : k_mem_pool) (l : Z) : bool := bool_decide (lvl_free p !!! l = []).
Definition buf_size (p : k_mem_pool) : Z := u32 (n_max p * max_sz p).
Definition block_fits (p : k_mem_pool) (block bsz : Z) : bool := u32 (block + bsz - 1 - mp_buf p) <? buf_size p.

(** The array [lsizes]. *)
Fixpoint lsizes (p : k_mem_pool) (i : nat) : Z :=
  match i with O => _ALIGN4 (max_sz p) | S i => _ALIGN4 (lsizes p i / 4) end.
Definition lsize (p : k_mem_pool) (l : Z) : Z := lsizes p (Z.to_nat l).

(** ** Definition and initialisation *)

Definition _MPOOL_HAVE_LVL (max min l : Z) : Z := if min <=? Z.shiftr max (2 * l) then 1 else 0.
Definition _MPOOL_LVLS (maxsz minsz : Z) : Z := foldr Z.add 0 (_MPOOL_HAVE_LVL maxsz minsz <$> seqZ 0 16).
(** The macro leaves the levels and the bits to the loader, which clears them. *)
Definition K_MEM_POOL_DEFINE (buf minsz maxsz nmax : Z) : k_mem_pool :=
  mk_pool buf maxsz nmax (_MPOOL_LVLS maxsz minsz) 0 ∅ ∅ ∅.

(** The loop over the levels, from level [i] with blocks of [sz] bytes. *)
Fixpoint init_levels (n : nat) (i buflen sz bits : Z) (p : k_mem_pool) : k_mem_pool :=
  match n with
  | O => p
  | S n =>
      let nblocks := buflen / sz in
      let p := set_lvl_free (DlistSpec.init i (lvl_free p)) p in
      let '(p, bits) :=
        if nblocks <? 32 then (set_max_inline_level i p, bits)
        else (set_lvl_bits (<[i := bits]> (lvl_bits p)) p, bits + 4 * ((nblocks + 31) / 32)) in
      init_levels n (i + 1) buflen (_ALIGN4 (sz / 4)) bits p
  end.
(** The loop over the blocks of level 0. *)
Fixpoint init_blocks (n : nat) (i : Z) (p : k_mem_pool) : option k_mem_pool :=
  match n with
  | O => Some p
  | S n =>
      let p := set_lvl_free (DlistSpec.append 0 (block_ptr p (max_sz p) i) (lvl_free p)) p in
      p ← set_free_bit 0 i p;
      init_blocks n (i + 1) p
  end.
Definition init_mem_pool (p : k_mem_pool) : option k_mem_pool :=
  let buflen := buf_size p in
  let p := init_levels (Z.to_nat (n_levels p)) 0 buflen (max_sz p) (u32 (mp_buf p + buflen)) p in
  init_blocks (Z.to_nat (n_max p)) 0 p.

(** ** Allocation and release *)

Definition alloc_block (l lsz : Z) (p : k_mem_pool) : option (option Z * k_mem_pool) :=
  match lvl_free p !!! l with
  | [] => Some (None, p)
  | block :: rest =>
      let p := set_lvl_free (DlistSpec.remove block (lvl_free p)) p in
      p ← clear_free_bit l (block_num p block lsz) p;
      Some (Some block, p)
  end.

(** The [for] loop of [free_block] over the four partners. *)
Fixpoint clear_partners (n : nat) (i level lsz bn : Z) (p : k_mem_pool) : option k_mem_pool :=
  match n with
  | O => Some p
  | S n =>
      let b := Z.land bn (Z.lnot 3) + i in
      p ← clear_free_bit level b p;
      let p :=
        if negb (b =? bn) && block_fits p (block_ptr p lsz b) lsz
        then set_lvl_free (DlistSpec.remove (block_ptr p lsz b) (lvl_free p)) p else p in
      clear_partners n (i + 1) level lsz bn p
  end.
(** A locked section of [free_block]: [true], the four partners were taken and the block above them is to be freed. *)
Definition free_step (level bn : Z) (p : k_mem_pool) : option (bool * k_mem_pool) :=
  let lsz := lsize p level in
  let block := block_ptr p lsz bn in
  p ← set_free_bit level bn p;
  bits ← partner_bits p level bn;
  if negb (level =? 0) && (bits =? 15) then
    p ← clear_partners 4 0 level lsz bn p;
    Some (true, p)
  else
    Some (false, if block_fits p block lsz then set_lvl_free (DlistSpec.append level block (lvl_free p)) p else p).
(** [free_block] when nothing runs between its sections; MemPoolK.v has the function itself. *)
Fixpoint free_alone (level : nat) (bn : Z) (p : k_mem_pool) : option k_mem_pool :=
  '(up, p) ← free_step (Z.of_nat level) bn p;
  match level with
  | S level => if up : bool then free_alone level (bn / 4) p else Some p
  | O => Some p
  end.

(** The [for] loop of [break_block]. *)
Fixpoint break_loop (n : nat) (i l lsz bn block : Z) (p : k_mem_pool) : option k_mem_pool :=
  match n with
  | O => Some p
  | S n =>
      let lbn := 4 * bn + i in
      let block2 := u32 (block + lsz * i) in
      p ← set_free_bit (l + 1) lbn p;
      let p := if block_fits p block2 lsz then set_lvl_free (DlistSpec.append (l + 1) block2 (lvl_free p)) p else p in
      break_loop n (i + 1) l lsz bn block p
  end.
Definition break_block (block l : Z) (p : k_mem_pool) : option k_mem_pool :=
  break_loop 3 1 l (lsize p (l + 1)) (block_num p block (lsize p l)) block p.

(** The walk down the levels of [alloc_alone]: the level to allocate from and the lowest one above it with a free block. *)
Fixpoint levels_alone (n : nat) (i size alloc_l free_l : Z) (p : k_mem_pool) : Z * Z :=
  match n with
  | O => (alloc_l, free_l)
  | S n =>
      if lsize p i <? size then (alloc_l, free_l)
      else levels_alone n (i + 1) size i (if level_empty p i then free_l else i) p
  end.
(** [for (from_l = free_l; from_l < alloc_l; from_l++)] *)
Fixpoint break_alone (n : nat) (blk from_l : Z) (p : k_mem_pool) : option k_mem_pool :=
  match n with
  | O => Some p
  | S n => p ← break_block blk from_l p; break_alone n blk (from_l + 1) p
  end.

(** [struct k_mem_block], less the number of the pool; the level has 4 bits, the block 20. *)
Record k_mem_block := mk_block { bl_data : Z; bl_level : Z; bl_block : Z }.
Inductive pool_result := Allocated (b : k_mem_block) | Failed (err : Z).

Definition alloc_alone (size : Z) (p : k_mem_pool) : option (pool_result * k_mem_pool) :=
  let '(alloc_l, free_l) := levels_alone (Z.to_nat (n_levels p)) 0 size (-1) (-1) p in
  if (alloc_l <? 0) || (free_l <? 0) then Some (Failed (- ENOMEM), p)
  else
    '(blk, p) ← alloc_block free_l (lsize p free_l) p;
    match blk with
    | None => Some (Failed (- EAGAIN), p)
    | Some blk =>
        p ← break_alone (Z.to_nat (alloc_l - free_l)) blk free_l p;
        Some (Allocated (mk_block blk (alloc_l mod 16) (block_num p blk (lsize p alloc_l) mod 1048576)), p)
    end.

(** ** Well-formed pools *)

(** [x] is the pair of a level and the number of a block there. *)
Definition valid (p : k_mem_pool) (x : Z * Z) : Prop := 0 ≤ x.1 < n_levels p ∧ 0 ≤ x.2 < n_max p * 4 ^ x.1.
(** What the sizes of a pool have to be: at most 31 blocks of the largest size,
    at most 16 levels, the largest size a power of four times the smallest,
    which is a multiple of 4, and at most 2{^20} smallest blocks, since a block
    descriptor has 4 bits for the level and 20 for the number.  The buffer is
    shorter than 2{^31} bytes and lies within the 32-bit addresses. *)
Record wf_sizes (p : k_mem_pool) : Prop := {
  wf_n : 0 < n_max p < 32;
  wf_levels : 1 ≤ n_levels p ≤ 16;
  wf_size : ∃ s, max_sz p = 4 * s * 4 ^ (n_levels p - 1) ∧ 0 < s;
  wf_buf : 0 < mp_buf p;
  wf_end : mp_buf p + n_max p * max_sz p < 4294967296;
  wf_total : n_max p * max_sz p < 2147483648;
  wf_blocks : n_max p * 4 ^ (n_levels p - 1) ≤ 1048576;
}.
Record wf_pool (p : k_mem_pool) : Prop := {
  wf_pool_sizes :> wf_sizes p;
  wf_inline : ∀ l, 0 ≤ l < n_levels p → l ≤ max_inline_level p → n_max p * 4 ^ l ≤ 32;
  wf_apart : ∀ x y, valid p x → valid p y → max_inline_level p < x.1 → max_inline_level p < y.1 →
    lvl_word p x.1 + 4 * (x.2 / 32) = lvl_word p y.1 + 4 * (y.2 / 32) → x.1 = y.1;
}.



(** Only bits and free lists change. *)
Definition same_pool (p p' : k_mem_pool) : Prop :=
  mp_buf p' = mp_buf p ∧ max_sz p' = max_sz p ∧ n_max p' = n_max p ∧ n_levels p' = n_levels p ∧
  max_inline_level p' = max_inline_level p ∧
  ∀ l, max_inline_level p < l → lvl_word p' l = lvl_word p l.
#[global] Instance same_pool_refl : Reflexive same_pool.
Proof. done. Qed.
#[global] Instance same_pool_trans : Transitive same_pool.
Proof.
  unfold same_pool. intros p1 p2 p3 (E1 & E2 & E3 & E4 & E5 & E6) (? & ? & ? & ? & ? & F6). repeat split; try congruence.
  intros l Hl. rewrite F6, E6; congruence.
Qed.
Lemma same_pool_valid p p' x : same_pool p p' → valid p' x ↔ valid p x.
Proof. unfold valid. intros (_ & _ & -> & -> & _). done. Qed.
Lemma same_pool_wf p p' : same_pool p p' → wf_pool p → wf_pool p'.
Proof.
  intros Hs [[H1 H2 H3 H4 H5 H5' H8] H6 H7]. pose proof (λ x, same_pool_valid p p' x Hs) as Hv. destruct Hs as (E1 & E2 & E3 & E4 & E5 & E6). split; [split|..]; rewrite ?E1, ?E2, ?E3, ?E4, ?E5; try done.
  intros x y. rewrite !Hv. intros Hx Hy Hx1 Hy1. rewrite !E6 by done. by apply H7.
Qed.
Lemma same_pool_lsize p p' l : same_pool p p' → lsize p' l = lsize p l.
Proof. intros Hs. unfold lsize. induction (Z.to_nat l) as [|n IH]; simpl; [by rewrite (proj1 (proj2 Hs))|by rewrite IH]. Qed.

Lemma align4_id x : 0 ≤ x < 4294967293 → x mod 4 = 0 → _ALIGN4 x = x.
Proof. intros Hx Hm. unfold _ALIGN4. rewrite u32_id by lia. dlia. Qed.
Lemma pow4_succ k : 0 ≤ k → 4 ^ (k + 1) = 4 * 4 ^ k.
Proof. intros Hk. replace (k + 1) with (Z.succ k) by lia. by rewrite Z.pow_succ_r. Qed.
Lemma pow4_pos k : 0 ≤ k → 0 < 4 ^ k.
Proof. intros Hk. apply Z.pow_pos_nonneg; lia. Qed.

(** The sizes of the levels are exact quarters. *)
Lemma lsize_spec p s l :
  wf_sizes p → max_sz p = 4 * s * 4 ^ (n_levels p - 1) → 0 ≤ l < n_levels p → lsize p l = 4 * s * 4 ^ (n_levels p - 1 - l).
Proof.
  intros Hwf Hs Hl. unfold lsize. destruct (Z_of_nat_complete l ltac:(lia)) as (n & ->).
  rewrite Nat2Z.id. pose proof (wf_n _ Hwf). pose proof (wf_total _ Hwf). pose proof (wf_buf _ Hwf). pose proof (wf_levels _ Hwf).
  assert (Hs0 : 0 < s) by (destruct (wf_size _ Hwf) as (s' & Hs' & Hs0'); rewrite Hs in Hs'; pose proof (pow4_pos (n_levels p - 1) ltac:(lia)); nia).
  assert (Hmax : 0 < max_sz p < 2147483648) by (pose proof (pow4_pos (n_levels p - 1) ltac:(lia)); nia).
  induction n as [|n IH]; simpl lsizes.
  - rewrite Z.sub_0_r, <-Hs. apply align4_id; [lia|]. rewrite Hs. replace (4 * s * _) with (s * 4 ^ (n_levels p - 1) * 4) by ring. by apply Z.mod_mul.
  - specialize (IH ltac:(lia)). rewrite IH. set (k := n_levels p - 1 - Z.of_nat (S n)). replace (n_levels p - 1 - Z.of_nat n) with (k + 1) by lia.
    rewrite pow4_succ by lia. replace (4 * s * (4 * 4 ^ k)) with (4 * s * 4 ^ k * 4) by ring. rewrite Z.div_mul by lia.
    pose proof (pow4_pos k ltac:(lia)). assert (4 ^ k ≤ 4 ^ (n_levels p - 1)) by (apply Z.pow_le_mono_r; lia).
    apply align4_id; [nia|]. replace (4 * s * 4 ^ k) with (s * 4 ^ k * 4) by ring. by apply Z.mod_mul.
Qed.

(** ** Bits *)

Definition bit (p : k_mem_pool) (x : Z * Z) : bool :=
  match get_bit_ptr p x.1 x.2 with Some w => Z.testbit (word_at p w) (bit_index x.2) | None => false end.

Lemma bit_index_spec bn : bit_index bn = bn mod 32.
Proof. unfold bit_index. change 31 with (Z.ones 5). by rewrite Z.land_ones. Qed.
(** Every bit of the pool has a word, and its own one. *)
Lemma get_bit_ptr_ok p x : wf_pool p → valid p x → ∃ w, get_bit_ptr p x.1 x.2 = Some w.
Proof.
  intros Hwf [Hl Hb]. unfold get_bit_ptr. destruct (Z.leb_spec x.1 (max_inline_level p)); [|eauto].
  pose proof (wf_inline _ Hwf _ Hl ltac:(done)). rewrite Z.div_small by lia. eauto.
Qed.
Lemma get_bit_ptr_inj p x y w :
  wf_pool p → valid p x → valid p y → get_bit_ptr p x.1 x.2 = Some w → get_bit_ptr p y.1 y.2 = Some w →
  bit_index x.2 = bit_index y.2 → x = y.
Proof.
  intros Hwf Hx Hy. rewrite !bit_index_spec. unfold get_bit_ptr.
  destruct x as [l b], y as [l' b']; simpl. destruct (Z.leb_spec l (max_inline_level p)), (Z.leb_spec l' (max_inline_level p)).
  - destruct (Z.eqb_spec (b / 32) 0) as [E|]; [|done]. destruct (Z.eqb_spec (b' / 32) 0) as [E'|]; [|done].
    intros [= <-] [= <-] Hi. f_equal. dlia.
  - destruct (b / 32 =? 0); [|done]. by intros [= <-].
  - intros [= <-]. by destruct (b' / 32 =? 0).
  - intros [= <-] [= E] Hi. assert (l = l') as -> by (apply (wf_apart p Hwf (l, b) (l', b')); done || (simpl; lia)).
    f_equal. dlia.
Qed.
Lemma word_at_set w v w' p : word_at (set_word w v p) w' = if decide (w = w') then v else word_at p w'.
Proof.
  destruct w as [l|a], w' as [l'|a']; simpl; try (destruct (decide _); [done|]); unfold lvl_word; simpl; try done.
  - destruct (decide (l = l')) as [->|]; [rewrite lookup_insert_eq, decide_True by done; done|]. rewrite lookup_insert_ne, decide_False by (done || congruence). done.
  - destruct (decide (a = a')) as [->|]; [rewrite lookup_insert_eq, decide_True by done; done|]. rewrite lookup_insert_ne, decide_False by (done || congruence). done.
Qed.
Lemma set_word_same p x w v : get_bit_ptr p x.1 x.2 = Some w → same_pool p (set_word w v p) ∧ lvl_free (set_word w v p) = lvl_free p.
Proof.
  unfold get_bit_ptr. destruct (Z.leb_spec x.1 (max_inline_level p)); [destruct (_ =? _)|]; intros [= <-]; split; try done.
  repeat split. intros l Hl. unfold lvl_word. simpl. rewrite lookup_insert_ne; [done|lia].
Qed.
Lemma same_pool_bit_ptr p p' x : same_pool p p' → get_bit_ptr p' x.1 x.2 = get_bit_ptr p x.1 x.2.
Proof.
  intros (_ & _ & _ & _ & E5 & E6). unfold get_bit_ptr. rewrite E5. destruct (Z.leb_spec x.1 (max_inline_level p)); [done|]. by rewrite E6.
Qed.

(** What a write of one bit does to all bits. *)
Lemma write_bit p x w v (b : bool) :
  wf_pool p → valid p x → get_bit_ptr p x.1 x.2 = Some w →
  (∀ i, 0 ≤ i < 32 → Z.testbit v i = if i =? bit_index x.2 then b else Z.testbit (word_at p w) i) →
  ∀ y, valid p y → bit (set_word w v p) y = if decide (y = x) then b else bit p y.
Proof.
  intros Hwf Hx Hw Hv y Hy. destruct (set_word_same p x w v Hw) as [Hs _]. unfold bit. rewrite (same_pool_bit_ptr _ _ _ Hs).
  destruct (get_bit_ptr_ok p y Hwf Hy) as (w' & Hw'). rewrite Hw', word_at_set.
  assert (Hr : 0 ≤ bit_index y.2 < 32) by (rewrite bit_index_spec; dlia).
  destruct (decide (w = w')) as [<-|Hne].
  - rewrite Hv by done. destruct (Z.eqb_spec (bit_index y.2) (bit_index x.2)) as [E|E].
    + rewrite decide_True; [done|]. by eapply get_bit_ptr_inj.
    + rewrite decide_False; [done|]. by intros ->.
  - rewrite decide_False; [done|]. intros ->. congruence.
Qed.
Lemma set_free_bit_spec p x :
  wf_pool p → valid p x →
  ∃ p', set_free_bit x.1 x.2 p = Some p' ∧ same_pool p p' ∧ lvl_free p' = lvl_free p ∧
    ∀ y, valid p y → bit p' y = if decide (y = x) then true else bit p y.
Proof.
  intros Hwf Hx. destruct (get_bit_ptr_ok p x Hwf Hx) as (w & Hw). unfold set_free_bit. rewrite Hw. simpl. eexists. split; [done|].
  destruct (set_word_same p x w (Z.lor (word_at p w) (u32 (Z.shiftl 1 (bit_index x.2)))) Hw) as [Hs Hf]. split; [done|]. split; [done|].
  apply write_bit; try done. intros i Hi. rewrite Z.lor_spec, testbit_u32, testbit_one_shift by (done || rewrite ?bit_index_spec; dlia).
  rewrite Z.eqb_sym. by destruct (_ =? _); rewrite ?orb_true_r, ?orb_false_r.
Qed.
Lemma clear_free_bit_spec p x :
  wf_pool p → valid p x →
  ∃ p', clear_free_bit x.1 x.2 p = Some p' ∧ same_pool p p' ∧ lvl_free p' = lvl_free p ∧
    ∀ y, valid p y → bit p' y = if decide (y = x) then false else bit p y.
Proof.
  intros Hwf Hx. destruct (get_bit_ptr_ok p x Hwf Hx) as (w & Hw). unfold clear_free_bit. rewrite Hw. simpl. eexists. split; [done|].
  destruct (set_word_same p x w (Z.land (word_at p w) (u32 (Z.lnot (Z.shiftl 1 (bit_index x.2))))) Hw) as [Hs Hf]. split; [done|]. split; [done|].
  apply write_bit; try done. intros i Hi. rewrite Z.land_spec, testbit_u32, Z.lnot_spec, testbit_one_shift by (done || lia || rewrite ?bit_index_spec; dlia).
  rewrite Z.eqb_sym. by destruct (_ =? _); rewrite ?andb_true_r, ?andb_false_r.
Qed.

(** The four blocks of the block above [x]. *)
Definition partner (x : Z * Z) (i : Z) : Z * Z := (x.1, 4 * (x.2 / 4) + i).
Lemma partner_bits_spec p x :
  wf_pool p → valid p x → ∃ v, partner_bits p x.1 x.2 = Some v ∧ (v = 15 ↔ ∀ i, 0 ≤ i < 4 → bit p (partner x i) = true).
Proof.
  intros Hwf Hx. destruct (get_bit_ptr_ok p x Hwf Hx) as (w & Hw). unfold partner_bits. rewrite Hw. simpl. eexists. split; [done|].
  assert (Hp : ∀ i, 0 ≤ i < 4 → bit p (partner x i) = Z.testbit (word_at p w) (4 * (bit_index x.2 / 4) + i)).
  { intros i Hi. unfold bit, partner. simpl. replace (get_bit_ptr p x.1 (4 * (x.2 / 4) + i)) with (Some w).
    - f_equal. rewrite !bit_index_spec. dlia.
    - rewrite <-Hw. unfold get_bit_ptr. replace ((4 * (x.2 / 4) + i) / 32) with (x.2 / 32) by dlia. done. }
  assert (Hk : 0 ≤ 4 * (bit_index x.2 / 4)) by (rewrite bit_index_spec; dlia).
  split.
  - intros H15 i Hi. rewrite Hp by done. replace (4 * (bit_index x.2 / 4) + i) with (i + 4 * (bit_index x.2 / 4)) by lia.
    assert (Ht : Z.testbit 15 i = true) by (assert (i = 0 ∨ i = 1 ∨ i = 2 ∨ i = 3) as [-> | [-> | [-> | ->]]] by lia; done).
    rewrite <-H15, Z.land_spec, Z.shiftr_spec in Ht by lia. by apply andb_true_iff in Ht as [Ht _].
  - intros Hall. apply Z.bits_inj'. intros i Hi. rewrite Z.land_spec, Z.shiftr_spec by lia.
    destruct (decide (i < 4)) as [Hi4|Hi4]; [|change 15 with (Z.ones 4); rewrite Z.ones_spec_high, andb_false_r by lia; done].
    change 15 with (Z.ones 4). rewrite Z.ones_spec_low, andb_true_r by lia. rewrite Z.add_comm, <-Hp by lia. apply Hall. lia.
Qed.

(** ** Partitions of the buffer

    The smallest blocks are the cells of the buffer; a block covers some of
    them.  Blocks partition the buffer when each cell is in exactly one. *)
Definition width (p : k_mem_pool) (l : Z) : Z := 4 ^ (n_levels p - 1 - l).
Definition covers (p : k_mem_pool) (x : Z * Z) (c : Z) : Prop := c / width p x.1 = x.2.
Definition ncells (p : k_mem_pool) : Z := n_max p * width p 0.
Record partition (p : k_mem_pool) (S : gset (Z * Z)) : Prop := {
  part_valid : ∀ x, x ∈ S → valid p x;
  part_cover : ∀ c, 0 ≤ c < ncells p → ∃ x, x ∈ S ∧ covers p x c;
  part_uniq : ∀ x y c, 0 ≤ c < ncells p → x ∈ S → y ∈ S → covers p x c → covers p y c → x = y;
}.
Definition quarter (x : Z * Z) (i : Z) : Z * Z := (x.1 + 1, 4 * x.2 + i).
Definition quarters (x : Z * Z) : gset (Z * Z) := {[ quarter x 0; quarter x 1; quarter x 2; quarter x 3 ]}.

Lemma elem_of_quarters x y : y ∈ quarters x ↔ y.1 = x.1 + 1 ∧ y.2 / 4 = x.2.
Proof.
  destruct x as [l b], y as [l' b']. unfold quarters, quarter. rewrite !elem_of_union, !elem_of_singleton. simpl. split.
  - intros [[[E|E]|E]|E]; injection E as -> ->; split; dlia.
  - intros [-> H]. assert (b' mod 4 = 0 ∨ b' mod 4 = 1 ∨ b' mod 4 = 2 ∨ b' mod 4 = 3) as Hm by dlia.
    destruct Hm as [Hm | [Hm | [Hm | Hm]]]; [do 3 left|do 2 left; right|left; right|right]; f_equal; dlia.
Qed.
Lemma width_pos p l : l < n_levels p → 0 < width p l.
Proof. intros Hl. apply pow4_pos. lia. Qed.
Lemma width_quarter p l : l + 1 < n_levels p → width p l = 4 * width p (l + 1).
Proof. intros Hl. unfold width. rewrite <-pow4_succ by lia. f_equal. lia. Qed.
Lemma quarter_covers p x y c : x.1 + 1 < n_levels p → y ∈ quarters x → covers p y c → covers p x c.
Proof.
  intros Hl [Hy1 Hy2]%elem_of_quarters. unfold covers. rewrite Hy1, (width_quarter p x.1) by done. pose proof (width_pos p (x.1 + 1) Hl).
  rewrite Z.mul_comm, <-Z.div_div by lia. by intros ->.
Qed.
Lemma covers_quarter p x c : x.1 + 1 < n_levels p → covers p x c → ∃ y, y ∈ quarters x ∧ covers p y c.
Proof.
  intros Hl. unfold covers. rewrite (width_quarter p x.1) by done. pose proof (width_pos p (x.1 + 1) Hl).
  rewrite Z.mul_comm, <-Z.div_div by lia. intros Hx. exists (x.1 + 1, c / width p (x.1 + 1)). by rewrite elem_of_quarters.
Qed.
Lemma quarters_valid p x y : valid p x → x.1 + 1 < n_levels p → y ∈ quarters x → valid p y.
Proof.
  intros [Hl Hb] Hl1 [Hy1 Hy2]%elem_of_quarters. unfold valid. rewrite Hy1, pow4_succ by lia. split; [lia|].
  assert (4 * x.2 ≤ y.2 < 4 * x.2 + 4) by dlia. nia.
Qed.
Lemma parent_valid p x y : valid p y → y ∈ quarters x → 0 ≤ x.1 → valid p x.
Proof.
  intros [Hl Hb] [Hy1 Hy2]%elem_of_quarters Hx. unfold valid. rewrite Hy1, pow4_succ in Hb by lia. split; [lia|].
  assert (4 * x.2 ≤ y.2 < 4 * x.2 + 4) by dlia. nia.
Qed.
(** The first cell of a block. *)
Definition cell (p : k_mem_pool) (x : Z * Z) : Z := x.2 * width p x.1.
Lemma cell_spec p x : valid p x → 0 ≤ cell p x < ncells p ∧ covers p x (cell p x).
Proof.
  intros [Hl Hb]. unfold cell, ncells, covers. pose proof (width_pos p x.1 ltac:(lia)) as Hw. split; [|by rewrite Z.div_mul by lia].
  assert (width p 0 = 4 ^ x.1 * width p x.1) as -> by (unfold width; rewrite <-Z.pow_add_r by lia; f_equal; lia). nia.
Qed.
Lemma part_cell p S x y : partition p S → x ∈ S → y ∈ S → cell p x = cell p y → x = y.
Proof.
  intros HS Hx Hy E. destruct (cell_spec p x (part_valid _ _ HS _ Hx)) as [H1 H2]. destruct (cell_spec p y (part_valid _ _ HS _ Hy)) as [H3 H4].
  eapply (part_uniq _ _ HS); [exact H1|done|done|done|by rewrite E].
Qed.
Lemma part_no_quarter p S x y : partition p S → x ∈ S → y ∈ S → x.1 + 1 < n_levels p → y ∉ quarters x.
Proof.
  intros HS Hx Hy Hl Hq. destruct (cell_spec p y (part_valid _ _ HS _ Hy)) as [H3 H4].
  assert (x = y) as -> by (eapply (part_uniq _ _ HS); [exact H3|done|done|by eapply quarter_covers|done]).
  apply elem_of_quarters in Hq. lia.
Qed.

(** A block and its quarters can replace each other. *)
Lemma part_split p S x : partition p S → x ∈ S → x.1 + 1 < n_levels p → partition p (S ∖ {[x]} ∪ quarters x).
Proof.
  intros HS Hx Hl. assert (Hv := part_valid _ _ HS _ Hx).
  assert (Hu : ∀ y z c, 0 ≤ c < ncells p → y ∈ S → y ≠ x → z ∈ quarters x → covers p y c → covers p z c → False).
  { intros y z c Hc Hy Hne Hz Hyc Hzc. apply Hne. eapply (part_uniq _ _ HS); try done. by eapply quarter_covers. }
  split.
  - intros y [[Hy _]%elem_of_difference|Hy]%elem_of_union; [by apply (part_valid _ _ HS)|by eapply quarters_valid].
  - intros c Hc. destruct (part_cover _ _ HS c Hc) as (y & Hy & Hyc). destruct (decide (y = x)) as [->|Hne]; [|exists y; set_solver].
    destruct (covers_quarter p x c Hl Hyc) as (z & Hz & Hzc). exists z. set_solver.
  - intros y z c Hc [[Hy Hyx]%elem_of_difference|Hy]%elem_of_union [[Hz Hzx]%elem_of_difference|Hz]%elem_of_union Hyc Hzc.
    + by eapply (part_uniq _ _ HS).
    + destruct (Hu y z c); set_solver.
    + destruct (Hu z y c); set_solver.
    + apply elem_of_quarters in Hy as [Hy _], Hz as [Hz _]. destruct y as [l b], z as [l' b']. unfold covers in *. simpl in *. subst. done.
Qed.
Lemma part_merge p S x : partition p S → valid p x → x.1 + 1 < n_levels p → quarters x ⊆ S → partition p (S ∖ quarters x ∪ {[x]}).
Proof.
  intros HS Hx Hl Hq.
  assert (Hu : ∀ y c, 0 ≤ c < ncells p → y ∈ S → covers p y c → covers p x c → y ∈ quarters x).
  { intros y c Hc Hy Hyc Hxc. destruct (covers_quarter p x c Hl Hxc) as (z & Hz & Hzc).
    assert (y = z) as -> by (eapply (part_uniq _ _ HS); try done; by apply Hq). done. }
  split.
  - intros y [[Hy _]%elem_of_difference| ->%elem_of_singleton]%elem_of_union; [by apply (part_valid _ _ HS)|done].
  - intros c Hc. destruct (part_cover _ _ HS c Hc) as (y & Hy & Hyc). destruct (decide (y ∈ quarters x)) as [Hyx|]; [|exists y; set_solver].
    exists x. split; [set_solver|]. by eapply quarter_covers.
  - intros y z c Hc [[Hy Hyx]%elem_of_difference| ->%elem_of_singleton]%elem_of_union [[Hz Hzx]%elem_of_difference| ->%elem_of_singleton]%elem_of_union Hyc Hzc; try done.
    + by eapply (part_uniq _ _ HS).
    + destruct Hyx. by eapply Hu.
    + destruct Hzx. by eapply Hu.
Qed.
