(* ===== verification/MemPoolInv.v ===== *)
(** * Memory pools: the invariant of the allocator

    The bitmaps and free lists of a pool represent the set of its free blocks;
    together with the blocks that callers hold they partition the buffer, and no
    four quarters of one block are all free.  Each locked section of mempool.c
    keeps this, so it holds in every interleaving of allocations and
    releases. *)
From stdpp Require Import gmap list.
From S2P Require Import Prelude Dlist KState MemPool.
Local Open Scope Z_scope.

(** ** Addresses of blocks *)
Definition addr (p : k_mem_pool) (x : Z * Z) : Z := mp_buf p + x.2 * lsize p x.1.

Lemma same_pool_addr p p' x : same_pool p p' → addr p' x = addr p x.
Proof. intros Hs. unfold addr. rewrite (same_pool_lsize _ _ _ Hs). by destruct Hs as (-> & _). Qed.
Lemma same_pool_partition p p' S : same_pool p p' → partition p S → partition p' S.
Proof.
  intros Hs [H1 H2 H3]. assert (Hw : ∀ l, width p' l = width p l) by (intros l; unfold width; by destruct Hs as (_ & _ & _ & -> & _)).
  assert (Hn : ncells p' = ncells p) by (unfold ncells; rewrite Hw; by destruct Hs as (_ & _ & -> & _)).
  split; unfold covers; intros *; rewrite ?Hn, ?Hw.
  - intros Hx. apply (same_pool_valid _ _ _ Hs). by apply H1.
  - intros Hc. destruct (H2 c Hc) as (x & Hx & Hxc). exists x. by rewrite Hw.
  - apply H3.
Qed.

(** The address of a block, from its first cell. *)
Lemma addr_cell p : wf_pool p → ∃ s, 0 < s ∧ 4 * s * ncells p = n_max p * max_sz p ∧ ∀ x, valid p x →
  lsize p x.1 = 4 * s * width p x.1 ∧ addr p x = mp_buf p + 4 * s * cell p x.
Proof.
  intros Hwf. destruct (wf_size _ Hwf) as (s & Hs & Hs0). exists s. split; [done|]. split.
  - unfold ncells, width. rewrite Hs, Z.sub_0_r. ring.
  - intros x [Hl _]. unfold addr, cell. rewrite (lsize_spec p s _ Hwf) by done. unfold width. split; [done|ring].
Qed.
Lemma addr_inj p x y : wf_pool p → valid p x → valid p y → addr p x = addr p y → cell p x = cell p y.
Proof. intros Hwf Hx Hy. destruct (addr_cell p Hwf) as (s & Hs & _ & Ha). rewrite (proj2 (Ha x Hx)), (proj2 (Ha y Hy)). nia. Qed.
(** A block is in the buffer. *)
Lemma addr_range p x : wf_pool p → valid p x → mp_buf p ≤ addr p x ∧ 4 ≤ lsize p x.1 ∧ addr p x + lsize p x.1 ≤ mp_buf p + n_max p * max_sz p.
Proof.
  intros Hwf Hx. destruct (addr_cell p Hwf) as (s & Hs & Hn & Ha). destruct (Ha x Hx) as [-> ->]. rewrite <-Hn.
  pose proof (proj1 (cell_spec p x Hx)). pose proof (width_pos p x.1 (proj2 (proj1 Hx))).
  assert (cell p x + width p x.1 ≤ ncells p); [|nia].
  destruct Hx as [Hl Hb]. unfold cell, ncells.
  assert (width p 0 = 4 ^ x.1 * width p x.1) as -> by (unfold width; rewrite <-Z.pow_add_r by lia; f_equal; lia). nia.
Qed.
Lemma block_ptr_addr p x : wf_pool p → valid p x → block_ptr p (lsize p x.1) x.2 = addr p x.
Proof.
  intros Hwf Hx. pose proof (addr_range p x Hwf Hx). pose proof (wf_end _ Hwf). pose proof (wf_total _ Hwf). pose proof (wf_buf _ Hwf). unfold block_ptr, addr in *.
  destruct Hx as [? ?]. rewrite (Z.mul_comm (lsize p x.1)). rewrite (u32_id (x.2 * _)) by nia. apply u32_id. nia.
Qed.
Lemma block_num_addr p x : wf_pool p → valid p x → block_num p (addr p x) (lsize p x.1) = x.2.
Proof.
  intros Hwf Hx. pose proof (addr_range p x Hwf Hx). pose proof (wf_end _ Hwf). pose proof (wf_total _ Hwf). pose proof (wf_buf _ Hwf). unfold block_num, addr in *.
  replace (mp_buf p + x.2 * lsize p x.1 - mp_buf p) with (x.2 * lsize p x.1) by ring. destruct Hx as [? ?].
  rewrite s32_id by nia. apply Z.quot_mul. lia.
Qed.
Lemma block_fits_addr p x : wf_pool p → valid p x → block_fits p (addr p x) (lsize p x.1) = true.
Proof.
  intros Hwf Hx. pose proof (addr_range p x Hwf Hx). pose proof (wf_end _ Hwf). pose proof (wf_total _ Hwf). pose proof (wf_buf _ Hwf).
  unfold block_fits, buf_size. rewrite !u32_id by lia. apply Z.ltb_lt. lia.
Qed.
(** The quarters of a block follow each other, the first one at the block. *)
Lemma addr_quarter p x i : wf_pool p → valid p x → x.1 + 1 < n_levels p → 0 ≤ i < 4 →
  addr p (quarter x i) = addr p x + lsize p (x.1 + 1) * i ∧ u32 (addr p x + lsize p (x.1 + 1) * i) = addr p (quarter x i).
Proof.
  intros Hwf Hx Hl Hi.
  assert (Hq : valid p (quarter x i)) by (eapply quarters_valid; try done; apply elem_of_quarters; simpl; split; [done|dlia]).
  assert (addr p (quarter x i) = addr p x + lsize p (x.1 + 1) * i) as E.
  { destruct (wf_size _ Hwf) as (s & Hs & Hs0). unfold addr, quarter. simpl.
    rewrite !(lsize_spec p s _ Hwf) by (done || (destruct Hx; lia)). fold (width p x.1). rewrite width_quarter by done. unfold width. ring. }
  split; [done|]. rewrite <-E. pose proof (addr_range p _ Hwf Hq). pose proof (wf_end _ Hwf). pose proof (wf_total _ Hwf). pose proof (wf_buf _ Hwf). apply u32_id. lia.
Qed.

(** ** What the bitmaps and the lists hold *)
Definition marks (p : k_mem_pool) (B : gset (Z * Z)) : Prop := ∀ x, valid p x → bit p x = bool_decide (x ∈ B).
Record lists (p : k_mem_pool) (F : gset (Z * Z)) : Prop := {
  lists_valid : ∀ x, x ∈ F → valid p x;
  lists_nodup : ∀ l, 0 ≤ l < n_levels p → NoDup (lvl_free p !!! l);
  lists_elem : ∀ l a, 0 ≤ l < n_levels p → a ∈ lvl_free p !!! l ↔ ∃ b, (l, b) ∈ F ∧ a = addr p (l, b);
}.

Lemma lists_same p p' F : same_pool p p' → lvl_free p' = lvl_free p → lists p F → lists p' F.
Proof.
  intros Hs Hf [H1 H2 H3]. pose proof (proj1 (proj2 (proj2 (proj2 Hs)))) as Hn. split; rewrite ?Hf, ?Hn; try done.
  - intros x Hx. apply (same_pool_valid _ _ _ Hs). by apply H1.
  - intros l a Hl. rewrite H3 by done. by setoid_rewrite (same_pool_addr p p' _ Hs).
Qed.
Lemma set_lvl_free_same v p : same_pool p (set_lvl_free v p).
Proof. done. Qed.
Lemma marks_set p x B : wf_pool p → valid p x → marks p B →
  ∃ p', set_free_bit x.1 x.2 p = Some p' ∧ same_pool p p' ∧ lvl_free p' = lvl_free p ∧ marks p' (B ∪ {[x]}).
Proof.
  intros Hwf Hx HB. destruct (set_free_bit_spec p x Hwf Hx) as (p' & -> & Hs & Hf & Hb). exists p'. split_and!; try done.
  intros y Hy%(same_pool_valid _ _ _ Hs). rewrite Hb by done. case_decide as E.
  - subst. by rewrite bool_decide_true by set_solver.
  - rewrite HB by done. apply bool_decide_ext. set_solver.
Qed.
Lemma marks_clear p x B : wf_pool p → valid p x → marks p B →
  ∃ p', clear_free_bit x.1 x.2 p = Some p' ∧ same_pool p p' ∧ lvl_free p' = lvl_free p ∧ marks p' (B ∖ {[x]}).
Proof.
  intros Hwf Hx HB. destruct (clear_free_bit_spec p x Hwf Hx) as (p' & -> & Hs & Hf & Hb). exists p'. split_and!; try done.
  intros y Hy%(same_pool_valid _ _ _ Hs). rewrite Hb by done. case_decide as E.
  - subst. by rewrite bool_decide_false by set_solver.
  - rewrite HB by done. apply bool_decide_ext. set_solver.
Qed.
Lemma lists_append p x F : wf_pool p → valid p x → x ∉ F → lists p F →
  lists (set_lvl_free (DlistSpec.append x.1 (addr p x) (lvl_free p)) p) (F ∪ {[x]}).
Proof.
  intros Hwf Hx HxF [H1 H2 H3]. split; simpl.
  - intros y [Hy| ->%elem_of_singleton]%elem_of_union; [by apply H1|done].
  - intros l Hl. rewrite DlistSpec.lookup_append. case_decide; [|by apply H2]. apply NoDup_app. split_and!; [by apply H2| |apply NoDup_singleton].
    intros a Ha ->%list_elem_of_singleton. apply H3 in Ha as (b & Hb & E); [|done]. destruct HxF. pose proof (addr_range p x Hwf Hx).
    destruct x as [l' b']; simpl in *. subst. unfold addr in E. simpl in E. assert (b' = b) as -> by nia. done.
  - intros l a Hl. setoid_rewrite (same_pool_addr p _ _ (set_lvl_free_same _ p)). rewrite DlistSpec.lookup_append. destruct x as [l' b']; simpl in *. case_decide as E; [subst; rewrite elem_of_app, list_elem_of_singleton|]; rewrite H3 by done.
    + split.
      * intros [(b & Hb & ->)| ->]; [exists b|exists b']; (split; [|done]); apply elem_of_union; [by left|right; by apply elem_of_singleton].
      * intros (b & [Hb|Hb%elem_of_singleton]%elem_of_union & ->); [left; eauto|right; by simplify_eq].
    + split; intros (b & Hb & ->); exists b; (split; [|done]); [apply elem_of_union; by left|].
      apply elem_of_union in Hb as [|Hb%elem_of_singleton]; [done|by simplify_eq].
Qed.
Lemma lists_remove p x F : wf_pool p → valid p x → (∀ y, y ∈ F → cell p y = cell p x → y = x) → lists p F →
  lists (set_lvl_free (DlistSpec.remove (addr p x) (lvl_free p)) p) (F ∖ {[x]}).
Proof.
  intros Hwf Hx Hu [H1 H2 H3]. split; simpl.
  - set_solver.
  - intros l Hl. rewrite DlistSpec.lookup_remove. apply NoDup_without. by apply H2.
  - intros l a Hl. setoid_rewrite (same_pool_addr p _ _ (set_lvl_free_same _ p)). rewrite DlistSpec.lookup_remove, elem_of_without, H3 by done. split.
    + intros [Hne (b & Hb & ->)]. exists b. split; [|done]. apply elem_of_difference. split; [done|]. by intros <-%elem_of_singleton.
    + intros (b & [Hb Hbx]%elem_of_difference & ->). split; [|eauto]. intros E. apply Hbx, elem_of_singleton, Hu; [done|].
      apply addr_inj; try done. by apply H1.
Qed.

(** ** The locked sections on the set of free blocks *)
Record pool_rep (p : k_mem_pool) (F : gset (Z * Z)) : Prop := {
  rep_wf : wf_pool p;
  rep_marks : marks p F;
  rep_lists : lists p F;
}.
Definition parent (x : Z * Z) : Z * Z := (x.1 - 1, x.2 / 4).
Definition siblings (x : Z * Z) : gset (Z * Z) := quarters (parent x).
Definition blocks (f : Z → Z * Z) (i : Z) (n : nat) : gset (Z * Z) := list_to_set (f <$> seqZ i (Z.of_nat n)).

Lemma blocks_S f i n : blocks f i (S n) = {[f i]} ∪ blocks f (i + 1) n.
Proof. unfold blocks. rewrite seqZ_cons by lia. rewrite Z.add_1_r. replace (Z.pred (Z.of_nat (S n))) with (Z.of_nat n) by lia. done. Qed.
Lemma elem_of_siblings x y : y ∈ siblings x ↔ y.1 = x.1 ∧ y.2 / 4 = x.2 / 4.
Proof. unfold siblings. rewrite elem_of_quarters. simpl. by rewrite Z.sub_add. Qed.
Lemma partner_sibling x i : 0 ≤ i < 4 → partner x i ∈ siblings x.
Proof. intros Hi. rewrite elem_of_siblings. unfold partner. simpl. split; [done|dlia]. Qed.
Lemma sibling_partner x y : y ∈ siblings x → ∃ i, 0 ≤ i < 4 ∧ y = partner x i.
Proof.
  intros [H1 H2]%elem_of_siblings. exists (y.2 mod 4). split; [dlia|]. destruct y. unfold partner. simpl in *. subst. f_equal. dlia.
Qed.
Lemma siblings_blocks x : siblings x = blocks (partner x) 0 4.
Proof.
  apply set_eq. intros y. unfold blocks. rewrite elem_of_list_to_set, list_elem_of_fmap. split.
  - intros (i & Hi & ->)%sibling_partner. exists i. split; [done|]. apply elem_of_seqZ. lia.
  - intros (i & -> & Hi%elem_of_seqZ). apply partner_sibling. lia.
Qed.
Lemma sibling_valid p x y : wf_pool p → valid p x → 0 < x.1 → y ∈ siblings x → valid p y.
Proof.
  intros Hwf Hx Hl Hy. eapply (quarters_valid p (parent x)); [|simpl; destruct Hx; lia|done].
  apply (parent_valid p _ x); [done|by apply elem_of_siblings|simpl; lia].
Qed.
Lemma land_lnot3 b : Z.land b (Z.lnot 3) = 4 * (b / 4).
Proof.
  change 3 with (Z.ones 2). rewrite <-Z.ldiff_land, Z.ldiff_ones_r, Z.shiftl_mul_pow2, Z.shiftr_div_pow2 by lia. change (2 ^ 2) with 4. lia.
Qed.

Lemma alloc_block_rep p F U l :
  pool_rep p F → partition p (F ∪ U) → 0 ≤ l < n_levels p →
  (level_empty p l = true ∧ alloc_block l (lsize p l) p = Some (None, p) ∧ ∀ b, (l, b) ∉ F) ∨
  (∃ b p', level_empty p l = false ∧ alloc_block l (lsize p l) p = Some (Some (addr p (l, b)), p') ∧
     (l, b) ∈ F ∧ same_pool p p' ∧ pool_rep p' (F ∖ {[(l, b)]})).
Proof.
  intros [Hwf HB HL] HP Hl. unfold alloc_block, level_empty. pose proof (lists_elem _ _ HL l) as He. destruct (lvl_free p !!! l) as [|a rest] eqn:E.
  - left. split_and!; [by rewrite bool_decide_true|done|]. intros b Hb. apply (not_elem_of_nil (addr p (l, b))), He; eauto.
  - right. destruct (proj1 (He a Hl)) as (b & Hb & ->); [left|]. assert (Hx := lists_valid _ _ HL _ Hb). exists b. simpl.
    set (p1 := set_lvl_free _ p). assert (Hs1 : same_pool p p1) by done. assert (Hwf1 := same_pool_wf _ _ Hs1 Hwf).
    assert (block_num p1 (addr p (l, b)) (lsize p l) = b) as -> by apply (block_num_addr p (l, b) Hwf Hx).
    destruct (marks_clear p1 (l, b) F Hwf1 Hx HB) as (p' & E' & Hs & Hf & HB'). simpl in E'. rewrite E'.
    assert (Hs' : same_pool p p') by by etransitivity. exists p'. split_and!; [done..|]. split; [by eapply same_pool_wf|done|].
    apply (lists_same p1); [done|done|]. apply (lists_remove p (l, b)); try done. intros y Hy. apply (part_cell p _ _ _ HP); set_solver.
Qed.

Lemma break_loop_rep p F x n i :
  pool_rep p F → valid p x → x.1 + 1 < n_levels p → 0 ≤ i → i + Z.of_nat n ≤ 4 → (∀ j, i ≤ j < 4 → quarter x j ∉ F) →
  ∃ p', break_loop n i x.1 (lsize p (x.1 + 1)) x.2 (addr p x) p = Some p' ∧ same_pool p p' ∧ pool_rep p' (F ∪ blocks (quarter x) i n).
Proof.
  intros HR Hx Hl. revert p F i HR Hx Hl. induction n as [|n IH]; intros p F i HR Hx Hl Hi Hn HF.
  { exists p. split_and!; [done|done|]. replace (F ∪ blocks (quarter x) i 0) with F by (unfold blocks; set_solver). done. }
  destruct HR as [Hwf HB HL]. simpl break_loop. rewrite (proj2 (addr_quarter p x i Hwf Hx Hl ltac:(lia))).
  assert (Hq : valid p (quarter x i)) by (eapply quarters_valid; try done; apply elem_of_quarters; simpl; split; [done|dlia]).
  destruct (marks_set p (quarter x i) F Hwf Hq HB) as (p1 & E1 & Hs1 & Hf1 & HB1). unfold quarter in E1 at 1 2. simpl in E1. rewrite E1. simpl.
  assert (Hwf1 := same_pool_wf _ _ Hs1 Hwf).
  rewrite <-!(same_pool_addr p p1 _ Hs1), <-!(same_pool_lsize p p1 _ Hs1).
  assert (block_fits p1 (addr p1 (quarter x i)) (lsize p1 (x.1 + 1)) = true) as -> by exact (block_fits_addr p1 (quarter x i) Hwf1 (proj2 (same_pool_valid _ _ _ Hs1) Hq)).
  set (p2 := set_lvl_free _ p1). assert (Hs2 : same_pool p1 p2) by done. assert (Hs02 : same_pool p p2) by by etransitivity.
  destruct (IH p2 (F ∪ {[quarter x i]}) (i + 1)) as (p' & E & Hs & HR).
  - split; [by eapply same_pool_wf|done|]. apply (lists_append p1 (quarter x i)); [done|by apply (same_pool_valid _ _ _ Hs1)|apply HF; lia|by eapply lists_same].
  - by apply (same_pool_valid _ _ _ Hs02).
  - by rewrite (proj1 (proj2 (proj2 (proj2 Hs02)))).
  - lia.
  - lia.
  - intros j Hj. apply not_elem_of_union. split; [apply HF; lia|]. rewrite elem_of_singleton. unfold quarter. intros [=]. lia.
  - exists p'. rewrite !(same_pool_addr p1 p2 _ Hs2), !(same_pool_lsize p1 p2 _ Hs2) in E. split; [done|]. split; [by etransitivity|].
    rewrite blocks_S. by rewrite (assoc_L (∪)).
Qed.
Lemma break_block_rep p F x :
  pool_rep p F → valid p x → x.1 + 1 < n_levels p → (∀ y, y ∈ quarters x → y ∉ F) →
  ∃ p', break_block (addr p x) x.1 p = Some p' ∧ same_pool p p' ∧ pool_rep p' (F ∪ blocks (quarter x) 1 3).
Proof.
  intros HR Hx Hl HF. unfold break_block. rewrite (block_num_addr p x (rep_wf _ _ HR) Hx).
  apply break_loop_rep; try done. intros j Hj. apply HF, elem_of_quarters. simpl. split; [done|dlia].
Qed.

Lemma clear_partners_rep p B L x n i :
  wf_pool p → marks p B → lists p L → valid p x → 0 < x.1 → 0 ≤ i → i + Z.of_nat n ≤ 4 → x ∉ L →
  (∀ y z, y ∈ L → z ∈ L → cell p y = cell p z → y = z) → (∀ y, y ∈ siblings x → y ≠ x → i ≤ y.2 - 4 * (x.2 / 4) → y ∈ L) →
  ∃ p', clear_partners n i x.1 (lsize p x.1) x.2 p = Some p' ∧ same_pool p p' ∧
    marks p' (B ∖ blocks (partner x) i n) ∧ lists p' (L ∖ blocks (partner x) i n).
Proof.
  revert p B L i. induction n as [|n IH]; intros p B L i Hwf HB HL Hx Hx1 Hi Hn HxL Hu Hsib.
  { exists p. unfold blocks. simpl. rewrite !difference_empty_L. done. }
  simpl clear_partners. rewrite land_lnot3. assert (Hpi := partner_sibling x i ltac:(lia)). assert (Hq := sibling_valid p x _ Hwf Hx Hx1 Hpi).
  destruct (marks_clear p (partner x i) B Hwf Hq HB) as (p1 & E1 & Hs1 & Hf1 & HB1). unfold partner in E1 at 1 2. simpl in E1. rewrite E1. simpl.
  assert (Hwf1 := same_pool_wf _ _ Hs1 Hwf). assert (Hq1 := proj2 (same_pool_valid _ _ (partner x i) Hs1) Hq).
  rewrite <-!(same_pool_lsize p p1 _ Hs1). change (4 * (x.2 / 4) + i) with (partner x i).2.
  assert (block_ptr p1 (lsize p1 x.1) (partner x i).2 = addr p1 (partner x i)) as -> by exact (block_ptr_addr p1 (partner x i) Hwf1 Hq1).
  assert (block_fits p1 (addr p1 (partner x i)) (lsize p1 x.1) = true) as -> by exact (block_fits_addr p1 (partner x i) Hwf1 Hq1). rewrite andb_true_r.
  match goal with |- context [clear_partners n _ _ _ _ ?q] => set (p2 := q) end.
  assert (Hs2 : same_pool p1 p2) by (subst p2; by destruct (negb _)). assert (Hs02 : same_pool p p2) by by etransitivity.
  assert (HL2 : lists p2 (L ∖ {[partner x i]})).
  { subst p2. destruct (Z.eqb_spec (partner x i).2 x.2) as [E|E]; simpl.
    - replace (L ∖ {[partner x i]}) with L; [by eapply lists_same|]. assert (partner x i = x) as -> by (destruct x; unfold partner in *; simpl in *; by f_equal). set_solver.
    - assert (HiL : partner x i ∈ L) by (apply Hsib; [done|by intros E'%(f_equal snd)|unfold partner; simpl; lia]).
      apply lists_remove; [done|done| |by eapply lists_same]. intros y Hy Hc. apply Hu; try done.
      unfold cell, width in *. by rewrite (proj1 (proj2 (proj2 (proj2 Hs1)))) in Hc. }
  assert (HB2 : marks p2 (B ∖ {[partner x i]})) by (subst p2; by destruct (negb _)). clearbody p2.
  destruct (IH p2 (B ∖ {[partner x i]}) (L ∖ {[partner x i]}) (i + 1)) as (p' & E & Hs & HB' & HL'); try done.
  - by eapply same_pool_wf.
  - by apply (same_pool_valid _ _ _ Hs02).
  - lia.
  - lia.
  - set_solver.
  - intros y z [Hy _]%elem_of_difference [Hz _]%elem_of_difference Hc. apply Hu; try done.
    unfold cell, width in *. by rewrite (proj1 (proj2 (proj2 (proj2 Hs02)))) in Hc.
  - intros y Hy Hne Hge. apply elem_of_difference. split; [apply Hsib; try done; lia|]. rewrite elem_of_singleton. intros ->. unfold partner in Hge. simpl in Hge. lia.
  - exists p'. rewrite (same_pool_lsize p1 p2 _ Hs2) in E. split; [done|]. split; [by etransitivity|].
    rewrite blocks_S, <-!difference_difference_l_L. done.
Qed.

Lemma free_step_rep p F U x :
  pool_rep p F → partition p (F ∪ U) → x ∈ U → x ∉ F →
  ∃ up p', free_step x.1 x.2 p = Some (up, p') ∧ same_pool p p' ∧
    if up : bool then 0 < x.1 ∧ siblings x ∖ {[x]} ⊆ F ∧ pool_rep p' (F ∖ siblings x)
    else (0 < x.1 → ¬ siblings x ⊆ F ∪ {[x]}) ∧ pool_rep p' (F ∪ {[x]}).
Proof.
  intros [Hwf HB HL] HP HxU HxF. assert (Hx : valid p x) by (apply (part_valid _ _ HP); set_solver). unfold free_step.
  rewrite block_ptr_addr by done. destruct (marks_set p x F Hwf Hx HB) as (p1 & -> & Hs1 & Hf1 & HB1). cbn [mbind option_bind].
  assert (Hwf1 := same_pool_wf _ _ Hs1 Hwf). assert (Hx1 := proj2 (same_pool_valid _ _ x Hs1) Hx). assert (HL1 : lists p1 F) by by eapply lists_same.
  destruct (partner_bits_spec p1 x Hwf1 Hx1) as (v & -> & Hv). cbn [mbind option_bind].
  assert (Hv' : 0 < x.1 → v = 15 ↔ siblings x ⊆ F ∪ {[x]}).
  { intros Hl. rewrite Hv. split.
    - intros H y (i & Hi & ->)%sibling_partner. specialize (H i Hi). rewrite HB1 in H by (eapply sibling_valid, partner_sibling; done). by apply bool_decide_eq_true in H.
    - intros H i Hi. rewrite HB1 by (eapply sibling_valid, partner_sibling; done). apply bool_decide_eq_true, H. by apply partner_sibling. }
  rewrite <-!(same_pool_lsize p p1 _ Hs1), <-!(same_pool_addr p p1 _ Hs1).
  destruct (Z.eqb_spec x.1 0) as [E0|E0]; cbn [negb andb]; [|destruct (Z.eqb_spec v 15) as [E15|E15]].
  1, 3: rewrite block_fits_addr by done; do 2 eexists; split; [done|]; split; [done|]; split; [destruct Hx; intuition lia|].
  1, 2: split; [by eapply same_pool_wf, Hwf1|done|]; by apply lists_append.
  assert (Hl : 0 < x.1) by (destruct Hx; lia). assert (Hsub := proj1 (Hv' Hl) E15).
  destruct (clear_partners_rep p1 (F ∪ {[x]}) F x 4 0) as (p' & -> & Hs & HB' & HL'); try done.
  - intros y z Hy Hz. pose proof (same_pool_partition _ _ _ Hs1 HP) as HP1. apply (part_cell p1 _ _ _ HP1); set_solver.
  - intros y Hy Hne _. by destruct (proj1 (elem_of_union _ _ _) (Hsub y Hy)) as [|?%elem_of_singleton].
  - cbn [mbind option_bind]. do 2 eexists. split; [done|]. split; [by etransitivity|]. split; [done|]. split; [intros y [Hy Hne]%elem_of_difference; by destruct (proj1 (elem_of_union _ _ _) (Hsub y Hy))|].
    rewrite <-siblings_blocks in HB', HL'. split; [by eapply same_pool_wf, same_pool_wf| |done].
    assert (x ∈ siblings x) by by apply elem_of_siblings. replace (F ∖ siblings x) with ((F ∪ {[x]}) ∖ siblings x); [done|]. clear -H. generalize dependent (siblings x). set_solver.
Qed.

(** ** The invariant

    [F] are the free blocks and [U] those held by callers, or by an operation
    between two of its locked sections. *)
Record pool_inv (p : k_mem_pool) (F U : gset (Z * Z)) : Prop := {
  inv_rep : pool_rep p F;
  inv_part : partition p (F ∪ U);
  inv_disj : F ## U;
  inv_merged : ∀ x, x ∈ F → 0 < x.1 → ¬ siblings x ⊆ F;
}.

Lemma alloc_block_inv p F U l :
  pool_inv p F U → 0 ≤ l < n_levels p →
  (level_empty p l = true ∧ alloc_block l (lsize p l) p = Some (None, p)) ∨
  (∃ b p', level_empty p l = false ∧ alloc_block l (lsize p l) p = Some (Some (addr p (l, b)), p') ∧ same_pool p p' ∧
     (l, b) ∈ F ∧ pool_inv p' (F ∖ {[(l, b)]}) (U ∪ {[(l, b)]})).
Proof.
  intros [HR HP HD HM] Hl. destruct (alloc_block_rep p F U l HR HP Hl) as [(H1 & H2 & _)|(b & p' & H1 & H2 & Hb & Hs & HR')]; [by left|right].
  exists b, p'. split_and!; try done. split; try done.
  - apply (same_pool_partition p); [done|]. by replace (F ∖ {[(l, b)]} ∪ (U ∪ {[(l, b)]})) with (F ∪ U)
      by (apply set_eq; intros y; destruct (decide (y = (l, b))); set_solver).
  - set_solver.
  - intros x Hx Hx1 Hs'. apply (HM x); set_solver.
Qed.

Lemma quarters_blocks x : quarters x = {[quarter x 0]} ∪ blocks (quarter x) 1 3.
Proof. unfold quarters, blocks. simpl. rewrite (right_id_L ∅ (∪)), !(assoc_L (∪)). done. Qed.
Lemma quarters_siblings x y z : y ∈ quarters x → z ∈ quarters x → y ∈ siblings z.
Proof. rewrite !elem_of_quarters, elem_of_siblings. intros [-> ->] [-> ->]. done. Qed.
Lemma siblings_other x y z : y ∈ quarters x → z ∉ quarters x → y ∉ siblings z.
Proof. rewrite !elem_of_quarters, elem_of_siblings. intros [H1 H2] Hz [H3 H4]. apply Hz. split; congruence. Qed.
Lemma quarter_elem x i : 0 ≤ i < 4 → quarter x i ∈ quarters x.
Proof. intros Hi. apply elem_of_quarters. simpl. split; [done|dlia]. Qed.
Lemma quarter0_blocks x : quarter x 0 ∉ blocks (quarter x) 1 3.
Proof. unfold blocks, quarter. simpl. rewrite !elem_of_union, !elem_of_singleton. intros [H|[H|[H|H]]]; [injection H; lia..|set_solver]. Qed.

Lemma break_block_inv p F U x :
  pool_inv p F U → x ∈ U → x.1 + 1 < n_levels p →
  ∃ p', break_block (addr p x) x.1 p = Some p' ∧ same_pool p p' ∧
    pool_inv p' (F ∪ blocks (quarter x) 1 3) (U ∖ {[x]} ∪ {[quarter x 0]}).
Proof.
  intros [HR HP HD HM] HxU Hl. assert (HxS : x ∈ F ∪ U) by (apply elem_of_union; by right). assert (Hx := part_valid _ _ HP _ HxS).
  assert (Hno : ∀ y, y ∈ F ∪ U → y ∉ quarters x) by (intros y Hy; by eapply part_no_quarter).
  destruct (break_block_rep p F x HR Hx Hl) as (p' & E & Hs & HR'); [intros y Hy HF; apply (Hno y); [by apply elem_of_union_l|done]|].
  assert (HxF : x ∉ F) by (intros HF; by destruct (HD x)). pose proof (quarters_blocks x) as HQ. pose proof (quarter0_blocks x) as H0.
  assert (Hq0 := quarter_elem x 0 ltac:(lia)). pose proof (part_split _ _ _ HP HxS Hl) as HP'.
  exists p'. split_and!; try done. split; [done| | |].
  - apply (same_pool_partition p); [done|]. rewrite HQ in HP'.
    replace (F ∪ blocks (quarter x) 1 3 ∪ (U ∖ {[x]} ∪ {[quarter x 0]})) with ((F ∪ U) ∖ {[x]} ∪ ({[quarter x 0]} ∪ blocks (quarter x) 1 3)); [done|].
    clear -HxF. set_solver.
  - assert (Hb : blocks (quarter x) 1 3 ⊆ quarters x) by (rewrite HQ; apply union_subseteq_r). clear -HD H0 Hno Hb Hq0. revert Hno Hb Hq0 H0. generalize (quarters x), (blocks (quarter x) 1 3), (quarter x 0). set_solver.
  - intros y Hy Hy1 Hsub. destruct (decide (y ∈ quarters x)) as [Hyq|Hyq].
    + pose proof (Hsub _ (quarters_siblings x (quarter x 0) y Hq0 Hyq)) as [H|H]%elem_of_union; [|done]. apply (Hno (quarter x 0)); [by apply elem_of_union_l|done].
    + apply (HM y); [|done|].
      * apply elem_of_union in Hy as [Hy|Hy]; [done|]. destruct Hyq. rewrite HQ. by apply elem_of_union_r.
      * intros z Hz. pose proof (Hsub z Hz) as [|Hzb]%elem_of_union; [done|]. destruct (siblings_other x z y); [rewrite HQ; by apply elem_of_union_r|done|done].
Qed.

Lemma siblings_sym x y : y ∈ siblings x → siblings y = siblings x.
Proof. intros [H1 H2]%elem_of_siblings. apply set_eq. intros z. rewrite !elem_of_siblings. by rewrite H1, H2. Qed.
Lemma siblings_self x : x ∈ siblings x.
Proof. by apply elem_of_siblings. Qed.

(** A locked section of [free_block]: either the block is free now, or it was
    merged with its three partners and the operation holds the block above. *)
Lemma free_step_inv p F U x :
  pool_inv p F U → x ∈ U →
  ∃ up p', free_step x.1 x.2 p = Some (up, p') ∧ same_pool p p' ∧
    if up : bool then 0 < x.1 ∧ pool_inv p' (F ∖ siblings x) (U ∖ {[x]} ∪ {[parent x]})
    else pool_inv p' (F ∪ {[x]}) (U ∖ {[x]}).
Proof.
  intros [HR HP HD HM] HxU. assert (HxF : x ∉ F) by (intros HF; by destruct (HD x)). assert (HxS : x ∈ F ∪ U) by by apply elem_of_union_r. assert (Hx := part_valid _ _ HP _ HxS).
  destruct (free_step_rep p F U x HR HP HxU HxF) as (up & p' & E & Hs & HC). exists up, p'. split; [done|]. split; [done|].
  pose proof (siblings_self x) as Hself. destruct up.
  - destruct HC as (Hl & Hsub & HR'). split; [done|].
    assert (Hp : valid p (parent x)) by (apply (parent_valid p _ x); [done|done|simpl; lia]).
    assert (Hl' : (parent x).1 + 1 < n_levels p) by (simpl; destruct Hx; lia).
    assert (HP' : partition p ((F ∪ U) ∖ siblings x ∪ {[parent x]})).
    { apply part_merge; try done. intros y Hy. destruct (decide (y = x)) as [->|]; [done|]. apply elem_of_union_l, Hsub, elem_of_difference. split; [done|by rewrite elem_of_singleton]. }
    assert (HUs : ∀ y, y ∈ U → y ∈ siblings x → y = x) by (intros y HyU Hy; destruct (decide (y = x)); [done|]; destruct (HD y); [apply Hsub, elem_of_difference; split; [done|by rewrite elem_of_singleton]|done]).
    assert (Hpar : parent x ∉ F). { intros Hin. eapply (part_no_quarter p _ (parent x) x HP); try done. by apply elem_of_union_l. }
    split; [done| | |].
    + apply (same_pool_partition p); [done|]. replace (F ∖ siblings x ∪ (U ∖ {[x]} ∪ {[parent x]})) with ((F ∪ U) ∖ siblings x ∪ {[parent x]}); [done|].
      clear -HUs Hself. generalize dependent (siblings x). set_solver.
    + clear -HD Hpar. generalize (siblings x). set_solver.
    + intros y [Hy Hys]%elem_of_difference Hy1 Hss. apply (HM y Hy Hy1). intros z Hz. apply Hss in Hz. by apply elem_of_difference in Hz as [? _].
  - destruct HC as [Hns HR']. split; [done| | |].
    + apply (same_pool_partition p); [done|]. replace (F ∪ {[x]} ∪ U ∖ {[x]}) with (F ∪ U); [done|].
      apply set_eq. intros y. destruct (decide (y = x)); set_solver.
    + set_solver.
    + intros y [Hy| ->%elem_of_singleton]%elem_of_union Hy1 Hss; [|by apply Hns].
      destruct (decide (y ∈ siblings x)) as [Hys|Hys].
      * apply elem_of_siblings in Hys as Hl. apply Hns; [lia|]. by rewrite <-(siblings_sym x y).
      * apply (HM y Hy Hy1). intros z Hz. pose proof (Hss z Hz) as [|Hzx%elem_of_singleton]%elem_of_union; [done|]. subst.
        destruct Hys. rewrite (siblings_sym y x) by done. apply siblings_self.
Qed.
