(* ===== verification/MemPoolProps.v ===== *)
(** * Memory pools: what the allocator guarantees

    The pool [init_mem_pool] sets up satisfies the invariant; the free blocks are
    determined by the held ones; [alloc_alone] fails exactly when no block of a
    sufficient size is unheld; blocks held at one time never overlap. *)
From stdpp Require Import gmap list.
From S2P Require Import Prelude Dlist KState MemPool MemPoolInv.
Local Open Scope Z_scope.

(** ** Initialisation *)

(** The parameters of a pool whose largest block is [4 ^ k] smallest ones. *)
Record pool_params (buf minsz nmax k : Z) : Prop := {
  pp_k : 0 ≤ k < 16;
  pp_min : minsz mod 4 = 0 ∧ 0 < minsz;
  pp_n : 0 < nmax < 32;
  pp_buf : 0 < buf;
  pp_end : buf + nmax * (minsz * 4 ^ k) < 4294967296;
  pp_total : nmax * (minsz * 4 ^ k) < 2147483648;
  pp_blocks : nmax * 4 ^ k ≤ 1048576;
}.

Lemma have_lvl m k l : 0 < m → 0 ≤ k → 0 ≤ l → _MPOOL_HAVE_LVL (m * 4 ^ k) m l = if l <=? k then 1 else 0.
Proof.
  intros Hm Hk Hl. unfold _MPOOL_HAVE_LVL. rewrite Z.shiftr_div_pow2 by lia. rewrite Z.pow_mul_r by lia. change (2 ^ 2) with 4.
  pose proof (pow4_pos l Hl). destruct (Z.leb_spec l k) as [Hlk|Hlk].
  - replace k with (k - l + l) by lia. rewrite Z.pow_add_r, Z.mul_assoc, Z.div_mul by lia. pose proof (pow4_pos (k - l) ltac:(lia)).
    destruct (Z.leb_spec m (m * 4 ^ (k - l))); [done|nia].
  - assert (E : 4 ^ l = 4 ^ (l - k - 1) * 4 * 4 ^ k) by (rewrite <-(Z.mul_comm 4), <-pow4_succ, <-Z.pow_add_r by lia; f_equal; lia).
    pose proof (pow4_pos k Hk). pose proof (pow4_pos (l - k - 1) ltac:(lia)). rewrite E, Z.div_mul_cancel_r by lia.
    destruct (Z.leb_spec m (m / (4 ^ (l - k - 1) * 4))) as [Hle|]; [|done]. pose proof (Z.div_le_upper_bound m (4 ^ (l - k - 1) * 4) (m / 2)).
    assert (m / (4 ^ (l - k - 1) * 4) < m) by (apply Z.div_lt_upper_bound; nia). lia.
Qed.
Lemma mpool_lvls m k : 0 < m → 0 ≤ k < 16 → _MPOOL_LVLS (m * 4 ^ k) m = k + 1.
Proof.
  intros Hm Hk. unfold _MPOOL_LVLS.
  replace (_MPOOL_HAVE_LVL (m * 4 ^ k) m <$> seqZ 0 16) with ((λ l, if l <=? k then 1 else 0) <$> seqZ 0 16).
  - assert (k ∈ seqZ 0 16) as Hin by (apply elem_of_seqZ; lia). repeat (apply elem_of_cons in Hin as [->|Hin]; [done|]). by apply elem_of_nil in Hin.
  - apply list_fmap_ext. intros i l Hl%lookup_seqZ. rewrite have_lvl; [done|lia..].
Qed.

(** After the levels below [i]: bits are clear, and the words of the levels that
    have some behind the buffer are apart and before [bits]. *)
Definition level_words (p : k_mem_pool) (l : Z) : Z := (n_max p * 4 ^ l + 31) / 32.
Record init_inv (p0 : k_mem_pool) (i bits : Z) (p : k_mem_pool) : Prop := {
  ii_same : mp_buf p = mp_buf p0 ∧ max_sz p = max_sz p0 ∧ n_max p = n_max p0 ∧ n_levels p = n_levels p0;
  ii_free : ∀ l, lvl_free p !!! l = [];
  ii_words : bit_words p = ∅;
  ii_inline : 0 ≤ max_inline_level p ∧ (max_inline_level p < i ∨ max_inline_level p = 0) ∧ ∀ l, 0 ≤ l < i → l ≤ max_inline_level p ↔ n_max p * 4 ^ l < 32;
  ii_zero : ∀ l, l ≤ max_inline_level p ∨ i ≤ l → lvl_bits p !! l = None;
  ii_apart : ∀ l l', max_inline_level p < l → l < l' < i → lvl_word p l + 4 * level_words p l ≤ lvl_word p l';
  ii_last : ∀ l, max_inline_level p < l < i → lvl_word p l + 4 * level_words p l ≤ bits;
}.

Lemma pow4_mono a b : 0 ≤ a ≤ b → 4 ^ a ≤ 4 ^ b.
Proof. intros H. apply Z.pow_le_mono_r; lia. Qed.
(** The inline branch of the loop, and the other one. *)
Lemma init_inv_inline p0 i bits p :
  0 ≤ i → 0 < n_max p0 → n_max p0 * 4 ^ i < 32 → init_inv p0 i bits p →
  init_inv p0 (i + 1) bits (set_max_inline_level i (set_lvl_free (DlistSpec.init i (lvl_free p)) p)).
Proof.
  intros Hi Hn Hlt [(E1 & E2 & E3 & E4) Hf Hw [H0 [Hm Hin]] Hz Ha Hl].
  assert (Hmono : ∀ l, 0 ≤ l ≤ i → n_max p * 4 ^ l < 32) by (intros l Hli; pose proof (pow4_mono l i Hli); rewrite E3; nia).
  split; simpl; try done.
  - intros l. unfold DlistSpec.init. rewrite lookup_total_ins. by case_decide.
  - split; [done|]. split; [lia|]. intros l Hli. split; [intros; apply Hmono; lia|lia].
  - intros l Hl'. apply Hz. destruct Hl' as [Hl'|]; [|right; lia]. destruct (decide (l = i)); [right; lia|]. destruct (decide (l < 0)); [left; lia|].
    left. apply Hin; [lia|]. apply Hmono. lia.
  - intros l l' H1 H2. lia.
  - intros l H1. lia.
Qed.
Lemma init_inv_words p0 i bits p :
  1 ≤ i → 32 ≤ n_max p0 * 4 ^ i → init_inv p0 i bits p →
  init_inv p0 (i + 1) (bits + 4 * ((n_max p0 * 4 ^ i + 31) / 32))
    (set_lvl_bits (<[i := bits]> (lvl_bits p)) (set_lvl_free (DlistSpec.init i (lvl_free p)) p)).
Proof.
  intros Hi Hge [(E1 & E2 & E3 & E4) Hf Hw [H0 [Hm Hin]] Hz Ha Hl].
  assert (Hww : ∀ l, lvl_word (set_lvl_bits (<[i := bits]> (lvl_bits p)) (set_lvl_free (DlistSpec.init i (lvl_free p)) p)) l = if decide (i = l) then bits else lvl_word p l)
    by (intros l; unfold lvl_word; simpl; rewrite lookup_insert; by case_decide).
  split; simpl; try done.
  - intros l. unfold DlistSpec.init. rewrite lookup_total_ins. by case_decide.
  - split; [done|]. split; [lia|]. intros l Hli. destruct (decide (l = i)) as [->|]; [rewrite E3; lia|]. apply Hin. lia.
  - intros l Hl'. rewrite lookup_insert_ne by lia. apply Hz. lia.
  - intros l l' H1 H2. rewrite !Hww. rewrite (decide_False (P := i = l)) by lia. case_decide; subst; [apply Hl; lia|apply Ha; lia].
  - intros l H1. unfold level_words in *. simpl in *. rewrite Hww. case_decide as E; [subst; by rewrite E3|]. specialize (Hl l ltac:(lia)).
    pose proof (Z.div_pos (n_max p0 * 4 ^ i + 31) 32). lia.
Qed.

Section init.
Context (p0 : k_mem_pool) (Hwf : wf_sizes p0).

Lemma level_blocks i : 0 ≤ i < n_levels p0 → buf_size p0 / lsize p0 i = n_max p0 * 4 ^ i.
Proof.
  intros Hi. destruct (wf_size _ Hwf) as (s & Hs & Hs0). pose proof (wf_n _ Hwf). pose proof (wf_end _ Hwf). pose proof (wf_buf _ Hwf).
  pose proof (pow4_pos (n_levels p0 - 1) ltac:(lia)). unfold buf_size. rewrite u32_id by nia. rewrite (lsize_spec p0 s), Hs by done.
  pose proof (pow4_pos (n_levels p0 - 1 - i) ltac:(lia)). replace (n_levels p0 - 1) with (i + (n_levels p0 - 1 - i)) at 1 by lia. rewrite Z.pow_add_r by lia.
  replace (n_max p0 * (4 * s * (4 ^ i * 4 ^ (n_levels p0 - 1 - i)))) with (n_max p0 * 4 ^ i * (4 * s * 4 ^ (n_levels p0 - 1 - i))) by ring.
  apply Z.div_mul. nia.
Qed.
Lemma init_levels_inv n i bits p :
  0 ≤ i → i + Z.of_nat n = n_levels p0 → init_inv p0 i bits p →
  ∃ bits', init_inv p0 (n_levels p0) bits' (init_levels n i (buf_size p0) (lsize p0 i) bits p).
Proof.
  revert i bits p. induction n as [|n IH]; intros i bits p Hi Hn HI; [exists bits; by replace (n_levels p0) with i by lia|].
  simpl init_levels. rewrite level_blocks by lia.
  assert (_ALIGN4 (lsize p0 i / 4) = lsize p0 (i + 1)) as -> by (unfold lsize; by rewrite Z.add_1_r, Z2Nat.inj_succ by lia).
  pose proof (wf_n _ Hwf). destruct (Z.ltb_spec (n_max p0 * 4 ^ i) 32); apply IH; try lia.
  - apply init_inv_inline; try done; lia.
  - apply init_inv_words; try done. destruct (decide (i = 0)); [subst; lia|lia].
Qed.
End init.

Lemma static_pool_sizes buf minsz nmax k : pool_params buf minsz nmax k → wf_sizes (K_MEM_POOL_DEFINE buf minsz (minsz * 4 ^ k) nmax).
Proof.
  intros [Hk [Hm Hm0] Hn Hb He Hc]. split; simpl; try done; rewrite mpool_lvls by done; [lia| |by rewrite Z.add_simpl_r].
  exists (minsz / 4). rewrite Z.add_simpl_r. split; [|dlia]. replace (4 * (minsz / 4)) with minsz by dlia. done.
Qed.

(** The words of two levels behind the buffer do not meet. *)
Lemma init_inv_wf p0 bits p : wf_sizes p0 → init_inv p0 (n_levels p0) bits p → wf_pool p.
Proof.
  intros [H1 H2 H3 H4 H5 H6] [(E1 & E2 & E3 & E4) _ _ [H0 [Hm Hin]] _ Ha _]. split; [split; by rewrite ?E1, ?E2, ?E3, ?E4|..].
  - intros l Hl Hle. rewrite E4 in Hl. apply Z.lt_le_incl. by apply Hin.
  - intros [l b] [l' b'] [Hx1 Hx2] [Hy1 Hy2]. simpl in *. rewrite E4 in *. intros Hl Hl' E.
    assert (Hb : ∀ c m, c < n_max p * 4 ^ m → c / 32 < level_words p m) by (intros c m Hc; unfold level_words; dlia).
    pose proof (Hb _ _ (proj2 Hx2)). pose proof (Hb _ _ (proj2 Hy2)). pose proof (Z.div_pos b 32). pose proof (Z.div_pos b' 32).
    destruct (Z.lt_trichotomy l l') as [Hlt|[?|Hlt]]; [specialize (Ha l l')|done|specialize (Ha l' l)]; lia.
Qed.
Lemma init_inv_rep p0 bits p : wf_sizes p0 → init_inv p0 (n_levels p0) bits p → pool_rep p ∅.
Proof.
  intros Hwf HI. split; [by eapply init_inv_wf|..]; destruct HI as [_ Hf Hw _ Hz _ _].
  - intros x Hx. rewrite bool_decide_false by set_solver. unfold bit, get_bit_ptr.
    destruct (Z.leb_spec x.1 (max_inline_level p)); [destruct (_ =? 0); [|done]|]; unfold word_at, lvl_word.
    + rewrite Hz by (left; lia). apply Z.bits_0.
    + rewrite Hw, lookup_empty. apply Z.bits_0.
  - split; [set_solver| |]; intros l *; rewrite Hf; [intros; apply NoDup_nil_2|]. set_solver.
Qed.

(** The blocks of level 0. *)
Definition top (b : Z) : Z * Z := (0, b).
Definition tops (p : k_mem_pool) : gset (Z * Z) := blocks top 0 (Z.to_nat (n_max p)).
Lemma elem_of_tops p x : 0 ≤ n_max p → x ∈ tops p ↔ x.1 = 0 ∧ 0 ≤ x.2 < n_max p.
Proof.
  intros Hn. unfold tops, blocks. rewrite elem_of_list_to_set, list_elem_of_fmap. destruct x as [l b]. simpl. setoid_rewrite elem_of_seqZ. split.
  - intros (i & E & Hi). injection E as -> ->. lia.
  - intros [-> Hb]. exists b. split; [done|lia].
Qed.
Lemma init_blocks_rep n i p F :
  pool_rep p F → 0 ≤ i → i + Z.of_nat n ≤ n_max p → (∀ j, i ≤ j → top j ∉ F) →
  ∃ p', init_blocks n i p = Some p' ∧ same_pool p p' ∧ pool_rep p' (F ∪ blocks top i n).
Proof.
  revert i p F. induction n as [|n IH]; intros i p F HR Hi Hn HF.
  { exists p. split_and!; [done|done|]. replace (F ∪ blocks top i 0) with F by (unfold blocks; set_solver). done. }
  destruct HR as [Hwf HB HL]. pose proof (wf_levels _ Hwf).
  assert (Hx : valid p (top i)) by (unfold valid; simpl; lia).
  assert (Hsz : max_sz p = lsize p (top i).1).
  { destruct (wf_size _ Hwf) as (s & Hs & _). rewrite (lsize_spec p s _ Hwf) by (done || (simpl; lia)). simpl. by rewrite Z.sub_0_r. }
  simpl init_blocks. rewrite Hsz. change i with (top i).2 at 1. rewrite block_ptr_addr by done.
  set (p1 := set_lvl_free _ p). assert (Hs1 : same_pool p p1) by done. assert (Hwf1 := same_pool_wf _ _ Hs1 Hwf).
  assert (HL1 : lists p1 (F ∪ {[top i]})) by (apply (lists_append p (top i)); try done; apply HF; lia).
  destruct (marks_set p1 (top i) F Hwf1) as (p2 & E2 & Hs2 & Hf2 & HB2); [done|done|]. simpl in E2. rewrite E2. cbn [mbind option_bind].
  assert (Hs02 : same_pool p p2) by by etransitivity.
  destruct (IH (i + 1) p2 (F ∪ {[top i]})) as (p' & E & Hs & HR).
  - split; [by eapply same_pool_wf|done|by eapply (lists_same p1)].
  - lia.
  - rewrite (proj1 (proj2 (proj2 Hs02))). lia.
  - intros j Hj. apply not_elem_of_union. split; [apply HF; lia|]. rewrite elem_of_singleton. unfold top. intros [=]. lia.
  - exists p'. split; [done|]. split; [by etransitivity|]. by rewrite blocks_S, (assoc_L (∪)).
Qed.

Lemma tops_partition p : wf_pool p → partition p (tops p).
Proof.
  intros Hwf. pose proof (wf_n _ Hwf). pose proof (wf_levels _ Hwf). pose proof (width_pos p 0 ltac:(lia)). split.
  - intros x [Hx1 Hx2]%elem_of_tops; [|lia]. unfold valid. rewrite Hx1. simpl. lia.
  - intros c Hc. unfold ncells in Hc. exists (0, c / width p 0). split; [|done]. apply elem_of_tops; [lia|]. simpl. split; [done|].
    split; [apply Z.div_pos; lia|apply Z.div_lt_upper_bound; lia].
  - intros [l b] [l' b'] c Hc [Hx _]%elem_of_tops [Hy _]%elem_of_tops; [|lia..]. unfold covers. simpl in *. subst. by intros -> ->.
Qed.
(** A pool after [init_mem_pool]: all its blocks are free. *)
Lemma init_mem_pool_inv buf minsz nmax k :
  pool_params buf minsz nmax k →
  ∃ p, init_mem_pool (K_MEM_POOL_DEFINE buf minsz (minsz * 4 ^ k) nmax) = Some p ∧ pool_inv p (tops p) ∅ ∧
    mp_buf p = buf ∧ n_max p = nmax ∧ n_levels p = k + 1 ∧ max_sz p = minsz * 4 ^ k.
Proof.
  intros HP. assert (Hsz := static_pool_sizes _ _ _ _ HP). assert (HN : n_levels (K_MEM_POOL_DEFINE buf minsz (minsz * 4 ^ k) nmax) = k + 1) by (destruct HP as [? [? ?]]; by apply mpool_lvls).
  set (p0 := K_MEM_POOL_DEFINE _ _ _ _) in *. unfold init_mem_pool. cbn zeta.
  assert (Hl0 : lsize p0 0 = max_sz p0).
  { destruct (wf_size _ Hsz) as (s & Hs & _). rewrite (lsize_spec p0 s _ Hsz) by (done || (destruct HP; lia)). by rewrite Z.sub_0_r. }
  destruct (init_levels_inv p0 Hsz (Z.to_nat (n_levels p0)) 0 (u32 (mp_buf p0 + buf_size p0)) p0) as (bits & HI); [lia|destruct HP; lia| |].
  { split; simpl; [done|intros; by rewrite lookup_total_empty|done| |intros; apply lookup_empty|intros; lia..].
    split; [done|]. split; [by right|]. intros; lia. }
  rewrite Hl0 in HI. set (p1 := init_levels _ _ _ _ _ _) in *. pose proof (init_inv_rep _ _ _ Hsz HI) as HR.
  destruct (ii_same _ _ _ _ HI) as (E1 & E2 & E3 & E4). rewrite E3.
  destruct (init_blocks_rep (Z.to_nat (n_max p0)) 0 p1 ∅ HR) as (p' & E & Hs & HR'); [done|rewrite E3; pose proof (wf_n _ Hsz); lia|set_solver|].
  exists p'. destruct Hs as (F1 & F2 & F3 & F4 & _). split; [done|]. rewrite F1, F2, F3, F4, E1, E2, E3, E4. split; [|done].
  assert (Htops : tops p' = ∅ ∪ blocks top 0 (Z.to_nat (n_max p0))) by (unfold tops; by rewrite F3, E3, (left_id_L ∅ (∪))).
  rewrite <-Htops in HR'. split; [done| | |].
  - rewrite (right_id_L ∅ (∪)). apply tops_partition, HR'.
  - set_solver.
  - intros x [Hx _]%elem_of_tops Hx1; [lia|]. rewrite F3, E3. pose proof (wf_n _ Hsz). lia.
Qed.

(** ** The free blocks are determined by the held ones *)

(** No part of [x] is held. *)
Definition unheld (p : k_mem_pool) (U : gset (Z * Z)) (x : Z * Z) : Prop :=
  ∀ c y, 0 ≤ c < ncells p → covers p x c → y ∈ U → ¬ covers p y c.

Lemma covers_up p y z c c' : z.1 ≤ y.1 < n_levels p → covers p y c → covers p z c → covers p y c' → covers p z c'.
Proof.
  intros Hl. unfold covers. assert (E : width p z.1 = width p y.1 * 4 ^ (y.1 - z.1)) by (unfold width; rewrite <-Z.pow_add_r by lia; f_equal; lia).
  pose proof (width_pos p y.1 ltac:(lia)). pose proof (pow4_pos (y.1 - z.1) ltac:(lia)). rewrite E, <-!Z.div_div by lia. by intros -> Hz ->.
Qed.
Lemma covers_same p x y c : x.1 = y.1 → covers p x c → covers p y c → x = y.
Proof. destruct x, y. unfold covers. simpl. intros ->. by intros -> ->. Qed.
Lemma parent_covers p x c : 0 < x.1 < n_levels p → covers p x c → covers p (parent x) c.
Proof. intros Hl. apply quarter_covers; [simpl; lia|]. apply siblings_self. Qed.

Section canonical.
Context (p : k_mem_pool) (F U : gset (Z * Z)) (HI : pool_inv p F U).

Lemma free_unheld x : x ∈ F → unheld p U x.
Proof.
  intros Hx c y Hc Hxc Hy Hyc. assert (x = y) as -> by (eapply (part_uniq _ _ (inv_part _ _ _ HI)); try done; [by apply elem_of_union_l|by apply elem_of_union_r]).
  by apply (inv_disj _ _ _ HI y).
Qed.
(** Every block no part of which is held is in a free one. *)
Lemma unheld_free y : valid p y → unheld p U y → ∃ z, z ∈ F ∧ z.1 ≤ y.1 ∧ covers p z (cell p y).
Proof.
  assert (Hk : ∃ k, y.1 = n_levels p - 1 - Z.of_nat k ∨ ¬ valid p y).
  { exists (Z.to_nat (n_levels p - 1 - y.1)). destruct (decide (y.1 < n_levels p)); [left; lia|right; intros [? _]; lia]. }
  destruct Hk as [k Hk]. revert y Hk. induction k as [|k IH]; intros y [Hk|] Hy Hun; try done.
  - destruct (cell_spec p y Hy) as [Hc Hyc]. destruct (part_cover _ _ (inv_part _ _ _ HI) _ Hc) as (z & [Hz|Hz]%elem_of_union & Hzc); [|by destruct (Hun _ _ Hc Hyc Hz)].
    exists z. split; [done|]. split; [|done]. destruct (lists_valid _ _ (rep_lists _ _ (inv_rep _ _ _ HI)) _ Hz). lia.
  - assert (Hl : y.1 + 1 < n_levels p) by lia.
    assert (Hq : ∀ q, q ∈ quarters y → q ∈ F ∨ ∃ z, z ∈ F ∧ z.1 ≤ y.1 ∧ covers p z (cell p y)).
    { intros q Hq. assert (Hqv := quarters_valid p y q Hy Hl Hq). assert (Hq1 := proj1 (proj1 (elem_of_quarters _ _) Hq)).
      destruct (cell_spec p q Hqv) as [Hqc Hqq]. destruct (cell_spec p y Hy) as [Hc Hyc].
      destruct (IH q) as (z & Hz & Hzl & Hzc); [left; lia|done| |].
      { intros c u Hc' Hcq. apply (Hun c u Hc'). by eapply quarter_covers. }
      destruct (decide (z.1 = q.1)) as [E|E]; [left; by rewrite <-(covers_same p z q _ E Hzc Hqq)|right]. exists z. split; [done|]. split; [lia|].
      apply (covers_up p y z (cell p q)); [lia|by eapply quarter_covers|done|done]. }
    assert (Hall : (∃ z, z ∈ F ∧ z.1 ≤ y.1 ∧ covers p z (cell p y)) ∨ ∀ i, 0 ≤ i < 4 → quarter y i ∈ F).
    { destruct (Hq (quarter y 0)), (Hq (quarter y 1)), (Hq (quarter y 2)), (Hq (quarter y 3)); try (by left); try by apply quarter_elem.
      right. intros i Hi. assert (i = 0 ∨ i = 1 ∨ i = 2 ∨ i = 3) as [-> | [-> | [-> | ->]]] by lia; done. }
    destruct Hall as [?|Hall]; [done|]. destruct (inv_merged _ _ _ HI (quarter y 0)); [by apply Hall|simpl; destruct Hy; lia|].
    intros z Hz. assert (z ∈ quarters y) as [Hz1 Hz2]%elem_of_quarters.
    { apply elem_of_siblings in Hz as [Hz1 Hz2]. apply elem_of_quarters. unfold quarter in *. simpl in *. split; [done|]. rewrite Hz2. dlia. }
    replace z with (quarter y (z.2 mod 4)); [apply Hall; dlia|]. destruct z. unfold quarter. simpl in *. f_equal; [done|dlia].
Qed.
End canonical.

Lemma canonical_incl p F F' U p' : pool_inv p F U → same_pool p p' → pool_inv p' F' U → F ⊆ F'.
Proof.
  intros HI Hs HI' x Hx. assert (Hxv := lists_valid _ _ (rep_lists _ _ (inv_rep _ _ _ HI)) _ Hx).
  assert (HU' : ∀ y, unheld p' U y ↔ unheld p U y).
  { intros y. unfold unheld, ncells, covers, width. destruct Hs as (_ & _ & -> & -> & _). done. }
  destruct (unheld_free p' F' U HI' x) as (z & Hz & Hzl & Hzc); [by apply (same_pool_valid _ _ _ Hs)|by apply HU', (free_unheld p F U HI)|].
  assert (Ew : ∀ l, width p' l = width p l) by (intros l; unfold width; by destruct Hs as (_ & _ & _ & -> & _)).
  unfold cell, covers in Hzc. rewrite !Ew in Hzc. fold (cell p x) (covers p z (cell p x)) in Hzc. destruct (cell_spec p x Hxv) as [Hc Hxc].
  destruct (decide (z.1 = x.1)) as [E|E]; [by rewrite <-(covers_same p z x _ E Hzc Hxc)|].
  assert (Hzv := lists_valid _ _ (rep_lists _ _ (inv_rep _ _ _ HI')) _ Hz). apply (same_pool_valid _ _ _ Hs) in Hzv.
  assert (Hx1 : 0 < x.1 < n_levels p) by (destruct Hxv, Hzv; lia).
  assert (Hpc := parent_covers p x _ Hx1 Hxc). assert (Hpv : valid p (parent x)) by (apply (parent_valid p _ x); [done|apply siblings_self|simpl; lia]).
  destruct (unheld_free p F U HI (parent x)) as (w & Hw & Hwl & Hwc); [done| |].
  { intros c y Hc' Hc'p. apply (proj1 (HU' z)); [by apply (free_unheld p' F' U HI')|done|].
    by apply (covers_up p (parent x) z (cell p x)); simpl; [lia|..]. }
  assert (w = x) as ->; [|simpl in Hwl; lia]. eapply (part_uniq _ _ (inv_part _ _ _ HI)); [exact Hc|by apply elem_of_union_l..| |done].
  apply (covers_up p (parent x) w (cell p (parent x))); [simpl in *; lia|by apply cell_spec|done|done].
Qed.
Lemma free_blocks_determined p p' F F' U : same_pool p p' → pool_inv p F U → pool_inv p' F' U → F = F'.
Proof.
  intros Hs HI HI'. apply set_eq. intros x. split; [by eapply canonical_incl|].
  eapply canonical_incl; [exact HI'| |exact HI]. destruct Hs as (E1 & E2 & E3 & E4 & E5 & E6). repeat split; try congruence. intros l Hl. symmetry. apply E6. congruence.
Qed.

(** Blocks of a partition do not overlap in memory. *)
Lemma part_disjoint p S x y : wf_pool p → partition p S → x ∈ S → y ∈ S → x ≠ y →
  addr p x + lsize p x.1 ≤ addr p y ∨ addr p y + lsize p y.1 ≤ addr p x.
Proof.
  intros Hwf HS Hx Hy Hne. assert (Hxv := part_valid _ _ HS _ Hx). assert (Hyv := part_valid _ _ HS _ Hy).
  destruct (addr_cell p Hwf) as (s & Hs & _ & Ha). destruct (Ha x Hxv) as [-> ->]. destruct (Ha y Hyv) as [-> ->].
  pose proof (width_pos p x.1 (proj2 (proj1 Hxv))). pose proof (width_pos p y.1 (proj2 (proj1 Hyv))).
  destruct (decide (cell p x + width p x.1 ≤ cell p y)); [left; nia|]. destruct (decide (cell p y + width p y.1 ≤ cell p x)); [right; nia|].
  destruct Hne. destruct (cell_spec p x Hxv) as [Hcx Hxx]. destruct (cell_spec p y Hyv) as [Hcy Hyy]. unfold cell, covers in *.
  apply (part_uniq _ _ HS x y (Z.max (x.2 * width p x.1) (y.2 * width p y.1))); try done; [lia| |].
  - unfold covers. symmetry. apply (Z.div_unique _ _ _ (Z.max (x.2 * width p x.1) (y.2 * width p y.1) - x.2 * width p x.1)); lia.
  - unfold covers. symmetry. apply (Z.div_unique _ _ _ (Z.max (x.2 * width p x.1) (y.2 * width p y.1) - y.2 * width p y.1)); lia.
Qed.

(** ** Whole operations *)

Lemma free_alone_inv p F U l b :
  pool_inv p F U → (Z.of_nat l, b) ∈ U →
  ∃ p' F', free_alone l b p = Some p' ∧ same_pool p p' ∧ pool_inv p' F' (U ∖ {[(Z.of_nat l, b)]}).
Proof.
  revert p F U b. induction l as [|l IH]; intros p F U b HI HU; simpl free_alone;
    destruct (free_step_inv p F U _ HI HU) as (up & p1 & E1 & Hs1 & HC); cbn [fst snd] in E1; rewrite E1; cbn [mbind option_bind].
  - destruct up; [destruct HC; simpl in *; lia|]. eauto.
  - destruct up; [|eauto]. destruct HC as [_ HI1]. set (x := (Z.of_nat (S l), b)) in *. assert (Ep : parent x = (Z.of_nat l, b / 4)) by (unfold parent, x; f_equal; simpl; lia).
    assert (Hx := part_valid _ _ (inv_part _ _ _ HI) x ltac:(by apply elem_of_union_r)).
    assert (HpU : parent x ∉ U).
    { intros Hp. eapply (part_no_quarter p _ (parent x) x (inv_part _ _ _ HI)); [by apply elem_of_union_r..|simpl; destruct Hx; simpl in *; lia|apply siblings_self]. }
    destruct (IH p1 _ _ (b / 4) HI1) as (p' & F' & E & Hs & HI'); [rewrite Ep; set_solver|]. exists p', F'. split; [done|]. split; [by etransitivity|].
    rewrite <-Ep in HI'. replace (U ∖ {[x]}) with ((U ∖ {[x]} ∪ {[parent x]}) ∖ {[parent x]}); [done|]. clear -HpU. generalize dependent (parent x). set_solver.
Qed.

Lemma break_alone_inv n p F U x :
  pool_inv p F U → x ∈ U → x.1 + Z.of_nat n < n_levels p →
  ∃ p' F', break_alone n (addr p x) x.1 p = Some p' ∧ same_pool p p' ∧
    pool_inv p' F' (U ∖ {[x]} ∪ {[(x.1 + Z.of_nat n, x.2 * 4 ^ Z.of_nat n)]}).
Proof.
  revert p F U x. induction n as [|n IH]; intros p F U x HI HU Hn.
  { exists p, F. split_and!; [done|done|]. destruct x as [l b]. simpl. rewrite Z.add_0_r, Z.mul_1_r.
    replace (U ∖ {[(l, b)]} ∪ {[(l, b)]}) with U; [done|]. apply set_eq. intros y. destruct (decide (y = (l, b))); set_solver. }
  simpl break_alone. destruct (break_block_inv p F U x HI HU ltac:(lia)) as (p1 & -> & Hs1 & HI1). cbn [mbind option_bind].
  assert (Hx := part_valid _ _ (inv_part _ _ _ HI) x ltac:(by apply elem_of_union_r)).
  destruct (IH p1 _ _ (quarter x 0) HI1) as (p' & F' & E & Hs & HI'); [set_solver|rewrite (proj1 (proj2 (proj2 (proj2 Hs1)))); simpl; lia|].
  exists p', F'. rewrite (same_pool_addr _ _ _ Hs1), (proj1 (addr_quarter p x 0 (rep_wf _ _ (inv_rep _ _ _ HI)) Hx ltac:(lia) ltac:(lia))), Z.mul_0_r, Z.add_0_r in E.
  split; [done|]. split; [by etransitivity|].
  assert (Hq : quarter x 0 ∉ U).
  { intros HqU. eapply (part_no_quarter p _ x (quarter x 0) (inv_part _ _ _ HI)); [by apply elem_of_union_r..|lia|by apply quarter_elem]. }
  replace (x.1 + Z.of_nat (S n), x.2 * 4 ^ Z.of_nat (S n)) with ((quarter x 0).1 + Z.of_nat n, (quarter x 0).2 * 4 ^ Z.of_nat n).
  - revert HI'. generalize ((quarter x 0).1 + Z.of_nat n, (quarter x 0).2 * 4 ^ Z.of_nat n). intros y. revert Hq. generalize (quarter x 0). intros q Hq.
    replace ((U ∖ {[x]} ∪ {[q]}) ∖ {[q]} ∪ {[y]}) with (U ∖ {[x]} ∪ {[y]}); [done|]. clear -Hq. set_solver.
  - unfold quarter. simpl fst. simpl snd. rewrite Nat2Z.inj_succ, Z.pow_succ_r by lia. f_equal; lia.
Qed.

Lemma lsize_antitone p l l' : wf_pool p → 0 ≤ l ≤ l' → l' < n_levels p → lsize p l' ≤ lsize p l.
Proof.
  intros Hwf Hl Hl'. destruct (wf_size _ Hwf) as (s & Hs & Hs0). rewrite !(lsize_spec p s _ Hwf) by (done || lia).
  pose proof (pow4_mono (n_levels p - 1 - l') (n_levels p - 1 - l) ltac:(lia)). nia.
Qed.
Lemma level_empty_spec p F U l : pool_inv p F U → 0 ≤ l < n_levels p → if level_empty p l then ∀ b, (l, b) ∉ F else ∃ b, (l, b) ∈ F.
Proof.
  intros HI Hl. pose proof (lists_elem _ _ (rep_lists _ _ (inv_rep _ _ _ HI)) l) as He. unfold level_empty. destruct (lvl_free p !!! l) as [|a r]; simpl.
  - intros b Hb. apply (not_elem_of_nil (addr p (l, b))), He; eauto.
  - destruct (proj1 (He a Hl) ltac:(left)) as (b & Hb & _). eauto.
Qed.
Lemma levels_alone_spec n i size a f p : i + Z.of_nat n = n_levels p → a = i - 1 →
  ∃ al fl, levels_alone n i size a f p = (al, fl) ∧ i - 1 ≤ al < n_levels p ∧ (∀ l, i ≤ l ≤ al → size ≤ lsize p l) ∧
    (al + 1 < n_levels p → lsize p (al + 1) < size) ∧
    ((fl = f ∧ ∀ l, i ≤ l ≤ al → level_empty p l = true) ∨
     (i ≤ fl ≤ al ∧ level_empty p fl = false ∧ ∀ l, fl < l ≤ al → level_empty p l = true)).
Proof.
  revert i a f. induction n as [|n IH]; intros i a f Hn Ha; simpl levels_alone.
  { exists a, f. split_and!; try done; try lia. left. split; [done|lia]. }
  destruct (Z.ltb_spec (lsize p i) size) as [Hlt|Hge].
  { exists a, f. split_and!; try done; try lia. - intros _. by replace (a + 1) with i by lia. - left. split; [done|lia]. }
  destruct (IH (i + 1) i (if level_empty p i then f else i)) as (al & fl & E & Hal & H1 & H2 & H3); [lia|lia|].
  exists al, fl. split_and!; try done; try lia.
  - intros l Hl. destruct (decide (l = i)) as [->|]; [done|apply H1; lia].
  - destruct H3 as [[-> H3]|(H3 & H4 & H5)]; [|right; split_and!; try done; lia]. destruct (level_empty p i) eqn:Ei.
    + left. split; [done|]. intros l Hl. destruct (decide (l = i)) as [->|]; [done|apply H3; lia].
    + right. split_and!; try done; [lia..|]. intros l Hl. apply H3. lia.
Qed.

(** The number of a block fits its field. *)
Lemma block_bound p x : wf_pool p → valid p x → 0 ≤ x.2 < 1048576.
Proof.
  intros Hwf [Hl Hb]. pose proof (wf_blocks _ Hwf). pose proof (pow4_mono x.1 (n_levels p - 1) ltac:(lia)). pose proof (wf_n _ Hwf). nia.
Qed.
Lemma alloc_alone_inv p F U size :
  pool_inv p F U →
  (alloc_alone size p = Some (Failed (- ENOMEM), p) ∧ ∀ x, valid p x → unheld p U x → lsize p x.1 < size) ∨
  (∃ x p' F', alloc_alone size p = Some (Allocated (mk_block (addr p x) x.1 x.2), p') ∧ same_pool p p' ∧
     valid p x ∧ unheld p U x ∧ size ≤ lsize p x.1 ∧ (x.1 + 1 < n_levels p → lsize p (x.1 + 1) < size) ∧
     pool_inv p' F' (U ∪ {[x]})).
Proof.
  intros HI. assert (Hwf := rep_wf _ _ (inv_rep _ _ _ HI)). pose proof (wf_levels _ Hwf). unfold alloc_alone.
  destruct (levels_alone_spec (Z.to_nat (n_levels p)) 0 size (-1) (-1) p) as (al & fl & -> & Hal & H1 & H2 & H3); [lia|lia|].
  destruct H3 as [[-> H3]|(Hfl & H4 & H5)].
  - left. rewrite orb_true_r. split; [done|]. intros x Hx Hun. destruct (unheld_free p F U HI x Hx Hun) as (z & Hz & Hzl & _).
    destruct (lists_valid _ _ (rep_lists _ _ (inv_rep _ _ _ HI)) _ Hz) as [Hz1 _]. pose proof (lsize_antitone p z.1 x.1 Hwf ltac:(lia) ltac:(destruct Hx; lia)).
    destruct (decide (z.1 ≤ al)) as [Hle|Hle]; [|pose proof (lsize_antitone p (al + 1) z.1 Hwf ltac:(lia) ltac:(lia)); lia].
    pose proof (level_empty_spec p F U z.1 HI Hz1) as He. rewrite H3 in He by lia. destruct (He z.2). by destruct z.
  - right. rewrite (proj2 (Z.ltb_ge al 0)), (proj2 (Z.ltb_ge fl 0)) by lia. cbn [orb].
    destruct (alloc_block_inv p F U fl HI ltac:(lia)) as [[He _]|(b & p1 & _ & -> & Hs1 & Hb & HI1)]; [congruence|]. cbn [mbind option_bind].
    set (y := (fl, b)) in *. assert (Hy := lists_valid _ _ (rep_lists _ _ (inv_rep _ _ _ HI)) _ Hb).
    set (n := Z.to_nat (al - fl)). set (x := (y.1 + Z.of_nat n, y.2 * 4 ^ Z.of_nat n)). assert (Ex : x.1 = al) by (simpl; lia).
    destruct (break_alone_inv n p1 _ _ y HI1) as (p' & F' & E & Hs & HI'); [set_solver|rewrite (proj1 (proj2 (proj2 (proj2 Hs1)))); simpl; lia|]. fold x in HI'.
    rewrite (same_pool_addr _ _ _ Hs1) in E. simpl in E. rewrite E. cbn [mbind option_bind]. assert (Hs' : same_pool p p') by by etransitivity.
    assert (Hxv : valid p x). { apply (same_pool_valid _ _ _ Hs'), (part_valid _ _ (inv_part _ _ _ HI')). set_solver. }
    assert (Ec : cell p x = cell p y).
    { unfold cell. rewrite Ex. subst x. simpl. rewrite <-Z.mul_assoc. f_equal. unfold width. rewrite <-Z.pow_add_r by lia. f_equal. lia. }
    assert (Ea : addr p x = addr p y) by (destruct (addr_cell p Hwf) as (s & _ & _ & Ha); by rewrite (proj2 (Ha x Hxv)), (proj2 (Ha y Hy)), Ec).
    assert (HyU : y ∉ U) by (intros HU; by apply (inv_disj _ _ _ HI y)).
    exists x, p', F'. rewrite (same_pool_lsize _ _ _ Hs'), <-Ex, <-Ea. split.
    { assert (block_num p' (addr p x) (lsize p x.1) = x.2) as -> by (etrans; [|exact (block_num_addr p x Hwf Hxv)]; unfold block_num; by destruct Hs' as (-> & _)).
      pose proof (block_bound p x Hwf Hxv) as Hb20. rewrite (Z.mod_small x.2) by lia. rewrite (Z.mod_small x.1) by (destruct Hxv; lia). done. }
    split_and!; try done.
    + intros c u Hc Hxc Hu. apply (free_unheld p F U HI y Hb c u Hc); [|done]. destruct (cell_spec p y Hy), (cell_spec p x Hxv).
      apply (covers_up p x y (cell p x)); [simpl; lia|done|by rewrite Ec|done].
    + rewrite Ex. apply H1. lia.
    + by rewrite Ex.
    + replace (U ∪ {[x]}) with ((U ∪ {[y]}) ∖ {[y]} ∪ {[x]}); [done|]. clear -HyU. clearbody x. clearbody y. set_solver.
Qed.

(** ** Any interleaving of operations

    What threads and interrupts do to a pool, one locked section at a time; the
    second component is the set of the blocks that callers or unfinished
    operations hold.  A block is broken or freed only by who holds it. *)
Inductive pool_step : k_mem_pool * gset (Z * Z) → k_mem_pool * gset (Z * Z) → Prop :=
  | step_none p U l p' :
      0 ≤ l < n_levels p → alloc_block l (lsize p l) p = Some (None, p') → pool_step (p, U) (p', U)
  | step_alloc p U l a p' :
      0 ≤ l < n_levels p → alloc_block l (lsize p l) p = Some (Some a, p') →
      pool_step (p, U) (p', U ∪ {[(l, block_num p a (lsize p l))]})
  | step_break p U x p' :
      x ∈ U → x.1 + 1 < n_levels p → break_block (block_ptr p (lsize p x.1) x.2) x.1 p = Some p' →
      pool_step (p, U) (p', U ∖ {[x]} ∪ {[quarter x 0]})
  | step_free p U x p' :
      x ∈ U → free_step x.1 x.2 p = Some (false, p') → pool_step (p, U) (p', U ∖ {[x]})
  | step_merge p U x p' :
      x ∈ U → free_step x.1 x.2 p = Some (true, p') → pool_step (p, U) (p', U ∖ {[x]} ∪ {[parent x]}).

Lemma pool_step_inv s s' : pool_step s s' → ∀ F, pool_inv s.1 F s.2 → same_pool s.1 s'.1 ∧ ∃ F', pool_inv s'.1 F' s'.2.
Proof.
  destruct 1 as [p U l p' Hl E|p U l a p' Hl E|p U x p' HU Hl E|p U x p' HU E|p U x p' HU E]; intros F HI; simpl in *.
  - destruct (alloc_block_inv p F U l HI Hl) as [(_ & E')|(b & p1 & _ & E' & _)]; rewrite E' in E; simplify_eq. split; [done|eauto].
  - destruct (alloc_block_inv p F U l HI Hl) as [(_ & E')|(b & p1 & _ & E' & Hs & Hb & HI1)]; rewrite E' in E; simplify_eq. split; [done|].
    assert (block_num p (addr p (l, b)) (lsize p l) = b) as -> by exact (block_num_addr p (l, b) (rep_wf _ _ (inv_rep _ _ _ HI)) (lists_valid _ _ (rep_lists _ _ (inv_rep _ _ _ HI)) _ Hb)).
    eauto.
  - assert (Hx := part_valid _ _ (inv_part _ _ _ HI) x ltac:(by apply elem_of_union_r)). rewrite block_ptr_addr in E by (done || apply HI).
    destruct (break_block_inv p F U x HI HU Hl) as (p1 & E' & Hs & HI1). rewrite E' in E. simplify_eq. eauto.
  - destruct (free_step_inv p F U x HI HU) as (up & p1 & E' & Hs & HI1). rewrite E' in E. simplify_eq. eauto.
  - destruct (free_step_inv p F U x HI HU) as (up & p1 & E' & Hs & HC). rewrite E' in E. simplify_eq. destruct HC as [_ HI1]. eauto.
Qed.
Lemma pool_step_keeps p U p' U' F : pool_step (p, U) (p', U') → pool_inv p F U → ∃ F', pool_inv p' F' U'.
Proof. intros Hs HI. by destruct (pool_step_inv _ _ Hs F HI) as [_ ?]. Qed.
Lemma pool_steps_inv s s' : rtc pool_step s s' → ∀ F, pool_inv s.1 F s.2 → same_pool s.1 s'.1 ∧ ∃ F', pool_inv s'.1 F' s'.2.
Proof.
  induction 1 as [s|s s1 s2 H1 _ IH]; intros F HI; [split; [done|eauto]|]. destruct (pool_step_inv s s1 H1 F HI) as (Hs & F1 & HI1).
  destruct (IH F1 HI1) as (Hs' & F2 & HI2). split; [by etransitivity|eauto].
Qed.

(** Lists of one set of free blocks have the same elements. *)
Lemma free_lists_perm p p' F l : same_pool p p' → lists p F → lists p' F → 0 ≤ l < n_levels p → lvl_free p !!! l ≡ₚ lvl_free p' !!! l.
Proof.
  intros Hs HL HL' Hl. assert (Hl' : 0 ≤ l < n_levels p') by by rewrite (proj1 (proj2 (proj2 (proj2 Hs)))).
  apply NoDup_Permutation; [by apply (lists_nodup _ _ HL)|by apply (lists_nodup _ _ HL')|]. intros a.
  rewrite (lists_elem _ _ HL), (lists_elem _ _ HL') by done. by setoid_rewrite (same_pool_addr _ _ _ Hs).
Qed.
Lemma same_pool_join p0 p p' : same_pool p0 p → same_pool p0 p' → same_pool p p'.
Proof.
  intros (E1 & E2 & E3 & E4 & E5 & E6) (F1 & F2 & F3 & F4 & F5 & F6). repeat split; try congruence. intros l Hl. rewrite F6, E6; congruence.
Qed.

(** Two blocks of 256 bytes, divided down to 16. *)
Definition example_pool : k_mem_pool := default inhabitant (init_mem_pool (K_MEM_POOL_DEFINE 3217166336 16 256 2)).
Lemma example_params : pool_params 3217166336 16 2 2.
Proof. by split. Qed.
Lemma example_init : init_mem_pool (K_MEM_POOL_DEFINE 3217166336 16 (16 * 4 ^ 2) 2) = Some example_pool.
Proof. by vm_compute. Qed.
Lemma example_inv : ∃ F, pool_inv example_pool F ∅.
Proof. destruct (init_mem_pool_inv 3217166336 16 2 2 example_params) as (p & E & HI & _). rewrite example_init in E. simplify_eq. eauto. Qed.
(** One block of level 0 and one of its quarters, allocated by two threads. *)
Lemma example_steps : ∃ p U, rtc pool_step (example_pool, ∅) (p, U) ∧ (1, 0) ∈ U ∧ (0, 1) ∈ U.
Proof.
  do 2 eexists. split.
  { eapply rtc_l; [apply (step_alloc _ _ 0); [by vm_compute|vm_compute; reflexivity]|].
    eapply rtc_l; [apply (step_alloc _ _ 0); [by vm_compute|vm_compute; reflexivity]|].
    eapply rtc_l; [apply (step_break _ _ (0, 0)); [|by vm_compute|vm_compute; reflexivity]; apply elem_of_union_l, elem_of_union_r, elem_of_singleton; by vm_compute|].
    apply rtc_refl. }
  split; [by apply elem_of_union_r, elem_of_singleton|].
  apply elem_of_union_l, elem_of_difference. split; [|by rewrite elem_of_singleton]. apply elem_of_union_r, elem_of_singleton. by vm_compute.
Qed.
(** A block that is allocated and returned goes to the end of its list. *)
Lemma example_return : ∃ p, rtc pool_step (example_pool, ∅) (p, ∅) ∧ lvl_free p !!! 0 = [3217166592; 3217166336] ∧ 0 ≤ 0 < n_levels p.
Proof.
  eexists. split.
  { eapply rtc_l; [apply (step_alloc _ _ 0); [by vm_compute|vm_compute; reflexivity]|].
    replace (∅ ∪ {[(0, _)]} : gset (Z * Z)) with ({[(0, 0)]} : gset (Z * Z)) by (rewrite (left_id_L ∅ (∪)); f_equal; by vm_compute).
    eapply rtc_l; [apply (step_free _ _ (0, 0)); [by apply elem_of_singleton|vm_compute; reflexivity]|].
    rewrite difference_diag_L. apply rtc_refl. }
  by vm_compute.
Qed.



(** Freeing the block that [alloc_alone] returned gives the pool back the same free blocks: the buffer that was
    broken up is merged again, on every level the free list has the elements it had before, and the invariant holds for
    the blocks held before. *)
Theorem alloc_free_alone_restores p F U size b p1 :
  pool_inv p F U → alloc_alone size p = Some (Allocated b, p1) →
  ∃ p2, free_alone (Z.to_nat (bl_level b)) (bl_block b) p1 = Some p2 ∧ pool_inv p2 F U ∧
    ∀ l, 0 ≤ l < n_levels p → lvl_free p !!! l ≡ₚ lvl_free p2 !!! l.
Proof.
  intros HI E. destruct (alloc_alone_inv p F U size HI) as [(E' & _)|(x & p' & F' & E' & Hs & Hx & Hun & _ & _ & HI')]; rewrite E' in E; simplify_eq. simpl.
  assert (HxU : x ∉ U). { intros HU. destruct (cell_spec p x Hx) as [Hc Hxc]. by apply (Hun _ _ Hc Hxc HU). }
  assert (Ex : x = (Z.of_nat (Z.to_nat x.1), x.2)) by (destruct x, Hx; simpl in *; f_equal; lia).
  destruct (free_alone_inv p1 F' (U ∪ {[x]}) (Z.to_nat x.1) x.2 HI') as (p2 & F2 & E2 & Hs2 & HI2); [rewrite <-Ex; set_solver|].
  rewrite <-Ex in HI2. replace ((U ∪ {[x]}) ∖ {[x]}) with U in HI2 by (clear -HxU; set_solver).
  assert (Hs' : same_pool p p2) by by etransitivity. rewrite <-(free_blocks_determined p p2 F F2 U Hs' HI HI2) in HI2.
  exists p2. split_and!; [done|done|]. intros l Hl. by eapply free_lists_perm; [| |apply HI2|]; [|apply HI|].
Qed.

Lemma alloc_free_alone_restores_witness :
  ∃ b p1 p2, alloc_alone 20 example_pool = Some (Allocated b, p1) ∧
    free_alone (Z.to_nat (bl_level b)) (bl_block b) p1 = Some p2 ∧ lvl_free example_pool !!! 0 ≡ₚ lvl_free p2 !!! 0.
Proof.
  destruct example_inv as [F HI].
  assert (E : match alloc_alone 20 example_pool with Some (Allocated _, _) => true | _ => false end = true) by by vm_compute.
  destruct (alloc_alone 20 example_pool) as [[[b|err] p1]|] eqn:Ea; [|discriminate E..].
  destruct (alloc_free_alone_restores example_pool F ∅ 20 b p1 HI Ea) as (p2 & E2 & _ & Hp). exists b, p1, p2. split; [done|]. split; [done|].
  apply Hp. split; [done|by vm_compute].
Defined.



(** The word of level 0 has bits for 32 blocks only, whatever [n_max] is. *)
Lemma pool_of_33_blocks_breaks : init_mem_pool (K_MEM_POOL_DEFINE 3217166336 64 64 33) = None.
Proof. by vm_compute. Qed.
