(* ===== verification/Queue.v ===== *)
(** * Queues, FIFOs and LIFOs (kernel/queue.c, include/kernel.h)

    A queue is a singly linked list of items, whose first words link them; an
    item put while threads wait goes to the first of them. *)
From stdpp Require Import gmap list.
From S2P Require Import Prelude Dlist KState Slist Ksched TimeoutQ SchedInv Outcome Sched Thread WaitQ Scenario KStack.
Local Open Scope Z_scope.
Local Open Scope outcome_scope.

Section queue.
Context `{KConfig}.

Definition data_q (k : kernel) (o : nat) : sys_slist := kqueues (objs k) !!! o.
Definition set_data_q (o : nat) (l : sys_slist) (k : kernel) : kernel :=
  set_objs (set_kqueues (<[o := l]> (kqueues (objs k))) (objs k)) k.
(** An operation on the list, which writes the links too. *)
Definition on_data_q (o : nat) (f : sys_slist → gmap Z Z → sys_slist * gmap Z Z) (k : kernel) : kernel :=
  let '(l, w) := f (data_q k o) (words k) in
  set_data_q o l (set_words w k).

Definition k_queue_init (o : nat) (k : kernel) : kernel :=
  let k := set_data_q o sys_slist_init k in
  set_queues (DlistSpec.init (WQ (KQueue, o)) (queues k)) k.

Definition prepare_thread_to_run (t : tid) (data : Z) (k : kernel) : kernel :=
  let k := (_abort_thread_timeout t k).2 in
  let k := _ready_thread t k in
  _set_thread_return_value_with_data t 0 data k.

Definition k_queue_cancel_wait (o : nat) (k : kernel) : outcome unit :=
  match _unpend_first_thread (KQueue, o) k with
  | (Some t, k) =>
      let k := prepare_thread_to_run t NULL k in
      if negb (_is_in_isr k) && _must_switch_threads k
      then let% _ k := _Swap k in Done tt k else Done tt k
  | (None, k) => Done tt k
  end.

Definition k_queue_insert (o : nat) (prev data : Z) (k : kernel) : outcome unit :=
  match _unpend_first_thread (KQueue, o) k with
  | (Some t, k) =>
      let k := prepare_thread_to_run t data k in
      if negb (_is_in_isr k) && _must_switch_threads k
      then let% _ k := _Swap k in Done tt k else Done tt k
  | (None, k) => Done tt (on_data_q o (sys_slist_insert prev data) k)
  end.

Definition k_queue_append (o : nat) (data : Z) (k : kernel) : outcome unit :=
  k_queue_insert o (sl_tail (data_q k o)) data k.
Definition k_queue_prepend (o : nat) (data : Z) (k : kernel) : outcome unit :=
  k_queue_insert o NULL data k.

(** The loop of [k_queue_cnt_sum], a round per link. *)
Fixpoint cnt_loop (fuel : nat) (tmp tail cnt : Z) (w : gmap Z Z) : Z :=
  match fuel with
  | O => cnt
  | S fuel => if tmp =? tail then cnt else cnt_loop fuel (w !!! tmp) tail (cnt + 1) w
  end.
Definition k_queue_cnt_sum (o : nat) (k : kernel) : Z :=
  cnt_loop (S (size (words k))) (sl_head (data_q k o)) (sl_tail (data_q k o)) 0 (words k).

(** The loop of [k_queue_append_list]: an item for each waiting thread; [fuel]
    bounds the number of threads. *)
Fixpoint hand_out (fuel : nat) (o : nat) (head : Z) (k : kernel) : Z * kernel :=
  match fuel with
  | O => (head, k)
  | S fuel =>
      if head =? NULL then (head, k)
      else match _unpend_first_thread (KQueue, o) k with
           | (Some t, k) =>
               let k := prepare_thread_to_run t head k in
               hand_out fuel o (load head k) k
           | (None, k) => (head, k)
           end
  end.
Definition k_queue_append_list (o : nat) (head tail : Z) (k : kernel) : outcome unit :=
  let first_thread := _peek_first_pending_thread (KQueue, o) k in
  let '(head, k) := hand_out (S (length (q k (WQ (KQueue, o))))) o head k in
  let k := if negb (head =? NULL) then on_data_q o (sys_slist_append_list head tail) k else k in
  if bool_decide (is_Some first_thread) then
    if negb (_is_in_isr k) && _must_switch_threads k
    then let% _ k := _Swap k in Done tt k else Done tt k
  else Done tt k.
(** The merged list itself belongs to the caller and is emptied. *)
Definition k_queue_merge_slist (o : nat) (l : sys_slist) (k : kernel) : outcome sys_slist :=
  let% _ k := k_queue_append_list o (sl_head l) (sl_tail l) k in
  Done sys_slist_init k.

Definition k_queue_get (o : nat) (timeout : Z) (k : kernel) : outcome Z :=
  if negb (sys_slist_is_empty (data_q k o)) then
    let '(data, l) := sys_slist_get_not_empty (data_q k o) (words k) in
    Done data (set_data_q o l k)
  else if timeout =? K_NO_WAIT then Done NULL k
  else
    let k := _pend_current_thread (KQueue, o) timeout k in
    let% r k := _Swap k in
    Done (if r =? 0 then swap_data (thr k (current k)) else NULL) k.

Definition k_queue_remove (o : nat) (data : Z) (k : kernel) : bool * kernel :=
  let '(found, (l, w)) := sys_slist_find_and_remove data (data_q k o) (words k) in
  (found, set_data_q o l (set_words w k)).
Definition k_queue_is_empty (o : nat) (k : kernel) : bool := sys_slist_is_empty (data_q k o).
Definition k_queue_peek_head (o : nat) (k : kernel) : Z := sys_slist_peek_head (data_q k o).
Definition k_queue_peek_tail (o : nat) (k : kernel) : Z := sys_slist_peek_tail (data_q k o).

(** ** Items *)
Definition items (o : nat) (k : kernel) (xs : list Z) : Prop := sl_list (words k) (data_q k o) xs.

Lemma data_q_set o l k : data_q (set_data_q o l k) o = l.
Proof. unfold data_q, set_data_q. simpl. apply lookup_total_insert_eq. Qed.
Lemma items_on o f k xs :
  (let '(l, w) := f (data_q k o) (words k) in sl_list w l xs) → items o (on_data_q o f k) xs.
Proof.
  unfold items, on_data_q. destruct (f _ _) as [l w]. by rewrite data_q_set.
Qed.

Lemma prepare_woken t d E k :
  unpended E t k → woken E t (λ x, set_swap_data d (set_return_value 0 x)) k (prepare_thread_to_run t d k).
Proof.
  intros Hup. unfold prepare_thread_to_run, _set_thread_return_value_with_data, _set_thread_return_value. cbv zeta.
  rewrite upd_thread_twice. apply wake_after; [done|apply ret_upd_data].
Qed.
Lemma queue_woken o d k t k1 :
  running (λ _, True) k → _unpend_first_thread (KQueue, o) k = (Some t, k1) →
  woken_first (KQueue, o) t (λ x, set_swap_data d (set_return_value 0 x)) k (prepare_thread_to_run t d (_unpend_thread t k)).
Proof. intros Hk Hu. eapply unpend_woken; [done|done|]. apply prepare_woken. Qed.

(** ** Safety within the system *)
Class QueueFree (J : kernel → Prop) :=
  queue_free : ∀ k l w, J k → J (set_objs (set_kqueues l (objs k)) (set_words w k)).

Lemma sys_inv_queue x w k : sys_inv k → sys_inv (set_objs x (set_words w k)).
Proof. intros [Hk Hc Hn Hh Hp]. split; [by eapply kinv_frame; try apply Hk|done..]. Qed.
Lemma sinv_queue J `{!QueueFree J} l w k : sinv J k → sinv J (set_objs (set_kqueues l (objs k)) (set_words w k)).
Proof. intros [Hk HJ]. split; [by apply sys_inv_queue|by apply queue_free]. Qed.
Lemma on_data_q_sinv J `{!QueueFree J} o f k : sinv J k → sinv J (on_data_q o f k).
Proof. intros Hk. unfold on_data_q. destruct (f _ _) as [l w]. exact (sinv_queue J _ w k Hk). Qed.
Lemma set_data_q_sinv J `{!QueueFree J} o l k : sinv J k → sinv J (set_data_q o l k).
Proof. apply (sinv_queue J _ (words k)). Qed.

Section safe.
Context (J : kernel → Prop) (F : Prop) `{!QueueFree J}.
Hypothesis J_objects : ∀ k k', same_objects k k' → J k → J k'.

Lemma k_queue_insert_safe o prev data k : sinv J k → op_safe J F (k_queue_insert o prev data) k.
Proof.
  intros Hk. unfold op_safe, k_queue_insert. destruct (_unpend_first_thread (KQueue, o) k) as [[t|] k1] eqn:Hu.
  - assert (k1 = _unpend_thread t k) as -> by by eapply (unpend_first_objs _ k t k1 k); [apply Hk|..].
    cbv zeta. eapply give_way_safe; [done|done|]. eapply queue_woken; [apply sys_running, Hk|done].
  - apply unpend_first_None in Hu as [-> _]. simpl. split; [|by unfold on_data_q; destruct (sys_slist_insert _ _ _ _)].
    by apply on_data_q_sinv.
Qed.
Lemma k_queue_cancel_wait_safe o k : sinv J k → op_safe J F (k_queue_cancel_wait o) k.
Proof.
  intros Hk. unfold op_safe, k_queue_cancel_wait. destruct (_unpend_first_thread (KQueue, o) k) as [[t|] k1] eqn:Hu.
  - assert (k1 = _unpend_thread t k) as -> by by eapply (unpend_first_objs _ k t k1 k); [apply Hk|..].
    cbv zeta. eapply give_way_safe; [done|done|]. eapply queue_woken; [apply sys_running, Hk|done].
  - apply unpend_first_None in Hu as [-> _]. done.
Qed.
Lemma k_queue_get_safe o timeout k :
  sinv J k → timeout = K_NO_WAIT ∨ (timeout_ok timeout ∧ current k ≠ _idle_thread) →
  op_safe J F (k_queue_get o timeout) k.
Proof.
  intros Hk Hto. unfold op_safe, k_queue_get. destruct (negb _).
  - destruct (sys_slist_get_not_empty _ _) as [d l]. simpl. split; [|done]. by apply set_data_q_sinv.
  - destruct (timeout =? K_NO_WAIT) eqn:Et; [done|]. zbool. destruct Hto as [|[Hto Hi]]; [done|]. cbv zeta.
    destruct (pend_current_spec [] (KQueue, o) timeout k) as (Hk' & Hf & _); [apply Hk|apply Hk|done|done|by left|].
    eapply osafe_bind; [apply swap_safe; [done|]|done].
    by eapply swap_ready_frame; [|apply swap_ready_sinv| |].
Qed.
End safe.
(** Putting an item from an interrupt handler. *)
Lemma queue_insert_isr (J : kernel → Prop) `{!QueueFree J} E o prev data k :
  (∀ k k', same_objects k k' → J k → J k') → kinv ∅ E k → J k → runnable ∅ k (current k) → nested k ≠ 0 →
  ∃ k', k_queue_insert o prev data k = Done tt k' ∧ isr_kept J E k k'.
Proof.
  intros HJ Hk Hj Hc Hn. unfold k_queue_insert. destruct (_unpend_first_thread (KQueue, o) k) as [[t|] k1] eqn:Hu.
  - destruct (unpend_first_Some E (KQueue, o) k t k1 Hk Hu) as (Hin & -> & Hup & _).
    pose proof (prepare_woken t data E _ Hup) as Hw. cbv zeta. set (k' := prepare_thread_to_run _ _ _) in *. clearbody k'.
    pose proof (isr_woken J E _ t _ k k' HJ Hk Hj Hc Hin Hw) as Hi. exists k'. split; [|done].
    unfold _is_in_isr. destruct Hi as (_ & _ & _ & -> & _). by rewrite (proj2 (Z.eqb_neq _ _) Hn).
  - apply unpend_first_None in Hu as [-> _]. eexists. split; [done|]. unfold on_data_q.
    destruct (sys_slist_insert _ _ _ _) as [l w].
    split_and!; [by eapply kinv_frame; try apply Hk|exact (queue_free k _ w Hj)|done..].
Qed.

(** ** Handing out a list *)
Definition gets (k : kernel) (t : tid) (d : Z) : Prop :=
  return_value (thr k t) = 0 ∧ swap_data (thr k t) = d ∧ _is_thread_pending t k = false.

Lemma gets_ext k k' t d : thr k' t = thr k t → gets k t d → gets k' t d.
Proof. intros E (? & ? & Hp). unfold gets. rewrite E. split_and!; [done|done|]. rewrite <-Hp. apply pending_ext. by rewrite E. Qed.

Lemma hand_out_spec J fuel o head k ys :
  (∀ k k', same_objects k k' → J k → J k') →
  running J k → chain (words k) head ys → (length (q k (WQ (KQueue, o))) < fuel)%nat →
  let '(h, k') := hand_out fuel o head k in
  let n := Nat.min (length ys) (length (q k (WQ (KQueue, o)))) in
  running J k' ∧ current k' = current k ∧ sframe k k' ∧ chain (words k') h (drop n ys) ∧
  q k' (WQ (KQueue, o)) = drop n (q k (WQ (KQueue, o))) ∧
  Forall2 (gets k') (take n (q k (WQ (KQueue, o)))) (take n ys) ∧
  (∀ t, t ∉ q k (WQ (KQueue, o)) → thr k' t = thr k t).
Proof.
  intros HJ. revert head k ys. induction fuel as [|fuel IH]; intros head k ys Hk Hc Hf; [lia|]. simpl.
  pose proof (proj1 (proj1 Hk)) as Hki. assert (handling_timeouts k = false) as Hh by apply Hk.
  destruct ys as [|y ys]; simpl in Hc.
  { subst. simpl. by split_and!. }
  destruct Hc as (-> & Hy & Hc). rewrite (proj2 (Z.eqb_neq _ _) Hy).
  destruct (q k (WQ (KQueue, o))) as [|t ws] eqn:Hq.
  { rewrite (unpend_first_empty _ k Hh Hq). simpl. by split_and!. }
  pose proof (unpend_first_cons _ k t ws Hh Hq) as Hu. rewrite Hu.
  pose proof (queue_woken o y k t _ (running_any J k Hk) Hu) as Hw. cbv zeta.
  set (k2 := prepare_thread_to_run t y _) in *. clearbody k2. pose proof (wf_tail _ _ _ _ _ ws Hki Hw Hq) as Hq2.
  destruct Hw as [_ [Hk2 _ [s Hs] _ Hp2 _] Ho Hne _]. pose proof (only_sframe _ _ _ Ho) as Hf2.
  destruct (running_only J HJ t k k2 Hk Ho Hk2 Hne) as [Hr2 Ec2].
  assert (words k2 = words k) as Ew by (by rewrite (proj1 Hf2)).
  specialize (IH (load y k2) k2 ys Hr2). unfold load in *. rewrite Ew, Hq2 in IH. rewrite Ew.
  destruct (hand_out fuel o (words k !!! y) k2) as [h k']. destruct IH as (Hr' & Ec & Hf' & Hc' & Hq' & Hg & Hout);
    [done|simpl in Hf; lia|].
  pose proof (inv_wq_nodup _ _ _ Hki (KQueue, o)) as Hnd. rewrite Hq in Hnd. apply NoDup_cons in Hnd as [Hnt _].
  simpl. split_and!; [done|congruence|by etrans|done|done| |].
  - constructor; [|done]. apply (gets_ext k2); [by apply Hout|]. unfold gets. by rewrite Hs.
  - intros t' Ht'. rewrite not_elem_of_cons in Ht'. destruct Ht'. rewrite Hout by done. by apply (proj2 Ho).
Qed.

Lemma k_queue_append_list_safe J F `{!QueueFree J} o head tail k ys :
  (∀ k k', same_objects k k' → J k → J k') → sinv J k → chain (words k) head ys →
  op_safe J F (k_queue_append_list o head tail) k.
Proof.
  intros HJ Hk Hc. unfold op_safe, k_queue_append_list. cbv zeta. set (ws := q k (WQ (KQueue, o))).
  pose proof (hand_out_spec J (S (length ws)) o head k ys HJ (running_sinv J k Hk) Hc) as Hh.
  assert (ws = [] → hand_out (S (length ws)) o head k = (head, k)) as Hnone.
  { intros Hw. simpl. rewrite (unpend_first_empty _ k (sys_handling _ (proj1 Hk)) Hw). by destruct (head =? NULL). }
  destruct (hand_out _ o head k) as [h k1]. destruct Hh as (Hr & Ec & _); [unfold ws; lia|].
  set (k2 := if negb (h =? NULL) then _ else k1).
  assert (running J k2 ∧ current k2 = current k) as [Hr2 Ec2].
  { unfold k2. destruct (negb _); [|done]. unfold on_data_q. destruct (sys_slist_append_list _ _ _ _) as [l w].
    split; [|done]. destruct Hr as [(Hk1 & Hn & Hh & HJ1) Hr]. split; [|done].
    split_and!; [by eapply kinv_frame; try apply Hk1|done|done|exact (queue_free k1 _ w HJ1)]. }
  unfold _peek_first_pending_thread. fold ws. destruct (bool_decide _) eqn:Hb.
  - rewrite <-Ec2. unfold _is_in_isr. rewrite (proj1 (proj2 (proj1 Hr2))). simpl andb.
    pose proof (reschedule_safe J F HJ k2 (proj1 Hr2) (proj2 Hr2)) as Hs. unfold _reschedule_threads in Hs.
    destruct (_must_switch_threads k2); exact Hs.
  - assert (ws = []) as Hw by (destruct ws; [done|]; by apply bool_decide_eq_false in Hb; destruct Hb).
    specialize (Hnone Hw). simplify_eq. simpl. split; [|done]. unfold k2. destruct (negb _); [|done].
    by apply on_data_q_sinv.
Qed.

(** ** Items and the list *)

(** [qframe k k']: only the lists of items changed. *)
Definition qframe (k k' : kernel) : Prop :=
  k' = set_objs (set_kqueues (kqueues (objs k')) (objs k)) (set_words (words k') k).
Lemma on_data_q_qframe o f k : qframe k (on_data_q o f k).
Proof. unfold qframe, on_data_q. destruct (f _ _) as [l w]. done. Qed.

Lemma append_no_waiter o data k xs :
  handling_timeouts k = false → q k (WQ (KQueue, o)) = [] → items o k xs → data ≠ NULL → data ∉ xs →
  ∃ k', k_queue_append o data k = Done tt k' ∧ items o k' (xs ++ [data]) ∧ qframe k k'.
Proof.
  intros Hh Hq Hi Hd Hdx. unfold k_queue_append, k_queue_insert. rewrite (unpend_first_empty _ k Hh Hq).
  eexists. split; [done|]. split; [|apply on_data_q_qframe]. apply items_on. destruct (decide (xs = [])) as [->|Hne].
  - rewrite (proj2 (sl_tail_null _ _ _ Hi) eq_refl). by apply sl_prepend.
  - destruct (exists_last Hne) as (xs' & x & ->). rewrite (sl_last _ _ _ Hi), last_snoc. simpl.
    rewrite <-app_assoc. by apply (sl_insert _ _ xs' x []).
Qed.
Lemma get_first o timeout k x xs :
  items o k (x :: xs) → ∃ k', k_queue_get o timeout k = Done x k' ∧ items o k' xs ∧ qframe k k'.
Proof.
  intros Hi. unfold k_queue_get. destruct (sl_get _ _ _ _ Hi) as (l' & Hg & Hl'). unfold sys_slist_get in Hg.
  destruct (sys_slist_is_empty (data_q k o)) eqn:He; [by apply (sl_empty _ _ _ Hi) in He|].
  simpl negb. cbv iota. rewrite Hg. eexists. split; [done|]. split; [unfold items; by rewrite data_q_set|done].
Qed.
Lemma remove_item o x k xs :
  items o k xs → ∃ k', k_queue_remove o x k = (bool_decide (x ∈ xs), k') ∧ items o k' (without x xs) ∧ qframe k k'.
Proof.
  intros Hi. unfold k_queue_remove. pose proof (find_and_remove_spec _ _ _ x Hi) as Hr.
  destruct (sys_slist_find_and_remove _ _ _) as [found [l w]]. destruct Hr as (-> & Hl & _).
  eexists. split; [done|]. split; [unfold items; by rewrite data_q_set|done].
Qed.
Lemma insert_to_waiter o prev data k t ws :
  sys_inv k → q k (WQ (KQueue, o)) = t :: ws →
  ∃ k', k_queue_insert o prev data k =
      (if negb (_is_in_isr k') && _must_switch_threads k' then let% _ k := _Swap k' in Done tt k else Done tt k') ∧
    sframe k k' ∧ q k' (WQ (KQueue, o)) = ws ∧ gets k' t data.
Proof.
  intros Hk Hq. unfold k_queue_insert. pose proof (unpend_first_cons _ k t ws (sys_handling _ Hk) Hq) as Hu. rewrite Hu.
  pose proof (queue_woken o data k t _ (sys_running _ Hk) Hu) as Hw. cbv zeta.
  set (k' := prepare_thread_to_run _ _ _) in *. clearbody k'. exists k'. split; [done|].
  pose proof (wf_tail _ _ _ _ _ ws (sys_kinv _ Hk) Hw Hq) as Hq'.
  destruct Hw as [_ [_ _ [s Hs] _ Hp _] Ho _ _]. split_and!; [by eapply only_sframe|done|]. unfold gets. by rewrite Hs.
Qed.

(** ** Properties *)

(** C9: with no thread waiting, a queue is the sequence of its items:
    [k_queue_append] (a FIFO's put) adds at the end, [k_queue_prepend] (a
    LIFO's) at the front, [k_queue_insert] behind a given item; [k_queue_get]
    takes the first item, or reports NULL and changes nothing;
    [k_queue_remove] takes out the given one. *)
Theorem queue_refines o data timeout k xs :
  sys_inv k → items o k xs → q k (WQ (KQueue, o)) = [] → data ≠ NULL → data ∉ xs →
  (∃ k', k_queue_append o data k = Done tt k' ∧ items o k' (xs ++ [data])) ∧
  (∃ k', k_queue_prepend o data k = Done tt k' ∧ items o k' (data :: xs)) ∧
  (∀ xs1 prev xs2, xs = xs1 ++ prev :: xs2 →
    ∃ k', k_queue_insert o prev data k = Done tt k' ∧ items o k' (xs1 ++ prev :: data :: xs2)) ∧
  (∀ x, let '(found, k') := k_queue_remove o x k in found = bool_decide (x ∈ xs) ∧ items o k' (without x xs)) ∧
  match xs with
  | [] => k_queue_get o K_NO_WAIT k = Done NULL k
  | x :: xs' => ∃ k', k_queue_get o timeout k = Done x k' ∧ items o k' xs'
  end.
Proof.
  intros Hk Hi Hq Hd Hdx. pose proof (sys_handling _ Hk) as Hh. split_and!.
  - destruct (append_no_waiter o data k xs) as (k' & ? & ? & _); [done..|by exists k'].
  - unfold k_queue_prepend, k_queue_insert. rewrite (unpend_first_empty _ k Hh Hq).
    eexists. split; [done|]. apply items_on. by apply sl_prepend.
  - intros xs1 prev xs2 ->. unfold k_queue_insert. rewrite (unpend_first_empty _ k Hh Hq).
    eexists. split; [done|]. apply items_on. by apply sl_insert.
  - intros x. destruct (remove_item o x k xs Hi) as (k' & -> & ? & _). done.
  - destruct xs as [|x xs]; [unfold k_queue_get; by rewrite (proj2 (sl_empty _ _ _ Hi) eq_refl)|].
    destruct (get_first o timeout k x xs Hi) as (k' & ? & ? & _). by exists k'.
Qed.

(** An item put while threads wait goes to the first of them: the list does
    not change, and that thread's [k_queue_get] returns the item. *)
Theorem k_queue_insert_hands_over o prev data timeout k t ws :
  sys_inv k → q k (WQ (KQueue, o)) = t :: ws →
  (∃ k', k_queue_insert o prev data k =
      (if negb (_is_in_isr k') && _must_switch_threads k' then let% _ k := _Swap k' in Done tt k else Done tt k') ∧
    data_q k' o = data_q k o ∧ words k' = words k ∧ q k' (WQ (KQueue, o)) = ws ∧ gets k' t data) ∧
  (items o k [] → timeout ≠ K_NO_WAIT →
    ∃ k1 resume, k_queue_get o timeout k = Swapped k1 resume ∧
      ∀ k2 d, gets k2 (current k2) d → resume k2 = Done d k2).
Proof.
  intros Hk Hq. split.
  - destruct (insert_to_waiter o prev data k t ws Hk Hq) as (k' & E & [Hf _] & Hq' & Hg). exists k'.
    split_and!; [done|unfold data_q; by rewrite Hf|by rewrite Hf|done|done].
  - intros Hi Hnw. unfold k_queue_get. rewrite (proj2 (sl_empty _ _ _ Hi) eq_refl), (proj2 (Z.eqb_neq _ _) Hnw).
    cbv zeta. simpl negb. cbv iota. rewrite swap_switched. eexists _, _. split; [reflexivity|].
    intros k2 d (Hr & Hs & _). simpl. by rewrite Hr, Hs.
Qed.

(** Appending a list gives its first items, in order, to the waiting
    threads, in order, and what remains to the queue. *)
Theorem k_queue_append_list_distributes o head tail k xs ys :
  sys_inv k → items o k xs → sl_list (words k) (mk_slist head tail) ys → (∀ x, x ∈ xs → x ∉ ys) →
  let ws := q k (WQ (KQueue, o)) in
  let n := Nat.min (length ys) (length ws) in
  ∃ k', k_queue_append_list o head tail k =
      (if bool_decide (ws ≠ []) && (negb (_is_in_isr k') && _must_switch_threads k')
       then let% _ k := _Swap k' in Done tt k else Done tt k') ∧
    Forall2 (gets k') (take n ws) (take n ys) ∧ q k' (WQ (KQueue, o)) = drop n ws ∧ items o k' (xs ++ drop n ys).
Proof.
  intros Hk Hi Hy Hdis ws n. unfold k_queue_append_list. cbv zeta.
  pose proof (hand_out_spec (λ _, True) (S (length ws)) o head k ys ltac:(done) (sys_running _ Hk) (sl_chain _ _ _ Hy)) as Hh.
  unfold ws in Hh. destruct (hand_out _ o head k) as [h k1]. fold ws in Hh.
  destruct Hh as (_ & _ & [Hf _] & Hc & Hq & Hg & _); [lia|]. fold n in Hc, Hq, Hg.
  assert (data_q k1 o = data_q k o ∧ words k1 = words k) as [Ed Ew] by (unfold data_q; by rewrite Hf).
  set (k2 := if negb (h =? NULL) then _ else k1). exists k2. split.
  { unfold _peek_first_pending_thread. fold ws. by destruct ws. }
  assert (items o k2 (xs ++ drop n ys) ∧ threads k2 = threads k1 ∧ queues k2 = queues k1) as (Hi2 & Et & Eq).
  { unfold k2. destruct (drop n ys) as [|y ys'] eqn:Hdr; simpl in Hc.
    - rewrite Hc. simpl. split_and!; [|done|done]. unfold items. by rewrite app_nil_r, Ed, Ew.
    - destruct Hc as (-> & Hy0 & Hc). rewrite (proj2 (Z.eqb_neq _ _) Hy0). simpl negb. cbv iota.
      split; [|by unfold on_data_q; destruct (sys_slist_append_list _ _ _ _)].
      apply items_on. apply sl_append_list; [by rewrite Ed, Ew| |done|].
      + destruct Hy as [_ Hla Hnd Hd]. rewrite <-(take_drop n ys), Hdr in Hla, Hnd, Hd. split.
        * by split_and!.
        * rewrite last_app in Hla. destruct (last (y :: ys')) eqn:E; [done|]. by apply last_None in E.
        * by apply NoDup_app in Hnd as (_ & _ & ?).
        * intros x Hx. rewrite Ew. apply Hd. rewrite elem_of_app. by right.
      + intros x Hx Hx2. apply (Hdis x Hx). rewrite <-(take_drop n ys), Hdr, elem_of_app. by right. }
  split_and!; [|unfold q; rewrite Eq; exact Hq|done].
  eapply Forall2_impl; [exact Hg|]. intros t d. apply gets_ext. unfold thr. by rewrite Et.
Qed.

Lemma cnt_loop_spec fuel w p tail xs cnt :
  chain w p xs → tail = default NULL (last xs) → NoDup xs → (length xs ≤ fuel)%nat →
  cnt_loop (S fuel) p tail cnt w = cnt + Z.of_nat (pred (length xs)).
Proof.
  revert fuel p cnt. induction xs as [|x xs IH]; intros fuel p cnt Hc Hla Hnd Hf.
  { simpl in Hc, Hla. subst. simpl. lia. }
  destruct Hc as (-> & Hx & Hc). apply NoDup_cons in Hnd as [Hnx Hnd]. destruct xs as [|y xs].
  { simpl in Hla. subst tail. simpl. rewrite Z.eqb_refl. lia. }
  rewrite last_cons_cons in Hla. destruct fuel as [|fuel]; [simpl in Hf; lia|].
  assert (x ≠ tail) as Hne.
  { rewrite Hla. destruct (last (y :: xs)) as [z|] eqn:Hz; [|by apply last_None in Hz].
    apply last_Some_elem_of in Hz. simpl. congruence. }
  change (cnt_loop (S (S fuel)) x tail cnt w) with (if x =? tail then cnt else cnt_loop (S fuel) (w !!! x) tail (cnt + 1) w).
  rewrite (proj2 (Z.eqb_neq _ _) Hne), IH by (done || (simpl in *; lia)). simpl. lia.
Qed.

(** The number of items [k_queue_cnt_sum] reports is one less than the
    number of items, except for the empty queue, whose count is right. *)
Theorem k_queue_cnt_sum_short o k xs :
  items o k xs → k_queue_cnt_sum o k = Z.of_nat (pred (length xs)).
Proof.
  intros Hi. unfold k_queue_cnt_sum. rewrite (cnt_loop_spec _ _ _ _ xs); [lia|apply Hi..|by eapply sl_length].
Qed.

End queue.

(** ** The properties at work *)

(** A queue with the items at 100 and 200, and the main thread waiting at an
    empty one. *)
Notation sc_items l w := (set_objs (mk_objects (<[0%nat := l]> ∅) ∅ ∅ ∅ ∅ false) (set_words w two_threads)).
Notation sc_kqueue := (sc_items (mk_slist 100 200) sl_example).
Notation sc_kqueue_empty := (sc_items (mk_slist NULL NULL) sl_example).
Notation sc_getting := (after (k_queue_get 0 K_FOREVER sc_kqueue_empty)).
Lemma sc_items_sys_inv l w : sys_inv (sc_items l w).
Proof. apply sys_inv_queue, two_threads_sys_inv. Qed.
Lemma sc_kqueue_items : items 0 sc_kqueue [100; 200].
Proof. exact sl_example_ok. Qed.
Lemma sc_getting_sys_inv : sys_inv sc_getting.
Proof.
  refine (proj1 (op_safe_after (λ _, True) (k_queue_get 0 K_FOREVER) sc_kqueue_empty _)).
  apply k_queue_get_safe; [done|done|split; [apply sc_items_sys_inv|done]|]. right. split; [by left|by vm_compute].
Qed.

Lemma queue_refines_witness :
  ∃ k', k_queue_append 0 300 sc_kqueue = Done tt k' ∧ items 0 k' [100; 200; 300].
Proof.
  apply (queue_refines 0 300 K_NO_WAIT sc_kqueue [100; 200]).
  - apply sc_items_sys_inv.
  - apply sc_kqueue_items.
  - by vm_compute.
  - done.
  - by apply (bool_decide_unpack _); vm_compute.
Defined.

Lemma k_queue_insert_hands_over_witness : ∃ k', data_q k' 0 = mk_slist NULL NULL ∧ gets k' sc_main 100.
Proof.
  destruct (k_queue_insert_hands_over 0 NULL 100 K_FOREVER sc_getting sc_main []) as [(k' & _ & Ed & _ & _ & Hg) _].
  - apply sc_getting_sys_inv.
  - by vm_compute.
  - exists k'. split; [rewrite Ed; by vm_compute|exact Hg].
Defined.

Lemma k_queue_append_list_distributes_witness :
  ∃ k', Forall2 (gets k') [sc_main] [100] ∧ items 0 k' [200].
Proof.
  destruct (k_queue_append_list_distributes 0 100 200 sc_getting [] [100; 200]) as (k' & _ & Hg & _ & Hi).
  - apply sc_getting_sys_inv.
  - assert (data_q sc_getting 0 = mk_slist NULL NULL ∧ words sc_getting = sl_example) as [Ed Ew] by by vm_compute.
    unfold items. rewrite Ed, Ew. split; [done|done|constructor|by intros ? ?%elem_of_nil].
  - assert (words sc_getting = sl_example) as -> by by vm_compute. apply sl_example_ok.
  - by intros ? ?%elem_of_nil.
  - assert (q sc_getting (WQ (KQueue, 0%nat)) = [sc_main]) as Eq by by vm_compute. rewrite Eq in Hg, Hi.
    exists k'. exact (conj Hg Hi).
Defined.

Lemma k_queue_cnt_sum_short_witness : k_queue_cnt_sum 0 sc_kqueue = 1.
Proof. rewrite (k_queue_cnt_sum_short 0 sc_kqueue [100; 200] sc_kqueue_items). done. Defined.

(** [k_queue_append] reads the tail before it locks interrupts.  If by then
    another context has appended an item (300) and taken the old tail (100),
    the new item (400) is linked to a node that is no longer in the list, and
    is lost. *)
Theorem k_queue_append_stale_tail_loses :
  let k0 := sc_items (mk_slist 100 100) (<[100 := NULL]> ∅) in
  let tail := sl_tail (data_q k0 0) in
  let k1 := after (k_queue_append 0 300 k0) in
  let k2 := after (k_queue_get 0 K_NO_WAIT k1) in
  let k3 := after (k_queue_insert 0 tail 400 k2) in
  items 0 k0 [100] ∧ items 0 k1 [100; 300] ∧ items 0 k2 [300] ∧ items 0 k3 [300].
Proof.
  assert (∀ k xs, chain (words k) (sl_head (data_q k 0)) xs → sl_tail (data_q k 0) = default NULL (last xs) →
    bool_decide (NoDup xs) = true → bool_decide (Forall (λ x, x ∈ dom (words k)) xs) = true → items 0 k xs) as Hit.
  { intros k xs Hc Hl Hn Hd. apply bool_decide_eq_true in Hn, Hd. split; [done|done|done|]. by apply Forall_forall. }
  cbv zeta. split_and!; apply Hit; by vm_compute.
Qed.
