(* ===== verification/MemPoolK.v ===== *)
(** * Memory pools: the operations and the kernel calls (kernel/mempool.c)

    [k_mem_pool_alloc] waits for a block on the wait queue of the pool;
    [k_mem_pool_free] wakes every waiter, which then tries again.  [k_malloc] and
    [k_free] keep the descriptor of a block in front of what they give to their
    caller.  Interrupts are locked only within the sections of MemPool.v and
    while threads are moved between queues; everywhere else the calls are
    [interruptible], and other threads and interrupts may use the pool.  [pool_safe] is
    the specification of a call amid such interference, [undisturbed] the call
    without it. *)
From stdpp Require Import gmap list.
From S2P Require Import Prelude Dlist KState Slist Ksched TimeoutQ SchedInv Outcome Sched Thread WaitQ Scenario Sem Queue MemPool MemPoolInv MemPoolProps.
Local Open Scope Z_scope.
Local Open Scope outcome_scope.

Section pool.
Context `{KConfig}.

Definition pool (k : kernel) (o : nat) : k_mem_pool := pools (objs k) !!! o.
Definition set_pool (o : nat) (p : k_mem_pool) (k : kernel) : kernel :=
  set_objs (set_pools (<[o := p]> (pools (objs k))) (objs k)) k.

(** [init_mem_pool] with the wait queue of the pool, and the loop over the pools of the image. *)
Definition init_pool (o : nat) (k : kernel) : option kernel :=
  p ← init_mem_pool (pool k o);
  Some (set_queues (DlistSpec.init (WQ (KPool, o)) (queues k)) (set_pool o p k)).
Fixpoint init_static_pools (pools : list nat) (k : kernel) : option kernel :=
  match pools with
  | [] => Some k
  | o :: pools => k ← init_pool o k; init_static_pools pools k
  end.

(** ** Allocation *)

(** The walk down the levels of [pool_alloc]: the level to allocate from and the lowest one above it with a free block. *)
Fixpoint find_levels (n : nat) (o : nat) (i size alloc_l free_l : Z) (k : kernel) : outcome (Z * Z) :=
  match n with
  | O => Done (alloc_l, free_l) k
  | S n =>
      let% _ k := interruptible k in
      if lsize (pool k o) i <? size then Done (alloc_l, free_l) k
      else find_levels n o (i + 1) size i (if level_empty (pool k o) i then free_l else i) k
  end.
(** [for (from_l = free_l; from_l < alloc_l; from_l++)] *)
Fixpoint break_down (n : nat) (o : nat) (blk from_l : Z) (k : kernel) : outcome unit :=
  match n with
  | O => Done tt k
  | S n =>
      let% _ k := interruptible k in
      match break_block blk from_l (pool k o) with
      | None => Fault
      | Some p => break_down n o blk (from_l + 1) (set_pool o p k)
      end
  end.
Definition pool_alloc (o : nat) (size : Z) (k : kernel) : outcome pool_result :=
  let% levels k := find_levels (Z.to_nat (n_levels (pool k o))) o 0 size (-1) (-1) k in
  let '(alloc_l, free_l) := levels in
  if (alloc_l <? 0) || (free_l <? 0) then Done (Failed (- ENOMEM)) k
  else
    let% _ k := interruptible k in
    match alloc_block free_l (lsize (pool k o) free_l) (pool k o) with
    | None => Fault
    | Some (None, p) => Done (Failed (- EAGAIN)) (set_pool o p k)
    | Some (Some blk, p) =>
        let% _ k := break_down (Z.to_nat (alloc_l - free_l)) o blk free_l (set_pool o p k) in
        Done (Allocated (mk_block blk (alloc_l mod 16) (block_num (pool k o) blk (lsize (pool k o) alloc_l) mod 1048576))) k
    end.

(** The [while (1)] of [k_mem_pool_alloc].  [None]: the loop goes on after [fuel] rounds. *)
Fixpoint alloc_loop (fuel : nat) (o : nat) (size timeout end_ : Z) (k : kernel) : outcome (option pool_result) :=
  match fuel with
  | O => Done None k
  | S fuel =>
      let% r k := pool_alloc o size k in
      match r with
      | Allocated b => Done (Some (Allocated b)) k
      | Failed ret =>
          if (timeout =? K_NO_WAIT) || (ret =? - EAGAIN) || negb (ret =? - ENOMEM) then Done (Some (Failed ret)) k
          else
            let% _ k := interruptible k in
            let k := _pend_current_thread (KPool, o) timeout k in
            let% _ k := _Swap k in
            if timeout =? K_FOREVER then alloc_loop fuel o size timeout end_ k
            else
              let timeout := s32 (end_ - tick_count k) in
              if timeout <? 0 then Done (Some (Failed (- EAGAIN))) k
              else alloc_loop fuel o size timeout end_ k
      end
  end.
Definition k_mem_pool_alloc (fuel : nat) (o : nat) (size timeout : Z) (k : kernel) : outcome (option pool_result) :=
  let end_ := if timeout >? 0 then tick_count k + _ms_to_ticks timeout else 0 in
  alloc_loop fuel o size timeout end_ k.

(** ** Release *)

Fixpoint free_block (level : nat) (o : nat) (bn : Z) (k : kernel) : outcome unit :=
  match free_step (Z.of_nat level) bn (pool k o) with
  | None => Fault
  | Some (up, p) =>
      let k := set_pool o p k in
      match level with
      | S level => if up : bool then let% _ k := interruptible k in free_block level o (bn / 4) k else Done tt k
      | O => Done tt k
      end
  end.
(** The [while] loop of [k_mem_pool_free], with [need_sched]; each round takes one thread off the wait queue. *)
Fixpoint wake_waiters (fuel : nat) (o : nat) (need_sched : bool) (k : kernel) : bool * kernel :=
  match fuel with
  | O => (need_sched, k)
  | S fuel =>
      match q k (WQ (KPool, o)) with
      | [] => (need_sched, k)
      | th :: _ =>
          let k := _unpend_thread th k in
          let k := (_abort_thread_timeout th k).2 in
          let k := _ready_thread th k in
          wake_waiters fuel o true k
      end
  end.
Definition k_mem_pool_free (o : nat) (level block : Z) (k : kernel) : outcome unit :=
  let% _ k := free_block (Z.to_nat level) o block k in
  let% _ k := interruptible k in
  let '(need_sched, k) := wake_waiters (length (q k (WQ (KPool, o)))) o false k in
  if need_sched && negb (_is_in_isr k) then _reschedule_threads k else Done tt k.

(** ** The heap *)

(** [struct k_mem_block_id] as a word. *)
Definition id_word (pool level block : Z) : Z := pool mod 256 + 256 * (level mod 16) + 4096 * (block mod 1048576).
Definition id_pool (w : Z) : Z := w mod 256.
Definition id_level (w : Z) : Z := w / 256 mod 16.
Definition id_block (w : Z) : Z := w / 4096 mod 1048576.
Definition sizeof_k_mem_block : Z := 8.

(** [o] is the number of [_heap_mem_pool]; without waiting the loop of the allocation has one round. *)
Definition k_malloc (o : nat) (size : Z) (k : kernel) : outcome Z :=
  let% r k := k_mem_pool_alloc 1 o (u32 (size + sizeof_k_mem_block)) K_NO_WAIT k in
  match r with
  | Some (Allocated b) =>
      let k := set_words (<[bl_data b := bl_data b]> (<[bl_data b + 4 := id_word (Z.of_nat o) (bl_level b) (bl_block b)]> (words k))) k in
      Done (u32 (bl_data b + sizeof_k_mem_block)) k
  | _ => Done NULL k
  end.
Definition k_free (ptr : Z) (k : kernel) : outcome unit :=
  if ptr =? NULL then Done tt k
  else
    let ptr := u32 (ptr - sizeof_k_mem_block) in
    let id := words k !!! (ptr + 4) in
    k_mem_pool_free (Z.to_nat (id_pool id)) (id_level id) (id_block id) k.

(** ** Lemmas *)
Lemma pool_set o p k : pool (set_pool o p k) o = p.
Proof. unfold pool, set_pool. simpl. by rewrite lookup_total_insert_eq. Qed.
Lemma set_set_pool o p p' k : set_pool o p' (set_pool o p k) = set_pool o p' k.
Proof. unfold set_pool. simpl. rewrite insert_insert_eq. done. Qed.
Lemma set_pool_sys_inv o p k : sys_inv k → sys_inv (set_pool o p k).
Proof. intros Hk. exact (sys_inv_queue _ (words k) k Hk). Qed.
Lemma pool_objects o k k' : same_objects k k' → pool k' o = pool k o.
Proof. intros (_ & _ & _ & _ & _ & _ & _ & _ & E & _). unfold pool. by rewrite E. Qed.

(** ** Without interference *)
Lemma find_levels_alone n o i size a f k :
  undisturbed (current k) (find_levels n o i size a f k) = Done (levels_alone n i size a f (pool k o)) k.
Proof.
  revert i a f. induction n as [|n IH]; intros i a f; [done|]. cbn [find_levels levels_alone].
  rewrite undisturbed_interruptible. by destruct (_ <? _).
Qed.
Lemma break_down_alone n o blk l p k :
  undisturbed (current k) (break_down n o blk l (set_pool o p k)) =
    match break_alone n blk l p with None => Fault | Some p' => Done tt (set_pool o p' k) end.
Proof.
  revert l p. induction n as [|n IH]; intros l p; [done|]. cbn [break_down break_alone].
  change (current k) with (current (set_pool o p k)). rewrite undisturbed_interruptible, pool_set.
  destruct (break_block blk l p) as [p'|]; [|done]. cbn [mbind option_bind]. rewrite set_set_pool. apply IH.
Qed.
Lemma pool_alloc_alone o size k :
  undisturbed (current k) (pool_alloc o size k) =
    match alloc_alone size (pool k o) with
    | None => Fault
    | Some (r, p) => Done r (match r with Failed e => if e =? - ENOMEM then k else set_pool o p k | _ => set_pool o p k end)
    end.
Proof.
  unfold pool_alloc, alloc_alone. rewrite (undisturbed_bind _ _ _ _ _ (find_levels_alone _ _ _ _ _ _ _)).
  destruct (levels_alone _ _ _ _ _ _) as [al fl]. destruct (_ || _); [done|]. rewrite undisturbed_interruptible.
  destruct (alloc_block _ _ _) as [[[blk|] p]|]; [|done|done]. cbn [mbind option_bind].
  pose proof (break_down_alone (Z.to_nat (al - fl)) o blk fl p k) as Hb. destruct (break_alone _ _ _ _) as [p'|] eqn:E; cbn [mbind option_bind].
  - rewrite (undisturbed_bind _ _ _ _ _ Hb). by rewrite pool_set.
  - by rewrite (undisturbed_fault _ _ _ Hb).
Qed.
Lemma free_block_alone l o b k :
  undisturbed (current k) (free_block l o b k) =
    match free_alone l b (pool k o) with None => Fault | Some p => Done tt (set_pool o p k) end.
Proof.
  revert b k. induction l as [|l IH]; intros b k; cbn [free_block free_alone];
    destruct (free_step _ b (pool k o)) as [[up p]|]; try done; cbn [mbind option_bind]. destruct up; [|done].
  change (current k) with (current (set_pool o p k)). rewrite undisturbed_interruptible, IH, pool_set.
  destruct (free_alone l (b / 4) p); [|done]. by rewrite set_set_pool.
Qed.

(** ** Amid interference

    A call of the thread [t] on the pool [o], which was defined like [p0].
    [apart M U k]: the call holds the blocks [M] and all others together the
    blocks [U]; with that the system and the pool are consistent. *)
Record apart (o : nat) (p0 : k_mem_pool) (M U : gset (Z * Z)) (k : kernel) : Prop := {
  ap_sys : sys_inv k;
  ap_same : same_pool p0 (pool k o);
  ap_disj : U ## M;
  ap_inv : ∃ F, pool_inv (pool k o) F (U ∪ M);
}.
(** [pool_safe o p0 t R Q U out]: whenever the call can be interrupted or waits,
    the state is consistent with some blocks [M] in the hands of the call.
    Others may then allocate and free what blocks they like except [M]: it goes
    on in any consistent state in which it still holds [M], with [R] if the caller
    relies on more, and returns with [Q], of the blocks the others hold by then.
    It never crashes. *)
Fixpoint pool_safe {A : Type} (o : nat) (p0 : k_mem_pool) (t : tid) (R : kernel → Prop) (Q : A → gset (Z * Z) → kernel → Prop) (U : gset (Z * Z)) (out : outcome A) : Prop :=
  match out with
  | Done a k => Q a U k
  | Swapped k resume => ∃ M, apart o p0 M U k ∧
      ∀ k' U', apart o p0 M U' k' → current k' = t → R k' → pool_safe o p0 t R Q U' (resume k')
  | Fault => False
  end.

Section interference.
Context (o : nat) (p0 : k_mem_pool) (t : tid) (R : kernel → Prop).
Notation apart := (apart o p0).
Notation psafe := (pool_safe o p0 t R).

Lemma psafe_bind {A B : Type} (Q : A → gset (Z * Z) → kernel → Prop) (Q' : B → gset (Z * Z) → kernel → Prop) U out f :
  psafe Q U out → (∀ a U' k, Q a U' k → psafe Q' U' (f a k)) → psafe Q' U (obind out f).
Proof.
  intros Ho Hf. revert U Ho. induction out as [a k|k resume IH|]; intros U Ho; simpl in *; [auto| |done].
  destruct Ho as (M & HM & Ho). exists M. split; [done|]. intros k' U' Hk' Hc HR. apply IH; auto.
Qed.
Lemma psafe_mono {A : Type} (Q Q' : A → gset (Z * Z) → kernel → Prop) U out :
  psafe Q U out → (∀ a U' k, Q a U' k → Q' a U' k) → psafe Q' U out.
Proof.
  intros Ho Hf. revert U Ho. induction out as [a k|k resume IH|]; intros U Ho; simpl in *; [auto| |done].
  destruct Ho as (M & HM & Ho). exists M. split; [done|]. intros k' U' Hk' Hc HR. apply IH; auto.
Qed.
Lemma psafe_interruptible {A : Type} M U k (f : unit → kernel → outcome A) Q :
  apart M U k → (∀ k' U', apart M U' k' → current k' = t → psafe Q U' (f tt k')) → psafe Q U (obind (interruptible k) f).
Proof.
  intros Hk Hf. unfold interruptible. rewrite (sys_nested _ (ap_sys _ _ _ _ _ Hk)). simpl. exists M. split; [done|]. auto.
Qed.
(** A locked section: from one consistent state to the next. *)
Lemma apart_set M M' U k p F :
  apart M U k → same_pool (pool k o) p → U ## M' → pool_inv p F (U ∪ M') → apart M' U (set_pool o p k).
Proof.
  intros [H1 H2 H3 H4] Hs Hd HI. split; [by apply set_pool_sys_inv| |done|]; rewrite pool_set; [by etransitivity|by exists F].
Qed.

(** The level to allocate from is the same whatever happens meanwhile. *)
Definition levels_found (size : Z) (ls : Z * Z) : Prop :=
  let '(al, fl) := ls in -1 ≤ fl ≤ al ∧ al < n_levels p0 ∧ (0 ≤ al → size ≤ lsize p0 al) ∧ (al + 1 < n_levels p0 → lsize p0 (al + 1) < size).
Lemma find_levels_safe n i size a f U k :
  apart ∅ U k → current k = t → i + Z.of_nat n = n_levels p0 → 0 ≤ i → a = i - 1 → -1 ≤ f ≤ a → (0 ≤ a → size ≤ lsize p0 a) →
  psafe (λ ls U k, apart ∅ U k ∧ current k = t ∧ levels_found size ls) U (find_levels n o i size a f k).
Proof.
  revert i a f U k. induction n as [|n IH]; intros i a f U k Hk Hc Hn Hi Ha Hf Hsz; cbn [find_levels].
  { simpl. split_and!; [done|done|lia|lia|lia|done|lia]. }
  eapply psafe_interruptible; [done|]. clear U k Hk Hc. intros k U Hk Hc. rewrite (same_pool_lsize _ _ _ (ap_same _ _ _ _ _ Hk)).
  destruct (Z.ltb_spec (lsize p0 i) size).
  - simpl. split_and!; [done|done|lia|lia|lia|done|]. intros _. by replace (a + 1) with i by lia.
  - apply IH; [done|done|lia|lia|lia|destruct (level_empty _ _); lia|done].
Qed.
Lemma break_down_safe n x U k :
  apart {[x]} U k → current k = t → x.1 + Z.of_nat n < n_levels p0 →
  psafe (λ _ U k, apart {[(x.1 + Z.of_nat n, x.2 * 4 ^ Z.of_nat n)]} U k ∧ current k = t) U (break_down n o (addr p0 x) x.1 k).
Proof.
  revert x U k. induction n as [|n IH]; intros x U k Hk Hc Hn; cbn [break_down].
  { simpl. rewrite Z.add_0_r, Z.mul_1_r. by destruct x. }
  eapply psafe_interruptible; [done|]. clear U k Hk Hc. intros k U Hk Hc. destruct Hk as [H1 H2 H3 (F & HI)] eqn:Ek. clear Ek.
  assert (Hp0 : n_levels (pool k o) = n_levels p0) by apply H2.
  assert (HxU : x ∈ U ∪ {[x]}) by (apply elem_of_union_r; set_solver).
  destruct (break_block_inv (pool k o) F (U ∪ {[x]}) x HI HxU) as (p1 & E & Hs & HI1); [lia|]. rewrite (same_pool_addr _ _ x H2) in E. rewrite E.
  assert (Hq : quarter x 0 ∉ U).
  { intros Hq. eapply (part_no_quarter _ _ x (quarter x 0) (inv_part _ _ _ HI)); [by apply elem_of_union_r|by apply elem_of_union_r, elem_of_union_l|lia|by apply quarter_elem]. }
  assert (Hx0 : x ∉ U) by (clear -H3; set_solver).
  replace ((U ∪ {[x]}) ∖ {[x]} ∪ {[quarter x 0]}) with (U ∪ {[quarter x 0]}) in HI1 by (clear -Hx0; generalize (quarter x 0); set_solver).
  assert (Hx := part_valid _ _ (inv_part _ _ _ HI) x ltac:(by apply elem_of_union_r)).
  assert (Ea : addr p0 (quarter x 0) = addr p0 x).
  { rewrite <-!(same_pool_addr _ _ _ H2). rewrite (proj1 (addr_quarter _ x 0 (rep_wf _ _ (inv_rep _ _ _ HI)) Hx ltac:(lia) ltac:(lia))). lia. }
  replace (x.1 + Z.of_nat (S n), x.2 * 4 ^ Z.of_nat (S n)) with ((quarter x 0).1 + Z.of_nat n, (quarter x 0).2 * 4 ^ Z.of_nat n).
  2: { unfold quarter. simpl fst. simpl snd. rewrite Nat2Z.inj_succ, Z.pow_succ_r by lia. f_equal; lia. }
  rewrite <-Ea. apply (IH (quarter x 0)); [|done|simpl; lia].
  eapply (apart_set {[x]}); [done|done| |exact HI1]. clear -Hq. set_solver.
Qed.

(** What an allocation returns. *)
Definition alloc_result (size : Z) (r : pool_result) (U : gset (Z * Z)) (k : kernel) : Prop :=
  current k = t ∧
  match r with
  | Allocated b => ∃ x, b = mk_block (addr p0 x) x.1 x.2 ∧ valid p0 x ∧ size ≤ lsize p0 x.1 ∧
      (x.1 + 1 < n_levels p0 → lsize p0 (x.1 + 1) < size) ∧ apart {[x]} U k
  | Failed e => (e = - ENOMEM ∨ e = - EAGAIN) ∧ apart ∅ U k
  end.
Lemma apart_p0 M U k : apart M U k → wf_pool (pool k o).
Proof. intros [_ _ _ (F & HI)]. apply HI. Qed.
Lemma pool_alloc_safe size U k : apart ∅ U k → current k = t → psafe (alloc_result size) U (pool_alloc o size k).
Proof.
  intros Hk Hc. unfold pool_alloc. assert (En : n_levels (pool k o) = n_levels p0) by apply (ap_same _ _ _ _ _ Hk).
  pose proof (wf_levels _ (apart_p0 _ _ _ Hk)). rewrite En in *.
  eapply psafe_bind; [by apply find_levels_safe; [..|lia|lia|lia|lia|lia]|]. clear U k Hk Hc En. intros [al fl] U k (Hk & Hc & Hfl & Hal & H1 & H2).
  destruct (Z.ltb_spec al 0); [split; [done|]; by split; [left|]|]. destruct (Z.ltb_spec fl 0); [split; [done|]; by split; [left|]|]. cbn [orb].
  eapply psafe_interruptible; [done|]. clear U k Hk Hc. intros k U Hk Hc. pose proof Hk as [_ Hs0 _ (F & HI)]. rewrite (right_id_L ∅ (∪)) in HI.
  assert (En : n_levels (pool k o) = n_levels p0) by apply Hs0.
  destruct (alloc_block_inv (pool k o) F U fl HI) as [[_ ->]|(b & p1 & _ & -> & Hs1 & Hb & HI1)]; [lia| |].
  { split; [done|]. split; [by right|]. eapply apart_set; [done|done|set_solver|]. by rewrite (right_id_L ∅ (∪)). }
  set (y := (fl, b)) in *. assert (HyU : y ∉ U) by (intros HU; by apply (inv_disj _ _ _ HI y)).
  assert (Hy := lists_valid _ _ (rep_lists _ _ (inv_rep _ _ _ HI)) _ Hb).
  assert (Hk1 : apart {[y]} U (set_pool o p1 k)) by (eapply apart_set; [done|done|clear -HyU; clearbody y; set_solver|exact HI1]).
  rewrite (same_pool_addr _ _ y Hs0). change fl with y.1 at 2.
  set (n := Z.to_nat (al - fl)). assert (Hn : Z.of_nat n = al - fl) by lia.
  eapply psafe_bind; [apply (break_down_safe n y); [done|done|simpl; lia]|]. intros _ U' k' [Hk' Hc'].
  set (x := (y.1 + Z.of_nat n, y.2 * 4 ^ Z.of_nat n)) in *. assert (Ex : x.1 = al) by (simpl; lia).
  pose proof Hk' as [_ Hs' _ (F' & HI')]. assert (Hxv : valid (pool k' o) x) by (apply (part_valid _ _ (inv_part _ _ _ HI')); apply elem_of_union_r, elem_of_union_r; set_solver).
  assert (Hxv0 := proj1 (same_pool_valid _ _ x Hs') Hxv).
  assert (Hyv' : valid (pool k' o) y) by by apply (same_pool_valid _ _ _ Hs'), (same_pool_valid _ _ _ Hs0).
  assert (Hwf' := apart_p0 _ _ _ Hk').
  assert (Ec : cell (pool k' o) x = cell (pool k' o) y).
  { assert (n_levels (pool k' o) = n_levels p0) as En' by apply Hs'.
    unfold cell. rewrite Ex. subst x. simpl. rewrite <-Z.mul_assoc. f_equal. unfold width. rewrite <-Z.pow_add_r by lia. f_equal. lia. }
  assert (Ea : addr p0 y = addr p0 x).
  { rewrite <-!(same_pool_addr _ _ _ Hs'). destruct (addr_cell _ Hwf') as (s & _ & _ & Ha). by rewrite (proj2 (Ha x Hxv)), (proj2 (Ha y Hyv')), Ec. }
  split; [done|]. exists x. rewrite Ea, <-Ex. split.
  { rewrite <-(same_pool_addr _ _ x Hs'), (block_num_addr _ x Hwf' Hxv). pose proof (block_bound _ x Hwf' Hxv). pose proof (wf_levels _ Hwf').
    rewrite (Z.mod_small x.2) by lia. rewrite (Z.mod_small x.1) by (destruct Hxv; lia). done. }
  split_and!; [done|rewrite Ex; apply H1; lia|by rewrite Ex|done].
Qed.

(** Waiting: the call holds nothing. *)
Definition pool_ok (U : gset (Z * Z)) (k : kernel) : Prop := same_pool p0 (pool k o) ∧ ∃ F, pool_inv (pool k o) F U.
Lemma pool_ok_objects U k k' : same_objects k k' → pool_ok U k → pool_ok U k'.
Proof. intros E. unfold pool_ok. by rewrite (pool_objects o k k' E). Qed.
Lemma psafe_swap U k :
  swap_ready (pool_ok U) k →
  psafe (λ _ U k, apart ∅ U k ∧ current k = t ∧ R k) U (_Swap k).
Proof.
  intros Hk. destruct (swap_safe (pool_ok U) True (pool_ok_objects U) t k Hk) as [[Hs [H1 (F & H2)]] _].
  exists ∅. split; [|done]. split; [done|done|set_solver|]. exists F. by rewrite (right_id_L ∅ (∪)).
Qed.

Lemma apart_ready U k :
  apart ∅ U k → swap_ready (pool_ok U) k.
Proof.
  intros [Hk H1 _ (F & H2)]. rewrite (right_id_L ∅ (∪)) in H2. apply swap_ready_sinv. split; [done|]. split; [done|by exists F].
Qed.
Lemma pool_wait_safe timeout U k :
  apart ∅ U k → timeout_ok timeout → current k = t → t ≠ _idle_thread →
  psafe (λ _ U k, apart ∅ U k ∧ current k = t ∧ R k) U (_Swap (_pend_current_thread (KPool, o) timeout k)).
Proof.
  intros Hk Hto Hc Hi. rewrite <-Hc in Hi. pose proof (ap_sys _ _ _ _ _ Hk) as Hs.
  destruct (pend_current_spec [] (KPool, o) timeout k) as (Hk' & Hf & _); [apply Hs|apply Hs|done|done|by left|].
  apply psafe_swap. eapply (swap_ready_frame (pool_ok U) (pool_ok_objects U) k); [by apply apart_ready|done|done].
Qed.

(** The allocation amid interference, however often it waits; the time left is a good timeout whenever it wakes up. *)
Lemma alloc_loop_safe fuel size timeout end_ U k :
  (timeout ≠ K_NO_WAIT → timeout ≠ K_FOREVER → ∀ k, R k → 0 < s32 (end_ - tick_count k) → timeout_ok (s32 (end_ - tick_count k))) →
  apart ∅ U k → current k = t → timeout = K_NO_WAIT ∨ (timeout_ok timeout ∧ t ≠ _idle_thread) →
  psafe (λ r U k, match r with Some r => alloc_result size r U k | None => timeout ≠ K_NO_WAIT ∨ fuel = O end) U (alloc_loop fuel o size timeout end_ k).
Proof.
  revert timeout U k. induction fuel as [|fuel IH]; intros timeout U k Hend Hk Hc Hto; cbn [alloc_loop]; [by right|].
  eapply psafe_bind; [by apply pool_alloc_safe|]. clear U k Hk Hc. intros [b|ret] U k Hr; [done|]. pose proof Hr as (Hc & He & Hk).
  destruct (Z.eqb_spec timeout K_NO_WAIT) as [E0|E0]; [done|]. destruct Hto as [|[Hto Hi]]; [done|].
  destruct He as [->| ->]; [|done]. change (- ENOMEM =? - EAGAIN) with false. rewrite Z.eqb_refl. cbn [negb orb].
  eapply psafe_interruptible; [done|]. clear U k Hk Hc Hr. intros k U Hk Hc.
  eapply psafe_bind; [by apply pool_wait_safe|]. clear U k Hk Hc. intros _ U k (Hk & Hc & HR).
  destruct (Z.eqb_spec timeout K_FOREVER) as [->|Ef].
  { eapply psafe_mono; [by apply IH; [..|right]|]; intros [r|] ? ?; [done|by left]. }
  specialize (Hend E0 Ef). destruct (Z.ltb_spec (s32 (end_ - tick_count k)) 0); [split; [done|]; by split; [right|]|].
  eapply psafe_mono; [apply IH; [done..|]|intros [r|] ? ?; [done|by left]]. unfold K_NO_WAIT.
  destruct (decide (s32 (end_ - tick_count k) = 0)); [by left|right]. split; [apply Hend; [done|lia]|done].
Qed.

(** The release amid interference: while blocks are merged, the call holds the block above them. *)
Lemma free_block_safe l b U k :
  apart {[(Z.of_nat l, b)]} U k → current k = t →
  psafe (λ _ U k, apart ∅ U k ∧ current k = t) U (free_block l o b k).
Proof.
  revert b U k. induction l as [|l IH]; intros b U k Hk Hc; pose proof Hk as [_ Hs0 Hd (F & HI)]; cbn [free_block].
  all: match type of Hk with apart {[?y]} _ _ => destruct (free_step_inv (pool k o) F (U ∪ {[y]}) y HI) as (up & p1 & E1 & Hs1 & HC); [apply elem_of_union_r; set_solver|];
    cbn [fst snd] in E1; rewrite E1; set (x := y) in * end.
  all: assert (HxU : x ∉ U) by (clear -Hd; clearbody x; set_solver).
  all: replace ((U ∪ {[x]}) ∖ {[x]}) with U in HC by (clear -HxU; set_solver).
  - destruct up; [destruct HC; simpl in *; lia|]. split; [|done]. eapply apart_set; [done|done|set_solver|]. by rewrite (right_id_L ∅ (∪)).
  - destruct up.
    + destruct HC as [_ HI1]. assert (Ep : parent x = (Z.of_nat l, b / 4)) by (unfold parent, x; f_equal; simpl; lia).
      assert (Hx := part_valid _ _ (inv_part _ _ _ HI) x ltac:(apply elem_of_union_r, elem_of_union_r; set_solver)).
      assert (HpU : parent x ∉ U).
      { intros Hp. eapply (part_no_quarter (pool k o) _ (parent x) x (inv_part _ _ _ HI));
          [by apply elem_of_union_r, elem_of_union_l|by apply elem_of_union_r, elem_of_union_r, elem_of_singleton|simpl; destruct Hx; simpl in *; lia|apply siblings_self]. }
      rewrite Ep in *. eapply psafe_interruptible; [eapply apart_set; [done|done| |done]; clear -HpU; set_solver|]. intros k' U' Hk' Hc'. by apply IH.
    + split; [|done]. eapply apart_set; [done|done|set_solver|]. by rewrite (right_id_L ∅ (∪)).
Qed.
End interference.

(** [roused t k k']: a thread [t] that waits in [k] does not in [k']: it is on no
    wait queue, has no timeout, and is ready, on its ready queue, unless something else holds it. *)
Record roused (t : tid) (k k' : kernel) : Prop := {
  ro_wq : ∀ w, t ∉ q k' (WQ w);
  ro_pending : _is_thread_pending t k' = false;
  ro_timeout : delta k' (TThread t) = _INACTIVE;
  ro_ready : _is_thread_ready t k' = negb (held t k);
  ro_rq : _is_thread_ready t k' = true → t ∈ q k' (RQ (rq_index k' t));
}.
Lemma roused_intro t k k' :
  kinv ∅ [] k' → t ∈ dom (threads k') → _is_thread_pending t k' = false → delta k' (TThread t) = _INACTIVE →
  _is_thread_ready t k' = negb (held t k) → roused t k k'.
Proof.
  intros Hk Ht Hp Hd Hr. split; try done; [|by apply (ready_in_rq [])].
  intros w Hw. apply (inv_wq _ _ _ Hk) in Hw as [_ Hw]. congruence.
Qed.

Section wake.
Context (J : kernel → Prop) (J_objects : ∀ k k', same_objects k k' → J k → J k').
(** The loop of [k_mem_pool_free] makes every waiter ready. *)
Lemma wake_waiters_spec fuel o b k :
  running J k → (length (q k (WQ (KPool, o))) ≤ fuel)%nat →
  ∃ k', wake_waiters fuel o b k = (b || negb (bool_decide (q k (WQ (KPool, o)) = [])), k') ∧
  running J k' ∧ current k' = current k ∧ sframe k k' ∧ q k' (WQ (KPool, o)) = [] ∧
  (∀ t, t ∈ q k (WQ (KPool, o)) → roused t k k') ∧
  (∀ t, t ∉ q k (WQ (KPool, o)) → thr k' t = thr k t ∧ (delta k' (TThread t) = _INACTIVE ↔ delta k (TThread t) = _INACTIVE)).
Proof.
  revert b k. induction fuel as [|fuel IH]; intros b k Hk Hl; simpl.
  { destruct (q k (WQ (KPool, o))) eqn:Hq; [|simpl in Hl; lia]. exists k. rewrite orb_false_r.
    split_and!; [done..| |done]. intros t Ht. by apply elem_of_nil in Ht. }
  destruct (q k (WQ (KPool, o))) as [|t ws] eqn:Hq.
  { exists k. rewrite orb_false_r. split_and!; [done..| |done]. intros t Ht. by apply elem_of_nil in Ht. }
  pose proof (proj1 (proj1 Hk)) as Hki. assert (handling_timeouts k = false) as Hh by apply Hk.
  assert (Hu : _unpend_first_thread (KPool, o) k = (Some t, _unpend_thread t k)).
  { unfold _unpend_first_thread, _find_first_thread_to_unpend. by rewrite Hh, Hq. }
  assert (Htd : t ∈ q k (WQ (KPool, o))) by (rewrite Hq; by left). apply (inv_wq _ _ _ Hki) in Htd as [Htd _].
  pose proof (unpend_woken (KPool, o) k t _ (λ x, x) _ (running_any J k Hk) Hu (wake_ready [] t (_unpend_thread t k))) as Hw.
  set (k2 := _ready_thread _ _) in *. clearbody k2. pose proof (wf_tail _ _ _ _ _ ws Hki Hw Hq) as Hq2.
  pose proof (woken_awake [] t _ k k2 Htd (wf_woken _ _ _ _ _ Hw)) as Ha.
  destruct Hw as [_ [Hk2 _ _ Hd2 Hp2 _ _] Ho Hne _]. destruct (running_only J J_objects t k k2 Hk Ho Hk2 Hne) as [Hr2 Ec2].
  destruct (IH true k2 Hr2) as (k' & E & Hr' & Ec & Hf & Hq' & Hin & Hout); [rewrite Hq2; simpl in Hl; lia|]. rewrite Hq2 in Hin, Hout.
  pose proof (inv_wq_nodup _ _ _ Hki (KPool, o)) as Hnd. rewrite Hq in Hnd. apply NoDup_cons in Hnd as [Hnt _].
  exists k'. rewrite E. simpl. rewrite orb_true_r. split_and!; [done|done|congruence| |done| |].
  - etrans; [by eapply only_sframe|done].
  - intros t'. rewrite elem_of_cons. intros [->|Ht'].
    + destruct (Hout t Hnt) as [Et Ed]. apply roused_intro; [apply Hr'|by apply (proj2 Hf), (only_dom _ _ _ Ho)| |by apply Ed|].
      * rewrite (pending_ext t k2); [done|]. by rewrite Et.
      * rewrite <-(aw_ready _ _ _ Ha). apply ready_ext; [by rewrite Et|done].
    + assert (t' ≠ t) as Hne' by (intros ->; done). destruct (Hin t' Ht') as [R1 R2 R3 R4 R5]. split; try done. rewrite R4. f_equal.
      apply held_ext. by rewrite (proj1 (proj2 Ho t' Hne')).
  - intros t' [Hne' Ht']%not_elem_of_cons. destruct (Hout t' Ht') as [Et Ed], (proj2 Ho t' Hne') as [Et2 Ed2]. by rewrite Et, Et2, Ed, Ed2.
Qed.
End wake.

(** The last locked section of [k_mem_pool_free]. *)
Lemma wake_safe o p0 t R U k :
  apart o p0 ∅ U k → current k = t →
  pool_safe o p0 t R (λ _ U k, apart o p0 ∅ U k ∧ current k = t) U
    (let '(need_sched, k) := wake_waiters (length (q k (WQ (KPool, o)))) o false k in
     if need_sched && negb (_is_in_isr k) then _reschedule_threads k else Done tt k).
Proof.
  intros Hk Hc. pose proof (ap_sys _ _ _ _ _ Hk) as Hs. pose proof (apart_ready o p0 U k Hk) as Hr.
  destruct (wake_waiters_spec (pool_ok o p0 U) (pool_ok_objects o p0 U) (length (q k (WQ (KPool, o)))) o false k) as (k' & E & [Hr' Hru] & Ec & _);
    [split; [done|apply Hs]|done|]. rewrite E. simpl orb.
  case_bool_decide as Hq; simpl.
  { rewrite Hq in E. simpl in E. by injection E as <-. }
  unfold _is_in_isr. rewrite (proj1 (proj2 Hr')). simpl. unfold _reschedule_threads. destruct (_must_switch_threads k') eqn:Hm.
  - eapply psafe_bind; [by apply psafe_swap|]. by intros _ U' k2 (? & ? & _).
  - simpl. split; [|congruence]. destruct Hr' as (Hk' & Hn & Hh & H1 & F & H2). split; [|done|set_solver|exists F; by rewrite (right_id_L ∅ (∪))].
    split; try done. by apply must_switch_false.
Qed.
Lemma k_mem_pool_free_safe o p0 t R x U k :
  apart o p0 {[x]} U k → current k = t →
  pool_safe o p0 t R (λ _ U k, apart o p0 ∅ U k ∧ current k = t) U (k_mem_pool_free o x.1 x.2 k).
Proof.
  intros Hk Hc. unfold k_mem_pool_free. pose proof Hk as [_ _ _ (F & HI)].
  assert (Hv := part_valid _ _ (inv_part _ _ _ HI) x ltac:(apply elem_of_union_r, elem_of_union_r; set_solver)).
  eapply psafe_bind; [apply free_block_safe; [|done]|].
  - rewrite Z2Nat.id by (destruct Hv; lia). by destruct x.
  - intros _ U' k' [Hk' Hc']. eapply psafe_interruptible; [done|]. intros k2 U2 Hk2 Hc2. by apply wake_safe.
Qed.

(** One round of the loop of an allocation, without interference. *)
Lemma alloc_loop_alone fuel o size timeout end_ k F U :
  pool_inv (pool k o) F U →
  (∃ x p' F', undisturbed (current k) (alloc_loop (S fuel) o size timeout end_ k) =
       Done (Some (Allocated (mk_block (addr (pool k o) x) x.1 x.2))) (set_pool o p' k) ∧
     valid (pool k o) x ∧ unheld (pool k o) U x ∧ size ≤ lsize (pool k o) x.1 ∧
     (x.1 + 1 < n_levels (pool k o) → lsize (pool k o) (x.1 + 1) < size) ∧ same_pool (pool k o) p' ∧ pool_inv p' F' (U ∪ {[x]})) ∨
  ((∀ x, valid (pool k o) x → unheld (pool k o) U x → lsize (pool k o) x.1 < size) ∧
   undisturbed (current k) (alloc_loop (S fuel) o size timeout end_ k) =
     if timeout =? K_NO_WAIT then Done (Some (Failed (- ENOMEM))) k
     else undisturbed (current k) (
       let% _ k := _Swap (_pend_current_thread (KPool, o) timeout k) in
       if timeout =? K_FOREVER then alloc_loop fuel o size timeout end_ k
       else
         let timeout := s32 (end_ - tick_count k) in
         if timeout <? 0 then Done (Some (Failed (- EAGAIN))) k
         else alloc_loop fuel o size timeout end_ k)).
Proof.
  intros HI. cbn [alloc_loop]. pose proof (pool_alloc_alone o size k) as Ha.
  destruct (alloc_alone_inv (pool k o) F U size HI) as [(E & Hno)|(x & p' & F' & E & Hs & H1 & H2 & H3 & H4 & HI')]; rewrite E in Ha.
  - right. split; [done|]. rewrite (undisturbed_bind _ _ _ _ _ Ha), Z.eqb_refl.
    change (- ENOMEM =? - EAGAIN) with false. cbn [negb]. rewrite !orb_false_r. destruct (timeout =? K_NO_WAIT); [done|].
    apply undisturbed_interruptible.
  - left. exists x, p', F'. by rewrite (undisturbed_bind _ _ _ _ _ Ha).
Qed.

(** The time left is shorter than the timeout. *)
Lemma time_left_ok timeout c now :
  0 < timeout ≤ INT32_MAX → timeout_ok timeout → 1 < ms_per_tick ∨ c ≤ now < c + 2147483648 →
  let left := s32 (c + _ms_to_ticks timeout - now) in 0 < left → timeout_ok left.
Proof.
  intros Ht Hok Hc left Hl. right. pose proof ms_per_tick_range. unfold INT32_MAX in *.
  pose proof (s32_range (c + _ms_to_ticks timeout - now)) as Hr. fold left in Hr.
  destruct (decide (1 < ms_per_tick)) as [Hm|Hm].
  { apply timeout_ticks_spec; [lia| |unfold INT32_MAX; lia]. unfold INT32_MAX. assert (left / ms_per_tick ≤ left / 2) by (apply Z.div_le_compat_l; lia). dlia. }
  assert (E1 : ms_per_tick = 1) by lia. destruct Hc as [|Hc]; [lia|].
  assert (Hmt : ∀ x, 0 ≤ x ≤ 2147483647 → _ms_to_ticks x = x).
  { intros x Hx. unfold _ms_to_ticks. rewrite E1, Z.sub_diag, Z.add_0_r, Z.div_1_r, !u32_id by (rewrite ?u32_id; lia). apply s32_id. lia. }
  destruct Hok as [->|Hok]; [by unfold K_FOREVER in Ht; lia|]. unfold timeout_ticks, _TICK_ALIGN in *. rewrite (Hmt timeout) in Hok by lia. rewrite (Hmt left) by lia.
  assert (Hlt : timeout < 2147483647).
  { destruct (decide (timeout = 2147483647)) as [->|]; [|lia]. by vm_compute in Hok. }
  assert (left = c + timeout - now) by (unfold left; rewrite (Hmt timeout) by lia; apply s32_id; lia). rewrite s32_id by lia. lia.
Qed.

(** ** Properties *)

(** C13: what [k_mem_pool_alloc] does when nothing interrupts it until it returns or waits.  It returns a block of at
    least [size] bytes, of the smallest level of that size and no part of which was held, whenever some block of that size is entirely
    unheld, and changes only the pool.  Otherwise, without waiting it returns -ENOMEM and changes nothing; else it puts the caller on
    the wait queue of the pool, with its timeout queued.  When the caller runs again, it returns -EAGAIN if its deadline has passed,
    and otherwise allocates if a block of that size is entirely unheld by then.  (What interference adds is in [k_mem_pool_calls_safe].) *)
Theorem k_mem_pool_alloc_outcome fuel o size timeout k F U :
  sys_inv k → pool_inv (pool k o) F U →
  let out := undisturbed (current k) (k_mem_pool_alloc (S (S fuel)) o size timeout k) in
  (∃ x p' F', out = Done (Some (Allocated (mk_block (addr (pool k o) x) x.1 x.2))) (set_pool o p' k) ∧
     valid (pool k o) x ∧ unheld (pool k o) U x ∧ size ≤ lsize (pool k o) x.1 ∧
     (x.1 + 1 < n_levels (pool k o) → lsize (pool k o) (x.1 + 1) < size) ∧ pool_inv p' F' (U ∪ {[x]})) ∨
  ((∀ x, valid (pool k o) x → unheld (pool k o) U x → lsize (pool k o) x.1 < size) ∧
   (timeout = K_NO_WAIT → out = Done (Some (Failed (- ENOMEM))) k) ∧
   (timeout = K_FOREVER ∨ 0 < timeout → timeout_ok timeout → current k ≠ _idle_thread → ∃ k' resume,
      out = Swapped k' resume ∧ objs k' = objs k ∧
      q k' (WQ (KPool, o)) = insert_where (λ p, _is_t1_higher_prio_than_t2 (current k) p k) (current k) (q k (WQ (KPool, o))) ∧
      _is_thread_pending (current k) k' = true ∧ deadlines k' = queued_deadline (TThread (current k)) timeout (deadlines k) ∧
      ∀ k2 F2 U2, pool_inv (pool k2 o) F2 U2 →
        let left := s32 (tick_count k + _ms_to_ticks timeout - tick_count k2) in
        (timeout ≠ K_FOREVER → left < 0 → resume k2 = Done (Some (Failed (- EAGAIN))) k2) ∧
        (timeout = K_FOREVER ∨ 0 ≤ left → ∀ x, valid (pool k2 o) x → unheld (pool k2 o) U2 x → size ≤ lsize (pool k2 o) x.1 →
           ∃ b k3, undisturbed (current k2) (resume k2) = Done (Some (Allocated b)) k3))).
Proof.
  intros Hk HI out. subst out. unfold k_mem_pool_alloc. set (end_ := if _ >? _ then _ else _).
  destruct (alloc_loop_alone (S fuel) o size timeout end_ k F U HI) as [(x & p' & F' & H1 & H2 & H3 & H4 & H5 & _ & H6)|(Hno & E)];
    [left; by exists x, p', F'|right]. split; [done|]. split; [by intros ->|].
  intros Hto Hok Hi. rewrite (proj2 (Z.eqb_neq timeout K_NO_WAIT)) in E by (unfold K_FOREVER, K_NO_WAIT in *; lia).
  destruct (pend_current_spec [] (KPool, o) timeout k) as (Hk2 & Hf & _ & Hp & Hq); [apply Hk|apply Hk|done|done|by left|].
  pose proof (pend_current_deadlines [] (KPool, o) timeout k (sys_kinv _ Hk) (sys_current _ Hk) Hok) as Hd.
  set (k1 := _pend_current_thread (KPool, o) timeout k) in *. pose proof (sframe_current _ _ Hf) as Ecu.
  assert (Hne : current (switched k1) ≠ current k).
  { change (cache k1 ≠ current k). intros Hcc. destruct (cache_runnable _ _ _ Hk2) as (_ & _ & Hrd). rewrite Hcc in Hrd.
    apply ready_not_pending in Hrd. congruence. }
  assert (Ht : thr (switched k1) (current k) = set_return_value (- EAGAIN) (thr k1 (current k))).
  { rewrite <-Ecu. unfold switched. cbv zeta. change (thr (set_current ?c ?k) ?t) with (thr k t). by rewrite thr_upd, decide_True. }
  rewrite swap_switched in E. cbn [obind undisturbed] in E. rewrite decide_False in E by done.
  do 2 eexists. split; [exact E|]. split; [change (objs k1 = objs k); by rewrite (proj1 Hf)|]. split; [exact Hq|]. split; [rewrite <-Hp; apply pending_ext; by rewrite Ht|].
  split; [exact Hd|]. intros k2 F2 U2 HI2. assert (Ee : timeout ≠ K_FOREVER → end_ = tick_count k + _ms_to_ticks timeout).
  { intros Hnf. unfold end_. destruct Hto as [|Hto]; [done|]. by rewrite (proj2 (Z.gtb_lt timeout 0) Hto). }
  split.
  - intros Hnf Hl. rewrite (proj2 (Z.eqb_neq timeout K_FOREVER)), (Ee Hnf) by done. by rewrite (proj2 (Z.ltb_lt _ 0)).
  - intros Hl x Hx Hun Hsz.
    assert (Hgo : ∃ timeout', (if timeout =? K_FOREVER then alloc_loop (S fuel) o size timeout end_ k2
      else if s32 (end_ - tick_count k2) <? 0 then Done (Some (Failed (- EAGAIN))) k2 else alloc_loop (S fuel) o size (s32 (end_ - tick_count k2)) end_ k2)
      = alloc_loop (S fuel) o size timeout' end_ k2).
    { destruct (Z.eqb_spec timeout K_FOREVER) as [|Hnf]; [by eexists|]. destruct Hl as [|Hl]; [done|]. rewrite (Ee Hnf). rewrite (proj2 (Z.ltb_ge _ 0)) by done. by eexists. }
    destruct Hgo as [timeout' ->].
    destruct (alloc_loop_alone fuel o size timeout' end_ k2 F2 U2 HI2) as [(y & p' & F' & -> & _)|(Hno2 & _)]; [eauto|].
    specialize (Hno2 x Hx Hun). lia.
Qed.

(** C15: [k_mem_pool_alloc], however often it waits, and [k_mem_pool_free] of a held block [x], while other threads and interrupts use
    the same pool whenever these calls have interrupts enabled: at every such moment, and when they return, the scheduler and the
    pool are consistent; blocks are not lost, shared or written outside the bitmaps.  An allocation gives the caller a
    block of at least [size] bytes that nobody else holds, or fails with -ENOMEM or -EAGAIN; without waiting it returns after one
    round.  The caller waits for ever or for a timeout that does not overflow ([timeout_ok]), and is not the idle thread; others do not touch a block that
    a call holds; if ticks are as short as a millisecond, the call does not take 2{^31} of them. *)
Theorem k_mem_pool_calls_safe fuel o size timeout x F U k :
  sys_inv k → timeout = K_NO_WAIT ∨ ((timeout = K_FOREVER ∨ 0 < timeout ≤ INT32_MAX) ∧ timeout_ok timeout ∧ current k ≠ _idle_thread) →
  pool_inv (pool k o) F (U ∪ {[x]}) → x ∉ U →
  pool_safe o (pool k o) (current k) (λ k', 1 < ms_per_tick ∨ tick_count k ≤ tick_count k' < tick_count k + 2147483648)
    (λ r U' k', match r with Some r => alloc_result o (pool k o) (current k) size r U' k' | None => timeout ≠ K_NO_WAIT ∨ fuel = O end)
    (U ∪ {[x]}) (k_mem_pool_alloc fuel o size timeout k) ∧
  pool_safe o (pool k o) (current k) (λ _, True) (λ _ U' k', apart o (pool k o) ∅ U' k' ∧ current k' = current k) U (k_mem_pool_free o x.1 x.2 k).
Proof.
  intros Hk Hto HI Hx. split.
  - apply alloc_loop_safe; [|by split; [done|done|set_solver|exists F; rewrite (right_id_L ∅ (∪))]|done|destruct Hto as [|(? & ? & ?)]; [by left|by right]].
    intros E0 Ef k' HR Hp. destruct Hto as [|([|Ht] & Hok & _)]; [done|done|]. rewrite (proj2 (Z.gtb_lt timeout 0)) in * by lia. by apply (time_left_ok timeout).
  - apply k_mem_pool_free_safe; [|done]. split; [done|done|clear -Hx; set_solver|by exists F].
Qed.

(** C14: [k_mem_pool_free] of a held block [x], when nothing interrupts it, returns the block to the pool and takes
    every waiter off the wait queue: none waits or has a timeout any more, and each is on its ready queue unless it is
    suspended or dead.  Other threads are not changed.  Then, if there were any waiters, the caller gives way to a thread of higher priority.  An allocation of up to the size of
    the freed block would now succeed. *)
Theorem k_mem_pool_free_wakes o x F U k :
  sys_inv k → pool_inv (pool k o) F U → x ∈ U →
  ∃ k' F', undisturbed (current k) (k_mem_pool_free o x.1 x.2 k) =
      (if bool_decide (q k (WQ (KPool, o)) = []) then Done tt k' else undisturbed (current k) (_reschedule_threads k')) ∧
    pool_inv (pool k' o) F' (U ∖ {[x]}) ∧ q k' (WQ (KPool, o)) = [] ∧ current k' = current k ∧
    (∀ t, t ∈ q k (WQ (KPool, o)) → roused t k k') ∧ (∀ t, t ∉ q k (WQ (KPool, o)) → thr k' t = thr k t) ∧
    ∀ size, size ≤ lsize (pool k o) x.1 → ∃ b k2, undisturbed (current k') (pool_alloc o size k') = Done (Allocated b) k2.
Proof.
  intros Hk HI Hx. assert (Hv := part_valid _ _ (inv_part _ _ _ HI) x ltac:(by apply elem_of_union_r)).
  assert (Ex : x = (Z.of_nat (Z.to_nat x.1), x.2)) by (destruct x, Hv; simpl in *; f_equal; lia).
  destruct (free_alone_inv (pool k o) F U (Z.to_nat x.1) x.2 HI ltac:(by rewrite <-Ex)) as (p & F' & E & Hsp & HI'). rewrite <-Ex in HI'.
  pose proof (free_block_alone (Z.to_nat x.1) o x.2 k) as Ef. rewrite E in Ef. set (k1 := set_pool o p k) in *.
  destruct (wake_waiters_spec (λ _, True) (λ _ _ _ x, x) (length (q k1 (WQ (KPool, o)))) o false k1) as (k' & E' & Hr & Ec & Hf & Hq & Hin & Hout);
    [apply running_sinv; split; [by apply set_pool_sys_inv|done]|done|]. simpl orb in E'.
  assert (pool k' o = p) as Ep by (unfold pool; rewrite (proj1 Hf); exact (pool_set o p k)).
  exists k', F'. rewrite Ep. split_and!; try done.
  - unfold k_mem_pool_free. rewrite (undisturbed_bind _ _ _ _ _ Ef). change (current k) with (current k1) at 1. rewrite undisturbed_interruptible, E'.
    unfold _is_in_isr. rewrite (proj1 (proj2 (proj1 Hr))). change (q k1 (WQ (KPool, o))) with (q k (WQ (KPool, o))). simpl. rewrite andb_true_r.
    by destruct (bool_decide _).
  - intros t Ht. by destruct (Hin t Ht).
  - intros t Ht. by destruct (Hout t Ht).
  - intros size Hsz. rewrite pool_alloc_alone, Ep.
    destruct (alloc_alone_inv p F' (U ∖ {[x]}) size HI') as [(_ & Hno)|(y & p' & F2 & -> & _)]; [|eauto].
    specialize (Hno x (proj2 (same_pool_valid _ _ x Hsp) Hv)). rewrite (same_pool_lsize _ _ _ Hsp) in Hno. cut False; [done|].
    apply Z.lt_nge in Hno; [done|]. pose proof (same_pool_partition _ _ _ Hsp (inv_part _ _ _ HI)) as HP.
    intros c y Hc Hxc [Hy Hyx]%elem_of_difference Hyc. apply Hyx, elem_of_singleton. eapply (part_uniq _ _ HP); try done; by apply elem_of_union_r.
Qed.

Lemma id_word_fields pool level block : 0 ≤ pool < 256 → 0 ≤ level < 16 → 0 ≤ block < 1048576 →
  id_pool (id_word pool level block) = pool ∧ id_level (id_word pool level block) = level ∧ id_block (id_word pool level block) = block.
Proof.
  intros Hp Hl Hb. unfold id_pool, id_level, id_block, id_word. rewrite (Z.mod_small pool), (Z.mod_small level), (Z.mod_small block) by lia.
  split_and!; dlia.
Qed.
(** [k_free] finds the block through the descriptor in front of the pointer. *)
Lemma k_free_safe o p0 R x U k :
  (o < 256)%nat → apart o p0 {[x]} U k → words k !!! (addr p0 x + 4) = id_word (Z.of_nat o) x.1 x.2 → 
  pool_safe o p0 (current k) R (λ _ U k, apart o p0 ∅ U k) U (k_free (addr p0 x + 8) k).
Proof.
  intros Ho Hk Hw. pose proof Hk as [_ Hs _ (F & HI)]. assert (Hwf := rep_wf _ _ (inv_rep _ _ _ HI)).
  assert (Hv := part_valid _ _ (inv_part _ _ _ HI) x ltac:(apply elem_of_union_r, elem_of_union_r; set_solver)).
  pose proof (addr_range _ x Hwf Hv) as Hr. rewrite (same_pool_addr _ _ x Hs) in Hr. pose proof (wf_end _ Hwf). pose proof (wf_buf _ Hwf).
  unfold k_free, sizeof_k_mem_block. rewrite (proj2 (Z.eqb_neq _ _)) by (unfold NULL; lia).
  replace (addr p0 x + 8 - 8) with (addr p0 x) by lia. rewrite (u32_id (addr p0 x)) by lia. cbv zeta. rewrite Hw.
  pose proof (block_bound _ x Hwf Hv) as Hb. pose proof (wf_levels _ Hwf).
  destruct (id_word_fields (Z.of_nat o) x.1 x.2) as (-> & -> & ->); [lia|destruct Hv; lia|done|]. rewrite Nat2Z.id.
  eapply psafe_mono; [by apply k_mem_pool_free_safe|]. by intros _ U' k' [? _].
Qed.


(** The state in which a caller waits is consistent. *)
Lemma pool_wait_sys_inv o timeout k :
  sys_inv k → current k ≠ _idle_thread → timeout_ok timeout → sys_inv (switched (_pend_current_thread (KPool, o) timeout k)).
Proof.
  intros Hk Hi Hto. destruct (pend_current_spec [] (KPool, o) timeout k) as (Hk' & Hf & _); [apply Hk|apply Hk|done|done|by left|].
  refine (proj1 (proj1 (swap_safe (λ _, True) False (λ _ _ _ x, x) (current k) _ (swap_ready_frame (λ _, True) (λ _ _ _ x, x) k _ _ Hk' Hf)))).
  by apply swap_ready_sinv.
Qed.
End pool.

(** ** The properties at work

    All of the example pool is allocated; the main thread waits for a block. *)
#[local] Existing Instance default_config.
Definition example_half : k_mem_pool := default inhabitant (snd <$> alloc_block 0 256 example_pool).
Definition example_full : k_mem_pool := default inhabitant (snd <$> alloc_block 0 256 example_half).
Lemma example_half_inv : ∃ F, pool_inv example_half F {[(0, 0)]}.
Proof.
  destruct example_inv as [F0 HI0].
  assert (alloc_block 0 (lsize example_pool 0) example_pool = Some (Some 3217166336, example_half)) as E1 by by vm_compute.
  assert (block_num example_pool 3217166336 (lsize example_pool 0) = 0) as B1 by by vm_compute.
  assert (n_levels example_pool = 3) as N1 by by vm_compute.
  destruct (pool_step_keeps _ _ _ _ F0 (step_alloc _ ∅ 0 _ _ ltac:(rewrite N1; lia) E1) HI0) as (F1 & HI1).
  exists F1. by rewrite B1, (left_id_L ∅ (∪)) in HI1.
Qed.
Lemma example_full_inv : ∃ F, pool_inv example_full F ({[(0, 1)]} ∪ {[(0, 0)]}).
Proof.
  destruct example_half_inv as [F1 HI1].
  assert (alloc_block 0 (lsize example_half 0) example_half = Some (Some 3217166592, example_full)) as E2 by by vm_compute.
  assert (block_num example_half 3217166592 (lsize example_half 0) = 1) as B2 by by vm_compute.
  assert (n_levels example_half = 3) as N2 by by vm_compute.
  destruct (pool_step_keeps _ _ _ _ F1 (step_alloc _ _ 0 _ _ ltac:(rewrite N2; lia) E2) HI1) as (F2 & HI2).
  exists F2. rewrite B2 in HI2. by rewrite (comm_L (∪)).
Qed.
Definition sc_pool (p : k_mem_pool) : kernel := set_pool 0 p two_threads.
Definition sc_pool_waiting : kernel := switched (_pend_current_thread (KPool, 0%nat) K_FOREVER (sc_pool example_full)).
Lemma sc_pool_sys_inv p : sys_inv (sc_pool p).
Proof. apply set_pool_sys_inv, two_threads_sys_inv. Qed.
Lemma sc_pool_pool p : pool (sc_pool p) 0 = p.
Proof. apply pool_set. Qed.
Lemma sc_pool_current p : current (sc_pool p) = sc_main.
Proof. by vm_compute. Qed.
Lemma sc_pool_waiting_sys_inv : sys_inv sc_pool_waiting.
Proof.
  refine (pool_wait_sys_inv 0 K_FOREVER (sc_pool example_full) (sc_pool_sys_inv _) _ (or_introl eq_refl)).
  rewrite sc_pool_current. by vm_compute.
Qed.
Lemma example_half_valid : valid example_half (0, 1).
Proof. by vm_compute. Qed.
Lemma example_half_unheld : unheld example_half {[(0, 0)]} (0, 1).
Proof. intros c y _ Hc ->%elem_of_singleton Hc'. unfold covers in *. simpl in *. congruence. Qed.
Lemma example_half_size : 100 ≤ lsize example_half 0.
Proof. by vm_compute. Qed.
Lemma k_mem_pool_alloc_outcome_witness :
  ∃ k' resume, undisturbed sc_main (k_mem_pool_alloc 2 0 100 K_FOREVER (sc_pool example_full)) = Swapped k' resume ∧
    _is_thread_pending sc_main k' = true ∧
    ∃ b k3, undisturbed sc_main (resume (sc_pool example_half)) = Done (Some (Allocated b)) k3.
Proof.
  destruct example_full_inv as (F & HI), example_half_inv as (F2 & HI2).
  assert (match undisturbed (current (sc_pool example_full)) (k_mem_pool_alloc 2 0 100 K_FOREVER (sc_pool example_full)) with Swapped _ _ => true | _ => false end = true) as Ew by by vm_compute.
  destruct (k_mem_pool_alloc_outcome 0 0 100 K_FOREVER (sc_pool example_full) F _ (sc_pool_sys_inv _) ltac:(rewrite sc_pool_pool; exact HI)) as [(x & p' & F' & E & _)|(_ & _ & Hw)].
  - rewrite E in Ew. discriminate Ew.
  - destruct Hw as (k' & r & E & _ & _ & Hp & _ & Hres); [by left|by left|by vm_compute|]. clear Ew.
    destruct (Hres (sc_pool example_half) F2 {[(0, 0)]}) as [_ Hal]; [rewrite sc_pool_pool; exact HI2|]. rewrite !sc_pool_current, sc_pool_pool in *.
    exists k', r. split; [exact E|]. split; [exact Hp|]. exact (Hal (or_introl eq_refl) (0, 1) example_half_valid example_half_unheld example_half_size).
Defined.
Lemma k_mem_pool_calls_safe_witness :
  pool_safe 0 (pool (sc_pool example_full) 0) (current (sc_pool example_full)) (λ _, True)
    (λ _ U' k', apart 0 (pool (sc_pool example_full) 0) ∅ U' k' ∧ current k' = current (sc_pool example_full)) {[(0, 1)]} (k_mem_pool_free 0 0 0 (sc_pool example_full)).
Proof.
  destruct example_full_inv as (F & HI).
  refine (proj2 (k_mem_pool_calls_safe 2 0 100 50 (0, 0) F {[(0, 1)]} (sc_pool example_full) (sc_pool_sys_inv _) _ _ _)).
  - right. rewrite sc_pool_current. clear. split; [right; by unfold INT32_MAX|]. split; [right|]; by vm_compute.
  - rewrite sc_pool_pool. exact HI.
  - by rewrite elem_of_singleton.
Defined.
Lemma k_mem_pool_free_wakes_witness :
  q sc_pool_waiting (WQ (KPool, 0%nat)) = [sc_main] ∧
  ∃ k', undisturbed (current sc_pool_waiting) (k_mem_pool_free 0 0 0 sc_pool_waiting) = undisturbed (current sc_pool_waiting) (_reschedule_threads k') ∧
    roused sc_main sc_pool_waiting k' ∧ ∃ b k2, undisturbed (current k') (pool_alloc 0 100 k') = Done (Allocated b) k2.
Proof.
  assert (q sc_pool_waiting (WQ (KPool, 0%nat)) = [sc_main]) as Hq by by vm_compute. split; [exact Hq|].
  destruct example_full_inv as (F & HI). assert (pool sc_pool_waiting 0 = example_full) as Ep by by vm_compute.
  destruct (k_mem_pool_free_wakes 0 (0, 0) F ({[(0, 1)]} ∪ {[(0, 0)]}) sc_pool_waiting sc_pool_waiting_sys_inv) as (k' & F' & E & _ & _ & _ & Hin & _ & Hal).
  - rewrite Ep. exact HI.
  - by apply elem_of_union_r, elem_of_singleton.
  - exists k'. rewrite Hq in E, Hin. split; [exact E|]. split; [apply Hin, list_elem_of_singleton; reflexivity|]. apply Hal. rewrite Ep. by vm_compute.
Defined.

(** Calls amid given interference: the functions of the list are what others do each time the call can be interrupted. *)
Fixpoint amid {A : Type} (others : list (kernel → kernel)) (out : outcome A) : outcome A :=
  match out, others with
  | Swapped k resume, f :: others => amid others (resume (f k))
  | _, _ => out
  end.
Definition idle_env : kernel → kernel := λ k, k.
(** One block of 256 bytes is free.  An interrupt takes it after [pool_alloc]
    has looked at the levels: [k_mem_pool_alloc] returns -EAGAIN although it may wait. *)
Lemma k_mem_pool_alloc_raced :
  match amid [idle_env; idle_env; set_pool 0 example_full] (k_mem_pool_alloc 1 0 200 K_FOREVER (sc_pool example_half)) with
  | Done (Some (Failed e)) _ => e = - EAGAIN
  | _ => False
  end.
Proof. by vm_compute. Qed.
(** All of the pool is held.  A block is freed after [pool_alloc] has failed and
    before the caller is on the wait queue: nobody wakes the caller, and it waits although memory for it is free. *)
Lemma k_mem_pool_alloc_misses_wakeup :
  match amid [idle_env; idle_env; λ k, after (undisturbed sc_main (k_mem_pool_free 0 0 0 k))] (k_mem_pool_alloc 1 0 200 K_FOREVER (sc_pool example_full)) with
  | Swapped k _ => q k (WQ (KPool, 0%nat)) = [sc_main] ∧ delta k (TThread sc_main) = _INACTIVE ∧
      match undisturbed (current k) (pool_alloc 0 200 k) with Done (Allocated _) _ => True | _ => False end
  | _ => False
  end.
Proof. by vm_compute. Qed.
(** The size that [k_malloc] asks for wraps around: a request for 4 GB less one
    byte gets a block of 16. *)
Lemma k_malloc_size_wraps :
  match undisturbed sc_main (k_malloc 0 4294967295 (sc_pool example_pool)) with Done ptr k' => (ptr, lsize (pool k' 0) 2) | _ => (0, 0) end = (3217166344, 16).
Proof. by vm_compute. Qed.
