(* ===== verification/WorkQ.v ===== *)
(** * Work queues (kernel/work_q.c, include/kernel.h)

    A work queue is a [k_queue] of work items and a thread that runs their
    handlers one after the other; a delayed work item is submitted by a timeout
    function.  The handlers are a parameter: [run f w] is the call of the
    function [f] on the work item at [w].  A work queue is named by its queue. *)
From stdpp Require Import gmap list.
From S2P Require Import Prelude Dlist KState Slist Ksched TimeoutQ SchedInv Outcome Sched Thread WaitQ Scenario Queue.
Local Open Scope Z_scope.
Local Open Scope outcome_scope.

Section work_q.
Context `{KConfig}.
Context (run : Z → Z → kernel → outcome unit).

Definition K_WORK_STATE_PENDING : Z := 0.
Definition K_WORK_STATE_RUNNING : Z := 1.

Definition work (k : kernel) (w : Z) : k_work := works (objs k) !!! w.
Definition upd_work (w : Z) (f : k_work → k_work) (k : kernel) : kernel :=
  set_objs (set_works (<[w := f (work k w)]> (works (objs k))) (objs k)) k.
Definition set_handler (v : option Z) (x : k_work) : k_work := mk_work v (flags x).
Definition set_flags (v : Z) (x : k_work) : k_work := mk_work (handler x) v.
(** The bit operations of atomic.h on [flags]. *)
Definition atomic_set_bit (b : Z) (x : k_work) : k_work := set_flags (Z.lor (flags x) (Z.shiftl 1 b)) x.
Definition atomic_clear_bit (b : Z) (x : k_work) : k_work := set_flags (Z.land (flags x) (Z.lnot (Z.shiftl 1 b))) x.
Definition atomic_test_bit (b : Z) (x : k_work) : bool := negb (Z.land 1 (Z.shiftr (flags x) b) =? 0).

Definition k_work_init (w : Z) (f : option Z) (k : kernel) : kernel :=
  let k := upd_work w (atomic_clear_bit K_WORK_STATE_PENDING) k in
  upd_work w (set_handler f) k.
Definition k_work_pending (w : Z) (k : kernel) : bool := atomic_test_bit K_WORK_STATE_PENDING (work k w).
Definition k_work_running (w : Z) (k : kernel) : bool := atomic_test_bit K_WORK_STATE_RUNNING (work k w).

Definition k_work_submit_to_queue (o : nat) (w : Z) (k : kernel) : outcome Z :=
  let pending := k_work_pending w k in
  let k := upd_work w (atomic_set_bit K_WORK_STATE_PENDING) k in
  if negb pending then let% _ k := k_queue_append o w k in Done 0 k
  else Done (- 1) k.

(** The body of the [while] loop of [work_q_main]; the time measurement only
    prints. *)
Definition work_q_step (o : nat) (k : kernel) : outcome unit :=
  let% w k := k_queue_get o K_FOREVER k in
  if w =? NULL then Done tt k else
  let k := upd_work w (atomic_set_bit K_WORK_STATE_RUNNING) k in
  match handler (work k w) with
  | None => Done tt k
  | Some f =>
      let pending := k_work_pending w k in
      let k := upd_work w (atomic_clear_bit K_WORK_STATE_PENDING) k in
      let% _ k := if pending then run f w k else Done tt k in
      let k := upd_work w (atomic_clear_bit K_WORK_STATE_RUNNING) k in
      k_yield k
  end.

Definition k_work_q_start (o : nat) (t : tid) (p : Z) (k : kernel) : outcome unit :=
  let k := k_queue_init o k in
  let% _ k := k_thread_create t p 0 0 k in
  Done tt k.

(** ** Delayed work *)
Definition dwork (k : kernel) (d : nat) : k_delayed_work := dworks (objs k) !!! d.
Definition set_dw_work_q (d : nat) (v : option nat) (k : kernel) : kernel :=
  set_objs (set_dworks (<[d := mk_delayed_work (dw_work (dwork k d)) v]> (dworks (objs k))) (objs k)) k.

(** A crash in an interrupt handler, which has no result to say so with. *)
Definition crash (k : kernel) : kernel := set_objs (set_crashed true (objs k)) k.
(** [work_timeout] runs in the tick interrupt, where submitting never swaps.
    If the item has no queue and is not pending, [k_queue_append] writes through
    the NULL pointer. *)
Definition work_timeout (d : nat) (k : kernel) : kernel :=
  let w := dw_work (dwork k d) in
  match dw_work_q (dwork k d) with
  | Some o => after (k_work_submit_to_queue o w k)
  | None => if k_work_pending w k then k else crash k
  end.

Definition k_delayed_work_init (d : nat) (f : option Z) (k : kernel) : kernel :=
  let k := k_work_init (dw_work (dwork k d)) f k in
  let k := _init_timeout (TWork d) FWork k in
  set_dw_work_q d None k.

Definition k_delayed_work_cancel (d : nat) (k : kernel) : Z * kernel :=
  match dw_work_q (dwork k d) with
  | None => (- EINVAL, k)
  | Some o =>
      let w := dw_work (dwork k d) in
      let '(busy, k) := if k_work_pending w k
                        then let '(found, k) := k_queue_remove o w k in (negb found, k)
                        else (false, (_abort_timeout (TWork d) k).2) in
      if busy then (- EBUSY, k)
      else
        let k := set_dw_work_q d None k in
        (0, upd_work w (atomic_clear_bit K_WORK_STATE_PENDING) k)
  end.

(** The timeout is at least one tick long, so [_add_timeout] calls no timeout
    function. *)
Definition k_delayed_work_submit_to_queue (o : nat) (d : nat) (delay : Z) (k : kernel) : outcome Z :=
  let '(attached, elsewhere) := match dw_work_q (dwork k d) with
                                | Some o' => (bool_decide (o' = o), bool_decide (o' ≠ o))
                                | None => (false, false)
                                end in
  if elsewhere then Done (- EADDRINUSE) k
  else
    let '(err, k) := if attached then k_delayed_work_cancel d k else (0, k) in
    if err <? 0 then Done err k
    else
      let k := set_dw_work_q d (Some o) k in
      if delay =? 0 then k_work_submit_to_queue o (dw_work (dwork k d)) k
      else Done 0 (_add_timeout (λ _ _ k, k) None (TWork d) None (timeout_ticks delay) k).

(** The [do] loop of [k_delayed_work_cancel_sync]; [None] when it is still
    waiting after [fuel] rounds. *)
Fixpoint cancel_sync_loop (fuel : nat) (d : nat) (timeout wait_ticks : Z) (k : kernel) : outcome (option Z) :=
  match fuel with
  | O => Done None k
  | S fuel =>
      let '(err, k) := k_delayed_work_cancel d k in
      if negb (err =? - EBUSY) && negb (k_work_running (dw_work (dwork k d)) k) then Done (Some 0) k
      else if timeout =? K_NO_WAIT then Done (Some (- EBUSY)) k
      else if negb (timeout =? K_FOREVER) && (wait_ticks <=? 0) then Done (Some (- EBUSY)) k
      else
        let% _ k := k_sleep (__ticks_to_ms 1) k in
        cancel_sync_loop fuel d timeout (wait_ticks - 1) k
  end.
Definition k_delayed_work_cancel_sync (fuel : nat) (d : nat) (timeout : Z) (k : kernel) : outcome (option Z) :=
  cancel_sync_loop fuel d timeout (if timeout >? 0 then _ms_to_ticks timeout else 0) k.
(** ** Flags *)
Lemma test_bit_testbit b x : 0 ≤ b → atomic_test_bit b x = Z.testbit (flags x) b.
Proof.
  intros Hb. unfold atomic_test_bit.
  rewrite Z.land_comm. change 1 with (Z.ones 1). rewrite Z.land_ones by done.
  change (2 ^ 1) with 2. rewrite <-Z.bit0_mod, Z.shiftr_spec, Z.add_0_l by done. by destruct (Z.testbit _ b).
Qed.
Lemma test_set_bit b b' x : 0 ≤ b → 0 ≤ b' →
  atomic_test_bit b (atomic_set_bit b' x) = atomic_test_bit b x || (b' =? b).
Proof.
  intros Hb Hb'. rewrite !test_bit_testbit by done. unfold atomic_set_bit. simpl.
  by rewrite Z.lor_spec, Z.shiftl_1_l, Z.pow2_bits_eqb.
Qed.
Lemma test_clear_bit b b' x : 0 ≤ b → 0 ≤ b' →
  atomic_test_bit b (atomic_clear_bit b' x) = atomic_test_bit b x && negb (b' =? b).
Proof.
  intros Hb Hb'. rewrite !test_bit_testbit by done. unfold atomic_clear_bit. simpl.
  by rewrite Z.land_spec, Z.lnot_spec, Z.shiftl_1_l, Z.pow2_bits_eqb.
Qed.
Lemma set_bit_id b x : 0 ≤ b → atomic_test_bit b x = true → atomic_set_bit b x = x.
Proof.
  intros Hb. rewrite test_bit_testbit by done. intros Ht. destruct x as [h f]. unfold atomic_set_bit, set_flags. simpl in *.
  f_equal. apply Z.bits_inj'. intros n Hn. rewrite Z.lor_spec, Z.shiftl_1_l, Z.pow2_bits_eqb by done.
  destruct (b =? n) eqn:E; zbool; [subst; by rewrite Ht|by rewrite orb_false_r].
Qed.

Lemma work_upd w f k w' : work (upd_work w f k) w' = if decide (w = w') then f (work k w') else work k w'.
Proof.
  unfold work at 1, upd_work. simpl. case_decide; [subst; by rewrite lookup_total_insert_eq|].
  by rewrite lookup_total_insert_ne.
Qed.
Lemma work_qframe k k' w : qframe k k' → work k' w = work k w.
Proof. intros ->. done. Qed.
Lemma work_sframe k k' w : sframe k k' → work k' w = work k w.
Proof. intros [-> _]. done. Qed.

(** ** Submission *)

(** The items of a work queue: queued once, and marked pending. *)
Definition wq_inv (o : nat) (k : kernel) (xs : list Z) : Prop :=
  items o k xs ∧ ∀ w, w ∈ xs → k_work_pending w k = true.

Lemma upd_work_sys_inv w f k : sys_inv k → sys_inv (upd_work w f k).
Proof. intros Hk. exact (sys_inv_queue _ (words k) k Hk). Qed.
Lemma pending_upd_set w k w' :
  k_work_pending w' (upd_work w (atomic_set_bit K_WORK_STATE_PENDING) k) = k_work_pending w' k || bool_decide (w = w').
Proof.
  unfold k_work_pending. rewrite work_upd. case_decide as E; [|by rewrite bool_decide_eq_false_2, orb_false_r].
  by rewrite bool_decide_eq_true_2, test_set_bit.
Qed.

(** C19: a work item is queued once however often it is submitted: submitting a
    pending item reports -1 and changes nothing; one that is not pending becomes
    pending and is added at the end of the queue or, if the queue's thread
    waits, given to it. *)
Theorem k_work_submit_once o w k xs :
  sys_inv k → wq_inv o k xs → w ≠ NULL →
  if k_work_pending w k then
    ∃ k', k_work_submit_to_queue o w k = Done (- 1) k' ∧ wq_inv o k' xs ∧ ∀ w', work k' w' = work k w'
  else match q k (WQ (KQueue, o)) with
  | [] => ∃ k', k_work_submit_to_queue o w k = Done 0 k' ∧ wq_inv o k' (xs ++ [w]) ∧ k_work_pending w k' = true
  | t :: ws => ∃ k', k_work_submit_to_queue o w k =
        (if negb (_is_in_isr k') && _must_switch_threads k' then let% _ k := _Swap k' in Done 0 k else Done 0 k') ∧
      wq_inv o k' xs ∧ k_work_pending w k' = true ∧ gets k' t w ∧ q k' (WQ (KQueue, o)) = ws
  end.
Proof.
  intros Hk [Hi Hp] Hw. unfold k_work_submit_to_queue. cbv zeta.
  set (k1 := upd_work w _ k). destruct (k_work_pending w k) eqn:Hpw.
  - exists k1. assert (∀ w', work k1 w' = work k w') as Hsame.
    { intros w'. unfold k1. rewrite work_upd. case_decide as E; [subst|done]. by apply set_bit_id. }
    split; [done|]. split; [split; [exact Hi|]|done]. intros w' Hw'. unfold k_work_pending. rewrite Hsame. by apply Hp.
  - assert (w ∉ xs) as Hnew by (intros Hin; rewrite (Hp _ Hin) in Hpw; done).
    assert (k_work_pending w k1 = true ∧ ∀ w', w' ∈ xs → k_work_pending w' k1 = true) as [Hw1 Hp1].
    { unfold k1. split; [rewrite pending_upd_set, bool_decide_eq_true_2 by done; apply orb_true_r|].
      intros w' Hw'. by rewrite pending_upd_set, Hp. }
    pose proof (upd_work_sys_inv w (atomic_set_bit K_WORK_STATE_PENDING) k Hk) as Hk1. fold k1 in Hk1.
    change (q k (WQ (KQueue, o))) with (q k1 (WQ (KQueue, o))).
    destruct (q k1 (WQ (KQueue, o))) as [|t ws] eqn:Hq; simpl negb; cbv iota.
    + destruct (append_no_waiter o w k1 xs) as (k' & -> & Hi' & Hf); [apply Hk1|done|done|done|done|].
      exists k'. unfold wq_inv, k_work_pending in *. rewrite (work_qframe _ _ w Hf). split_and!; [done|done| |done].
      intros w'. rewrite (work_qframe _ _ w' Hf), elem_of_app, list_elem_of_singleton. intros [?| ->]; auto.
    + destruct (insert_to_waiter o (sl_tail (data_q k1 o)) w k1 t ws Hk1 Hq) as (k' & E & Hf & Hq' & Hg).
      exists k'. unfold k_queue_append. rewrite E. unfold wq_inv, items, data_q, k_work_pending in *.
      rewrite (work_sframe _ _ w Hf). split_and!; [by destruct (_ && _)|by rewrite (proj1 Hf)| |done|done|done].
      intros w' Hw'. rewrite (work_sframe _ _ w' Hf). by apply Hp1.
Qed.

(** C20: the work queue thread runs the oldest item, once: it takes it off the
    queue, calls its handler with the item marked running and no longer pending
    - so that the handler can submit it again - and then clears the mark and
    yields. *)
Theorem work_q_step_runs o k w xs f :
  wq_inv o k (w :: xs) → handler (work k w) = Some f →
  ∃ k', work_q_step o k =
      (let% _ k := run f w k' in k_yield (upd_work w (atomic_clear_bit K_WORK_STATE_RUNNING) k)) ∧
    wq_inv o k' xs ∧ k_work_pending w k' = false ∧ k_work_running w k' = true ∧
    (∀ w', w' ≠ w → work k' w' = work k w').
Proof.
  intros [Hi Hp] Hf. unfold work_q_step. destruct (get_first o K_FOREVER k w xs Hi) as (k1 & -> & Hi1 & Hfr). simpl obind.
  assert (w ≠ NULL) as Hw by (by destruct (sl_chain _ _ _ Hi) as (_ & ? & _)). rewrite (proj2 (Z.eqb_neq _ _) Hw). cbv zeta.
  assert (NoDup (w :: xs)) as [Hnw _]%NoDup_cons by apply Hi.
  rewrite work_upd, decide_True, (work_qframe _ _ w Hfr) by done. simpl handler. rewrite Hf.
  set (k2 := upd_work w (atomic_set_bit _) k1). set (k3 := upd_work w (atomic_clear_bit _) k2).
  assert (∀ w', w' ≠ w → work k3 w' = work k w') as Hsame.
  { intros w' Hw'. unfold k3, k2. rewrite !work_upd, !decide_False by done. by apply work_qframe. }
  assert (work k3 w = atomic_clear_bit K_WORK_STATE_PENDING (atomic_set_bit K_WORK_STATE_RUNNING (work k w))) as Ew.
  { unfold k3, k2. rewrite !work_upd, !decide_True, (work_qframe _ _ w Hfr) by done. done. }
  exists k3. unfold wq_inv, k_work_pending, k_work_running in *.
  assert (k_work_pending w k2 = true) as Hp2.
  { unfold k_work_pending, k2. rewrite work_upd, decide_True, (work_qframe _ _ w Hfr), test_set_bit by done.
    rewrite Hp by mem. done. }
  unfold k_work_pending in Hp2. rewrite Hp2. split_and!; [done|done| | | |done].
  - intros w' Hw'. rewrite Hsame; [apply Hp; mem|]. by intros ->.
  - by rewrite Ew, test_clear_bit, andb_false_r by done.
  - rewrite Ew, test_clear_bit, test_set_bit by done. by rewrite orb_true_r.
Qed.

(** ** Delayed work *)

(** A delayed work item without a queue is neither counting down nor pending,
    and one that is pending is not counting down. *)
Definition dw_ok (d : nat) (k : kernel) : Prop :=
  (dw_work_q (dwork k d) = None → delta k (TWork d) = _INACTIVE ∧ k_work_pending (dw_work (dwork k d)) k = false) ∧
  (k_work_pending (dw_work (dwork k d)) k = true → delta k (TWork d) = _INACTIVE).

Lemma dwork_set d v k : dwork (set_dw_work_q d v k) d = mk_delayed_work (dw_work (dwork k d)) v.
Proof. unfold dwork at 1, set_dw_work_q. simpl. by rewrite lookup_total_insert_eq. Qed.
Lemma dwork_upd w f k d : dwork (upd_work w f k) d = dwork k d.
Proof. done. Qed.
Lemma dwork_qframe k k' d : qframe k k' → dwork k' d = dwork k d.
Proof. intros ->. done. Qed.
Lemma sys_inv_qframe k k' : qframe k k' → sys_inv k → sys_inv k'.
Proof. intros -> Hk. by apply sys_inv_queue. Qed.
Lemma sys_inv_abort_other i k :
  (∀ t, i ≠ TThread t) → sys_inv k → sys_inv (_abort_timeout i k).2.
Proof.
  intros Hi [Hk Hc Hn Hh Hp]. destruct (kinv_abort_timeout ∅ [] k i Hk) as [Hk' _]; [apply not_elem_of_nil|by intros t ->; destruct (Hi t)|].
  pose proof (sframe_abort i k) as Hf. pose proof (abort_timeout_threads i k) as Et.
  pose proof (abort_timeout_spec i [] k (inv_tq _ _ _ Hk) (not_elem_of_nil _)) as Hab.
  destruct (_abort_timeout i k) as [r k']. destruct Hab as (_ & _ & _ & _ & Hfr & Hs & _). simpl in *. split; [done| | | |].
  - rewrite (sframe_current _ _ Hf). apply (runnable_ext _ k); [by rewrite Et|unfold thr; by rewrite Et| |done].
    apply same_timeout_inactive, Hs. done.
  - by rewrite (sframe_nested _ _ Hf).
  - by rewrite (sframe_handling _ _ Hf).
  - rewrite Hfr. exact Hp.
Qed.

(** The state in which a cancelled item is detached from its queue. *)
Lemma detach_spec d k xs o :
  let w := dw_work (dwork k d) in
  let k' := upd_work w (atomic_clear_bit K_WORK_STATE_PENDING) (set_dw_work_q d None k) in
  items o k (without w xs) → (∀ w', w' ∈ xs → k_work_pending w' k = true) →
  wq_inv o k' (without w xs) ∧ dwork k' d = mk_delayed_work w None ∧ k_work_pending w k' = false.
Proof.
  intros w k' Hi Hp. assert (∀ w', k_work_pending w' k' = k_work_pending w' k && negb (bool_decide (w = w'))) as Hpe.
  { intros w'. unfold k', k_work_pending. rewrite work_upd. change (work (set_dw_work_q d None k)) with (work k).
    case_decide as E; [|by rewrite bool_decide_eq_false_2, andb_true_r].
    rewrite test_clear_bit by done. by rewrite bool_decide_eq_true_2, !andb_false_r. }
  split_and!.
  - split; [exact Hi|]. intros w' [Hne Hw']%elem_of_without. rewrite Hpe, Hp by done.
    rewrite bool_decide_eq_false_2; done.
  - exact (dwork_set d None k).
  - rewrite Hpe, bool_decide_eq_true_2 by done. by rewrite andb_false_r.
Qed.

(** Cancelling an attached item: it fails only while the item is pending and
    already off its queue, about to run. *)
Lemma cancel_attached d k o xs :
  sys_inv k → dw_ok d k → dw_work_q (dwork k d) = Some o → wq_inv o k xs →
  let w := dw_work (dwork k d) in
  if k_work_pending w k && negb (bool_decide (w ∈ xs)) then
    ∃ k', k_delayed_work_cancel d k = (- EBUSY, k') ∧ wq_inv o k' xs ∧ deadlines k' = deadlines k ∧ qframe k k'
  else
    ∃ k', k_delayed_work_cancel d k = (0, k') ∧ dwork k' d = mk_delayed_work w None ∧
      k_work_pending w k' = false ∧ wq_inv o k' (without w xs) ∧
      deadlines k' = filter (λ p, p.1 ≠ TWork d) (deadlines k) ∧ delta k' (TWork d) = _INACTIVE ∧ sys_inv k'.
Proof.
  intros Hk Hdw Ho [Hi Hp] w. unfold k_delayed_work_cancel. rewrite Ho. cbv zeta. fold w.
  pose proof (abort_timeout_spec (TWork d) [] k (inv_tq _ _ _ (sys_kinv _ Hk)) (not_elem_of_nil _)) as Hab.
  pose proof (sys_inv_abort_other (TWork d) k ltac:(done) Hk) as Hka.
  destruct (k_work_pending w k) eqn:Hpw; simpl andb.
  - destruct (remove_item o w k xs Hi) as (k1 & -> & Hi1 & Hf).
    assert (∀ w', work k1 w' = work k w') as Hsame by (intros; by apply work_qframe).
    assert (deadlines k1 = deadlines k ∧ delta k1 (TWork d) = delta k (TWork d)) as [Hd Hde] by by rewrite Hf.
    assert (delta k (TWork d) = _INACTIVE) as Hina by (by apply (proj2 Hdw)).
    destruct (bool_decide (w ∈ xs)) eqn:Hin; simpl negb; cbv iota.
    + eexists. split; [done|]. pose proof (dwork_qframe _ _ d Hf) as Ed.
      destruct (detach_spec d k1 xs o) as (Hw & Hdd & Hpd); [by rewrite Ed|intros w' Hw'; unfold k_work_pending; rewrite Hsame; by apply Hp|].
      rewrite Ed in *. fold w in Hw, Hdd, Hpd. split_and!; [done|done|done| |by rewrite <-Hina, <-Hde|].
      * change (deadlines k1 = filter (λ p, p.1 ≠ TWork d) (deadlines k)). rewrite Hd.
        unfold _abort_timeout in Hab. rewrite (proj2 (Z.eqb_eq _ _) Hina) in Hab. apply Hab.
      * apply upd_work_sys_inv. exact (sys_inv_queue _ _ _ (sys_inv_qframe _ _ Hf Hk)).
    + apply bool_decide_eq_false in Hin. exists k1. split; [done|]. split; [|done].
      split; [by rewrite without_notin in Hi1|]. intros w' Hw'. unfold k_work_pending. rewrite Hsame. by apply Hp.
  - pose proof (abort_timeout_threads (TWork d) k) as Et.
    destruct (_abort_timeout (TWork d) k) as [r k1]. destruct Hab as (_ & Htq & _ & Hdl & Hfr & _ & Hde). simpl in *.
    assert (objs k1 = objs k ∧ words k1 = words k) as [Eo Ew] by by rewrite Hfr.
    assert (w ∉ xs) as Hnw by (intros Hin; by rewrite Hp in Hpw).
    assert (dwork k1 d = dwork k d) as Ed by (unfold dwork; by rewrite Eo).
    eexists. split; [done|].
    destruct (detach_spec d k1 xs o) as (Hw & Hdd & Hpd).
    + rewrite Ed. fold w. rewrite without_notin by done. unfold items, data_q. by rewrite Eo, Ew.
    + intros w' Hw'. unfold k_work_pending, work. rewrite Eo. by apply Hp.
    + rewrite Ed in *. fold w in Hw, Hdd, Hpd. split_and!; [done|done|done|exact Hdl|exact Hde|].
      apply upd_work_sys_inv. exact (sys_inv_queue _ _ _ Hka).
Qed.
(** Cancelling a delayed work item: one that is not attached to a queue is
    an error; one that is counting down or waiting in its queue leaves the
    timeout queue and the work queue, with everything else on them unchanged,
    and is detached; only the one its queue's thread has already taken and not
    yet started is busy. *)
Theorem k_delayed_work_cancel_detaches d k o xs :
  sys_inv k → dw_ok d k → wq_inv o k xs →
  let w := dw_work (dwork k d) in
  (dw_work_q (dwork k d) = None → k_delayed_work_cancel d k = (- EINVAL, k)) ∧
  (dw_work_q (dwork k d) = Some o →
    if k_work_pending w k && negb (bool_decide (w ∈ xs)) then
      ∃ k', k_delayed_work_cancel d k = (- EBUSY, k') ∧ wq_inv o k' xs ∧ deadlines k' = deadlines k
    else
      ∃ k', k_delayed_work_cancel d k = (0, k') ∧ dw_work_q (dwork k' d) = None ∧ dw_ok d k' ∧
        wq_inv o k' (without w xs) ∧ deadlines k' = filter (λ p, p.1 ≠ TWork d) (deadlines k)).
Proof.
  intros Hk Hdw Hi w. split.
  - intros E. unfold k_delayed_work_cancel. by rewrite E.
  - intros Ho. pose proof (cancel_attached d k o xs Hk Hdw Ho Hi) as Hc. cbv zeta in Hc. fold w in Hc.
    destruct (_ && _).
    + destruct Hc as (k' & E & ? & ? & _). by exists k'.
    + destruct Hc as (k' & E & Ed & Hp & ? & ? & Hina & _). exists k'. unfold dw_ok. rewrite Ed. simpl dw_work. by rewrite Hp.
Qed.

(** The first half of a submission undoes an earlier one, if there is any. *)
Lemma undo_submission o d k xs :
  sys_inv k → dw_ok d k → wq_inv o k xs → from_option (λ o', o' = o) True (dw_work_q (dwork k d)) →
  let w := dw_work (dwork k d) in
  ∃ err k1, (if bool_decide (dw_work_q (dwork k d) = Some o) then k_delayed_work_cancel d k else (0, k)) = (err, k1) ∧
    if k_work_pending w k && negb (bool_decide (w ∈ xs)) then
      err = - EBUSY ∧ wq_inv o k1 xs ∧ deadlines k1 = deadlines k
    else err = 0 ∧ dw_work (dwork k1 d) = w ∧ k_work_pending w k1 = false ∧ wq_inv o k1 (without w xs) ∧
      deadlines k1 = filter (λ p, p.1 ≠ TWork d) (deadlines k) ∧ delta k1 (TWork d) = _INACTIVE ∧ sys_inv k1.
Proof.
  intros Hk Hdw Hi Ho w. pose proof (cancel_attached d k o xs Hk Hdw) as Hc. fold w in Hc.
  destruct (dw_work_q (dwork k d)) as [o'|] eqn:Eo; simpl in Ho.
  - subst. specialize (Hc eq_refl Hi). rewrite bool_decide_eq_true_2 by done. cbv zeta in Hc.
    destruct (_ && _).
    + destruct Hc as (k' & -> & Hx & ? & _). by eexists _, k'.
    + destruct Hc as (k' & -> & Ed & Hp & Hx & ? & ? & ?). eexists _, k'. split; [done|]. by rewrite Ed.
  - destruct (proj1 Hdw Eo) as [Hina Hp]. exists 0, k. rewrite bool_decide_eq_false_2 by done. fold w in Hp. rewrite Hp. simpl.
    assert (w ∉ xs) as Hnw by (intros Hx; destruct Hi as [_ Hi]; by rewrite Hi in Hp).
    rewrite without_notin by done. split_and!; try done. symmetry. apply filter_all. intros p Hx%expiries_mem Ep.
    rewrite Ep in Hx. apply (tq_mem _ _ (inv_tq _ _ _ (sys_kinv _ Hk))) in Hx. by rewrite Hina in Hx.
Qed.

(** Submitting a delayed work item (re)starts its countdown: unless the item
    is attached to another queue, or about to run, an earlier submission is
    undone - its countdown or its place in the queue - and the item is due after
    the new delay, all other countdowns unchanged. *)
Theorem k_delayed_work_submit_restarts o d delay k xs :
  sys_inv k → dw_ok d k → wq_inv o k xs → delay ≠ 0 → 0 < timeout_ticks delay →
  let w := dw_work (dwork k d) in
  let n := timeout_ticks delay in
  (∀ o', dw_work_q (dwork k d) = Some o' → o' ≠ o →
    k_delayed_work_submit_to_queue o d delay k = Done (- EADDRINUSE) k) ∧
  (from_option (λ o', o' = o) True (dw_work_q (dwork k d)) →
    if k_work_pending w k && negb (bool_decide (w ∈ xs)) then
      ∃ k', k_delayed_work_submit_to_queue o d delay k = Done (- EBUSY) k' ∧ wq_inv o k' xs ∧
        deadlines k' = deadlines k
    else
      ∃ k', k_delayed_work_submit_to_queue o d delay k = Done 0 k' ∧ dw_work_q (dwork k' d) = Some o ∧ dw_ok d k' ∧
        wq_inv o k' (without w xs) ∧
        deadlines k' = insert_where (λ p, n <=? p.2) (TWork d, n) (filter (λ p, p.1 ≠ TWork d) (deadlines k))).
Proof.
  intros Hk Hdw Hi Hdl Hn w n. unfold k_delayed_work_submit_to_queue. split.
  { intros o' -> Hne. by rewrite !bool_decide_eq_true_2 by done. }
  intros Ho. destruct (undo_submission o d k xs Hk Hdw Hi Ho) as (err & k1 & E & Hc). fold w in Hc.
  assert ((match dw_work_q (dwork k d) with Some o' => (bool_decide (o' = o), bool_decide (o' ≠ o)) | None => (false, false) end) =
    (bool_decide (dw_work_q (dwork k d) = Some o), false)) as ->.
  { destruct (dw_work_q (dwork k d)) as [o'|]; simpl in Ho; [|done]. subst.
    rewrite (bool_decide_eq_false_2 (o ≠ o)) by (by intros []). by rewrite !bool_decide_eq_true_2. }
  cbv iota beta. rewrite E. destruct (_ && _).
  - destruct Hc as (-> & ? & ?). exists k1. done.
  - destruct Hc as (-> & Ew & Hp & Hw & Hd & Hina & Hk1). change (0 <? 0) with false. cbv zeta iota.
    rewrite (proj2 (Z.eqb_neq _ _) Hdl). set (k2 := set_dw_work_q d (Some o) k1).
    destruct (add_timeout_spec (λ _ _ k, k) None (TWork d) None n [] k2) as (_ & _ & Hd2 & Hfr & _).
    + by eapply tq_inv_frame; [apply (inv_tq _ _ _ (sys_kinv _ Hk1))|..].
    + exact Hina.
    + unfold n. pose proof (timeout_ticks_max delay). lia.
    + eexists. split; [done|]. set (k3 := _add_timeout _ _ _ _ _ _) in *. clearbody k3.
      assert (objs k3 = objs k2 ∧ words k3 = words k1) as [Eo Ewo] by by rewrite Hfr.
      assert (dwork k3 d = mk_delayed_work w (Some o)) as Ed3.
      { unfold dwork. rewrite Eo. fold (dwork k2 d). unfold k2. by rewrite dwork_set, Ew. }
      assert (∀ w', k_work_pending w' k3 = k_work_pending w' k1) as Hpe.
      { intros w'. unfold k_work_pending, work. by rewrite Eo. }
      split_and!; [by rewrite Ed3|unfold dw_ok; rewrite Ed3; simpl dw_work; by rewrite Hpe, Hp| |rewrite Hd2; unfold deadlines in *; by rewrite <-Hd].
      destruct Hw as [Hit Hall]. split; [unfold items, data_q; by rewrite Eo, Ewo|]. intros w' Hw'. by rewrite Hpe, Hall.
Qed.

(** The code never detaches a delayed work item that has run: cancelling it
    then reports success, where the interface documents -EINVAL, and it cannot
    be submitted to another queue. *)
Theorem delayed_work_stays_attached d k o o' delay :
  dw_work_q (dwork k d) = Some o → o' ≠ o → k_work_pending (dw_work (dwork k d)) k = false →
  delta k (TWork d) = _INACTIVE →
  (k_delayed_work_cancel d k).1 = 0 ∧ k_delayed_work_submit_to_queue o' d delay k = Done (- EADDRINUSE) k.
Proof.
  intros Ho Hne Hp Hina. unfold k_delayed_work_cancel, k_delayed_work_submit_to_queue. rewrite Ho, Hp. split; [done|].
  by rewrite (bool_decide_eq_false_2 (o = o')), (bool_decide_eq_true_2 (o ≠ o')) by congruence.
Qed.

(** An item without a handler is never finished: the work queue thread
    leaves it marked running and pending, so that every later submission of it
    is refused. *)
Theorem work_without_handler_sticks o k w xs :
  wq_inv o k (w :: xs) → handler (work k w) = None →
  ∃ k', work_q_step o k = Done tt k' ∧ k_work_running w k' = true ∧
    ∀ o', ∃ k'', k_work_submit_to_queue o' w k' = Done (- 1) k''.
Proof.
  intros [Hi Hp] Hf. unfold work_q_step. destruct (get_first o K_FOREVER k w xs Hi) as (k1 & -> & Hi1 & Hfr). simpl obind.
  assert (w ≠ NULL) as Hw by (by destruct (sl_chain _ _ _ Hi) as (_ & ? & _)). rewrite (proj2 (Z.eqb_neq _ _) Hw). cbv zeta.
  rewrite work_upd, decide_True, (work_qframe _ _ w Hfr) by done. simpl handler. rewrite Hf.
  eexists. split; [done|]. unfold k_work_running, k_work_submit_to_queue, k_work_pending.
  rewrite !work_upd, !decide_True, !(work_qframe _ _ w Hfr), !test_set_bit by done. split; [apply orb_true_r|].
  intros o'. eexists. unfold k_work_pending in Hp. rewrite Hp by mem. done.
Qed.

(** ** Submission by a timeout function *)
(** What the kernel keeps about work items does not depend on them, and leaves
    no timeout of a delayed work item armed whose expiry would crash. *)
Class WorkFree (J : kernel → Prop) : Prop := {
  work_free : ∀ k v, J k → J (set_objs (set_works v (objs k)) k);
  work_crash : ∀ k0 k d, J k0 → armed k0 d → objs k = objs k0 → dw_work_q (dwork k d) = None → J k → J (crash k);
}.

Lemma work_submit_isr (J : kernel → Prop) `{!QueueFree J, !WorkFree J} E o w k :
  (∀ k k', same_objects k k' → J k → J k') → kinv ∅ E k → J k → runnable ∅ k (current k) → nested k ≠ 0 →
  ∃ r k', k_work_submit_to_queue o w k = Done r k' ∧ isr_kept J E k k'.
Proof.
  intros HJ Hk Hj Hc Hn. unfold k_work_submit_to_queue. cbv zeta. set (k1 := upd_work w _ k).
  assert (isr_kept J E k k1) as Hk1.
  { split_and!; [by eapply kinv_frame; try apply Hk|exact (work_free k _ Hj)|done..]. }
  destruct (negb _); [|by exists (- 1), k1].
  destruct (queue_insert_isr J E o (sl_tail (data_q k1 o)) w k1) as (k2 & E2 & Hk2); [done|apply Hk1|apply Hk1|apply Hk1|done|].
  unfold k_queue_append. rewrite E2. exists 0, k2. split; [done|]. exact (isr_kept_trans J E k k1 k2 Hk1 Hk2).
Qed.
Lemma work_timeout_isr (J : kernel → Prop) `{!QueueFree J, !WorkFree J} E d k :
  (∀ k k', same_objects k k' → J k → J k') → kinv ∅ E k → J k → runnable ∅ k (current k) → nested k ≠ 0 →
  (∃ k0, J k0 ∧ armed k0 d ∧ objs k = objs k0) → isr_kept J E k (work_timeout d k).
Proof.
  intros HJ Hk Hj Hc Hn (k0 & HJ0 & Ha & Eo). unfold work_timeout. cbv zeta. destruct (dw_work_q _) as [o|] eqn:Eq.
  2: { destruct (k_work_pending _ k); [done|]. split_and!; [by eapply kinv_frame; try apply Hk|by eapply work_crash|done..]. }
  destruct (work_submit_isr J E o (dw_work (dwork k d)) k) as (r & k' & -> & Hk'); done.
Qed.


End work_q.

(** ** The properties at work *)

(** A work queue with the items at 100, which has a handler, and 200, which has
    none and belongs to the delayed work item 0. *)
Notation sc_work := (set_objs (mk_objects (<[0%nat := mk_slist 100 200]> ∅)
  (<[100 := mk_work (Some 7) 1]> (<[200 := mk_work None 1]> ∅)) (<[0%nat := mk_delayed_work 200 (Some 0%nat)]> ∅) ∅ ∅ false)
  (set_words sl_example two_threads)).
Notation sc_run := (λ _ _ k, Done tt k).

Lemma sc_work_sys_inv : sys_inv sc_work.
Proof. apply sys_inv_queue, two_threads_sys_inv. Qed.
Lemma sc_work_inv : wq_inv 0 sc_work [100; 200].
Proof.
  split; [exact sl_example_ok|]. intros w Hw. apply (Forall_forall (λ w, k_work_pending w sc_work = true) [100; 200]); [|done].
  apply (bool_decide_unpack _). by vm_compute.
Qed.
Lemma sc_work_dw_ok : dw_ok 0 sc_work.
Proof. split; by vm_compute. Qed.

Lemma k_work_submit_once_witness :
  ∃ k', k_work_submit_to_queue 0 300 sc_work = Done 0 k' ∧ wq_inv 0 k' [100; 200; 300].
Proof.
  pose proof (k_work_submit_once 0 300 sc_work [100; 200] sc_work_sys_inv sc_work_inv ltac:(done)) as Hs.
  assert (k_work_pending 300 sc_work = false) as Hp by by vm_compute.
  assert (q sc_work (WQ (KQueue, 0%nat)) = []) as Hq by by vm_compute.
  rewrite Hp, Hq in Hs. destruct Hs as (k' & E & Hi & _). exists k'. exact (conj E Hi).
Defined.

Lemma work_q_step_runs_witness :
  ∃ k', work_q_step sc_run 0 sc_work =
      k_yield (upd_work 100 (atomic_clear_bit K_WORK_STATE_RUNNING) k') ∧ k_work_running 100 k' = true.
Proof.
  destruct (work_q_step_runs sc_run 0 sc_work 100 [200] 7 sc_work_inv) as (k' & E & _ & _ & Hr & _); [by vm_compute|].
  exists k'. exact (conj E Hr).
Defined.

Lemma k_delayed_work_cancel_detaches_witness :
  ∃ k', k_delayed_work_cancel 0 sc_work = (0, k') ∧ wq_inv 0 k' [100].
Proof.
  destruct (k_delayed_work_cancel_detaches 0 sc_work 0 [100; 200] sc_work_sys_inv sc_work_dw_ok sc_work_inv) as [_ Hc].
  specialize (Hc ltac:(by vm_compute)).
  assert (dw_work (dwork sc_work 0) = 200) as Ew by by vm_compute. rewrite Ew in Hc.
  assert (k_work_pending 200 sc_work && negb (bool_decide (200 ∈ [100; 200])) = false) as Hb by by vm_compute.
  rewrite Hb in Hc. destruct Hc as (k' & E & _ & _ & Hi & _). exists k'. exact (conj E Hi).
Defined.

Lemma k_delayed_work_submit_restarts_witness :
  ∃ k', k_delayed_work_submit_to_queue 0 0 10 sc_work = Done 0 k' ∧ wq_inv 0 k' [100] ∧ deadlines k' = [(TWork 0, 6)].
Proof.
  destruct (k_delayed_work_submit_restarts 0 0 10 sc_work [100; 200] sc_work_sys_inv sc_work_dw_ok sc_work_inv) as [_ Hc];
    [done|by vm_compute|].
  specialize (Hc ltac:(by vm_compute)).
  assert (dw_work (dwork sc_work 0) = 200) as Ew by by vm_compute. rewrite Ew in Hc.
  assert (k_work_pending 200 sc_work && negb (bool_decide (200 ∈ [100; 200])) = false) as Hb by by vm_compute.
  rewrite Hb in Hc. destruct Hc as (k' & E & _ & _ & Hi & Hd). exists k'. split; [exact E|]. split; [exact Hi|].
  rewrite Hd. by vm_compute.
Defined.

Lemma delayed_work_stays_attached_witness :
  k_delayed_work_submit_to_queue 1 0 10 (upd_work 200 (set_flags 0) sc_work) =
    Done (- EADDRINUSE) (upd_work 200 (set_flags 0) sc_work).
Proof.
  apply (delayed_work_stays_attached 0 (upd_work 200 (set_flags 0) sc_work) 0 1 10); [by vm_compute|done|by vm_compute..].
Defined.

Lemma work_without_handler_sticks_witness :
  ∃ k', work_q_step sc_run 0 (after (k_queue_get 0 K_FOREVER sc_work)) = Done tt k' ∧ k_work_running 200 k' = true.
Proof.
  destruct (work_without_handler_sticks sc_run 0 (after (k_queue_get 0 K_FOREVER sc_work)) 200 []) as (k' & E & Hr & _).
  - destruct (get_first 0 K_FOREVER sc_work 100 [200] (proj1 sc_work_inv)) as (k' & E & Hi & Hf). rewrite E. simpl after.
    split; [exact Hi|]. intros w Hw%list_elem_of_singleton. subst w. unfold k_work_pending.
    rewrite (work_qframe _ _ 200 Hf). by vm_compute.
  - by vm_compute.
  - exists k'. exact (conj E Hr).
Defined.
