(* ===== verification/Timer.v ===== *)
(** * Timers (kernel/timer.c)

    A timer is a timeout whose function, [_timer_expiration_handler], counts
    the expiry, runs the user's expiry function, wakes the thread that waits in
    [k_timer_status_sync], and queues a periodic timer again.  The user's
    functions are parameters: the expiry function runs in the tick interrupt,
    the stop function in the thread that calls [k_timer_stop]. *)
From stdpp Require Import gmap.
From S2P Require Import Prelude Dlist KState Slist Ksched TimeoutQ SchedInv Outcome Sched Thread WaitQ Scenario Queue WorkQ.
Local Open Scope Z_scope.
Local Open Scope outcome_scope.

Section timer_c.
Context `{KConfig}.
Context (expiry : Z → nat → kernel → kernel).

Definition timer (k : kernel) (o : nat) : k_timer := timers k !!! o.
Definition upd_timer (o : nat) (f : k_timer → k_timer) (k : kernel) : kernel :=
  set_timers (<[o := f (timer k o)]> (timers k)) k.

(** The period is not 0 here, so [_add_timeout] calls no timeout function. *)
Definition _timer_expiration_handler (o : nat) (k : kernel) : kernel :=
  let k := if period (timer k o) >? 0
           then _add_timeout (λ _ _ k, k) None (TTimer o) (Some (KTimer, o)) (period (timer k o)) k
           else k in
  let k := upd_timer o (λ x, set_status (u32 (status x + 1)) x) k in
  let k := match expiry_fn (timer k o) with
           | Some f => expiry f o k
           | None => k
           end in
  match head (q k (WQ (KTimer, o))) with
  | None => k
  | Some t =>
      let k := _unpend_thread t k in
      let k := _ready_thread t k in
      _set_thread_return_value t 0 k
  end.

(** The functions the kernel installs in timeouts. *)
Definition timeout_function : timeout_call := λ f i k,
  match f, i with
  | FTimer, TTimer o => _timer_expiration_handler o k
  | FWork, TWork d => work_timeout d k
  | _, _ => k
  end.

Definition k_timer_init (o : nat) (exp stp : option Z) (k : kernel) : kernel :=
  let k := upd_timer o (set_expiry_fn exp) k in
  let k := upd_timer o (set_stop_fn stp) k in
  let k := upd_timer o (set_status 0) k in
  let k := set_queues (<[WQ (KTimer, o) := []]> (queues k)) k in
  _init_timeout (TTimer o) FTimer k.

Definition k_timer_start (o : nat) (duration per : Z) (k : kernel) : kernel :=
  let period_in_ticks := _ms_to_ticks per in
  let duration_in_ticks := _ms_to_ticks duration in
  let k := if delta k (TTimer o) =? _INACTIVE then k else (_abort_timeout (TTimer o) k).2 in
  let k := upd_timer o (set_period period_in_ticks) k in
  let k := upd_timer o (set_status 0) k in
  _add_timeout timeout_function None (TTimer o) (Some (KTimer, o)) duration_in_ticks k.

Definition k_timer_stop (stop : Z → nat → kernel → outcome unit) (o : nat) (k : kernel) : outcome unit :=
  let '(r, k) := _abort_timeout (TTimer o) k in
  if r =? _INACTIVE then Done tt k else
  let% _ k := match stop_fn (timer k o) with
              | Some f => stop f o k
              | None => Done tt k
              end in
  let '(pending_thread, k) := _unpend_first_thread (KTimer, o) k in
  let k := match pending_thread with
           | Some t => _ready_thread t k
           | None => k
           end in
  if _is_in_isr k then Done tt k else _reschedule_threads k.

Definition k_timer_status_get (o : nat) (k : kernel) : Z * kernel :=
  (status (timer k o), upd_timer o (set_status 0) k).

Definition k_timer_status_sync (o : nat) (k : kernel) : outcome Z :=
  let result := status (timer k o) in
  if (result =? 0) && negb (delta k (TTimer o) =? _INACTIVE) then
    let k := _pend_current_thread (KTimer, o) K_FOREVER k in
    let% _ k := _Swap k in
    let result := status (timer k o) in
    Done result (upd_timer o (set_status 0) k)
  else Done result (upd_timer o (set_status 0) k).

(** The [while] loop of [_timeout_remaining_get], from the node after [t] on;
    it dereferences NULL when the list ends first. *)
Fixpoint remaining_loop (i t : timeout_id) (nodes : list timeout_id) (sum : Z) (k : kernel) : option Z :=
  if decide (t = i) then Some sum else
  match nodes with
  | [] => None
  | n :: nodes => remaining_loop i n nodes (s32 (sum + delta k n)) k
  end.
Definition _timeout_remaining_get (i : timeout_id) (k : kernel) : outcome Z :=
  if delta k i =? _INACTIVE then Done (__ticks_to_ms 0) k else
  match timeout_q k with
  | [] => Done (__ticks_to_ms 0) k
  | t :: nodes =>
      match remaining_loop i t nodes (delta k t) k with
      | Some remaining_ticks => Done (__ticks_to_ms remaining_ticks) k
      | None => Fault
      end
  end.

(** ** Waking the waiting thread *)
Lemma abort_inactive i k : delta k i = _INACTIVE → _abort_timeout i k = (_INACTIVE, k).
Proof. intros Hd. unfold _abort_timeout. by rewrite (proj2 (Z.eqb_eq _ _) Hd). Qed.

(** A thread waiting for a timer has no timeout of its own. *)
Lemma timer_waiter E o t k :
  kinv ∅ E k → t ∈ q k (WQ (KTimer, o)) → unpended E t (_unpend_thread t k) ∧ delta (_unpend_thread t k) (TThread t) = _INACTIVE.
Proof.
  intros Hk Hin. pose proof (inv_forever _ _ _ Hk t o (not_elem_of_empty _) Hin) as Hd. split; [|exact Hd].
  apply (unpend_waiter E (KTimer, o)); [done|done|]. rewrite (tq_exp _ _ (inv_tq _ _ _ Hk)), Hd. done.
Qed.
Lemma timer_wake E o t k :
  kinv ∅ E k → t ∈ q k (WQ (KTimer, o)) →
  woken E t (set_return_value 0) (_unpend_thread t k)
    (_set_thread_return_value t 0 (_ready_thread t (_unpend_thread t k))).
Proof.
  intros Hk Hin. destruct (timer_waiter E o t k Hk Hin) as [Hup Hd].
  destruct (wake_ex E t _ Hup) as (k' & -> & Hw). unfold _abort_thread_timeout in Hw. by rewrite abort_inactive in Hw.
Qed.

(** ** Safety within the system *)
Class TimerInv (J : kernel → Prop) := {
  timer_inv_get : ∀ k o, J k → period (timer k o) ≤ INT32_MAX;
  timer_inv_set : ∀ k o x, J k → period x ≤ INT32_MAX → J (set_timers (<[o := x]> (timers k)) k);
}.

Section safe.
Context (J : kernel → Prop) (F : Prop) `{!TimerInv J, !QueueFree J, !WorkFree J}.
Hypothesis J_objects : ∀ k k', same_objects k k' → J k → J k'.
(** The expiry functions may do what interrupt handlers may do. *)
Hypothesis expiry_safe : ∀ f o E k, kinv ∅ E k → J k → runnable ∅ k (current k) → nested k ≠ 0 →
  isr_kept J E k (expiry f o k).

Lemma upd_timer_kinv E o f k : kinv ∅ E k → kinv ∅ E (upd_timer o f k).
Proof. intros Hk. by eapply kinv_frame; try apply Hk. Qed.
Lemma upd_timer_J o f k : J k → period (f (timer k o)) ≤ INT32_MAX → J (upd_timer o f k).
Proof. apply timer_inv_set. Qed.

Lemma arm_isr E o call n k :
  kinv ∅ E k → J k → runnable ∅ k (current k) → delta k (TTimer o) = _INACTIVE → 0 < n ≤ INT32_MAX →
  isr_kept J E k (_add_timeout call None (TTimer o) (Some (KTimer, o)) n k).
Proof.
  intros Hk HJ Hc Hd Hn. pose proof (kinv_add_other_timeout ∅ E k call (TTimer o) (Some (KTimer, o)) n Hk ltac:(done) Hd Hn) as Hk'.
  destruct (add_timeout_spec call None (TTimer o) (Some (KTimer, o)) n E k (inv_tq _ _ _ Hk) Hd Hn)
    as (_ & _ & _ & Hfr & Hs & _).
  assert (sframe k (_add_timeout call None (TTimer o) (Some (KTimer, o)) n k)) as Hsf by (apply sframe_add_timeout; [done|lia]).
  set (k' := _add_timeout _ _ _ _ _ _) in *. clearbody k'.
  split_and!; [done| |by rewrite Hfr..|].
  - eapply J_objects; [by apply sframe_objects|done].
  - apply (runnable_ext _ k); [by rewrite Hfr|unfold thr; by rewrite Hfr|apply same_timeout_inactive, Hs; done|done].
Qed.

Lemma timer_handler_isr E o k :
  kinv ∅ E k → J k → runnable ∅ k (current k) → nested k ≠ 0 → delta k (TTimer o) = _INACTIVE →
  isr_kept J E k (_timer_expiration_handler o k).
Proof.
  intros Hk HJ Hc Hn Hd. unfold _timer_expiration_handler. cbv zeta.
  set (k1 := if _ >? 0 then _ else _).
  assert (isr_kept J E k k1) as H1.
  { unfold k1. destruct (period (timer k o) >? 0) eqn:Ep; [|done]. apply arm_isr; [done..|].
    apply Z.gtb_lt in Ep. split; [done|by apply timer_inv_get]. }
  set (k2 := upd_timer o _ k1).
  assert (isr_kept J E k k2) as H2.
  { destruct H1 as (? & HJ1 & ? & ? & ? & ?). split_and!; [by apply upd_timer_kinv| |done..].
    apply upd_timer_J; [done|]. by apply (timer_inv_get k1 o). }
  set (k3 := match expiry_fn _ with Some _ => _ | None => _ end).
  assert (isr_kept J E k k3) as H3.
  { unfold k3. destruct (expiry_fn _); [|done]. eapply isr_kept_trans; [exact H2|].
    destruct H2 as (? & ? & Ec & En & ? & ?). apply expiry_safe; [done|done|by rewrite Ec|by rewrite En]. }
  clearbody k3. destruct (head (q k3 (WQ (KTimer, o)))) as [t|] eqn:Hh; [|done].
  apply head_Some_elem_of in Hh. eapply isr_kept_trans; [exact H3|]. destruct H3 as (Hk3 & ? & Ec & ? & ? & ?).
  eapply isr_woken; [exact J_objects|done|done|by rewrite Ec|done|by eapply timer_wake].
Qed.

Lemma timeout_function_safe : call_safe J timeout_function.
Proof.
  intros c n Hn f i E k _ _ Hd (k0 & (HJ0 & _) & Hx & Ek) Hk (HJ & Hc & Hne & Hh & Hr). rewrite <-Hc in Hr.
  assert (isr_kept J E k (timeout_function f i k)) as (? & ? & Ec & En & Eh & ?).
  { unfold timeout_function. destruct f; destruct i; try done.
    - apply timer_handler_isr; [done|done|done|by rewrite Hne|done].
    - apply work_timeout_isr; [done..|by rewrite Hne|]. exists k0. split; [done|]. split; [right; by rewrite Hx|by subst k]. }
  split; [done|]. split_and!; [done|congruence|congruence|congruence|by rewrite <-Hc].
Qed.

(** ** Thread level *)
Context (stop : Z → nat → kernel → outcome unit).
Hypothesis stop_safe : ∀ f o k, sinv J k → op_safe J F (stop f o) k.

Lemma upd_timer_sinv o f k : sinv J k → period (f (timer k o)) ≤ INT32_MAX → sinv J (upd_timer o f k).
Proof.
  intros [[Hk Hc Hn Hh Hp] HJ] Hf. split; [|by apply upd_timer_J].
  split; [by apply upd_timer_kinv|done|done|done|done].
Qed.
Lemma abort_timer_sinv o k : sinv J k → sinv J (_abort_timeout (TTimer o) k).2.
Proof.
  intros [Hk HJ]. split; [by apply sys_inv_abort_other|]. by eapply J_objects; [apply sframe_objects, sframe_abort|].
Qed.
Lemma arm_sinv o call n k :
  sinv J k → delta k (TTimer o) = _INACTIVE → 0 < n ≤ INT32_MAX →
  sinv J (_add_timeout call None (TTimer o) (Some (KTimer, o)) n k).
Proof.
  intros [[Hk Hc Hn Hh Hp] HJ] Hd Hn'.
  destruct (arm_isr [] o call n k Hk HJ Hc Hd Hn') as (Hk' & HJ' & Ec & En & Eh & Hr).
  destruct (add_timeout_spec call None (TTimer o) (Some (KTimer, o)) n [] k (inv_tq _ _ _ Hk) Hd Hn')
    as (_ & _ & _ & Hfr & _).
  set (k' := _add_timeout _ _ _ _ _ _) in *. clearbody k'. split; [|done].
  split; [done|by rewrite Ec|congruence|congruence|]. rewrite Hfr. exact Hp.
Qed.

Lemma ms_to_ticks_max ms : _ms_to_ticks ms ≤ INT32_MAX.
Proof. apply s32_range. Qed.

(** The state in which [k_timer_start] arms the timer. *)
Definition timer_reset (o : nat) (per : Z) (k : kernel) : kernel :=
  upd_timer o (set_status 0) (upd_timer o (set_period (_ms_to_ticks per)) (_abort_timeout (TTimer o) k).2).
Lemma k_timer_start_eq o duration per k :
  k_timer_start o duration per k =
    _add_timeout timeout_function None (TTimer o) (Some (KTimer, o)) (_ms_to_ticks duration) (timer_reset o per k).
Proof.
  unfold k_timer_start, timer_reset. cbv zeta. destruct (delta k (TTimer o) =? _INACTIVE) eqn:E; [|done].
  zbool. by rewrite abort_inactive.
Qed.

Lemma k_timer_start_current o duration per k :
  sinv J k → 0 < _ms_to_ticks duration → current (k_timer_start o duration per k) = current k.
Proof.
  intros Hk Hd. rewrite k_timer_start_eq.
  assert (_ms_to_ticks duration ≠ 0) as Hn by lia.
  rewrite (sframe_current _ _ (sframe_add_timeout _ _ (TTimer o) _ _ _ (λ d, ltac:(done)) Hn)).
  exact (sframe_current _ _ (sframe_abort (TTimer o) k)).
Qed.
Lemma k_timer_start_safe o duration per k :
  sinv J k → 0 < _ms_to_ticks duration → sinv J (k_timer_start o duration per k).
Proof.
  intros Hk Hd. rewrite k_timer_start_eq.
  destruct (kinv_abort_timeout ∅ [] k (TTimer o) (sys_kinv _ (proj1 Hk)) (not_elem_of_nil _) ltac:(done)) as [_ Hina].
  apply arm_sinv; [|exact Hina|split; [done|apply ms_to_ticks_max]]. unfold timer_reset.
  apply abort_timer_sinv with (o := o) in Hk. set (k1 := (_abort_timeout _ _).2) in *. clearbody k1.
  apply upd_timer_sinv; [apply upd_timer_sinv; [done|apply ms_to_ticks_max]|].
  unfold timer at 1, upd_timer. simpl. rewrite lookup_total_insert_eq. apply ms_to_ticks_max.
Qed.

Lemma k_timer_stop_safe o k : sinv J k → op_safe J F (k_timer_stop stop o) k.
Proof.
  intros Hk. unfold op_safe, k_timer_stop. pose proof (abort_timer_sinv o k Hk) as Hk1.
  pose proof (sframe_current _ _ (sframe_abort (TTimer o) k)) as Ec.
  destruct (_abort_timeout (TTimer o) k) as [r k1]. simpl in *. destruct (r =? _INACTIVE); [done|].
  rewrite <-Ec. apply (osafe_bind F (sinv J) (current k1) (λ _ k2, sinv J k2 ∧ current k2 = current k1)).
  { destruct (stop_fn _); [by apply stop_safe|done]. }
  intros _ k2 [Hk2 <-]. destruct (_unpend_first_thread (KTimer, o) k2) as [[t|] k3] eqn:Hu.
  - destruct (unpend_first_Some [] _ k2 t k3 (sys_kinv _ (proj1 Hk2)) Hu) as (Hin & -> & _ & _).
    destruct (timer_waiter [] o t k2 (sys_kinv _ (proj1 Hk2)) Hin) as [Hup Hd].
    destruct (wake_ready [] t _ Hup) as [Hk3 Ho _ _ _ _]. unfold _abort_thread_timeout in Hk3, Ho.
    rewrite abort_inactive in Hk3, Ho by done. simpl in Hk3, Ho.
    assert (only t k2 (_ready_thread t (_unpend_thread t k2))) as Ho2 by (etrans; [apply only_unpend|done]).
    unfold _is_in_isr. rewrite (sframe_nested _ _ (only_sframe _ _ _ Ho2)), (sys_nested _ (proj1 Hk2)). simpl negb. cbv iota.
    apply (only_reschedule J F J_objects t); [done..|].
    by eapply waiter_not_current; [apply Hk2|apply Hk2|].
  - apply unpend_first_None in Hu as [-> _]. unfold _is_in_isr. rewrite (sys_nested _ (proj1 Hk2)). simpl negb. cbv iota.
    apply reschedule_safe; [done|by apply swap_ready_sinv|apply Hk2].
Qed.

Lemma k_timer_status_sync_safe o k :
  sinv J k → current k ≠ _idle_thread → op_safe J F (k_timer_status_sync o) k.
Proof.
  intros Hk Hi. unfold op_safe, k_timer_status_sync. cbv zeta.
  assert (∀ k1, sinv J k1 → sinv J (upd_timer o (set_status 0) k1)) as Hs.
  { intros k1 Hk1. apply upd_timer_sinv; [done|]. apply timer_inv_get, Hk1. }
  destruct (_ && _); [|by split; [apply Hs|]].
  destruct (pend_current_spec [] (KTimer, o) K_FOREVER k) as (Hk' & Hf & _); [apply Hk|apply Hk|done|by left|by right|].
  eapply osafe_bind; [apply swap_safe; [exact J_objects|by eapply swap_ready_frame; [|apply swap_ready_sinv| |]]|].
  intros r k1 [Hk1 Ec]. split; [by apply Hs|done].
Qed.

End safe.

(** ** Timers do not drift *)

(** [tm_same o k k']: the timer [o], its timeout and its deadline are what they
    were. *)
Definition tm_same (o : nat) (k k' : kernel) : Prop :=
  timer k' o = timer k o ∧ same_timeout k k' (TTimer o) ∧
  ∀ e, (TTimer o, e) ∈ deadlines k → (TTimer o, e) ∈ deadlines k'.
#[export] Instance tm_same_preorder o : PreOrder (tm_same o).
Proof.
  split.
  - intros k. split_and!; [done| |done]. unfold same_timeout. auto.
  - intros k1 k2 k3 (E1 & (A1 & A2 & A3 & A4) & D1) (E2 & (B1 & B2 & B3 & B4) & D2).
    split_and!; [congruence| |by auto]. split_and!; [congruence..|]. destruct A4, B4; lia.
Qed.

Lemma tm_same_frame o k k' :
  timers k' = timers k → timeouts k' = timeouts k → timeout_q k' = timeout_q k → tm_same o k k'.
Proof.
  intros Et Eto Eq. assert (∀ i, tmo k' i = tmo k i) as Hm by (intros; unfold tmo; by rewrite Eto).
  split_and!.
  - unfold timer. by rewrite Et.
  - unfold same_timeout, delta. rewrite Hm. auto.
  - intros e. unfold deadlines. rewrite Eq, (expiries_ext 0 (delta k) (delta k')); [done|].
    intros i _. unfold delta. by rewrite Hm.
Qed.
(** A timeout that is not queued may change without moving a deadline. *)
Lemma tm_same_upd_timeout o E k i f :
  tq_inv E k → i ≠ TTimer o → delta k i < 0 → tm_same o k (upd_timeout i f k).
Proof.
  intros Htq Hi Hd. split_and!; [done| |].
  - unfold same_timeout, delta. rewrite tmo_upd, decide_False by done. auto.
  - intros e. unfold deadlines. change (timeout_q (upd_timeout i f k)) with (timeout_q k).
    rewrite (expiries_ext 0 (delta k) (delta (upd_timeout i f k))); [done|]. intros j Hj%(tq_mem _ _ Htq).
    unfold delta. rewrite tmo_upd. case_decide; [subst; lia|done].
Qed.
Lemma tm_same_abort o E k i : tq_inv E k → i ∉ E → i ≠ TTimer o → tm_same o k (_abort_timeout i k).2.
Proof.
  intros Htq HE Hi. pose proof (abort_timeout_spec i E k Htq HE) as Hab.
  destruct (_abort_timeout i k) as [r k']. destruct Hab as (_ & _ & _ & Hd & Hfr & Hs & _). simpl. split_and!.
  - unfold timer. by rewrite Hfr.
  - by apply Hs.
  - intros e He. rewrite Hd. by apply list_elem_of_filter.
Qed.
Lemma tm_same_add o E k call i w n :
  tq_inv E k → delta k i = _INACTIVE → 0 < n ≤ INT32_MAX → i ≠ TTimer o →
  tm_same o k (_add_timeout call None i w n k).
Proof.
  intros Htq Hd Hn Hi. destruct (add_timeout_spec call None i w n E k Htq Hd Hn) as (_ & _ & Hdl & Hfr & Hs & _).
  set (k' := _add_timeout _ _ _ _ _ _) in *. clearbody k'. split_and!.
  - unfold timer. by rewrite Hfr.
  - by apply Hs.
  - intros e He. rewrite Hdl, insert_where_perm. mem.
Qed.
Lemma tm_same_ready o t k : tm_same o k (_ready_thread t k).
Proof. unfold _ready_thread. cbv zeta. by destruct (_is_thread_ready t _); apply tm_same_frame. Qed.
Lemma tm_same_unpend o t k : tm_same o k (_unpend_thread t k).
Proof. by apply tm_same_frame. Qed.

(** Submitting work moves no timer. *)
Lemma tm_same_submit o E d k : kinv ∅ E k → nested k ≠ 0 → tm_same o k (work_timeout d k).
Proof.
  intros Hk Hn. unfold work_timeout. cbv zeta. destruct (dw_work_q _) as [p|].
  2: { destruct (k_work_pending _ k); [reflexivity|by apply tm_same_frame]. }
  set (w := dw_work _). unfold k_work_submit_to_queue. cbv zeta. set (k1 := upd_work w _ k).
  assert (kinv ∅ E k1) as Hk1 by (by eapply kinv_frame; try apply Hk).
  trans k1; [by apply tm_same_frame|]. destruct (negb _); [|reflexivity].
  unfold k_queue_append, k_queue_insert. destruct (_unpend_first_thread (KQueue, p) k1) as [[t|] k2] eqn:Hu.
  - destruct (unpend_first_Some E _ k1 t k2 Hk1 Hu) as (_ & -> & Hup & _). cbv zeta. unfold prepare_thread_to_run. cbv zeta.
    set (k2 := _set_thread_return_value_with_data _ _ _ _).
    assert (nested k2 ≠ 0) as Hn2.
    { unfold k2. change (nested (_ready_thread t (_abort_thread_timeout t (_unpend_thread t k1)).2) ≠ 0).
      unfold _abort_thread_timeout. by rewrite (sframe_nested _ _ (sframe_ready _ _)), (sframe_nested _ _ (sframe_abort _ _)), (sframe_nested _ _ (sframe_unpend _ _)). }
    unfold _is_in_isr. rewrite (proj2 (Z.eqb_neq _ _) Hn2). simpl. unfold k2.
    trans (_ready_thread t (_abort_thread_timeout t (_unpend_thread t k1)).2); [|by apply tm_same_frame].
    trans (_abort_thread_timeout t (_unpend_thread t k1)).2; [|apply tm_same_ready].
    trans (_unpend_thread t k1); [apply tm_same_unpend|].
    destruct Hup as [Hku _ _ HE]. apply (tm_same_abort o E); [apply Hku|done|done].
  - apply unpend_first_None in Hu as [-> _]. simpl. unfold on_data_q. destruct (sys_slist_insert _ _ _ _) as [l wo].
    by apply tm_same_frame.
Qed.

Section accuracy.
Context (J : kernel → Prop) `{!TimerInv J, !QueueFree J, !WorkFree J}.
Hypothesis J_objects : ∀ k k', same_objects k k' → J k → J k'.
Hypothesis expiry_safe : ∀ f o E k, kinv ∅ E k → J k → runnable ∅ k (current k) → nested k ≠ 0 →
  isr_kept J E k (expiry f o k).
(** The timer in question, which no expiry function starts or stops. *)
Context (o : nat).
Hypothesis expiry_quiet : ∀ f o' E k, kinv ∅ E k → J k → runnable ∅ k (current k) → nested k ≠ 0 →
  tm_same o k (expiry f o' k).

(** The second half of the timer handler: counting, the expiry function and the
    waiting thread. *)
Lemma handler_after_arm o' E k :
  kinv ∅ E k → J k → runnable ∅ k (current k) → nested k ≠ 0 →
  let k1 := upd_timer o' (λ x, set_status (u32 (status x + 1)) x) k in
  let k2 := match expiry_fn (timer k1 o') with Some f => expiry f o' k1 | None => k1 end in
  tm_same o k1 match head (q k2 (WQ (KTimer, o'))) with
               | None => k2
               | Some t => _set_thread_return_value t 0 (_ready_thread t (_unpend_thread t k2))
               end.
Proof.
  intros Hk HJ Hc Hn k1 k2. trans k2.
  - unfold k2. destruct (expiry_fn _); [|reflexivity]. apply (expiry_quiet _ _ E); [by apply upd_timer_kinv| |done|done].
    apply timer_inv_set; [done|]. by apply (timer_inv_get k).
  - destruct (head _) as [t|]; [|reflexivity].
    trans (_ready_thread t (_unpend_thread t k2)); [|by apply tm_same_frame].
    trans (_unpend_thread t k2); [apply tm_same_unpend|apply tm_same_ready].
Qed.

Lemma timer_upd p f k : timer (upd_timer p f k) o = if decide (p = o) then f (timer k o) else timer k o.
Proof.
  unfold timer at 1, upd_timer. simpl. case_decide; [subst; by rewrite lookup_total_insert_eq|].
  by rewrite lookup_total_insert_ne.
Qed.

(** The state in which a timeout function is called. *)
Lemma expired_call_state i E k :
  kinv ∅ (i :: E) k → J k → runnable ∅ k (current k) → (∀ t, i ≠ TThread t) →
  let k1 := set_delta i _INACTIVE k in
  kinv ∅ E k1 ∧ J k1 ∧ runnable ∅ k1 (current k1) ∧ delta k1 i = _INACTIVE ∧ to_thread (tmo k i) = None.
Proof.
  intros Hk HJ Hc Hi k1. assert (delta k i = _EXPIRED) as Hexp by (apply (tq_exp _ _ (inv_tq _ _ _ Hk)); mem).
  split_and!.
  - by apply kinv_unexpire_other.
  - eapply J_objects; [apply sframe_objects, sframe_upd_timeout, _|done].
  - apply (runnable_ext _ k); [done|done| |done]. unfold k1. by rewrite delta_set, decide_False.
  - unfold k1. by rewrite delta_set, decide_True.
  - apply (inv_tother _ _ _ Hk i Hi). by rewrite Hexp.
Qed.

(** Another timeout expires. *)
Lemma one_expired_other i E k :
  kinv ∅ (i :: E) k → J k → runnable ∅ k (current k) → nested k ≠ 0 → i ≠ TTimer o →
  tm_same o k (_handle_one_expired_timeout timeout_function i k).
Proof.
  intros Hk HJ Hc Hn Hi. assert (delta k i = _EXPIRED) as Hexp by (apply (tq_exp _ _ (inv_tq _ _ _ Hk)); mem).
  unfold _handle_one_expired_timeout. cbv zeta. set (k1 := set_delta i _INACTIVE k).
  assert (delta k1 i = _INACTIVE) as Hd1 by (unfold k1; by rewrite delta_set, decide_True).
  assert (tm_same o k k1) as H1.
  { apply (tm_same_upd_timeout o (i :: E)); [apply Hk|done|]. rewrite Hexp. unfold _EXPIRED. lia. }
  trans k1; [done|]. assert ((∃ t, i = TThread t) ∨ (∀ t, i ≠ TThread t)) as [[t ->]|Hne] by (destruct i; naive_solver).
  - assert (delta k (TThread t) ≠ _INACTIVE) as Hact by by rewrite Hexp.
    destruct (inv_tthread _ _ _ Hk t Hact) as (Ht & -> & _).
    pose proof (kinv_unexpire_thread E k t Hk) as Hk1.
    trans (_unpend_thread_timing_out t (TThread t) k1); [|apply tm_same_ready].
    unfold _unpend_thread_timing_out. destruct (to_wait_q _); [|reflexivity].
    trans (_unpend_thread t k1); [apply tm_same_unpend|].
    apply (tm_same_upd_timeout o E); [|done|].
    + apply (kinv_unpend ({[t]} ∪ ∅) E k1 t Hk1); [set_solver|done].
    + change (delta k1 (TThread t) < 0). rewrite Hd1. unfold _INACTIVE. lia.
  - destruct (expired_call_state i E k Hk HJ Hc Hne) as (Hk1 & HJ1 & Hc1 & _ & ->). fold k1 in Hk1, HJ1, Hc1.
    destruct (to_func _); [reflexivity| |]; unfold timeout_function; destruct i as [|o'|d]; try reflexivity; [|by apply (tm_same_submit o E)].
    unfold _timer_expiration_handler. cbv zeta. set (k2 := if _ >? 0 then _ else _).
    assert (tm_same o k1 k2 ∧ isr_kept J E k1 k2) as [H2 (Hk2 & HJ2 & Ec & En & _ & Hr)].
    { unfold k2. destruct (period (timer k1 o') >? 0) eqn:Ep; [|by split; [reflexivity|]].
      apply Z.gtb_lt in Ep. assert (0 < period (timer k1 o') ≤ INT32_MAX) as Hp by (split; [done|by apply timer_inv_get]).
      split; [by apply (tm_same_add o E); [apply Hk1|..]|by apply arm_isr]. }
    clearbody k2. trans k2; [done|]. etrans; [|apply (handler_after_arm o' E k2 Hk2 HJ2); [by rewrite Ec|by rewrite En]].
    split_and!; [|unfold same_timeout; auto|done]. rewrite timer_upd, decide_False; [done|]. by intros ->.
Qed.

(** The timer itself expires: it is counted and, if periodic, due again after a
    period. *)
Lemma one_expired_self E k :
  kinv ∅ (TTimer o :: E) k → J k → runnable ∅ k (current k) → nested k ≠ 0 →
  to_func (tmo k (TTimer o)) = FTimer → 0 < period (timer k o) →
  let k' := _handle_one_expired_timeout timeout_function (TTimer o) k in
  timer k' o = set_status (u32 (status (timer k o) + 1)) (timer k o) ∧
  to_func (tmo k' (TTimer o)) = FTimer ∧ (TTimer o, period (timer k o)) ∈ deadlines k'.
Proof.
  intros Hk HJ Hc Hn Hf Hp. unfold _handle_one_expired_timeout. cbv zeta.
  destruct (expired_call_state (TTimer o) E k Hk HJ Hc ltac:(done)) as (Hk1 & HJ1 & Hc1 & Hd1 & ->).
  set (k1 := set_delta (TTimer o) _INACTIVE k) in *.
  assert (to_func (tmo k1 (TTimer o)) = FTimer) as Hf1 by (unfold k1, set_delta; by rewrite tmo_upd, decide_True).
  rewrite Hf1. unfold timeout_function, _timer_expiration_handler. cbv zeta.
  change (timer k1 o) with (timer k o). rewrite (proj2 (Z.gtb_lt _ _) Hp).
  assert (period (timer k o) ≤ INT32_MAX) as Hmax by by apply timer_inv_get.
  destruct (add_timeout_spec (λ _ _ k, k) None (TTimer o) (Some (KTimer, o)) (period (timer k o)) E k1
    (inv_tq _ _ _ Hk1) Hd1 (conj Hp Hmax)) as (_ & _ & Hdl & Hfr & _ & _ & _ & Hf2 & _).
  destruct (arm_isr J J_objects E o (λ _ _ k, k) (period (timer k o)) k1 Hk1 HJ1 Hc1 Hd1 (conj Hp Hmax))
    as (Hk2 & HJ2 & Ec & En & _ & Hr).
  set (k2 := _add_timeout _ _ _ _ _ _) in *. clearbody k2.
  assert (timer k2 o = timer k o) as Et by (unfold timer; by rewrite Hfr).
  destruct (handler_after_arm o E k2 Hk2 HJ2) as (E3 & (_ & _ & F3 & _) & D3); [by rewrite Ec|by rewrite En|].
  split_and!.
  - rewrite E3, timer_upd, decide_True, Et by done. done.
  - rewrite F3. by rewrite <-Hf1, <-Hf2.
  - apply D3. change ((TTimer o, period (timer k o)) ∈ deadlines k2). rewrite Hdl, insert_where_perm. mem.
Qed.

Lemma one_expired_kept i E k :
  kinv ∅ (i :: E) k → J k → runnable ∅ k (current k) → nested k ≠ 0 →
  isr_kept J E k (_handle_one_expired_timeout timeout_function i k).
Proof.
  intros Hk HJ Hc Hn. pose proof (inv_handling _ _ _ Hk ltac:(done)) as Hh.
  destruct (kinv_handle_one_expired (λ k', J k' ∧ current k' = current k ∧ nested k' = nested k ∧
    handling_timeouts k' = true ∧ runnable ∅ k' (current k)) (current k) timeout_function) with (i := i) (E := E) (k := k)
    as (? & ? & ? & ? & ? & ?); [|by apply timeout_function_safe|done|done|split_and!; congruence].
  intros k1 k2 Hf Hr (? & ? & ? & ? & ?). rewrite (sframe_current _ _ Hf), (sframe_nested _ _ Hf), (sframe_handling _ _ Hf).
  split_and!; try done; [|auto]. by eapply J_objects; [apply sframe_objects|].
Qed.

(** What is known of the timer after an expiry in which it was counted. *)
Definition counted (k k' : kernel) : Prop :=
  timer k' o = set_status (u32 (status (timer k o) + 1)) (timer k o) ∧
  to_func (tmo k' (TTimer o)) = FTimer ∧ (TTimer o, period (timer k o)) ∈ deadlines k'.

Lemma expired_timers E k :
  kinv ∅ E k → J k → runnable ∅ k (current k) → nested k ≠ 0 →
  let k' := _handle_expired_timeouts timeout_function E k in
  (TTimer o ∉ E → tm_same o k k') ∧
  (TTimer o ∈ E → to_func (tmo k (TTimer o)) = FTimer → 0 < period (timer k o) → counted k k').
Proof.
  unfold _handle_expired_timeouts. revert k. induction E as [|i E IH]; intros k Hk HJ Hc Hn; simpl.
  { split; [reflexivity|by intros ?%elem_of_nil]. }
  destruct (one_expired_kept i E k Hk HJ Hc Hn) as (Hk1 & HJ1 & Ec & En & _ & Hr).
  pose proof (λ H, one_expired_other i E k Hk HJ Hc Hn H) as Hother.
  assert (i = TTimer o → to_func (tmo k (TTimer o)) = FTimer → 0 < period (timer k o) →
    counted k (_handle_one_expired_timeout timeout_function i k)) as Hself.
  { intros ->. by apply (one_expired_self E). }
  set (k1 := _handle_one_expired_timeout timeout_function i k) in *. clearbody k1.
  destruct (IH k1) as [IHn IHc]; [done|done|by rewrite Ec|by rewrite En|].
  pose proof (tq_exp_nodup _ _ (inv_tq _ _ _ Hk)) as [Hni _]%NoDup_cons. split.
  - rewrite not_elem_of_cons. intros [Hne Hn']. etrans; [by apply Hother|by apply IHn].
  - intros Hin Hf Hp. destruct (decide (i = TTimer o)) as [->|Hne].
    + destruct (Hself eq_refl Hf Hp) as (E1 & F1 & D1). destruct (IHn Hni) as (E2 & (_ & _ & F2 & _) & D2).
      split_and!; [congruence|congruence|auto].
    + apply elem_of_cons in Hin as [|Hin]; [done|]. destruct (Hother Hne) as (E1 & (_ & _ & F1 & _) & D1).
      unfold counted in *. rewrite <-F1, <-E1 in *. by apply IHc.
Qed.

(** ** Ticks *)
Definition timer_at (p s e : Z) (k : kernel) : Prop :=
  period (timer k o) = p ∧ status (timer k o) = s ∧ to_func (tmo k (TTimer o)) = FTimer ∧ (TTimer o, e) ∈ deadlines k.

Lemma timer_at_same p s e k k' : tm_same o k k' → timer_at p s e k → timer_at p s e k'.
Proof. intros (E1 & (_ & _ & F1 & _) & D1) (Hp & Hs & Hf & Hd). unfold timer_at. rewrite E1, F1. auto. Qed.

Lemma deadlines_pos E k p : tq_inv E k → tq_pos k → p ∈ deadlines k → 0 < p.2.
Proof.
  intros Htq Hpos. unfold deadlines. destruct (timeout_q k) as [|h l] eqn:Hq; [by intros ?%elem_of_nil|].
  assert (0 < delta k h) as Hh by (apply Hpos; by rewrite Hq).
  simpl. rewrite elem_of_cons. intros [->|Hp]; [simpl; lia|]. apply expiries_ge in Hp; [lia|].
  intros i Hi. apply (tq_mem _ _ Htq). rewrite Hq. mem.
Qed.

(** The first half of a tick: the timer is taken off the queue if it is due, and
    is a tick nearer to its deadline if not. *)
Lemma tick_dequeues k p s e h :
  kinv ∅ [] k → timer_at p s e k → head (timeout_q k) = Some h →
  let '(E, k') := dequeue_expired (S (length (timeout_q k))) []
    (set_handling_timeouts true (set_delta h (delta k h - 1) k)) in
  period (timer k' o) = p ∧ status (timer k' o) = s ∧ to_func (tmo k' (TTimer o)) = FTimer ∧
  if e =? 1 then TTimer o ∈ E else TTimer o ∉ E ∧ (TTimer o, e - 1) ∈ deadlines k'.
Proof.
  intros Hk (Hp & Hs & Hf & Hd) Hh. assert (∃ l, timeout_q k = h :: l) as [l Hq].
  { destruct (timeout_q k) as [|h' l]; [done|]. exists l. by injection Hh as ->. }
  pose proof (inv_tq_pos _ _ _ Hk h Hh) as Hpos.
  destruct (tq_inv_tick [] k h l 1 (inv_tq _ _ _ Hk) Hq ltac:(lia)) as (Htq1 & Hd1 & Hs1).
  set (k1 := set_handling_timeouts true (set_delta h (delta k h - 1) k)).
  assert (tq_inv [] k1) as Htq1' by (eapply tq_inv_frame; [exact Htq1|done|done]).
  pose proof (dequeue_expired_spec (S (length (timeout_q k))) [] k1 Htq1' (Nat.lt_succ_diag_r _)) as Hde.
  destruct (dequeue_expired _ [] k1) as [E k2]. destruct Hde as (due & -> & Hqd & Hdd & Htq2 & Hpos2 & Htm & Hfr).
  assert ((TTimer o, e - 1) ∈ deadlines k1) as Hdk1.
  { change (deadlines k1) with (deadlines (set_delta h (delta k h - 1) k)). rewrite Hd1.
    apply list_elem_of_fmap. by exists (TTimer o, e). }
  rewrite Hdd, elem_of_app in Hdk1.
  assert (timer k2 o = timer k o) as Et by (unfold timer; by rewrite Hfr).
  rewrite Et. split_and!; [done|done| |].
  { rewrite Htm. destruct (Hs1 (TTimer o)) as (_ & _ & Hf1 & _). rewrite <-Hf, <-Hf1. by case_decide. }
  assert (∀ i, i ∈ rev due ++ [] ↔ i ∈ due) as Hrev.
  { intros i. rewrite app_nil_r, !list_elem_of_In. symmetry. apply in_rev. }
  destruct (e =? 1) eqn:Ee; zbool; rewrite Hrev.
  - destruct Hdk1 as [Hin|Hin].
    + apply list_elem_of_fmap in Hin as (i & [= <- _] & Hi). done.
    + apply (deadlines_pos _ _ _ Htq2 Hpos2) in Hin. simpl in Hin. lia.
  - destruct Hdk1 as [Hin|Hin].
    + apply list_elem_of_fmap in Hin as (i & [= _ He] & Hi). lia.
    + split; [|done]. apply expiries_mem in Hin. simpl in Hin. pose proof (tq_nodup _ _ Htq1') as Hnd.
      rewrite Hqd in Hnd. apply NoDup_app in Hnd as (_ & Hdis & _). intros Hdue. by apply (Hdis _ Hdue).
Qed.

Lemma tick_timer c p s e k :
  isr_inv J c 1 k → timer_at p s e k → 0 < p →
  let k' := _nano_sys_clock_tick_announce timeout_function 1 k in
  if e =? 1 then timer_at p (u32 (s + 1)) p k' else timer_at p s (e - 1) k'.
Proof.
  intros [Hk HJ Hc Hn Hh Hr] Hat Hp. unfold _nano_sys_clock_tick_announce. cbv zeta.
  set (k0 := set_tick_count _ k).
  assert (∀ k1, tm_same o k1 (handle_time_slicing 1 k1)) as Hslice.
  { intros k1. unfold handle_time_slicing. cbv zeta. repeat case_match; try reflexivity; try by apply tm_same_frame.
    unfold _move_thread_to_end_of_prio_q. cbv zeta. case_decide; by apply tm_same_frame. }
  assert (kinv ∅ [] k0) as Hk0 by (by eapply kinv_frame; try apply Hk).
  assert (J k0) as HJ0 by (eapply J_objects; [|done]; objects_done).
  assert (timer_at p s e k0) as Hat0 by exact Hat.
  assert (runnable ∅ k0 c) as Hr0 by exact Hr. assert (current k0 = c ∧ nested k0 = 1) as [Hc0 Hn0] by done. clearbody k0.
  set (k' := handle_timeouts timeout_function 1 k0).
  cut (if e =? 1 then timer_at p (u32 (s + 1)) p k' else timer_at p s (e - 1) k').
  { destruct (e =? 1); apply timer_at_same, Hslice. }
  unfold k', handle_timeouts. destruct (head (timeout_q k0)) as [h|] eqn:Eh.
  2: { destruct Hat0 as (_ & _ & _ & Hd). unfold deadlines in Hd. destruct (timeout_q k0); [by apply elem_of_nil in Hd|done]. }
  cbv zeta. pose proof (inv_tq_pos _ _ _ Hk0 h Eh) as Hpos.
  pose proof (tick_dequeues k0 p s e h Hk0 Hat0 Eh) as Hdq. pose proof (kinv_dequeue_expired k0 h 1 c Hk0 Eh ltac:(lia)) as Hde.
  change (timeout_q (set_handling_timeouts true _)) with (timeout_q k0).
  destruct (dequeue_expired _ _ _) as [E k1]. destruct Hde as (Hk1 & Hf1 & Hr1).
  assert (J k1) as HJ1 by (eapply J_objects; [by apply sframe_objects|]; eapply J_objects; [|exact HJ0]; objects_done).
  pose proof (sframe_current _ _ Hf1) as Ec1. pose proof (sframe_nested _ _ Hf1) as En1. simpl in Ec1, En1.
  destruct (expired_timers E k1) as [Hsame Hcount]; [done|done|by rewrite Ec1, Hc0; auto|by rewrite En1, Hn0|].
  set (k2 := _handle_expired_timeouts timeout_function E k1) in *. clearbody k2. destruct Hdq as (Hp1 & Hs1 & Hf & Hde).
  destruct (e =? 1).
  - destruct (Hcount Hde Hf) as (Et & Hf2 & Hd2); [by rewrite Hp1|]. unfold timer_at.
    change (timer (set_handling_timeouts false k2) o) with (timer k2 o). rewrite Et. simpl. rewrite Hp1, Hs1 in *. done.
  - destruct Hde as [Hnin Hd]. change (timer_at p s (e - 1) k2). eapply timer_at_same; [by apply Hsame|done].
Qed.

(** [ticks n k k']: [n] clock interrupts, with anything in between that leaves
    this timer alone. *)
Inductive ticks : nat → kernel → kernel → Prop :=
  | ticks_0 k : ticks 0 k k
  | ticks_S n k k1 k2 c :
      ticks n k k1 → tm_same o k1 k2 → isr_inv J c 1 k2 →
      ticks (S n) k (_nano_sys_clock_tick_announce timeout_function 1 k2).

(** How often a timer that is due in [e] ticks, and then every [p], expires
    within [n] ticks, and the ticks it then has left. *)
Definition expirations (e p n : Z) : Z := if n <? e then 0 else 1 + (n - e) / p.
Definition ticks_left (e p n : Z) : Z := if n <? e then e - n else p - (n - e) mod p.

Lemma ticks_left_step e p n :
  0 < e → 0 < p → 0 ≤ n →
  0 < ticks_left e p n ∧
  if ticks_left e p n =? 1
  then expirations e p (n + 1) = expirations e p n + 1 ∧ ticks_left e p (n + 1) = p
  else expirations e p (n + 1) = expirations e p n ∧ ticks_left e p (n + 1) = ticks_left e p n - 1.
Proof.
  intros He Hp Hn. unfold ticks_left, expirations. destruct (n <? e) eqn:E1; zbool.
  - split; [lia|]. destruct (e - n =? 1) eqn:E2; zbool; destruct (n + 1 <? e) eqn:E3; zbool; try lia.
    replace (n + 1 - e) with 0 by lia. rewrite Z.div_0_l, Z.mod_0_l by lia. lia.
  - rewrite (proj2 (Z.ltb_ge (n + 1) e)) by lia. replace (n + 1 - e) with ((n - e) + 1) by lia.
    set (m := n - e). pose proof (Z.mod_pos_bound m p Hp) as Hm. pose proof (Z.div_mod m p ltac:(lia)) as Hdm.
    split; [lia|]. destruct (p - m mod p =? 1) eqn:E2; zbool.
    + rewrite <-(Z.div_unique (m + 1) p (m / p + 1) 0), <-(Z.mod_unique (m + 1) p (m / p + 1) 0) by lia. lia.
    + rewrite <-(Z.div_unique (m + 1) p (m / p) (m mod p + 1)), <-(Z.mod_unique (m + 1) p (m / p) (m mod p + 1)) by lia. lia.
Qed.

(** C10: a periodic timer does not drift: due in [e] ticks, with the period [p],
    it has after any [n] ticks been counted exactly once for each of the ticks
    [e], [e + p], [e + 2p], ... up to [n] (modulo 2^32), and is due again at the
    next of them - whatever other timers, threads and work items the same ticks
    wake, and whatever happens between ticks, as long as nobody restarts or stops it. *)
Theorem periodic_timer_exact p s e n k k' :
  timer_at p s e k → 0 < p → 0 < e → 0 ≤ s < 4294967296 → ticks n k k' →
  timer_at p (u32 (s + expirations e p (Z.of_nat n))) (ticks_left e p (Z.of_nat n)) k'.
Proof.
  intros Hat Hp He Hs Ht. induction Ht as [k|n k k1 k2 c Ht IH Hsame Hisr].
  - unfold expirations, ticks_left. change (Z.of_nat 0) with 0. rewrite (proj2 (Z.ltb_lt 0 e)) by lia.
    rewrite Z.sub_0_r, Z.add_0_r, u32_id by lia. done.
  - specialize (IH Hat). apply (timer_at_same _ _ _ k1 k2 Hsame) in IH.
    pose proof (tick_timer c _ _ _ k2 Hisr IH Hp) as Hk'. cbv zeta in Hk'.
    destruct (ticks_left_step e p (Z.of_nat n) He Hp ltac:(lia)) as [_ Hstep].
    rewrite Nat2Z.inj_succ. unfold Z.succ. destruct (ticks_left e p (Z.of_nat n) =? 1); destruct Hstep as [-> ->].
    + rewrite u32_add_l, <-Z.add_assoc in Hk'. exact Hk'.
    + exact Hk'.
Qed.

End accuracy.

(** ** The time left *)
Lemma remaining_loop_spec i t nodes b k e :
  0 ≤ b → (∀ j, j ∈ t :: nodes → 0 ≤ delta k j) → NoDup (t :: nodes) → b + total (delta k) (t :: nodes) ≤ INT32_MAX →
  (i, e) ∈ expiries b (delta k) (t :: nodes) → remaining_loop i t nodes (b + delta k t) k = Some e.
Proof.
  revert t b. induction nodes as [|n nodes IH]; intros t b Hb Hd Hnd Htot Hin.
  - apply list_elem_of_singleton in Hin as [= -> ->]. simpl. by rewrite decide_True.
  - apply NoDup_cons in Hnd as [Ht Hnd]. change (expiries b (delta k) (t :: n :: nodes)) with
      ((t, b + delta k t) :: expiries (b + delta k t) (delta k) (n :: nodes)) in Hin.
    apply elem_of_cons in Hin as [[= -> ->]|Hin]; [simpl; by rewrite decide_True|].
    pose proof (expiries_mem _ _ _ _ Hin) as Hi. simpl in Hi.
    change (remaining_loop i t (n :: nodes) (b + delta k t) k) with
      (if decide (t = i) then Some (b + delta k t) else remaining_loop i n nodes (s32 (b + delta k t + delta k n)) k).
    rewrite decide_False by (by intros ->).
    assert (0 ≤ delta k t) as Hdt by (apply Hd; mem).
    assert (0 ≤ total (delta k) nodes) as Hrest by (apply total_nonneg; intros; apply Hd; mem).
    assert (0 ≤ delta k n) by (apply Hd; mem). simpl in Htot. unfold INT32_MAX in Htot.
    rewrite s32_id by lia. apply IH; [lia| |done|simpl; unfold INT32_MAX; lia|done].
    intros j Hj. apply Hd. rewrite elem_of_cons. by right.
Qed.
Lemma remaining_get_spec E i e k :
  tq_inv E k → (i, e) ∈ deadlines k → _timeout_remaining_get i k = Done (__ticks_to_ms e) k.
Proof.
  intros Htq Hin. pose proof (expiries_mem _ _ _ _ Hin) as Hi. unfold _timeout_remaining_get, deadlines in *.
  pose proof (proj1 (tq_mem _ _ Htq i) Hi) as Hd. simpl in Hd.
  rewrite (proj2 (Z.eqb_neq (delta k i) _INACTIVE)) by (unfold _INACTIVE; lia).
  pose proof (tq_nodup _ _ Htq) as Hnd. pose proof (tq_total _ _ Htq) as Htot.
  assert (∀ j, j ∈ timeout_q k → 0 ≤ delta k j) as Hpos by (intros j; apply (tq_mem _ _ Htq)).
  destruct (timeout_q k) as [|t nodes]; [by apply elem_of_nil in Hi|].
  assert (remaining_loop i t nodes (0 + delta k t) k = Some e) as Hl by (by apply remaining_loop_spec).
  rewrite Z.add_0_l in Hl. by rewrite Hl.
Qed.

Lemma upd_timer_self o f k : timer (upd_timer o f k) o = f (timer k o).
Proof. unfold timer at 1, upd_timer. simpl. by rewrite lookup_total_insert_eq. Qed.

(** Starting a timer (again) makes it due after exactly the given duration,
    rounded up to ticks, with its status cleared, the new period stored and every
    other deadline unchanged; asked at once, [_timeout_remaining_get] reports
    that duration. *)
Theorem k_timer_start_arms o duration per k :
  sys_inv k → 0 < _ms_to_ticks duration →
  let n := _ms_to_ticks duration in
  let k' := k_timer_start o duration per k in
  deadlines k' = insert_where (λ p, n <=? p.2) (TTimer o, n) (filter (λ p, p.1 ≠ TTimer o) (deadlines k)) ∧
  status (timer k' o) = 0 ∧ period (timer k' o) = _ms_to_ticks per ∧
  _timeout_remaining_get (TTimer o) k' = Done (__ticks_to_ms n) k'.
Proof.
  intros Hk Hn n k'. unfold k'. rewrite k_timer_start_eq. set (k1 := timer_reset o per k).
  pose proof (abort_timeout_spec (TTimer o) [] k (inv_tq _ _ _ (sys_kinv _ Hk)) (not_elem_of_nil _)) as Hab.
  assert (tq_inv [] k1 ∧ deadlines k1 = filter (λ p, p.1 ≠ TTimer o) (deadlines k) ∧ delta k1 (TTimer o) = _INACTIVE)
    as (Htq1 & Hd1 & Hina).
  { unfold k1, timer_reset. destruct (_abort_timeout (TTimer o) k) as [r k0]. destruct Hab as (_ & Htq & _ & Hd & _ & _ & Hi).
    simpl. split_and!; [by eapply tq_inv_frame; [exact Htq|..]|exact Hd|exact Hi]. }
  assert (timer k1 o = set_status 0 (set_period (_ms_to_ticks per) (timer (_abort_timeout (TTimer o) k).2 o))) as Et.
  { unfold k1, timer_reset. by rewrite !upd_timer_self. }
  destruct (add_timeout_spec timeout_function None (TTimer o) (Some (KTimer, o)) n [] k1 Htq1 Hina) as (Htq2 & _ & Hd2 & Hfr & _).
  { split; [done|apply s32_range]. }
  fold n. set (k2 := _add_timeout _ _ _ _ _ _) in *. clearbody k2.
  assert (timer k2 o = timer k1 o) as Et2 by (unfold timer; by rewrite Hfr).
  rewrite Hd1 in Hd2. split_and!; [done|by rewrite Et2, Et|by rewrite Et2, Et|].
  apply (remaining_get_spec [] _ n); [done|]. rewrite Hd2, insert_where_perm. mem.
Qed.

(** A thread that asks for the status of a running timer that has not
    expired waits - with no timeout of its own - and gets what the timer has
    counted when it runs again; otherwise it gets the count at once; in both
    cases the count restarts from 0. *)
Theorem k_timer_status_sync_spec o k :
  sys_inv k → current k ≠ _idle_thread →
  (status (timer k o) = 0 → delta k (TTimer o) ≠ _INACTIVE →
    ∃ k1 resume, k_timer_status_sync o k = Swapped k1 resume ∧ current k ∈ q k1 (WQ (KTimer, o)) ∧
      delta k1 (TThread (current k)) = _INACTIVE ∧
      ∀ k2, resume k2 = Done (status (timer k2 o)) (upd_timer o (set_status 0) k2)) ∧
  (status (timer k o) ≠ 0 ∨ delta k (TTimer o) = _INACTIVE →
    k_timer_status_sync o k = Done (status (timer k o)) (upd_timer o (set_status 0) k)).
Proof.
  intros Hk Hi. unfold k_timer_status_sync. cbv zeta. split.
  - intros Hs Hd. rewrite (proj2 (Z.eqb_eq _ _) Hs), (proj2 (Z.eqb_neq _ _) Hd). simpl andb. cbv iota.
    destruct (pend_current_spec [] (KTimer, o) K_FOREVER k) as (Hk' & Hf & _ & _ & Hq);
      [apply Hk|apply Hk|done|by left|by right|].
    rewrite swap_switched. eexists _, _. split; [reflexivity|]. set (k1 := _pend_current_thread _ _ _) in *. clearbody k1.
    assert (current k ∈ q k1 (WQ (KTimer, o))) as Hin by (rewrite Hq, insert_where_perm; mem).
    split_and!; [exact Hin| |done]. exact (inv_forever _ _ _ Hk' _ _ (not_elem_of_empty _) Hin).
  - intros Hor. destruct (status (timer k o) =? 0) eqn:E1, (delta k (TTimer o) =? _INACTIVE) eqn:E2; zbool; try done.
    destruct Hor; done.
Qed.

(** A timeout that has expired but whose function has not run yet is active
    and no longer queued, so asking for its remaining time walks off the timeout
    queue and dereferences NULL (unless the queue is empty).  An expiry function
    can do that to a timer that expires at the same tick. *)
Theorem remaining_get_expired_faults E i k :
  tq_inv E k → i ∈ E → timeout_q k ≠ [] → _timeout_remaining_get i k = Fault.
Proof.
  intros Htq Hi Hq. pose proof (proj1 (tq_exp _ _ Htq i) Hi) as Hd.
  assert (i ∉ timeout_q k) as Hni by (rewrite (tq_mem _ _ Htq), Hd; unfold _EXPIRED; lia).
  unfold _timeout_remaining_get. rewrite Hd. simpl. destruct (timeout_q k) as [|t nodes]; [done|].
  assert (∀ nodes t s, i ∉ t :: nodes → remaining_loop i t nodes s k = None) as Hl.
  { clear. induction nodes as [|n nodes IH]; intros t s [Hne Hn]%not_elem_of_cons; simpl; rewrite decide_False by done; [done|].
    by apply IH. }
  by rewrite Hl.
Qed.


End timer_c.

Definition timers_ok (k : kernel) : Prop := ∀ o, period (timer k o) ≤ INT32_MAX.
#[export] Instance timers_ok_inv : TimerInv timers_ok.
Proof.
  split; [by intros|]. intros k o x Hk Hx o'. unfold timer. simpl. destruct (decide (o = o')) as [<-|Hne].
  - by rewrite lookup_total_insert_eq.
  - rewrite lookup_total_insert_ne by done. apply Hk.
Qed.
#[export] Instance timers_ok_queue : QueueFree timers_ok.
Proof. by intros k l w Hk. Qed.
#[export] Instance timers_ok_work : WorkFree timers_ok.
Proof. split; [by intros k v Hk|by intros k0 k d]. Qed.
Lemma timers_ok_objects k k' : same_objects k k' → timers_ok k → timers_ok k'.
Proof. intros (_ & _ & _ & _ & _ & Et & _) Hk o. unfold timer. rewrite Et. apply Hk. Qed.
Lemma timers_ok_none k : timers k = ∅ → timers_ok k.
Proof. intros E o. unfold timer. by rewrite E, lookup_total_empty. Qed.

Lemma sys_inv_upd_inactive `{KConfig} i f k :
  sys_inv k → (∀ t, i ≠ TThread t) → delta k i = _INACTIVE → delta_ticks_from_prev (f (tmo k i)) = _INACTIVE →
  sys_inv (upd_timeout i f k).
Proof.
  intros [Hk Hc Hn Hh Hp] Hi Hd Hf. split; [by apply kinv_upd_inactive| |done|done|done].
  apply (runnable_ext _ k); [done|done| |done]. unfold delta. by rewrite tmo_upd, decide_False.
Qed.
Lemma isr_inv_enter `{KConfig} J k :
  (∀ k k', same_objects k k' → J k → J k') → sinv J k → isr_inv J (current k) 1 (set_nested 1 k).
Proof.
  intros HJ [[Hk Hc Hn Hh Hp] HJk]. split; [by eapply kinv_frame; try apply Hk| |done..].
  eapply HJ; [|exact HJk]. objects_done.
Qed.

(** ** The properties at work *)

(** A timer with neither expiry nor stop function, started to expire every two
    ticks; its first clock interrupts. *)
Notation no_expiry := (λ (_ : Z) (_ : nat) (k : kernel), k).
Notation sc_timer := (upd_timeout (TTimer 0) (set_to_func FTimer) two_threads).
Notation sc_started := (k_timer_start no_expiry 0 4 4 sc_timer).
Notation sc_tick := (_nano_sys_clock_tick_announce (timeout_function no_expiry) 1).

Lemma sc_timer_sinv : sinv timers_ok sc_timer.
Proof.
  split; [|apply timers_ok_none; by vm_compute].
  apply sys_inv_upd_inactive; [apply two_threads_sys_inv|done|by vm_compute..].
Qed.
Lemma sc_started_sinv : sinv timers_ok sc_started.
Proof. apply k_timer_start_safe; [apply _|apply timers_ok_objects|apply sc_timer_sinv|by vm_compute]. Qed.
Lemma sc_first_isr : isr_inv timers_ok sc_main 1 (set_nested 1 sc_started).
Proof.
  assert (current sc_started = sc_main) as <- by by vm_compute.
  apply isr_inv_enter; [apply timers_ok_objects|apply sc_started_sinv].
Qed.
Lemma no_expiry_safe f o E k :
  kinv ∅ E k → timers_ok k → runnable ∅ k (current k) → nested k ≠ 0 → isr_kept timers_ok E k (no_expiry f o k).
Proof. by intros. Qed.
Lemma sc_next_isr k : isr_inv timers_ok sc_main 1 k → isr_inv timers_ok sc_main 1 (sc_tick k).
Proof.
  intros Hk. apply tick_announce_isr; [apply timers_ok_objects|apply timeout_function_safe|done|done].
  - apply _.
  - apply _.
  - apply _.
  - apply timers_ok_objects.
  - exact no_expiry_safe.
Qed.

Lemma periodic_timer_exact_witness :
  timer_at 0 2 1 1 (sc_tick (sc_tick (sc_tick (set_nested 1 sc_started)))).
Proof.
  refine (periodic_timer_exact no_expiry timers_ok timers_ok_objects no_expiry_safe 0 _ 2 0 2 3
    (set_nested 1 sc_started) _ _ _ _ _ _).
  - intros. reflexivity.
  - unfold timer_at. assert (deadlines (set_nested 1 sc_started) = [(TTimer 0, 2)]) as Hd by by vm_compute.
    split_and!; [by vm_compute..|]. rewrite Hd. mem.
  - done.
  - done.
  - done.
  - pose proof sc_first_isr as H1. pose proof (sc_next_isr _ H1) as H2. pose proof (sc_next_isr _ H2) as H3.
    eapply ticks_S; [|reflexivity|exact H3]. eapply ticks_S; [|reflexivity|exact H2].
    eapply ticks_S; [|reflexivity|exact H1]. apply ticks_0.
Defined.

Lemma k_timer_start_arms_witness :
  _timeout_remaining_get (TTimer 0) (k_timer_start no_expiry 0 7 0 sc_timer) =
    Done 8 (k_timer_start no_expiry 0 7 0 sc_timer).
Proof.
  refine (proj2 (proj2 (proj2 (k_timer_start_arms no_expiry 0 7 0 sc_timer _ _)))).
  - apply sc_timer_sinv.
  - by vm_compute.
Defined.

Lemma k_timer_status_sync_spec_witness :
  ∃ k1 resume, k_timer_status_sync 0 sc_started = Swapped k1 resume ∧ sc_main ∈ q k1 (WQ (KTimer, 0%nat)).
Proof.
  destruct (k_timer_status_sync_spec 0 sc_started) as [Hs _].
  - apply sc_started_sinv.
  - by vm_compute.
  - destruct Hs as (k1 & resume & E & Hq & _); [by vm_compute..|]. exists k1, resume.
    assert (current sc_started = sc_main) as Ec by by vm_compute. rewrite Ec in Hq. exact (conj E Hq).
Defined.

Lemma remaining_get_expired_faults_witness :
  _timeout_remaining_get (TTimer 1)
    (set_timeout_q [TTimer 0] (set_timeouts (<[TTimer 0 := mk_timeout 5 None None FTimer]>
      (<[TTimer 1 := mk_timeout _EXPIRED None None FTimer]> ∅)) two_threads)) = Fault.
Proof.
  apply (remaining_get_expired_faults [TTimer 1]).
  - set (k := set_timeout_q _ _).
    assert (∀ i, delta k i = if decide (TTimer 0 = i) then 5 else if decide (TTimer 1 = i) then _EXPIRED else _INACTIVE) as Hd.
    { intros i. unfold delta, tmo, k. simpl. case_decide; [subst; by rewrite lookup_total_insert_eq|].
      rewrite lookup_total_insert_ne by done. case_decide; [subst; by rewrite lookup_total_insert_eq|].
      rewrite lookup_total_insert_ne, lookup_total_empty by done. done. }
    split; [apply NoDup_singleton| |apply NoDup_singleton| | |].
    + intros i. change (timeout_q k) with [TTimer 0]. rewrite list_elem_of_singleton, Hd.
      repeat case_decide; subst; unfold _EXPIRED, _INACTIVE; split; (done || lia || congruence).
    + intros i. rewrite list_elem_of_singleton, Hd.
      repeat case_decide; subst; unfold _EXPIRED, _INACTIVE; split; (done || lia || congruence).
    + intros i. rewrite Hd. repeat case_decide; unfold _EXPIRED, _INACTIVE; lia.
    + by vm_compute.
  - mem.
  - done.
Defined.
