(* ===== verification/Alert.v ===== *)
(** * Alerts (kernel/alert.c)

    An alert is a count of sends that a work item on the system work queue
    delivers to a handler; what the handler does not consume goes to the alert's
    semaphore.  The handler is a parameter ([deliver f a] is its call), as is the
    queue of the system work queue. *)
From stdpp Require Import gmap.
From S2P Require Import Prelude KState Slist Ksched TimeoutQ SchedInv Outcome Sched Thread WaitQ Scenario Sem Queue WorkQ.
Local Open Scope Z_scope.
Local Open Scope outcome_scope.

Section alert.
Context `{KConfig}.
Context (k_sys_work_q : nat) (fn_alert_deliver : Z).
Context (deliver : Z → nat → kernel → outcome Z).

Definition K_ALERT_DEFAULT : Z := 0.
Definition K_ALERT_IGNORE : Z := - 1.

Definition alert (k : kernel) (a : nat) : k_alert := alerts (objs k) !!! a.
Definition upd_alert (a : nat) (f : k_alert → k_alert) (k : kernel) : kernel :=
  set_objs (set_alerts (<[a := f (alert k a)]> (alerts (objs k))) (objs k)) k.
Definition set_al_handler (v : Z) (x : k_alert) : k_alert := mk_alert v (al_send_count x) (al_work x) (al_sem x).
Definition set_al_send_count (v : Z) (x : k_alert) : k_alert := mk_alert (al_handler x) v (al_work x) (al_sem x).

(** The [while] loop; [None] when it goes on after [fuel] rounds. *)
Fixpoint _alert_deliver (fuel : nat) (a : nat) (k : kernel) : outcome (option unit) :=
  match fuel with
  | O => Done None k
  | S fuel =>
      let% r k := deliver (al_handler (alert k a)) a k in
      let% _ k := if r =? 0 then Done tt k else k_sem_give (al_sem (alert k a)) k in
      let send_count := al_send_count (alert k a) in
      let k := upd_alert a (set_al_send_count (s32 (send_count - 1))) k in
      if send_count =? 1 then Done (Some tt) k else _alert_deliver fuel a k
  end.

Definition k_alert_init (a : nat) (f max_num_pending_alerts : Z) (k : kernel) : kernel :=
  let k := upd_alert a (set_al_handler f) k in
  let k := upd_alert a (set_al_send_count 0) k in
  let k := set_words (<[al_work (alert k a) := NULL]> (words k)) k in
  let k := upd_work (al_work (alert k a)) (λ _, mk_work (Some fn_alert_deliver) 0) k in
  k_sem_init (al_sem (alert k a)) 0 max_num_pending_alerts k.

Definition k_alert_send (a : nat) (k : kernel) : outcome unit :=
  if al_handler (alert k a) =? K_ALERT_IGNORE then Done tt k
  else if al_handler (alert k a) =? K_ALERT_DEFAULT then k_sem_give (al_sem (alert k a)) k
  else
    let send_count := al_send_count (alert k a) in
    let k := upd_alert a (set_al_send_count (s32 (send_count + 1))) k in
    if send_count =? 0 then
      let% _ k := k_work_submit_to_queue k_sys_work_q (al_work (alert k a)) k in Done tt k
    else Done tt k.

Definition k_alert_recv (a : nat) (timeout : Z) (k : kernel) : outcome Z :=
  k_sem_take (al_sem (alert k a)) timeout k.

(** ** Delivery *)
Lemma alert_upd a f k : alert (upd_alert a f k) a = f (alert k a).
Proof. unfold alert at 1, upd_alert. simpl. by rewrite lookup_total_insert_eq. Qed.
Lemma sem_upd_alert a f k o : sem (upd_alert a f k) o = sem k o.
Proof. done. Qed.
Lemma upd_alert_sys_inv a f k : sys_inv k → sys_inv (upd_alert a f k).
Proof. intros Hk. exact (sys_inv_queue _ (words k) k Hk). Qed.

(** Giving the alert's semaphore while nobody waits for it. *)
Lemma give_unwaited o k :
  sys_inv k → sem_ok (sem k o) → q k (WQ (KSem, o)) = [] →
  k_sem_give o k = Done tt (upd_sem o (set_count (Z.min (count (sem k o) + 1) (limit (sem k o)))) k).
Proof.
  intros Hk Hok Hq. unfold k_sem_give.
  by rewrite (do_sem_give_counts o k k Hok (unpend_first_empty _ k (sys_handling _ Hk) Hq)).
Qed.

Lemma alert_deliver_spec n a k :
  sys_inv k → sem_ok (sem k (al_sem (alert k a))) → q k (WQ (KSem, al_sem (alert k a))) = [] →
  (0 < n)%nat → al_send_count (alert k a) = Z.of_nat n → Z.of_nat n ≤ INT32_MAX →
  ∀ r, (∀ k, deliver (al_handler (alert k a)) a k = Done r k) →
  ∃ k', _alert_deliver n a k = Done (Some tt) k' ∧ al_send_count (alert k' a) = 0 ∧
    let x := sem k (al_sem (alert k a)) in
    sem k' (al_sem (alert k a)) = set_count (if r =? 0 then count x else Z.min (count x + Z.of_nat n) (limit x)) x.
Proof.
  intros Hk Hok Hq Hn Hc Hmax r Hr. revert k Hk Hok Hq Hn Hc Hmax.
  induction n as [|n IH]; intros k Hk Hok Hq Hn Hc Hmax; [lia|]. simpl _alert_deliver. rewrite Hr. simpl obind.
  set (o := al_sem (alert k a)) in *.
  set (x := set_count (if r =? 0 then count (sem k o) else Z.min (count (sem k o) + 1) (limit (sem k o))) (sem k o)).
  assert (∃ k1, (if r =? 0 then Done tt k else k_sem_give o k) = Done tt k1 ∧ sys_inv k1 ∧ objs k1 = objs k ∧
    sem k1 o = x ∧ q k1 (WQ (KSem, o)) = []) as (k1 & -> & Hk1 & Eo & Ex & Hq1).
  { unfold x. destruct (r =? 0).
    - exists k. split_and!; try done. by destruct (sem k o).
    - rewrite give_unwaited by done. eexists. split_and!; [done|by apply upd_sem_sys_inv|done|by rewrite sem_upd|done]. }
  simpl obind. assert (alert k1 a = alert k a) as Ea by (unfold alert; by rewrite Eo). rewrite Ea, Hc.
  set (k2 := upd_alert a _ k1).
  assert (alert k2 a = set_al_send_count (Z.of_nat n) (alert k a)) as Ea2.
  { unfold k2. rewrite alert_upd, Ea, s32_id by (unfold INT32_MAX in Hmax; lia). f_equal. lia. }
  assert (sem k2 o = x) as Ex2 by exact Ex.
  assert (sem_ok x) as Hokx by (unfold x; destruct Hok; destruct (r =? 0); unfold sem_ok; simpl; lia).
  destruct (decide (n = 0%nat)) as [->|Hn0].
  - exists k2. split_and!; [done|by rewrite Ea2|]. rewrite Ex2. unfold x. done.
  - rewrite (proj2 (Z.eqb_neq (Z.of_nat (S n)) 1)) by lia.
    destruct (IH k2) as (k' & E & Hs & Hx); rewrite ?Ea2; simpl al_sem; fold o; simpl al_send_count.
    + by apply upd_alert_sys_inv.
    + by rewrite Ex2.
    + exact Hq1.
    + lia.
    + done.
    + lia.
    + exists k'. split_and!; [done|done|]. rewrite Ea2 in Hx. simpl al_sem in Hx. fold o in Hx. rewrite Hx, Ex2. unfold x.
      destruct (r =? 0); simpl; [done|]. unfold set_count. simpl. f_equal. destruct Hok. lia.
Qed.

(** No alert is lost: delivering [n] sends calls the handler [n] times, and
    each alert the handler declines becomes receivable, up to the limit of
    pending alerts; the count of sends ends at 0, and exactly the first of
    several sends submits the work item. *)
Theorem alerts_delivered n a k r :
  sys_inv k → sem_ok (sem k (al_sem (alert k a))) → q k (WQ (KSem, al_sem (alert k a))) = [] →
  (0 < n)%nat → al_send_count (alert k a) = Z.of_nat n → Z.of_nat n ≤ INT32_MAX →
  (∀ k, deliver (al_handler (alert k a)) a k = Done r k) →
  (∃ k', _alert_deliver n a k = Done (Some tt) k' ∧ al_send_count (alert k' a) = 0 ∧
    let x := sem k (al_sem (alert k a)) in
    sem k' (al_sem (alert k a)) = set_count (if r =? 0 then count x else Z.min (count x + Z.of_nat n) (limit x)) x) ∧
  (al_handler (alert k a) ≠ K_ALERT_IGNORE → al_handler (alert k a) ≠ K_ALERT_DEFAULT →
    k_alert_send a k = Done tt (upd_alert a (set_al_send_count (s32 (Z.of_nat n + 1))) k)).
Proof.
  intros Hk Hok Hq Hn Hc Hmax Hr. split; [by apply alert_deliver_spec|]. intros Hi Hd. unfold k_alert_send.
  rewrite (proj2 (Z.eqb_neq _ _) Hi), (proj2 (Z.eqb_neq _ _) Hd). cbv zeta. rewrite Hc.
  by rewrite (proj2 (Z.eqb_neq (Z.of_nat n) 0)) by lia.
Qed.

End alert.

(** ** The properties at work *)
Notation sc_alert := (upd_alert 0 (λ _, mk_alert 7 3 100 0) (sc_sem 0)).
Lemma alerts_delivered_witness :
  ∃ k', _alert_deliver (λ _ _ k, Done 1 k) 3 0 sc_alert = Done (Some tt) k' ∧ sem k' 0 = mk_sem 3 3.
Proof.
  assert (alert sc_alert 0 = mk_alert 7 3 100 0) as Ea by by vm_compute.
  destruct (alerts_delivered 0 (λ _ _ k, Done 1 k) 3 0 sc_alert 1) as [(k' & E & _ & Hx) _].
  - apply upd_alert_sys_inv, sc_sem_sys_inv.
  - rewrite Ea, sem_upd_alert. simpl al_sem. apply (sc_sem_ok 0). lia.
  - rewrite Ea. by vm_compute.
  - lia.
  - by rewrite Ea.
  - done.
  - done.
  - exists k'. split; [exact E|]. rewrite Ea in Hx. simpl al_sem in Hx. rewrite Hx, sem_upd_alert. by vm_compute.
Defined.
