(* ===== verification/System.v ===== *)
(** * The system: threads, interrupts and kernel calls together

    Threads are clients of the kernel: the current one may make any kernel call
    whose documented preconditions hold, or go on with the call in which it was
    swapped out; the clock and other interrupts come in between.  [step] is one
    such action, with the crash of a NULL dereference as an outcome of its own: in
    [k_thread_abort] of a thread that is not on the list of all threads, in
    the mutex calls, and in a clock interrupt that submits a delayed work item without a
    queue.  The theorems hold of every state reachable from boot, and rest on one lemma
    per kernel call that it is safe, whatever the other threads do while it is
    swapped out. *)
From stdpp Require Import gmap list.
From S2P Require Import Prelude KState Ksched TimeoutQ SchedInv Outcome Sched Thread WaitQ Scenario.
From S2P Require Import Sem Mutex MsgQ  KStack MemSlab Queue WorkQ Timer.
Local Open Scope Z_scope.
Local Open Scope outcome_scope.

(** ** The invariant of the kernel objects *)
(** Every thread that was created and not aborted is on the list of all threads. *)
Definition listed (k : kernel) : Prop :=
  NoDup (all_threads k) ∧ ∀ t, gone k t = false → t ∈ all_threads k.
(** Nothing has crashed, and a delayed work item whose timeout is pending has a queue. *)
Definition dworks_ok (k : kernel) : Prop :=
  crashed (objs k) = false ∧ ∀ d, dw_work_q (dwork k d) = None → ¬ armed k d.
Definition objects_ok `{KConfig} (k : kernel) : Prop :=
  sems_ok k ∧ mutexes_ok k ∧ msgqs_ok k ∧ timers_ok k ∧ listed k ∧ dworks_ok k.

Lemma listed_objects k k' : same_objects k k' → listed k → listed k'.
Proof.
  intros (_ & _ & _ & _ & _ & _ & _ & _ & _ & E & _ & Hc & _) [Hn Hl]. unfold listed. rewrite E. split; [done|].
  intros t Ht. apply Hl. destruct (gone k t) eqn:Hg; [|done]. by rewrite (Hc t Hg) in Ht.
Qed.
Lemma dworks_ok_objects k k' : same_objects k k' → dworks_ok k → dworks_ok k'.
Proof.
  intros (_ & _ & _ & _ & _ & _ & _ & _ & E & _ & _ & _ & Ha) [Hn Hd]. unfold dworks_ok, dwork. rewrite E. split; [done|].
  intros d Hq Har. by apply (Hd d Hq), Ha.
Qed.
Lemma unlink_first_spec t l : t ∈ l → ∃ l', unlink_first t l = Some l' ∧ l ≡ₚ t :: l'.
Proof.
  induction l as [|y l IH]; [by intros ?%elem_of_nil|]. intros Ht. simpl. case_decide as E; [subst; by exists l|].
  apply elem_of_cons in Ht as [|Ht]; [done|]. destruct (IH Ht) as (l' & -> & Hp). exists (y :: l'). split; [done|].
  rewrite Hp. apply Permutation_swap.
Qed.
Lemma listed_exit t l k k1 :
  all_threads k1 = all_threads k → listed k1 → gone k1 t = true → unlink_first t (all_threads k) = Some l → listed (set_all_threads l k1).
Proof.
  intros Ea [Hn Hl] Hg El. rewrite Ea in Hn, Hl.
  assert (t ∈ all_threads k) as Ht.
  { clear -El. revert l El. induction (all_threads k) as [|y l IH]; intros l' El; [done|]. simpl in El. case_decide; [subst; by left|].
    destruct (unlink_first t l); [|done]. right. by eapply IH. }
  destruct (unlink_first_spec t _ Ht) as (l' & E' & Hp). rewrite El in E'. injection E' as <-. rewrite Hp in Hn. apply NoDup_cons in Hn as [_ Hn].
  split; [done|]. intros t' Ht'. change (gone k1 t' = false) in Ht'. specialize (Hl t' Ht'). rewrite Hp in Hl.
  apply elem_of_cons in Hl as [->|]; [congruence|done].
Qed.
Lemma listed_new t p o k `{KConfig} : t ∉ all_threads k → listed k → listed (_new_thread t p o k).
Proof.
  intros Ht [Hn Hl]. split; [by apply NoDup_cons|]. intros t'. change (all_threads (_new_thread t p o k)) with (t :: all_threads k).
  rewrite elem_of_cons. unfold gone. change (thr (_new_thread t p o k) t') with (thr (upd_thread t (λ x, set_sched_locked 0
      (set_prio (s8 p) (set_thread_state (u8 _THREAD_PRESTART) (set_user_options (u8 o) x)))) k) t'). rewrite thr_upd.
  case_decide; [by left|]. intros Hg. right. by apply Hl.
Qed.

Section instances.
Context `{KConfig}.
Lemma objects_ok_objects k k' : same_objects k k' → objects_ok k → objects_ok k'.
Proof.
  intros Hs (? & ? & ? & ? & ? & ?). split_and!; [by eapply sems_ok_objects|by eapply mutexes_ok_objects|
    by eapply msgqs_ok_objects|by eapply timers_ok_objects|by eapply listed_objects|by eapply dworks_ok_objects].
Qed.
#[export] Instance objects_sem : SemInv objects_ok.
Proof. split; [by intros k o (? & _)|]. intros k o x (? & ? & ? & ? & ? & ?) Hx. split_and!; [by apply sem_inv_set|done..]. Qed.
#[export] Instance objects_mutex : MutexInv objects_ok.
Proof.
  split; [by intros k o (_ & Hm & _); apply mutex_inv_get|]. intros k o x (? & ? & ? & ? & ? & ?) Hx.
  split_and!; [done|by apply mutex_inv_set|done..].
Qed.
#[export] Instance objects_msgq : MsgqInv objects_ok.
Proof.
  split; [by intros k o (_ & _ & Hm & _); apply msgq_inv_get| |].
  - intros k o x (? & ? & ? & ? & ? & ?) Hx. split_and!; [done|done|by apply (msgq_inv_set (J := msgqs_ok))|done..].
  - by intros k m Hk.
Qed.
#[export] Instance objects_stack : StackFree objects_ok.
Proof. by intros k s w Hk. Qed.
#[export] Instance objects_slab : SlabFree objects_ok.
Proof. by intros k s w Hk. Qed.
#[export] Instance objects_queue : QueueFree objects_ok.
Proof. by intros k l w Hk. Qed.
#[export] Instance objects_work : WorkFree objects_ok.
Proof.
  split; [by intros k v Hk|]. intros k0 k d (_ & _ & _ & _ & _ & _ & Hd) Ha Eo Eq _. unfold dwork in *. rewrite Eo in Eq. by destruct (Hd d Eq).
Qed.
#[export] Instance objects_timer : TimerInv objects_ok.
Proof.
  split; [by intros k o (_ & _ & _ & ? & _)|]. intros k o x (? & ? & ? & ? & ? & ?) Hx.
  split_and!; [done..|by apply (timer_inv_set (J := timers_ok))|done|done].
Qed.
Lemma objects_new t p o k : t ∉ all_threads k → objects_ok k → objects_ok (_new_thread t p o k).
Proof.
  intros Ht (? & ? & ? & ? & ? & [Hcr Hd]).
  split; [done|]. split; [|split; [done|split; [done|split; [by apply listed_new|split; [done|]]]]].
  - apply (mutexes_ok_dom k); [done| |done]. simpl. rewrite dom_insert_L. set_solver.
  - intros d Hq Ha. apply (Hd d Hq). destruct Ha as [Ha|Ha]; [by left|right]. revert Ha. unfold delta.
    change (tmo (_new_thread t p o k)) with (tmo (_init_thread_timeout t k)). unfold _init_thread_timeout, _init_timeout. by rewrite tmo_upd, decide_False.
Qed.
End instances.

(** ** Kernel calls *)
Inductive api :=
  | ASemGive (o : nat) | ASemTake (o : nat) (timeout : Z)
  | AMutexLock (o : nat) (timeout : Z) | AMutexUnlock (o : nat)
  | AMsgqPut (o : nat) (data timeout : Z) | AMsgqGet (o : nat) (data timeout : Z) | AMsgqPurge (o : nat)
  | AStackPush (o : nat) (data : Z) | AStackPop (o : nat) (data timeout : Z)
  | ASlabAlloc (o : nat) (ptr timeout : Z) | ASlabFree (o : nat) (ptr : Z)
  | AQueueInsert (o : nat) (prev data : Z) | AQueueAppend (o : nat) (data : Z) | AQueueGet (o : nat) (timeout : Z)
  | AQueueCancelWait (o : nat)
  | ATimerStart (o : nat) (duration period : Z) | ATimerStop (o : nat) | ATimerStatusSync (o : nat)
  | ASleep (duration : Z) | AYield | AWakeup (t : tid) | APrioritySet (t : tid) (p : Z)
  | ASchedLock | ASchedUnlock
  | ACreate (t : tid) (p options delay : Z) | ASuspend (t : tid) | AResume (t : tid) | AAbort (t : tid).

(** Interrupt sources: the clock, and handlers that use the kernel calls that
    are allowed there. *)
Inductive irq := ITick | ISemGive (o : nat) | IQueueInsert (o : nat) (prev data : Z) | IWorkSubmit (o : nat) (w : Z).

Definition ignore {A} (f : kernel → outcome A) (k : kernel) : outcome unit := let% _ k := f k in Done tt k.

Section system.
Context `{KConfig}.
Context (expiry : Z → nat → kernel → kernel) (stop : Z → nat → kernel → outcome unit).

Definition run_api (a : api) : kernel → outcome unit :=
  match a with
  | ASemGive o => k_sem_give o
  | ASemTake o timeout => ignore (k_sem_take o timeout)
  | AMutexLock o timeout => ignore (k_mutex_lock o timeout)
  | AMutexUnlock o => k_mutex_unlock o
  | AMsgqPut o data timeout => ignore (k_msgq_put o data timeout)
  | AMsgqGet o data timeout => ignore (k_msgq_get o data timeout)
  | AMsgqPurge o => k_msgq_purge o
  | AStackPush o data => k_stack_push o data
  | AStackPop o data timeout => ignore (k_stack_pop o data timeout)
  | ASlabAlloc o ptr timeout => ignore (k_mem_slab_alloc o ptr timeout)
  | ASlabFree o ptr => k_mem_slab_free o ptr
  | AQueueInsert o prev data => k_queue_insert o prev data
  | AQueueAppend o data => k_queue_append o data
  | AQueueGet o timeout => ignore (k_queue_get o timeout)
  | AQueueCancelWait o => k_queue_cancel_wait o
  | ATimerStart o duration p => λ k, Done tt (k_timer_start expiry o duration p k)
  | ATimerStop o => k_timer_stop stop o
  | ATimerStatusSync o => ignore (k_timer_status_sync o)
  | ASleep duration => k_sleep duration
  | AYield => k_yield
  | AWakeup t => k_wakeup t
  | APrioritySet t p => k_thread_priority_set t p
  | ASchedLock => λ k, Done tt (k_sched_lock k)
  | ASchedUnlock => k_sched_unlock
  | ACreate t p options delay => ignore (k_thread_create t p options delay)
  | ASuspend t => k_thread_suspend t
  | AResume t => k_thread_resume t
  | AAbort t => k_thread_abort None t
  end.

(** Waiting is for threads other than the idle thread. *)
Definition may_wait (timeout : Z) (k : kernel) : Prop :=
  timeout = K_NO_WAIT ∨ (timeout_ok timeout ∧ current k ≠ _idle_thread).

(** What the interface asks of the caller.  A thread structure is initialised
    only if no thread that was not aborted uses it, and a thread is aborted at
    most once.  [F] says whether threads wait for mutexes, the only calls that can crash nevertheless. *)
Definition api_pre (F : Prop) (a : api) (k : kernel) : Prop :=
  match a with
  | ASemTake _ timeout | AStackPop _ _ timeout | ASlabAlloc _ _ timeout | AQueueGet _ timeout => may_wait timeout k
  | AMutexLock o timeout =>
      (timeout = K_NO_WAIT ∨ F) ∧ current k ≠ _idle_thread ∧ lock_count (mutex k o) < 4294967295 ∧ (timeout = K_NO_WAIT ∨ timeout_ok timeout)
  | AMutexUnlock o => owner (mutex k o) = Some (current k)
  | AMsgqPut o _ timeout | AMsgqGet o _ timeout => o ∈ dom (msgqs k) ∧ may_wait timeout k
  | AMsgqPurge o => o ∈ dom (msgqs k)
  | ATimerStart _ duration _ => 0 < _ms_to_ticks duration
  | ATimerStatusSync _ => current k ≠ _idle_thread
  | ASleep duration => current k ≠ _idle_thread ∧ (duration = 0 ∨ 0 < timeout_ticks duration)
  | AWakeup t => t ∈ dom (threads k)
  | APrioritySet t p => t ∈ dom (threads k) ∧ t ≠ _idle_thread ∧ app_prio p
  | ASchedLock => sched_locked (thr k (current k)) ≠ 1
  | ACreate t p _ delay => reusable t k ∧ t ∉ all_threads k ∧ t ≠ current k ∧ app_prio p ∧ (delay = 0 ∨ 0 < timeout_ticks delay)
  | ASuspend t => t ∈ dom (threads k) ∧ t ≠ _idle_thread
  | AAbort t => t ∈ dom (threads k) ∧ t ≠ _idle_thread ∧ gone k t = false
  | AResume t => t ∈ dom (threads k) ∧ _is_thread_ready t k = false
  | _ => True
  end.

Definition run_irq (i : irq) (k : kernel) : kernel :=
  match i with
  | ITick => _nano_sys_clock_tick_announce (timeout_function expiry) 1 k
  | ISemGive o => after (k_sem_give o k)
  | IQueueInsert o prev data => after (k_queue_insert o prev data k)
  | IWorkSubmit o w => after (k_work_submit_to_queue o w k)
  end.

(** ** Steps *)
Record system := mk_system {
  ker : kernel;
  conts : gmap tid (kernel → outcome unit);  (** where each swapped-out thread goes on *)
}.

(** The state after something ran, unless an interrupt handler crashed. *)
Definition settle (k : kernel) (cs : gmap tid (kernel → outcome unit)) : option system :=
  if crashed (objs k) then None else Some (mk_system k cs).
(** The state after a thread ran until it returned or was swapped out. *)
Definition next (t : tid) (o : outcome unit) (cs : gmap tid (kernel → outcome unit)) : option system :=
  match o with
  | Done _ k => settle k (delete t cs)
  | Swapped k resume => settle k (<[t := resume]> cs)
  | Fault => None
  end.
(** A thread structure that is initialised anew forgets what it was doing. *)
Definition forget (a : api) (cs : gmap tid (kernel → outcome unit)) : gmap tid (kernel → outcome unit) :=
  match a with ACreate t _ _ _ => delete t cs | _ => cs end.

Inductive step (F : Prop) : system → option system → Prop :=
  | step_call s a :
      conts s !! current (ker s) = None → api_pre F a (ker s) →
      step F s (next (current (ker s)) (run_api a (ker s)) (forget a (conts s)))
  | step_resume s resume :
      conts s !! current (ker s) = Some resume →
      step F s (next (current (ker s)) (resume (ker s)) (conts s))
  | step_irq s i :
      step F s (settle (_enter_interrupt_exception (run_irq i) (ker s)) (conts s)).

(** From boot on, with any set of kernel objects defined at build time. *)
Inductive reachable (F : Prop) (k0 : kernel) : option system → Prop :=
  | reach_boot : reachable F k0 (Some (mk_system k0 ∅))
  | reach_step s s' : reachable F k0 (Some s) → step F s s' → reachable F k0 s'.

(** ** Every action is safe *)
Abbreviation J := objects_ok.
Section safe.
Context (F : Prop).
Hypothesis expiry_safe : ∀ f o E k, kinv ∅ E k → J k → runnable ∅ k (current k) → nested k ≠ 0 →
  isr_kept J E k (expiry f o k).
Hypothesis stop_safe : ∀ f o k, sinv J k → op_safe J F (stop f o) k.

Lemma ignore_safe {A} (f : kernel → outcome A) k : op_safe J F f k → op_safe J F (ignore f) k.
Proof. intros Hf. eapply osafe_bind; [exact Hf|]. by intros a k' [? ?]. Qed.

Lemma sched_lock_sinv k : sinv J k → sched_locked (thr k (current k)) ≠ 1 → sinv J (k_sched_lock k).
Proof.
  intros Hk Hl. pose proof (running_sched_lock J objects_ok_objects k (running_sinv J k Hk)) as [(Hk' & Hn & Hh & HJ) Hr].
  assert (k_sched_lock k = _sched_lock k) as ->.
  { unfold k_sched_lock, _sched_lock, _is_in_isr. rewrite (sys_nested _ (proj1 Hk)). done. }
  split; [|done]. split; [done|done|done|done|].
  intros Hp. exfalso. revert Hp. unfold _is_preempt, _sched_lock, preempt.
  destruct (inv_thread _ _ _ (sys_kinv _ (proj1 Hk)) (current k)) as (_ & _ & Hlk); [apply Hk|].
  change (current (upd_thread ?t ?f k)) with (current k). rewrite thr_upd, decide_True by done. simpl.
  pose proof (u8_range (prio (thr k (current k)))). unfold _PREEMPT_THRESHOLD, _NON_PREEMPT_THRESHOLD.
  assert (1 ≤ u8 (sched_locked (thr k (current k)) - 1)); [|rewrite Z.leb_le; lia].
  unfold u8. destruct (decide (sched_locked (thr k (current k)) = 0)) as [->|]; [done|].
  rewrite Z.mod_small by lia. lia.
Qed.

Lemma api_safe a k : sinv J k → api_pre F a k → op_safe J F (run_api a) k.
Proof.
  intros Hk Hp. destruct a; simpl in Hp |- *; try apply ignore_safe.
  - by apply k_sem_give_safe; [apply _|apply objects_ok_objects|].
  - by apply k_sem_take_safe; [apply _|apply objects_ok_objects|..].
  - destruct Hp as (? & ? & ? & ?). by apply k_mutex_lock_safe; [apply _|apply objects_ok_objects|..].
  - by apply k_mutex_unlock_safe; [apply _|apply objects_ok_objects|..].
  - destruct Hp. by apply k_msgq_put_safe; [apply _|apply objects_ok_objects|..].
  - destruct Hp. by apply k_msgq_get_safe; [apply _|apply objects_ok_objects|..].
  - by apply k_msgq_purge_safe; [apply _|apply objects_ok_objects|..].
  - by apply k_stack_push_safe; [apply _|apply objects_ok_objects|..].
  - by apply k_stack_pop_safe; [apply _|apply objects_ok_objects|..].
  - by apply k_mem_slab_alloc_safe; [apply _|apply objects_ok_objects|..].
  - by apply k_mem_slab_free_safe; [apply _|apply objects_ok_objects|..].
  - by apply k_queue_insert_safe; [apply _|apply objects_ok_objects|..].
  - by apply k_queue_insert_safe; [apply _|apply objects_ok_objects|..].
  - by apply k_queue_get_safe; [apply _|apply objects_ok_objects|..].
  - by apply k_queue_cancel_wait_safe; [apply objects_ok_objects|..].
  - split; [|by apply (k_timer_start_current expiry J)]. by apply k_timer_start_safe; [apply _|apply objects_ok_objects|..].
  - by apply k_timer_stop_safe; [apply objects_ok_objects|..].
  - by apply k_timer_status_sync_safe; [apply _|apply objects_ok_objects|..].
  - destruct Hp. by apply k_sleep_safe; [apply objects_ok_objects|..].
  - by apply k_yield_safe; [apply objects_ok_objects|..].
  - by apply k_wakeup_safe; [apply objects_ok_objects|..].
  - destruct Hp as (? & ? & ?). by apply k_thread_priority_set_safe; [apply objects_ok_objects|..].
  - split; [by apply sched_lock_sinv|]. unfold k_sched_lock. by destruct (_is_in_isr k).
  - by apply k_sched_unlock_safe; [apply objects_ok_objects|..].
  - destruct Hp as (? & ? & ? & ? & ?). apply k_thread_create_safe; try done; [apply objects_ok_objects|]. apply objects_new; [done|apply Hk].
  - destruct Hp. by apply k_thread_suspend_safe; [apply objects_ok_objects|..].
  - destruct Hp. by apply k_thread_resume_safe; [apply objects_ok_objects|..].
  - destruct Hp as (? & ? & Hg). apply k_thread_abort_safe; try done; [apply objects_ok_objects|..].
    + intros k1 l Ho (? & ? & ? & ? & ? & ?) Hg1 El. do 4 (split; [done|]). split; [|done].
      by apply (listed_exit t l k); [rewrite (proj1 (only_sframe _ _ _ Ho))|..].
    + left. destruct Hk as [_ (_ & _ & _ & _ & [_ Hl] & _)]. destruct (unlink_first_spec t _ (Hl t Hg)) as (l & -> & _). done.
Qed.

Lemma isr_kept_inv c n k k' : isr_inv J c n k → isr_kept J [] k k' → isr_inv J c n k'.
Proof.
  intros [Hk HJ Hc Hn Hh Hr] (? & ? & Ec & En & Eh & Hr'). subst c.
  split; [done|done|congruence|congruence|congruence|done].
Qed.

Lemma irq_safe i c k : isr_inv J c 1 k → isr_inv J c 1 (run_irq i k).
Proof.
  intros Hi. pose proof Hi as [Hk HJ Hc Hn Hh Hr]. rewrite <-Hc in Hr. assert (nested k ≠ 0) as Hn0 by by rewrite Hn.
  destruct i; simpl.
  - apply tick_announce_isr; [apply objects_ok_objects|apply timeout_function_safe|done|done]; try apply _.
    + apply objects_ok_objects.
    + exact expiry_safe.
  - destruct (sem_give_isr J objects_ok_objects [] o k Hk HJ Hr Hn0) as (k' & -> & ?). by apply (isr_kept_inv c 1 k).
  - destruct (queue_insert_isr J [] o prev data k objects_ok_objects Hk HJ Hr Hn0) as (k' & -> & ?).
    by apply (isr_kept_inv c 1 k).
  - destruct (work_submit_isr J [] o w k objects_ok_objects Hk HJ Hr Hn0) as (r & k' & -> & ?).
    by apply (isr_kept_inv c 1 k).
Qed.

(** A thread that is swapped out has a safe way to go on. *)
Definition conts_ok (cs : gmap tid (kernel → outcome unit)) : Prop :=
  ∀ t resume, cs !! t = Some resume → ∀ k, sinv J k → current k = t →
    osafe F (sinv J) t (λ _ k', sinv J k' ∧ current k' = t) (resume k).
Definition good (s : system) : Prop := sinv J (ker s) ∧ conts_ok (conts s).

Lemma conts_ok_delete t cs : conts_ok cs → conts_ok (delete t cs).
Proof. intros Hc t' r [_ Hr]%lookup_delete_Some. by apply Hc. Qed.

Lemma settle_eq k cs : sinv J k → settle k cs = Some (mk_system k cs).
Proof. intros [_ (_ & _ & _ & _ & _ & Hc & _)]. unfold settle. by rewrite Hc. Qed.
Lemma next_good t o cs :
  osafe F (sinv J) t (λ _ k', sinv J k' ∧ current k' = t) o → conts_ok cs →
  match next t o cs with Some s => good s | None => F end.
Proof.
  intros Ho Hc. destruct o as [[] k|k resume|]; simpl in *; [| |done].
  - destruct Ho as [Hk _]. rewrite settle_eq by done. split; [done|by apply conts_ok_delete].
  - destruct Ho as [Hk Hres]. rewrite settle_eq by done. split; [done|]. intros t' r Hr. simpl in Hr. destruct (decide (t = t')) as [<-|Hne].
    + rewrite lookup_insert_eq in Hr. injection Hr as <-. exact Hres.
    + rewrite lookup_insert_ne in Hr by done. by apply Hc.
Qed.

Lemma step_good s s' : good s → step F s s' → match s' with Some s' => good s' | None => F end.
Proof.
  intros [Hk Hc] Hs. destruct Hs as [s a Hn Hp|s resume Hr|s i].
  - apply next_good; [by apply api_safe|]. destruct a; simpl; try done. by apply conts_ok_delete.
  - apply next_good; [|done]. by apply (Hc _ _ Hr).
  - assert (sinv J (_enter_interrupt_exception (run_irq i) (ker s))) as Hi; [|by rewrite settle_eq by done].
    apply interrupt_safe; [apply objects_ok_objects|done|]. intros k1. apply irq_safe.
Qed.

Lemma reachable_good k0 s : sinv J k0 → reachable F k0 s → match s with Some s => good s | None => F end.
Proof.
  intros Hk0 Hr. induction Hr as [|s s' _ IH Hs]; [by split|]. by eapply step_good.
Qed.


End safe.


(** ** Traces

    Sequences of actions are executable: [run acts s] is the state they lead to,
    [None] if one of them is not possible. *)
Inductive act := Call (a : api) | Resume | Irq (i : irq).

#[export] Instance api_pre_dec F `{Decision F} a k : Decision (api_pre F a k).
Proof. destruct a; simpl; unfold may_wait, timeout_ok, app_prio, reusable; apply _. Defined.

Section run.
Context (F : Prop) `{!Decision F}.

Definition do_act (x : act) (s : system) : option (option system) :=
  match x, conts s !! current (ker s) with
  | Call a, None =>
      if decide (api_pre F a (ker s))
      then Some (next (current (ker s)) (run_api a (ker s)) (forget a (conts s))) else None
  | Resume, Some resume => Some (next (current (ker s)) (resume (ker s)) (conts s))
  | Irq i, _ => Some (settle (_enter_interrupt_exception (run_irq i) (ker s)) (conts s))
  | _, _ => None
  end.
Fixpoint run (acts : list act) (s : system) : option (option system) :=
  match acts with
  | [] => Some (Some s)
  | x :: acts =>
      match do_act x s with
      | Some (Some s) => run acts s
      | Some None => match acts with [] => Some None | _ => None end
      | None => None
      end
  end.

Lemma do_act_step x s s' : do_act x s = Some s' → step F s s'.
Proof.
  unfold do_act. destruct x as [a| |i]; destruct (conts s !! current (ker s)) as [resume|] eqn:Hc; try done; intros Hs.
  - case_decide; [|done]. injection Hs as <-. by apply step_call.
  - injection Hs as <-. by apply step_resume.
  - injection Hs as <-. apply step_irq.
  - injection Hs as <-. apply step_irq.
Qed.
Lemma run_reachable acts k0 s s' : reachable F k0 (Some s) → run acts s = Some s' → reachable F k0 s'.
Proof.
  revert s. induction acts as [|x acts IH]; intros s Hr Hs; simpl in Hs; [by injection Hs as <-|].
  destruct (do_act x s) as [[s1|]|] eqn:Hd; [|destruct acts; [injection Hs as <-|done]|done].
  - apply (IH s1); [|done]. apply (reach_step _ _ s); [done|by apply (do_act_step x)].
  - apply (reach_step _ _ s); [done|by apply (do_act_step x)].
Qed.

End run.

End system.

(** ** The properties at work *)
#[local] Existing Instance default_config.
Notation no_stop := (λ (_ : Z) (_ : nat) (k : kernel), Done tt k).

Lemma booted_listed : listed booted.
Proof.
  assert (all_threads booted = [_idle_thread; sc_main]) as Ea by by vm_compute. unfold listed. rewrite Ea. split.
  { apply NoDup_cons. split; [by rewrite list_elem_of_singleton|apply NoDup_singleton]. }
  intros t. destruct (decide (t ∈ dom (threads booted))) as [Ht|Ht].
  - assert (dom (threads booted) = {[0%nat; _idle_thread; sc_main]}) as Ed by by vm_compute. rewrite Ed in Ht.
    apply elem_of_union in Ht as [[->%elem_of_singleton| ->%elem_of_singleton]%elem_of_union| ->%elem_of_singleton]; [by vm_compute|intros _; by left|intros _; right; by left].
  - apply not_elem_of_dom in Ht. unfold gone, thr. by rewrite lookup_total_alt, Ht.
Qed.
Lemma booted_objects_ok : objects_ok booted.
Proof.
  split; [apply sems_ok_none; by vm_compute|]. split; [apply mutexes_ok_none; by vm_compute|]. split; [apply msgqs_ok_none; by vm_compute|].
  split; [apply timers_ok_none; by vm_compute|]. split; [apply booted_listed|]. split; [by vm_compute|]. intros d _ [Hd|Hd].
  - assert (timeout_q booted = []) as Eq by by vm_compute. rewrite Eq in Hd. by apply elem_of_nil in Hd.
  - apply Hd. unfold delta, tmo. assert (timeouts booted !! TWork d = None) as E; [|by rewrite lookup_total_alt, E].
    assert (∀ i, i ∈ dom (timeouts booted) → i = TThread _idle_thread ∨ i = TThread sc_main) as Hdom; [|apply not_elem_of_dom; intros Hin; by destruct (Hdom _ Hin)].
    assert (dom (timeouts booted) = {[TThread _idle_thread; TThread sc_main]}) as Ed by by vm_compute. rewrite Ed. set_solver.
Qed.
Lemma booted_sinv : sinv objects_ok booted.
Proof. split; [apply booted_sys_inv|apply booted_objects_ok]. Qed.
Lemma no_expiry_objects f o E k :
  kinv ∅ E k → objects_ok k → runnable ∅ k (current k) → nested k ≠ 0 → isr_kept objects_ok E k (no_expiry f o k).
Proof. by intros. Qed.

(** The main thread, of priority 0, and a worker of priority 5: the worker waits
    for the main thread's mutex with a timeout, both wake up at the same tick,
    the main thread runs first and unlocks the mutex. *)
Definition mutex_trace : list act :=
  [Call (ACreate sc_worker 5 0 0); Call (AMutexLock 0 K_FOREVER); Call (ASleep 10); Call (AMutexLock 0 10)] ++
  replicate 6 (Irq ITick) ++
  [Resume; Call (AMutexUnlock 0); Call (ASleep 10); Resume].

(** C40: a system that uses mutexes can crash: from boot, with two threads and one
    mutex, a [k_mutex_lock] that times out after its owner has unlocked the mutex
    dereferences the NULL owner. *)
Theorem mutex_timeout_crashes :
  sinv objects_ok booted ∧ reachable no_expiry no_stop True booted None.
Proof.
  split; [apply booted_sinv|]. apply (run_reachable _ _ True mutex_trace booted (mk_system booted ∅)); [apply reach_boot|].
  by vm_compute.
Qed.

(** A cooperative worker, created by the main thread, takes over at once. *)
Definition worker_trace : list act := [Call (ACreate sc_worker (- 1) 0 0); Irq ITick].


(** A worker is created and aborted; the clock ticks. *)
Definition abort_trace : list act := [Call (ACreate sc_worker 5 0 0); Call (AAbort sc_worker); Irq ITick].

(** The second [k_thread_abort] of a thread runs over the end of the list of all threads. *)
Lemma second_abort_crashes :
  k_thread_abort None sc_worker two_threads ≠ Fault ∧
  k_thread_abort None sc_worker (after (k_thread_abort None sc_worker two_threads)) = Fault.
Proof. by vm_compute. Qed.
