(* ===== verification/ActsRingbuf.v ===== *)
(** * The ring buffer of the audio path ([lib/utils/source/acts_ringbuf])

    [head] and [tail] run freely over 32 bits; the offset in the buffer is taken
    with a mask when the size is a power of two, with a modulo otherwise.  The
    element size is one byte. *)
From stdpp Require Import gmap list.
From S2P Require Import Prelude KState Mem Ring.
Local Open Scope Z_scope.

(** ** Data and operations *)

Record acts_ringbuf := mk_rb { head : Z; tail : Z; size : Z; mask : Z; cpu_ptr : Z; dsp_ptr : Z }.

(** The address translation of the SoC, which has no DSP (soc_dsp.h). *)
Definition mcu_to_dsp_data_address (mcu_addr : Z) : Z := 0.

Definition acts_ringbuf_init (data n : Z) : acts_ringbuf :=
  mk_rb 0 0 n (if is_power_of_two n then u32 (n - 1) else 0) data (mcu_to_dsp_data_address data).

Definition acts_ringbuf_length (b : acts_ringbuf) : Z := u32 (tail b - head b).
Definition acts_ringbuf_space (b : acts_ringbuf) : Z := u32 (size b - u32 (tail b - head b)).
Definition acts_ringbuf_is_empty (b : acts_ringbuf) : bool := head b =? tail b.
Definition acts_ringbuf_is_full (b : acts_ringbuf) : bool := size b =? u32 (tail b - head b).
Definition acts_ringbuf_is_half_empty (b : acts_ringbuf) : bool := u32 (tail b - head b) <=? Z.shiftr (size b) 1.
Definition acts_ringbuf_is_half_full (b : acts_ringbuf) : bool := Z.shiftr (size b) 1 <=? u32 (tail b - head b).
Definition acts_ringbuf_reset (b : acts_ringbuf) : acts_ringbuf := mk_rb 0 0 (size b) (mask b) (cpu_ptr b) (dsp_ptr b).

Definition set_head (v : Z) (b : acts_ringbuf) : acts_ringbuf := mk_rb v (tail b) (size b) (mask b) (cpu_ptr b) (dsp_ptr b).
Definition set_tail (v : Z) (b : acts_ringbuf) : acts_ringbuf := mk_rb (head b) v (size b) (mask b) (cpu_ptr b) (dsp_ptr b).
Definition add_head (n : Z) (b : acts_ringbuf) : acts_ringbuf := set_head (u32 (head b + n)) b.
Definition add_tail (n : Z) (b : acts_ringbuf) : acts_ringbuf := set_tail (u32 (tail b + n)) b.

(** [buf->mask ? (x & buf->mask) : (x % buf->size)] *)
Definition offset (b : acts_ringbuf) (x : Z) : Z := if mask b =? 0 then x mod size b else Z.land x (mask b).

Definition acts_ringbuf_peek (b : acts_ringbuf) (data n : Z) (m : gmap Z Z) : Z * gmap Z Z :=
  if acts_ringbuf_length b <? n then (0, m)
  else
    let off := offset b (head b) in
    let len := u32 (size b - off) in
    if n <=? len then (n, memcpy data (cpu_ptr b + off) n m)
    else (n, memcpy (data + len) (cpu_ptr b) (n - len) (memcpy data (cpu_ptr b + off) len m)).

Definition acts_ringbuf_get (b : acts_ringbuf) (data n : Z) (m : gmap Z Z) : Z * acts_ringbuf * gmap Z Z :=
  let (r, m) := acts_ringbuf_peek b data n m in (r, add_head r b, m).

(** The longest contiguous piece to read and to write, and where it starts. *)
Definition acts_ringbuf_get_claim (b : acts_ringbuf) (n : Z) : Z * Z :=
  let off := offset b (head b) in
  let max_size := Z.min (u32 (size b - off)) (acts_ringbuf_length b) in
  (cpu_ptr b + off, if n <=? max_size then n else max_size).
Definition acts_ringbuf_get_finish (b : acts_ringbuf) (n : Z) : Z * acts_ringbuf :=
  let off := offset b (head b) in
  let max_size := Z.min (u32 (size b - off)) (acts_ringbuf_length b) in
  if max_size <? n then (- EINVAL, b) else (0, add_head n b).

Definition acts_ringbuf_put (b : acts_ringbuf) (data n : Z) (m : gmap Z Z) : Z * acts_ringbuf * gmap Z Z :=
  if acts_ringbuf_space b <? n then (0, b, m)
  else
    let off := offset b (tail b) in
    let len := u32 (size b - off) in
    let m :=
      if n <=? len then memcpy (cpu_ptr b + off) data n m
      else memcpy (cpu_ptr b) (data + len) (n - len) (memcpy (cpu_ptr b + off) data len m) in
    (n, add_tail n b, m).

Definition acts_ringbuf_put_claim (b : acts_ringbuf) (n : Z) : Z * Z :=
  let off := offset b (tail b) in
  let max_size := Z.min (u32 (size b - off)) (acts_ringbuf_space b) in
  (cpu_ptr b + off, if n <=? max_size then n else max_size).
Definition acts_ringbuf_put_finish (b : acts_ringbuf) (n : Z) : Z * acts_ringbuf :=
  let off := offset b (tail b) in
  let max_size := Z.min (u32 (size b - off)) (acts_ringbuf_space b) in
  if max_size <? n then (- EINVAL, b) else (0, add_tail n b).

(** The [do ... while (1)] loop of [acts_ringbuf_copy]. *)
Fixpoint copy_loop (fuel : nat) (dst src : acts_ringbuf) (dst_off src_off n : Z) (m : gmap Z Z) : option (gmap Z Z) :=
  match fuel with
  | O => None
  | S fuel =>
      let len := Z.min (u32 (size src - src_off)) (u32 (size dst - dst_off)) in
      let len := if n <? len then n else len in
      let m := memcpy (cpu_ptr dst + dst_off) (cpu_ptr src + src_off) len m in
      let n := u32 (n - len) in
      if n =? 0 then Some m
      else
        let src_off := u32 (src_off + len) in
        let src_off := if size src <=? src_off then 0 else src_off in
        let dst_off := u32 (dst_off + len) in
        let dst_off := if size dst <=? dst_off then 0 else dst_off in
        copy_loop fuel dst src dst_off src_off n m
  end.

(** Each round copies a byte at least. *)
Definition acts_ringbuf_copy (dst src : acts_ringbuf) (n : Z) (m : gmap Z Z) : option (Z * acts_ringbuf * acts_ringbuf * gmap Z Z) :=
  let src_length := acts_ringbuf_length src in
  let dst_space := acts_ringbuf_space dst in
  let n := if src_length <? n then src_length else n in
  let n := if dst_space <? n then dst_space else n in
  if n =? 0 then Some (0, dst, src, m)
  else
    m ← copy_loop (Z.to_nat n) dst src (offset dst (tail dst)) (offset src (head src)) n m;
    Some (n, add_tail n dst, add_head n src, m).

Definition acts_ringbuf_drop (b : acts_ringbuf) (n : Z) : Z * acts_ringbuf :=
  if acts_ringbuf_length b <? n then (0, b) else (n, add_head n b).
Definition acts_ringbuf_drop_all (b : acts_ringbuf) : Z * acts_ringbuf :=
  let length := acts_ringbuf_length b in (length, add_head length b).

Definition acts_ringbuf_fill (b : acts_ringbuf) (c n : Z) (m : gmap Z Z) : Z * acts_ringbuf * gmap Z Z :=
  if acts_ringbuf_space b <? n then (0, b, m)
  else
    let off := offset b (tail b) in
    let len := u32 (size b - off) in
    let m :=
      if n <=? len then memset (cpu_ptr b + off) c n m
      else memset (cpu_ptr b) c (n - len) (memset (cpu_ptr b + off) c len m) in
    (n, add_tail n b, m).
Definition acts_ringbuf_fill_none (b : acts_ringbuf) (n : Z) : Z * acts_ringbuf :=
  if acts_ringbuf_space b <? n then (0, b) else (n, add_tail n b).

Definition acts_ringbuf_head_ptr (b : acts_ringbuf) : Z * Z := acts_ringbuf_get_claim b (acts_ringbuf_length b).
Definition acts_ringbuf_tail_ptr (b : acts_ringbuf) : Z * Z := acts_ringbuf_put_claim b (acts_ringbuf_space b).

(** Moves the contents to the start of the buffer when they do not wrap. *)
Definition acts_ringbuf_defrag (b : acts_ringbuf) (m : gmap Z Z) : acts_ringbuf * gmap Z Z :=
  let roff := offset b (head b) in
  let woff := offset b (tail b) in
  let out_exit b := set_head 0 (set_tail (u32 (tail b - head b)) b) in
  if (roff =? 0) || acts_ringbuf_is_empty b then (out_exit b, m)
  else if woff <=? roff then (set_tail (u32 (woff + size b)) (set_head roff b), m)
  else (out_exit b, memcpy (cpu_ptr b) (cpu_ptr b + roff) (woff - roff) m).

(** Transfers with a stream: the stream's functions are the caller's.  They
    return the bytes they moved, or a negative error. *)
Section Streams.
Context {S : Type}.

Definition acts_ringbuf_read (stream_write : Z → Z → gmap Z Z → S → Z * S) (b : acts_ringbuf) (n : Z) (m : gmap Z Z) (s : S) :
  Z * acts_ringbuf * S :=
  if acts_ringbuf_length b <? n then (0, b, s)
  else
    let off := offset b (head b) in
    let len := u32 (size b - off) in
    let (stream_len, s) :=
      if n <=? len then stream_write (cpu_ptr b + off) n m s
      else
        let (stream_len, s) := stream_write (cpu_ptr b + off) len m s in
        if stream_len =? len then
          let (tmp, s) := stream_write (cpu_ptr b) (n - len) m s in
          (if 0 <? tmp then stream_len + tmp else stream_len, s)
        else (stream_len, s) in
    if 0 <? stream_len then (stream_len, add_head stream_len b, s) else (0, b, s).

Definition acts_ringbuf_write (stream_read : Z → Z → gmap Z Z → S → Z * gmap Z Z * S) (b : acts_ringbuf) (n : Z) (m : gmap Z Z) (s : S) :
  Z * acts_ringbuf * gmap Z Z * S :=
  if acts_ringbuf_space b <? n then (0, b, m, s)
  else
    let off := offset b (tail b) in
    let len := u32 (size b - off) in
    let '(stream_len, m, s) :=
      if n <=? len then stream_read (cpu_ptr b + off) n m s
      else
        let '(stream_len, m, s) := stream_read (cpu_ptr b + off) len m s in
        if stream_len =? len then
          let '(tmp, m, s) := stream_read (cpu_ptr b) (n - len) m s in
          (if 0 <? tmp then stream_len + tmp else stream_len, m, s)
        else (stream_len, m, s) in
    if 0 <? stream_len then (stream_len, add_tail stream_len b, m, s) else (0, b, m, s).
End Streams.

(** ** The invariant *)

Record rb_ok (b : acts_ringbuf) : Prop := {
  ok_size : 0 < size b < 4294967296;
  ok_head : 0 ≤ head b < 4294967296;
  ok_tail : 0 ≤ tail b < 4294967296;
  ok_length : acts_ringbuf_length b ≤ size b;
  ok_mask : mask b = 0 ∨ (pow2 (size b) ∧ mask b = size b - 1);
  (** unless the size divides 2{^32}, the indices have not wrapped *)
  ok_wrap : pow2 (size b) ∨ head b ≤ tail b
}.

(** The bytes in the buffer, oldest first. *)
Definition contents (m : gmap Z Z) (b : acts_ringbuf) : list Z :=
  rng m (cpu_ptr b) (size b) (head b) (acts_ringbuf_length b).

(** [n] more bytes can be put without the tail wrapping at the wrong place. *)
Definition no_wrap (n : Z) (b : acts_ringbuf) : Prop := pow2 (size b) ∨ tail b + n < 4294967296.

Section Ok.
Context (b : acts_ringbuf) (Hb : rb_ok b).

Lemma offset_mod x : offset b x = x mod size b.
Proof. apply mask_mod, (ok_mask b Hb). Qed.
Lemma length_bounds : 0 ≤ acts_ringbuf_length b ≤ size b.
Proof. split; [apply u32_range|apply (ok_length b Hb)]. Qed.
Lemma space_eq : acts_ringbuf_space b = size b - acts_ringbuf_length b.
Proof.
  unfold acts_ringbuf_space. pose proof length_bounds as Hl. unfold acts_ringbuf_length in *. pose proof (ok_size b Hb).
  apply u32_id. lia.
Qed.
Lemma offset_bounds x : 0 ≤ offset b x < size b.
Proof. rewrite offset_mod. apply Z.mod_pos_bound, (ok_size b Hb). Qed.
Lemma rest_eq x : u32 (size b - offset b x) = size b - offset b x.
Proof. pose proof (offset_bounds x). pose proof (ok_size b Hb). apply u32_id. lia. Qed.

Lemma tail_eq : tail b = u32 (head b + acts_ringbuf_length b).
Proof.
  unfold acts_ringbuf_length, u32. rewrite Zplus_mod_idemp_r. replace (head b + (tail b - head b)) with (tail b) by lia.
  symmetry. apply Z.mod_small, (ok_tail b Hb).
Qed.
Lemma tail_mod : tail b mod size b = (head b + acts_ringbuf_length b) mod size b.
Proof.
  destruct (ok_wrap b Hb) as [Hp|Hle].
  - rewrite tail_eq at 1. apply u32_mod_pow2; [apply (ok_size b Hb)|done].
  - f_equal. unfold acts_ringbuf_length. pose proof (ok_head b Hb). pose proof (ok_tail b Hb). rewrite u32_id; lia.
Qed.

Lemma length_add_head n : 0 ≤ n ≤ acts_ringbuf_length b → acts_ringbuf_length (add_head n b) = acts_ringbuf_length b - n.
Proof.
  unfold acts_ringbuf_length. simpl. intros Hn. pose proof length_bounds as Hl. pose proof (ok_size b Hb).
  unfold acts_ringbuf_length in Hl. transitivity (u32 (u32 (tail b - head b) - n)).
  - unfold u32. rewrite Zminus_mod_idemp_r, Zminus_mod_idemp_l. f_equal. lia.
  - apply u32_id. lia.
Qed.
Lemma length_add_tail n : 0 ≤ n ≤ acts_ringbuf_space b → acts_ringbuf_length (add_tail n b) = acts_ringbuf_length b + n.
Proof.
  rewrite space_eq. unfold acts_ringbuf_length. simpl. intros Hn. pose proof length_bounds as Hl. pose proof (ok_size b Hb) as Hs.
  unfold acts_ringbuf_length in Hl. destruct (decide (u32 (tail b - head b) + n < 4294967296)); [|lia].
  transitivity (u32 (u32 (tail b - head b) + n)); [|apply u32_id; lia].
  unfold u32. rewrite Zminus_mod_idemp_l, Zplus_mod_idemp_l. f_equal. lia.
Qed.

Lemma rb_ok_add_head n : 0 ≤ n ≤ acts_ringbuf_length b → rb_ok (add_head n b).
Proof.
  intros Hn. constructor; simpl; try apply Hb.
  - apply u32_range.
  - rewrite length_add_head by done. pose proof length_bounds. lia.
  - destruct (ok_wrap b Hb) as [|Hle]; [by left|right]. unfold acts_ringbuf_length in Hn.
    pose proof (ok_head b Hb). pose proof (ok_tail b Hb). rewrite (u32_id (tail b - head b)) in Hn by lia. rewrite u32_id; lia.
Qed.
Lemma rb_ok_add_tail n : 0 ≤ n ≤ acts_ringbuf_space b → no_wrap n b → rb_ok (add_tail n b).
Proof.
  intros Hn Hw. constructor; simpl; try apply Hb.
  - apply u32_range.
  - rewrite length_add_tail by done. rewrite space_eq in Hn. lia.
  - destruct (ok_wrap b Hb) as [|Hle]; [by left|]. destruct Hw as [|Hw]; [by left|right].
    pose proof (ok_tail b Hb). rewrite u32_id; lia.
Qed.

(** The offset of the head after [n] bytes have been taken. *)
Lemma head_mod n : 0 ≤ n ≤ acts_ringbuf_length b → u32 (head b + n) mod size b = (head b + n) mod size b.
Proof.
  intros Hn. destruct (ok_wrap b Hb) as [Hp|Hle]; [apply u32_mod_pow2; [apply (ok_size b Hb)|done]|].
  f_equal. unfold acts_ringbuf_length in Hn. pose proof (ok_head b Hb). pose proof (ok_tail b Hb).
  rewrite (u32_id (tail b - head b)) in Hn by lia. apply u32_id. lia.
Qed.

(** Taking [n] bytes off the head splits the contents. *)
Lemma contents_add_head n m :
  0 ≤ n ≤ acts_ringbuf_length b →
  contents m b = rng m (cpu_ptr b) (size b) (head b) n ++ contents m (add_head n b).
Proof.
  intros Hn. unfold contents. rewrite length_add_head by done. simpl.
  rewrite <-(rng_mod m _ (size b) (u32 _)), head_mod, rng_mod, <-rng_app by lia. f_equal. lia.
Qed.
End Ok.
#[export] Hint Resolve rb_ok_add_head rb_ok_add_tail : kern.

Lemma contents_ext m m' b :
  rb_ok b → (∀ a, cpu_ptr b ≤ a < cpu_ptr b + size b → m !!! a = m' !!! a) → contents m b = contents m' b.
Proof.
  intros Hb Hm. apply rng_ext. intros i Hi. apply Hm. pose proof (ok_size b Hb).
  pose proof (Z.mod_pos_bound (head b + i) (size b)). lia.
Qed.

(** ** Put and get *)

Lemma peek_eq b data n m :
  rb_ok b → n ≤ acts_ringbuf_length b →
  acts_ringbuf_peek b data n m = (n, copy_out (cpu_ptr b) (size b) (offset b (head b)) data n m).
Proof.
  intros Hb Hn. unfold acts_ringbuf_peek, copy_out. cbv zeta. rewrite rest_eq by done.
  rewrite (proj2 (Z.ltb_ge _ _) Hn). by destruct (n <=? _).
Qed.
Lemma put_eq b data n m :
  rb_ok b → n ≤ acts_ringbuf_space b →
  acts_ringbuf_put b data n m = (n, add_tail n b, copy_in (cpu_ptr b) (size b) (offset b (tail b)) data n m).
Proof.
  intros Hb Hn. unfold acts_ringbuf_put, copy_in. cbv zeta. rewrite rest_eq by done.
  by rewrite (proj2 (Z.ltb_ge _ _) Hn).
Qed.

(** Writing [n] bytes at the tail and moving it appends them. *)
Lemma contents_append b data n m :
  rb_ok b → 0 ≤ n ≤ acts_ringbuf_space b → disjoint_ranges data n (cpu_ptr b) (size b) →
  contents (copy_in (cpu_ptr b) (size b) (offset b (tail b)) data n m) (add_tail n b) = contents m b ++ bytes m data n.
Proof.
  intros Hb Hn Hd. unfold contents. rewrite length_add_tail, offset_mod, tail_mod by done. simpl.
  rewrite space_eq in Hn by done. pose proof (length_bounds b Hb). pose proof (ok_size b Hb).
  apply copy_in_appends; [lia..|done].
Qed.

Lemma acts_ringbuf_init_ok data n m :
  0 < n < 4294967296 → rb_ok (acts_ringbuf_init data n) ∧ contents m (acts_ringbuf_init data n) = [].
Proof.
  intros Hn. split; [|done]. constructor; simpl; try (unfold acts_ringbuf_length; simpl); try lia.
  - change (0 ≤ n). lia.
  - by apply is_power_of_two_mask.
Qed.

Notation rb4 := (mk_rb 4294967294 4294967295 4 3 100 0).
Lemma rb4_ok : rb_ok rb4.
Proof.
  constructor; try (by vm_compute); simpl; try lia.
  right. split; [by exists 2|done].
Qed.

(** When the size is not a power of two the offsets jump when an index wraps at
    2{^32}: in a buffer of three bytes whose indices stand at 2{^32} - 1, the bytes 1 and 2
    are put and the bytes 1 and 1 come out. *)
Theorem acts_ringbuf_modulo_wrap_corrupts :
  let b := set_head 4294967295 (set_tail 4294967295 (acts_ringbuf_init 100 3)) in
  let '(_, b, m) := acts_ringbuf_put b 200 2 (write_bytes 200 [1; 2] ∅) in
  let '(r1, b, m) := acts_ringbuf_get b 300 1 m in
  let '(r2, b, m) := acts_ringbuf_get b 301 1 m in
  r1 = 1 ∧ r2 = 1 ∧ acts_ringbuf_is_empty b = true ∧ bytes m 300 2 = [1; 1].
Proof. by vm_compute. Qed.

(** ** From buffer to buffer *)

(** An offset advanced by a piece that ends at the end of the buffer at the latest. *)
Lemma next_offset sz off len :
  0 < sz < 4294967296 → 0 ≤ off → 0 ≤ len → off + len ≤ sz →
  (if sz <=? u32 (off + len) then 0 else u32 (off + len)) = (off + len) mod sz.
Proof.
  intros Hs Ho Hl Hle. rewrite u32_id by lia. destruct (sz <=? off + len) eqn:E; zbool.
  - replace (off + len) with sz by lia. symmetry. apply Z.mod_same. lia.
  - symmetry. apply Z.mod_small. lia.
Qed.

Section Copy.
Context (dst src : acts_ringbuf).
Hypothesis Hds : 0 < size dst < 4294967296.
Hypothesis Hss : 0 < size src < 4294967296.
Hypothesis Hd : disjoint_ranges (cpu_ptr src) (size src) (cpu_ptr dst) (size dst).

Definition copied (n doff soff : Z) (m m' : gmap Z Z) : Prop :=
  rng m' (cpu_ptr dst) (size dst) doff n = rng m (cpu_ptr src) (size src) soff n ∧
  (∀ i, n ≤ i < size dst →
     m' !!! (cpu_ptr dst + (doff + i) mod size dst) = m !!! (cpu_ptr dst + (doff + i) mod size dst)) ∧
  (∀ a, a < cpu_ptr dst ∨ cpu_ptr dst + size dst ≤ a → m' !!! a = m !!! a).

Lemma copied_piece len doff soff m :
  0 ≤ doff → 0 ≤ soff → 0 ≤ len → doff + len ≤ size dst → soff + len ≤ size src →
  copied len doff soff m (memcpy (cpu_ptr dst + doff) (cpu_ptr src + soff) len m).
Proof.
  intros Hdo Hso Hl Hdl Hsl. split_and!.
  - rewrite !rng_bytes by lia. apply bytes_memcpy.
  - intros i Hi. apply memcpy_other. destruct (decide (doff < size dst)) as [Hlt|]; [|lia].
    rewrite mod_wrap by lia. destruct (doff + i <? size dst) eqn:E; zbool; lia.
  - intros a Ha. apply memcpy_other. lia.
Qed.

Lemma copied_trans l1 l2 doff soff m m1 m2 :
  0 ≤ l1 → 0 ≤ l2 → l1 + l2 ≤ size dst → copied l1 doff soff m m1 → copied l2 (doff + l1) (soff + l1) m1 m2 →
  copied (l1 + l2) doff soff m m2.
Proof.
  intros Hl1 Hl2 Hl (A1 & A2 & A3) (B1 & B2 & B3). split_and!.
  - rewrite !rng_app by done. f_equal.
    + rewrite <-A1. apply rng_ext. intros i Hi. specialize (B2 (size dst - l1 + i) ltac:(lia)).
      replace (doff + l1 + (size dst - l1 + i)) with ((doff + i) + 1 * size dst) in B2 by lia.
      rewrite Z.mod_add in B2 by lia. exact B2.
    + rewrite B1. apply rng_ext. intros i Hi. apply A3. pose proof (Z.mod_pos_bound (soff + l1 + i) (size src)).
      unfold disjoint_ranges in Hd. lia.
  - intros i Hi. rewrite <-A2 by lia. specialize (B2 (i - l1) ltac:(lia)).
    by replace (doff + l1 + (i - l1)) with (doff + i) in B2 by lia.
  - intros a Ha. rewrite B3 by done. by apply A3.
Qed.

Lemma copied_mod n doff soff m m' : copied n (doff mod size dst) (soff mod size src) m m' → copied n doff soff m m'.
Proof.
  intros (A1 & A2 & A3). split_and!; [by rewrite !rng_mod in A1|intros i Hi|done].
  specialize (A2 i Hi). by rewrite Zplus_mod_idemp_l in A2.
Qed.

Lemma copy_loop_spec fuel doff soff n m :
  0 ≤ doff < size dst → 0 ≤ soff < size src → 0 < n ≤ size dst → (Z.to_nat n ≤ fuel)%nat →
  ∃ m', copy_loop fuel dst src doff soff n m = Some m' ∧ copied n doff soff m m'.
Proof.
  revert doff soff n m. induction fuel as [|fuel IH]; intros doff soff n m Hdo Hso Hn Hf; [lia|]. simpl.
  rewrite (u32_id (size src - soff)), (u32_id (size dst - doff)) by lia.
  set (l0 := Z.min (size src - soff) (size dst - doff)). set (len := if n <? l0 then n else l0).
  assert (Hlen : 0 < len ≤ n ∧ doff + len ≤ size dst ∧ soff + len ≤ size src).
  { unfold len, l0. destruct (n <? _) eqn:E; zbool; lia. }
  rewrite (u32_id (n - len)) by lia. pose proof (copied_piece len doff soff m) as Hp.
  destruct (n - len =? 0) eqn:E; zbool.
  - eexists. split; [done|]. replace n with len by lia. apply Hp; lia.
  - rewrite !next_offset by lia. destruct (IH ((doff + len) mod size dst) ((soff + len) mod size src) (n - len)
      (memcpy (cpu_ptr dst + doff) (cpu_ptr src + soff) len m)) as (m' & Hm' & Hc);
      [apply Z.mod_pos_bound; lia|apply Z.mod_pos_bound; lia|lia|lia|].
    exists m'. split; [done|]. replace n with (len + (n - len)) by lia.
    eapply copied_trans; [lia|lia|lia|apply Hp; lia|by apply copied_mod].
Qed.
End Copy.

Lemma contents_copied dst src n m m' :
  rb_ok dst → rb_ok src → 0 ≤ n ≤ acts_ringbuf_space dst →
  copied dst src n (offset dst (tail dst)) (offset src (head src)) m m' →
  contents m' (add_tail n dst) = contents m dst ++ rng m (cpu_ptr src) (size src) (head src) n.
Proof.
  intros Hd Hs Hn (A1 & A2 & _). rewrite !offset_mod, tail_mod, !rng_mod in A1 by done. unfold contents.
  rewrite length_add_tail by done. simpl. pose proof (length_bounds dst Hd) as Hl. rewrite space_eq in Hn by done.
  rewrite rng_app, A1 by lia. f_equal. apply rng_ext. intros i Hi.
  rewrite offset_mod, tail_mod in A2 by done. specialize (A2 (size dst - acts_ringbuf_length dst + i) ltac:(lia)).
  rewrite Zplus_mod_idemp_l in A2. pose proof (ok_size dst Hd).
  replace (head dst + acts_ringbuf_length dst + (size dst - acts_ringbuf_length dst + i)) with (head dst + i + 1 * size dst) in A2 by lia.
  by rewrite Z.mod_add in A2 by lia.
Qed.


(** ** Zero-copy access *)

(** Bytes left by anyone in the free area behind the tail become the newest
    bytes when the tail moves over them. *)
Lemma contents_extend b n m m' :
  rb_ok b → 0 ≤ n ≤ acts_ringbuf_space b →
  (∀ i, 0 ≤ i < acts_ringbuf_length b →
     m' !!! (cpu_ptr b + (head b + i) mod size b) = m !!! (cpu_ptr b + (head b + i) mod size b)) →
  contents m' (add_tail n b) = contents m b ++ rng m' (cpu_ptr b) (size b) (offset b (tail b)) n.
Proof.
  intros Hb Hn Hm. unfold contents. rewrite length_add_tail, offset_mod, tail_mod, rng_mod by done. simpl.
  pose proof (length_bounds b Hb). rewrite rng_app by lia. f_equal. apply rng_ext. exact Hm.
Qed.

(** No byte of the contents lies in the free area. *)
Lemma contents_not_free b i j :
  rb_ok b → 0 ≤ i < acts_ringbuf_length b → 0 ≤ j < acts_ringbuf_space b →
  (head b + i) mod size b ≠ (offset b (tail b) + j) mod size b.
Proof.
  intros Hb Hi Hj He. pose proof (ok_size b Hb) as Hs. pose proof (length_bounds b Hb). rewrite space_eq in Hj by done.
  rewrite offset_mod, tail_mod, Zplus_mod_idemp_l in He by done.
  set (d := acts_ringbuf_length b + j - i). assert (Hd : d mod size b = 0).
  { replace d with ((head b + acts_ringbuf_length b + j) - (head b + i)) by (unfold d; lia).
    rewrite Zminus_mod, He, Z.sub_diag. apply Z.mod_0_l. lia. }
  rewrite Z.mod_small in Hd; unfold d in *; lia.
Qed.

(** The claimed areas: [acts_ringbuf_put_claim] returns an area of the buffer
    that holds none of its contents, and whatever [k] bytes the caller writes at
    its start, [acts_ringbuf_put_finish] appends; [acts_ringbuf_get_claim] returns the area of the oldest bytes, and
    [acts_ringbuf_get_finish] removes them.  Finishing more than can be claimed is
    refused with [-EINVAL] and changes nothing. *)
Theorem acts_ringbuf_claims b n k m :
  rb_ok b → 0 ≤ n → 0 ≤ k → no_wrap k b →
  (let (ptr, r) := acts_ringbuf_put_claim b n in
   r ≤ n ∧ cpu_ptr b ≤ ptr ∧ ptr + r ≤ cpu_ptr b + size b ∧
   (k ≤ r → ∀ m', (∀ a, a < ptr ∨ ptr + r ≤ a → m' !!! a = m !!! a) →
      let (e, b') := acts_ringbuf_put_finish b k in
      e = 0 ∧ rb_ok b' ∧ contents m' b' = contents m b ++ bytes m' ptr k)) ∧
  (let (ptr, r) := acts_ringbuf_get_claim b n in
   r ≤ n ∧
   (k ≤ r → let (e, b') := acts_ringbuf_get_finish b k in
      e = 0 ∧ rb_ok b' ∧ contents m b = bytes m ptr k ++ contents m b')) ∧
  (acts_ringbuf_space b < k → acts_ringbuf_put_finish b k = (- EINVAL, b)) ∧
  (acts_ringbuf_length b < k → acts_ringbuf_get_finish b k = (- EINVAL, b)).
Proof.
  intros Hb Hn Hk Hw. unfold acts_ringbuf_put_claim, acts_ringbuf_put_finish, acts_ringbuf_get_claim, acts_ringbuf_get_finish.
  cbv zeta. rewrite !rest_eq by done. pose proof (offset_bounds b Hb (tail b)) as Ht. pose proof (offset_bounds b Hb (head b)) as Hh.
  pose proof (length_bounds b Hb) as Hl. pose proof (space_eq b Hb) as Hsp.
  split; [|split; [|split]].
  - set (x := Z.min _ _). assert (Hx : x ≤ size b - offset b (tail b) ∧ x ≤ acts_ringbuf_space b) by lia. clearbody x.
    set (r := if n <=? x then n else x). assert (Hr : r ≤ n ∧ r ≤ x) by (unfold r; destruct (n <=? x) eqn:E; zbool; lia).
    clearbody r. cbv beta iota. split_and!; [lia..|]. intros Hkr m' Hm'. rewrite (proj2 (Z.ltb_ge _ _)) by lia. cbv beta iota.
    split_and!; [done|by apply rb_ok_add_tail; [|lia|]|]. rewrite <-(rng_bytes _ _ (size b)) by lia.
    apply contents_extend; [done|lia|]. intros i Hi. apply Hm'. set (p := (head b + i) mod size b).
    assert (Hp : 0 ≤ p < size b) by (apply Z.mod_pos_bound; lia). destruct (decide (p < offset b (tail b) ∨ offset b (tail b) + r ≤ p)) as [?|Hin]; [lia|].
    exfalso. apply (contents_not_free b i (p - offset b (tail b)) Hb Hi); [lia|]. fold p.
    replace (_ + (p - _)) with p by lia. symmetry. apply Z.mod_small. lia.
  - set (x := Z.min _ _). assert (Hx : x ≤ size b - offset b (head b) ∧ x ≤ acts_ringbuf_length b) by lia. clearbody x.
    set (r := if n <=? x then n else x). assert (Hr : r ≤ n ∧ r ≤ x) by (unfold r; destruct (n <=? x) eqn:E; zbool; lia).
    clearbody r. cbv beta iota. split; [lia|]. intros Hkr. rewrite (proj2 (Z.ltb_ge _ _)) by lia. cbv beta iota. split_and!; [done|by apply rb_ok_add_head; [|lia]|].
    rewrite (contents_add_head b Hb k) by lia. f_equal. rewrite <-rng_mod, <-offset_mod by done. apply rng_bytes; lia.
  - intros Hkb. by rewrite (proj2 (Z.ltb_lt _ _)) by lia.
  - intros Hkb. by rewrite (proj2 (Z.ltb_lt _ _)) by lia.
Qed.
Lemma acts_ringbuf_claims_witness : acts_ringbuf_put_finish rb4 4 = (- EINVAL, rb4).
Proof.
  apply (acts_ringbuf_claims rb4 3 4 ∅).
  - apply rb4_ok.
  - lia.
  - lia.
  - left. by exists 2.
  - by vm_compute.
Defined.

(** ** Defragmentation *)

(** Where the contents lie: they wrap exactly when the tail's offset is not after the head's. *)
Lemma length_offsets b :
  rb_ok b → acts_ringbuf_is_empty b = false →
  acts_ringbuf_length b =
    if offset b (tail b) <=? offset b (head b) then offset b (tail b) + size b - offset b (head b)
    else offset b (tail b) - offset b (head b).
Proof.
  intros Hb He. unfold acts_ringbuf_is_empty in He. apply Z.eqb_neq in He. pose proof (ok_size b Hb) as Hs.
  pose proof (length_bounds b Hb) as Hl. assert (Hne : acts_ringbuf_length b ≠ 0).
  { intros H0. apply He. rewrite (tail_eq b Hb), H0, Z.add_0_r. symmetry. apply u32_id, (ok_head b Hb). }
  pose proof (offset_bounds b Hb (head b)) as Ho.
  assert (offset b (tail b) = (offset b (head b) + acts_ringbuf_length b) mod size b) as ->
    by (by rewrite !offset_mod, Zplus_mod_idemp_l, tail_mod).
  destruct (decide (acts_ringbuf_length b = size b)) as [Hf|Hf].
  - rewrite Hf. assert ((offset b (head b) + size b) mod size b = offset b (head b)) as ->.
    { rewrite <-Z.add_mod_idemp_r, Z.mod_same, Z.add_0_r by lia. apply Z.mod_small. lia. }
    rewrite (proj2 (Z.leb_le _ _)) by lia. lia.
  - rewrite mod_wrap by lia. destruct (_ <? size b) eqn:E; zbool.
    + rewrite (proj2 (Z.leb_gt _ _)) by lia. lia.
    + rewrite (proj2 (Z.leb_le _ _)) by lia. lia.
Qed.

(** The buffer with its contents moved to the start. *)
Lemma rebased b :
  rb_ok b → let c := set_head 0 (set_tail (u32 (tail b - head b)) b) in
  rb_ok c ∧ acts_ringbuf_length c = acts_ringbuf_length b ∧ tail c ≤ size b.
Proof.
  intros Hb c. pose proof (length_bounds b Hb) as Hl.
  assert (Hlc : acts_ringbuf_length c = acts_ringbuf_length b).
  { unfold acts_ringbuf_length. simpl. rewrite Z.sub_0_r. apply u32_id, u32_range. }
  split_and!; [constructor; try apply Hb; rewrite ?Hlc; simpl; try lia; [apply u32_range|right; apply u32_range]|done|apply Hl].
Qed.

(** [acts_ringbuf_defrag] keeps the contents and leaves the head inside the
    buffer, at its start unless the contents wrap, so that calling it keeps the indices of a buffer of any size from
    wrapping at 2{^32}. *)
Theorem acts_ringbuf_defrag_keeps b m :
  rb_ok b → 2 * size b ≤ 4294967296 →
  let (b', m') := acts_ringbuf_defrag b m in
  rb_ok b' ∧ contents m' b' = contents m b ∧ 0 ≤ head b' < size b ∧ head b' ≤ tail b' ∧ tail b' < 2 * size b ∧
  (head b' = 0 ∨ size b ≤ tail b').
Proof.
  intros Hb H2. unfold acts_ringbuf_defrag. cbv zeta. pose proof (ok_size b Hb) as Hs. pose proof (length_bounds b Hb) as Hl.
  pose proof (offset_bounds b Hb (tail b)) as Hto. pose proof (offset_bounds b Hb (head b)) as Hho.
  pose proof (u32_range (tail b - head b)). destruct (rebased b Hb) as (Hc & Hlc & Htc). simpl in Htc.
  destruct (offset b (head b) =? 0) eqn:E0; [|destruct (acts_ringbuf_is_empty b) eqn:Ee]; simpl; zbool.
  - split_and!; try done; simpl; try lia. unfold contents. rewrite Hlc. simpl.
    rewrite offset_mod in E0 by done. by rewrite <-(rng_mod _ _ _ (head b)), E0.
  - split_and!; try done; simpl; try lia. unfold contents. rewrite Hlc. unfold acts_ringbuf_is_empty in Ee. apply Z.eqb_eq in Ee.
    unfold acts_ringbuf_length. by rewrite Ee, Z.sub_diag.
  - pose proof (length_offsets b Hb Ee) as Hlo. destruct (offset b (tail b) <=? offset b (head b)) eqn:E; zbool.
    + set (b' := set_tail _ _). assert (Hl' : acts_ringbuf_length b' = acts_ringbuf_length b).
      { rewrite Hlo. unfold acts_ringbuf_length, b'. simpl. rewrite (u32_id (_ + size b)), u32_id by lia. lia. }
      assert (Ht' : tail b' = offset b (tail b) + size b) by (simpl; apply u32_id; lia).
      split_and!; try (rewrite ?Ht'; simpl; lia); [constructor; try apply Hb; rewrite ?Ht', ?Hl'; simpl; lia|].
      unfold contents. rewrite Hl'. simpl. by rewrite offset_mod, rng_mod.
    + split_and!; try done; simpl; try lia. unfold contents. rewrite Hlc. simpl.
      rewrite <-(rng_mod m _ _ (head b)), <-(offset_mod b Hb), !rng_bytes by lia. rewrite Z.add_0_r, Hlo. apply bytes_memcpy.
Qed.
Lemma acts_ringbuf_defrag_keeps_witness :
  let m := write_bytes 100 [1; 2; 3; 4] ∅ in let (b', m') := acts_ringbuf_defrag rb4 m in contents m' b' = [3] ∧ head b' = 0.
Proof.
  intros m. pose proof (acts_ringbuf_defrag_keeps rb4 m rb4_ok ltac:(by vm_compute)) as H.
  destruct (acts_ringbuf_defrag rb4 m) as [b' m'] eqn:E. destruct H as (_ & -> & _). split; [by vm_compute|].
  vm_compute in E. by injection E as <- _.
Defined.

(** ** Filling, dropping and streams *)

(** Only the free area behind the tail changes. *)
Definition only_free (b : acts_ringbuf) (n : Z) (m m' : gmap Z Z) : Prop :=
  ∀ a, (∀ j, 0 ≤ j < n → a ≠ cpu_ptr b + (offset b (tail b) + j) mod size b) → m' !!! a = m !!! a.

Lemma contents_only_free b n m m' :
  rb_ok b → 0 ≤ n ≤ acts_ringbuf_space b → only_free b n m m' →
  contents m' (add_tail n b) = contents m b ++ rng m' (cpu_ptr b) (size b) (offset b (tail b)) n.
Proof.
  intros Hb Hn Hm. apply contents_extend; [done..|]. intros i Hi. apply Hm. intros j Hj He.
  apply (contents_not_free b i j Hb Hi); lia.
Qed.

(** A write that starts at the tail's offset and does not wrap, and one at the
    start of the buffer after one that filled it to its end. *)
Lemma only_free_piece b n m m' :
  rb_ok b → offset b (tail b) + n ≤ size b →
  (∀ a, a < cpu_ptr b + offset b (tail b) ∨ cpu_ptr b + offset b (tail b) + n ≤ a → m' !!! a = m !!! a) → only_free b n m m'.
Proof.
  intros Hb Hn Hm a Ha. pose proof (offset_bounds b Hb (tail b)). set (o := offset b (tail b)) in *. apply Hm.
  destruct (decide (a < cpu_ptr b + o ∨ cpu_ptr b + o + n ≤ a)) as [|Hin]; [done|]. exfalso.
  apply (Ha (a - cpu_ptr b - o)); [lia|]. rewrite Z.mod_small; lia.
Qed.
Lemma only_free_wrap b n m m' :
  rb_ok b → size b - offset b (tail b) ≤ n ≤ size b →
  (∀ a, cpu_ptr b + (n - (size b - offset b (tail b))) ≤ a < cpu_ptr b + offset b (tail b) ∨
        a < cpu_ptr b ∨ cpu_ptr b + size b ≤ a → m' !!! a = m !!! a) → only_free b n m m'.
Proof.
  intros Hb Hn Hm a Ha. pose proof (offset_bounds b Hb (tail b)) as Ho. set (o := offset b (tail b)) in *. apply Hm.
  set (i := a - cpu_ptr b). destruct (decide (0 ≤ i < size b)) as [Hi|]; [|lia]. left.
  destruct (decide (i < o)) as [Hlt|Hge].
  - destruct (decide (n - (size b - o) ≤ i)) as [|Hin]; [lia|]. exfalso. apply (Ha (i + size b - o)); [lia|].
    replace (o + (i + size b - o)) with (i + 1 * size b) by lia. rewrite Z.mod_add, Z.mod_small by lia. lia.
  - exfalso. apply (Ha (i - o)); [lia|]. rewrite Z.mod_small; lia.
Qed.

(** [acts_ringbuf_fill] appends [n] bytes [c], and [acts_ringbuf_drop] and
    [acts_ringbuf_drop_all] discard the oldest bytes; a fill that does not fit and a drop of more than there is change nothing. *)
Theorem acts_ringbuf_fill_drop b c n m :
  rb_ok b → 0 ≤ n → no_wrap n b →
  (let '(r, b', m') := acts_ringbuf_fill b c n m in
   rb_ok b' ∧ r = (if n <=? acts_ringbuf_space b then n else 0) ∧
   contents m' b' = contents m b ++ replicate (Z.to_nat r) c) ∧
  (let (r, b') := acts_ringbuf_drop b n in
   rb_ok b' ∧ r = (if n <=? acts_ringbuf_length b then n else 0) ∧ contents m b' = drop (Z.to_nat r) (contents m b)) ∧
  (let (r, b') := acts_ringbuf_drop_all b in
   rb_ok b' ∧ r = Z.of_nat (length (contents m b)) ∧ contents m b' = []).
Proof.
  intros Hb Hn Hw. pose proof (length_bounds b Hb) as Hl. pose proof (offset_bounds b Hb (tail b)) as Ho.
  assert (Hdrop : ∀ r, 0 ≤ r ≤ acts_ringbuf_length b → contents m (add_head r b) = drop (Z.to_nat r) (contents m b)).
  { intros r Hr. rewrite (contents_add_head b Hb r m Hr). rewrite drop_app_length'; [done|].
    pose proof (rng_length m (cpu_ptr b) (size b) (head b) r). lia. }
  split; [|split].
  - unfold acts_ringbuf_fill. cbv zeta. rewrite rest_eq by done. destruct (n <=? acts_ringbuf_space b) eqn:E; zbool.
    2: { rewrite (proj2 (Z.ltb_lt _ _) E). by rewrite app_nil_r. }
    rewrite (proj2 (Z.ltb_ge _ _) E). split_and!; [by apply rb_ok_add_tail|done|]. rewrite space_eq in E by done.
    destruct (n <=? size b - offset b (tail b)) eqn:E2; zbool.
    + rewrite (contents_only_free b n m); [|done|rewrite space_eq by done; lia|apply only_free_piece; [done|lia|intros; by apply memset_other]].
      by rewrite rng_bytes, bytes_memset by lia.
    + rewrite (contents_only_free b n m); [|done|rewrite space_eq by done; lia|apply only_free_wrap; [done|lia|]].
      * rewrite rng_wrap by lia. rewrite bytes_memset. rewrite (bytes_ext _ (memset (cpu_ptr b + offset b (tail b)) c (size b - offset b (tail b)) m)).
        -- rewrite bytes_memset, <-replicate_add. do 2 f_equal. lia.
        -- intros x Hx. apply memset_other. lia.
      * intros a Ha. rewrite !memset_other by lia. done.
  - unfold acts_ringbuf_drop. destruct (n <=? acts_ringbuf_length b) eqn:E; zbool.
    + rewrite (proj2 (Z.ltb_ge _ _) E). split_and!; [by apply rb_ok_add_head|done|by apply Hdrop].
    + rewrite (proj2 (Z.ltb_lt _ _) E). done.
  - unfold acts_ringbuf_drop_all. cbv zeta. split_and!.
    + apply rb_ok_add_head; [done|lia].
    + symmetry. apply rng_length. lia.
    + rewrite Hdrop by lia. apply drop_ge. pose proof (rng_length m (cpu_ptr b) (size b) (head b) (acts_ringbuf_length b)).
      unfold contents. lia.
Qed.
Lemma acts_ringbuf_fill_drop_witness :
  let '(r, b', m') := acts_ringbuf_fill rb4 9 3 ∅ in rb_ok b' ∧ r = 3 ∧ contents m' b' = contents ∅ rb4 ++ [9; 9; 9].
Proof.
  apply (acts_ringbuf_fill_drop rb4 9 3 ∅).
  - apply rb4_ok.
  - lia.
  - left. by exists 2.
Defined.

(** What the stream functions promise: a transfer of at most [n] bytes, the
    return value telling how many; [σ] is what a stream holds. *)
Section StreamTransfers.
Context {S : Type} (σ : S → list Z).

Definition stream_read_ok (stream_read : Z → Z → gmap Z Z → S → Z * gmap Z Z * S) : Prop := ∀ a n m s,
  0 ≤ n → let '(r, m', s') := stream_read a n m s in
  r ≤ n ∧ (∀ x, x < a ∨ a + n ≤ x → m' !!! x = m !!! x) ∧ σ s = (if 0 <? r then bytes m' a r else []) ++ σ s'.
Definition stream_write_ok (stream_write : Z → Z → gmap Z Z → S → Z * S) : Prop := ∀ a n m s,
  0 ≤ n → let '(r, s') := stream_write a n m s in
  r ≤ n ∧ σ s' = σ s ++ (if 0 <? r then bytes m a r else []).

Lemma write_two stream_read b n m s r1 m1 s1 r2 m2 s2 :
  stream_read_ok stream_read → rb_ok b →
  let o := offset b (tail b) in let len := size b - o in
  len < n ≤ acts_ringbuf_space b →
  stream_read (cpu_ptr b + o) len m s = (r1, m1, s1) → r1 = len →
  stream_read (cpu_ptr b) (n - len) m1 s1 = (r2, m2, s2) →
  let r := if 0 <? r2 then len + r2 else len in
  0 < r ≤ n ∧ σ s = rng m2 (cpu_ptr b) (size b) o r ++ σ s2 ∧ only_free b n m m2.
Proof.
  intros Hok Hb o len Hn E1 -> E2 r. pose proof (offset_bounds b Hb (tail b)) as Ho. fold o in Ho.
  rewrite space_eq in Hn by done. pose proof (length_bounds b Hb).
  pose proof (Hok (cpu_ptr b + o) len m s ltac:(lia)) as H1. rewrite E1 in H1. destruct H1 as (_ & F1 & S1).
  pose proof (Hok (cpu_ptr b) (n - len) m1 s1 ltac:(lia)) as H2. rewrite E2 in H2. destruct H2 as (Hr2 & F2 & S2).
  rewrite (proj2 (Z.ltb_lt _ _)) in S1 by lia.
  assert (Hb1 : bytes m1 (cpu_ptr b + o) len = bytes m2 (cpu_ptr b + o) len).
  { apply bytes_ext. intros x Hx. symmetry. apply F2. lia. }
  split; [|split].
  - unfold r. destruct (0 <? r2) eqn:E; zbool; lia.
  - unfold r. destruct (0 <? r2) eqn:E; zbool.
    + rewrite rng_wrap by lia. replace (len + r2 - (size b - o)) with r2 by lia. fold len. rewrite <-Hb1, S1, S2. by rewrite app_assoc.
    + rewrite rng_bytes by lia. rewrite <-Hb1, S1, S2. done.
  - apply only_free_wrap; [done|fold o len; lia|]. fold o len. intros a Ha. rewrite F2 by lia. apply F1. lia.
Qed.

(** The stored prefix of what was asked for. *)
Lemma contents_prefix b r n m m' :
  rb_ok b → 0 ≤ r ≤ n → n ≤ acts_ringbuf_space b → only_free b n m m' →
  contents m' (add_tail r b) = contents m b ++ rng m' (cpu_ptr b) (size b) (offset b (tail b)) r ∧ contents m' b = contents m b.
Proof.
  intros Hb Hr Hn Hm. assert (Hk : ∀ i, 0 ≤ i < acts_ringbuf_length b →
    m' !!! (cpu_ptr b + (head b + i) mod size b) = m !!! (cpu_ptr b + (head b + i) mod size b)).
  { intros i Hi. apply Hm. intros j Hj He. apply (contents_not_free b i j Hb Hi); lia. }
  split; [apply contents_extend; [done|lia|done]|by apply rng_ext].
Qed.

(** The end of [acts_ringbuf_write]: the tail moves over what was stored. *)
Lemma write_finish b n m s r m' s' :
  rb_ok b → no_wrap n b → 0 ≤ n ≤ acts_ringbuf_space b → r ≤ n → only_free b n m m' →
  σ s = (if 0 <? r then rng m' (cpu_ptr b) (size b) (offset b (tail b)) r else []) ++ σ s' →
  let '(r, b', m', s') := if 0 <? r then (r, add_tail r b, m', s') else (0, b, m', s') in
  rb_ok b' ∧ 0 ≤ r ≤ n ∧ ∃ l, Z.of_nat (length l) = r ∧ σ s = l ++ σ s' ∧ contents m' b' = contents m b ++ l.
Proof.
  intros Hb Hw Hn Hr Hf Hs. destruct (0 <? r) eqn:E; zbool.
  - destruct (contents_prefix b r n m m' Hb ltac:(lia) ltac:(lia) Hf) as [Hc _]. split_and!; [|lia..|].
    + apply rb_ok_add_tail; [done|lia|]. destruct Hw as [|Hw]; [by left|right; lia].
    + eexists. split_and!; [|exact Hs|exact Hc]. apply rng_length. lia.
  - destruct (contents_prefix b 0 n m m' Hb ltac:(lia) ltac:(lia) Hf) as [_ Hc]. split_and!; [done|lia..|].
    exists []. by rewrite app_nil_r.
Qed.

Lemma acts_ringbuf_write_spec stream_read b n m s :
  stream_read_ok stream_read → rb_ok b → 0 ≤ n → no_wrap n b →
  let '(r, b', m', s') := acts_ringbuf_write stream_read b n m s in
  rb_ok b' ∧ 0 ≤ r ≤ n ∧ ∃ l, Z.of_nat (length l) = r ∧ σ s = l ++ σ s' ∧ contents m' b' = contents m b ++ l.
Proof.
  intros Hok Hb Hn Hw. unfold acts_ringbuf_write. cbv zeta. rewrite rest_eq by done.
  pose proof (offset_bounds b Hb (tail b)) as Ho. destruct (acts_ringbuf_space b <? n) eqn:Esp; zbool.
  { split_and!; [done|lia..|]. exists []. by rewrite app_nil_r. }
  destruct (n <=? size b - offset b (tail b)) eqn:El; zbool.
  - pose proof (Hok (cpu_ptr b + offset b (tail b)) n m s Hn) as H1. destruct (stream_read _ _ _ _) as [[r m1] s1].
    destruct H1 as (Hr & F1 & S1). apply (write_finish b n m s); [done|done|lia|done|by apply only_free_piece; [|lia|]|].
    destruct (0 <? r) eqn:E; zbool; [|done]. by rewrite rng_bytes by lia.
  - pose proof (Hok (cpu_ptr b + offset b (tail b)) (size b - offset b (tail b)) m s ltac:(lia)) as H1.
    destruct (stream_read _ _ _ _) as [[r m1] s1] eqn:E1. destruct (r =? size b - offset b (tail b)) eqn:Er; zbool.
    + destruct (stream_read (cpu_ptr b) _ m1 s1) as [[r2 m2] s2] eqn:E2.
      destruct (write_two stream_read b n m s r m1 s1 r2 m2 s2 Hok Hb ltac:(lia) E1 Er E2) as (Hr & S2 & F2).
      rewrite <-Er in Hr, S2. apply (write_finish b n m s); [done|done|lia|lia|done|]. by rewrite (proj2 (Z.ltb_lt _ _)) by lia.
    + destruct H1 as (Hr & F1 & S1). apply (write_finish b n m s); [done|done|lia|lia| |].
      * apply only_free_wrap; [done|rewrite space_eq in Esp by done; pose proof (length_bounds b Hb); lia|]. intros a Ha. apply F1. lia.
      * destruct (0 <? r) eqn:E; zbool; [|done]. by rewrite rng_bytes by lia.
Qed.

Lemma acts_ringbuf_read_spec stream_write b n m s :
  stream_write_ok stream_write → rb_ok b → 0 ≤ n →
  let '(r, b', s') := acts_ringbuf_read stream_write b n m s in
  rb_ok b' ∧ 0 ≤ r ≤ n ∧ ∃ l, Z.of_nat (length l) = r ∧ σ s' = σ s ++ l ∧ contents m b = l ++ contents m b'.
Proof.
  intros Hok Hb Hn. unfold acts_ringbuf_read. cbv zeta. rewrite rest_eq by done. pose proof (length_bounds b Hb) as Hl.
  pose proof (offset_bounds b Hb (head b)) as Ho. destruct (acts_ringbuf_length b <? n) eqn:Esp; zbool.
  { split_and!; [done|lia..|]. exists []. by rewrite app_nil_r. }
  assert (Hfin : ∀ r s', r ≤ n → σ s' = σ s ++ (if 0 <? r then rng m (cpu_ptr b) (size b) (offset b (head b)) r else []) →
    let '(r, b', s') := if 0 <? r then (r, add_head r b, s') else (0, b, s') in
    rb_ok b' ∧ 0 ≤ r ≤ n ∧ ∃ l, Z.of_nat (length l) = r ∧ σ s' = σ s ++ l ∧ contents m b = l ++ contents m b').
  { intros r s' Hr Hs. destruct (0 <? r) eqn:E; zbool.
    - split_and!; [apply rb_ok_add_head; [done|lia]|lia..|]. eexists. split_and!; [|exact Hs|]; [apply rng_length; lia|].
      rewrite offset_mod, rng_mod by done. apply contents_add_head; [done|lia].
    - split_and!; [done|lia..|]. by exists []. }
  destruct (n <=? size b - offset b (head b)) eqn:El; zbool.
  - pose proof (Hok (cpu_ptr b + offset b (head b)) n m s Hn) as H1. destruct (stream_write _ _ _ _) as [r s1].
    destruct H1 as (Hr & S1). apply Hfin; [done|]. destruct (0 <? r) eqn:E; zbool; [|done]. by rewrite rng_bytes by lia.
  - pose proof (Hok (cpu_ptr b + offset b (head b)) (size b - offset b (head b)) m s ltac:(lia)) as H1.
    destruct (stream_write _ _ _ _) as [r s1]. destruct H1 as (Hr & S1). destruct (r =? _) eqn:Er; zbool.
    + pose proof (Hok (cpu_ptr b) (n - (size b - offset b (head b))) m s1 ltac:(lia)) as H2.
      destruct (stream_write _ _ _ _) as [r2 s2]. destruct H2 as (Hr2 & S2). apply Hfin; [case_match; zbool; lia|].
      rewrite S2, S1, <-app_assoc. f_equal. rewrite (proj2 (Z.ltb_lt 0 r)) by lia. destruct (0 <? r2) eqn:E2; zbool.
      * rewrite (proj2 (Z.ltb_lt _ _)), rng_wrap by lia. do 2 f_equal; lia.
      * rewrite (proj2 (Z.ltb_lt _ _)), rng_bytes by lia. apply app_nil_r.
    + apply Hfin; [lia|]. destruct (0 <? r) eqn:E; zbool; [|done]. by rewrite rng_bytes by lia.
Qed.

(** Transfers with a stream: however short the transfers of the stream
    functions, the bytes [acts_ringbuf_write] appends are those it took
    from the stream, and the bytes [acts_ringbuf_read] removes are those
    it gave to the stream, in order, as many as it returns. *)
Theorem acts_ringbuf_streams stream_read stream_write b n m s :
  stream_read_ok stream_read → stream_write_ok stream_write → rb_ok b → 0 ≤ n → no_wrap n b →
  (let '(r, b', m', s') := acts_ringbuf_write stream_read b n m s in
   rb_ok b' ∧ 0 ≤ r ≤ n ∧ ∃ l, Z.of_nat (length l) = r ∧ σ s = l ++ σ s' ∧ contents m' b' = contents m b ++ l) ∧
  (let '(r, b', s') := acts_ringbuf_read stream_write b n m s in
   rb_ok b' ∧ 0 ≤ r ≤ n ∧ ∃ l, Z.of_nat (length l) = r ∧ σ s' = σ s ++ l ∧ contents m b = l ++ contents m b').
Proof. intros Hr Hw Hb Hn Hnw. split; [by apply acts_ringbuf_write_spec|by apply acts_ringbuf_read_spec]. Qed.
End StreamTransfers.

(** A stream that is a list of bytes. *)
Definition list_read (a n : Z) (m : gmap Z Z) (s : list Z) : Z * gmap Z Z * list Z :=
  let l := take (Z.to_nat n) s in (Z.of_nat (length l), write_bytes a l m, drop (Z.to_nat n) s).
Definition list_write (a n : Z) (m : gmap Z Z) (s : list Z) : Z * list Z := (n, s ++ bytes m a n).
Lemma list_read_ok : stream_read_ok id list_read.
Proof.
  intros a n m s Hn. unfold list_read. cbv zeta. set (l := take _ s). assert (Hl : Z.of_nat (length l) ≤ n).
  { unfold l. rewrite length_take. lia. }
  split_and!; [done|intros x Hx; apply write_bytes_other; lia|]. simpl. rewrite <-(take_drop (Z.to_nat n) s) at 1. f_equal. fold l.
  destruct (0 <? _) eqn:E; zbool; [|by destruct l]. unfold bytes. by rewrite Nat2Z.id, read_write_bytes.
Qed.
Lemma list_write_ok : stream_write_ok id list_write.
Proof.
  intros a n m s Hn. simpl. split; [lia|]. destruct (0 <? n) eqn:E; zbool; [done|]. by replace n with 0 by lia.
Qed.
Lemma acts_ringbuf_streams_witness :
  let '(r, b', m', s') := acts_ringbuf_write list_read rb4 3 ∅ [7; 8] in
  rb_ok b' ∧ 0 ≤ r ≤ 3 ∧ ∃ l, Z.of_nat (length l) = r ∧ [7; 8] = l ++ s' ∧ contents m' b' = contents ∅ rb4 ++ l.
Proof.
  apply (acts_ringbuf_streams id list_read list_write rb4 3 ∅ [7; 8]).
  - apply list_read_ok.
  - apply list_write_ok.
  - apply rb4_ok.
  - lia.
  - left. by exists 2.
Defined.
