(* ===== verification/Cbuf.v ===== *)
(** * The cyclic buffer of [lib/utils/source/cbuf/cbuf.c]

    [read_ptr], [write_ptr] and [length] are signed, [capacity] is unsigned:
    comparisons with the capacity are made on 32 unsigned bits, and a pointer
    may stand at the capacity until its next use resets it. *)
From stdpp Require Import gmap list.
From S2P Require Import Prelude KState Mem Ring.
Local Open Scope Z_scope.

(** ** Data and operations *)

Record cbuf_t := mk_cbuf { read_ptr : Z; write_ptr : Z; length : Z; capacity : Z; raw_data : Z }.
Record cbuf_dma_t := mk_dma { start_addr : Z; dma_read_len : Z }.

Definition set_read_ptr (v : Z) (c : cbuf_t) : cbuf_t := mk_cbuf v (write_ptr c) (length c) (capacity c) (raw_data c).
Definition set_write_ptr (v : Z) (c : cbuf_t) : cbuf_t := mk_cbuf (read_ptr c) v (length c) (capacity c) (raw_data c).
Definition set_length (v : Z) (c : cbuf_t) : cbuf_t := mk_cbuf (read_ptr c) (write_ptr c) v (capacity c) (raw_data c).

(** [if (ptr >= capacity) ptr = 0;], compared without sign *)
Definition reset_read_ptr (c : cbuf_t) : cbuf_t := if capacity c <=? u32 (read_ptr c) then set_read_ptr 0 c else c.
Definition reset_write_ptr (c : cbuf_t) : cbuf_t := if capacity c <=? u32 (write_ptr c) then set_write_ptr 0 c else c.

(** A [NULL] control block, or a [NULL] data pointer, is [None]. *)
Definition cbuf_read (c : option cbuf_t) (buffer : option Z) (len : Z) (m : gmap Z Z) : Z * option cbuf_t * gmap Z Z :=
  match c with
  | None => (0, None, m)
  | Some c =>
      if length c <? len then (0, Some c, m)
      else
        let c := reset_read_ptr c in
        match buffer with
        | None =>
            let c := set_read_ptr (s32 (read_ptr c + len)) c in
            let c := if capacity c =? 0 then c else set_read_ptr (s32 (u32 (read_ptr c) mod capacity c)) c in
            (len, Some (set_length (s32 (length c - len)) c), m)
        | Some buffer =>
            let copy_len := s32 (capacity c - read_ptr c) in
            let copy_len := if len <? copy_len then len else copy_len in
            let rest := s32 (len - copy_len) in
            let m := memcpy buffer (raw_data c + read_ptr c) (u32 copy_len) m in
            let '(c, m) :=
              if rest =? 0 then (set_read_ptr (s32 (read_ptr c + copy_len)) c, m)
              else (set_read_ptr rest c, memcpy (buffer + copy_len) (raw_data c) (u32 rest) m) in
            (len, Some (set_length (s32 (length c - len)) c), m)
        end
  end.

(** The piece a DMA transfer can read without wrapping. *)
Definition cbuf_dma_read (c : option cbuf_t) (dma : cbuf_dma_t) (read_len : Z) : Z * option cbuf_t * cbuf_dma_t :=
  match c with
  | None => (0, None, mk_dma (start_addr dma) 0)
  | Some c =>
      if length c <? read_len then (0, Some c, mk_dma (start_addr dma) 0)
      else
        let c := reset_read_ptr c in
        let copy_len := u32 (capacity c - read_ptr c) in
        let copy_len := if u32 read_len <? copy_len then u32 read_len else copy_len in
        (read_len, Some c, mk_dma (raw_data c + read_ptr c) copy_len)
  end.
Definition cbuf_dma_update_read_ptr (c : cbuf_t) (read_len : Z) : cbuf_t :=
  set_length (s32 (length c - read_len)) (set_read_ptr (s32 (read_ptr c + read_len)) c).

Definition cbuf_prepare_read (c : option cbuf_t) (buffer : option Z) (len : Z) (m : gmap Z Z) : Z * option cbuf_t * gmap Z Z :=
  match c with
  | None => (0, None, m)
  | Some c =>
      if length c <? len then (0, Some c, m)
      else
        match buffer with
        | None => (0, Some c, m)
        | Some buffer =>
            let c := reset_read_ptr c in
            let copy_len := s32 (capacity c - read_ptr c) in
            let copy_len := if len <? copy_len then len else copy_len in
            let rest := s32 (len - copy_len) in
            let m := memcpy buffer (raw_data c + read_ptr c) (u32 copy_len) m in
            let m := if rest =? 0 then m else memcpy (buffer + copy_len) (raw_data c) (u32 rest) m in
            (len, Some c, m)
        end
  end.

Definition cbuf_write (c : option cbuf_t) (buffer len : Z) (m : gmap Z Z) : Z * option cbuf_t * gmap Z Z :=
  match c with
  | None => (0, None, m)
  | Some c =>
      if (len =? 0) || (capacity c <? u32 len) then (0, Some c, m)
      else if u32 (capacity c - length c) <? u32 len then (0, Some c, m)
      else
        let c := reset_write_ptr c in
        let write_len := u32 (capacity c - write_ptr c) in
        let '(c, m) :=
          if u32 len <=? write_len then
            (set_write_ptr (s32 (write_ptr c + len)) c, memcpy (raw_data c + write_ptr c) buffer (u32 len) m)
          else
            let rem_len := u32 (len - write_len) in
            (set_write_ptr (s32 rem_len) c,
             memcpy (raw_data c) (buffer + write_len) rem_len (memcpy (raw_data c + write_ptr c) buffer write_len m)) in
        (len, Some (set_length (s32 (length c + len)) c), m)
  end.

Definition cbuf_init (buffer size : Z) : cbuf_t := mk_cbuf 0 0 0 (u32 size) buffer.
Definition cbuf_reset (c : cbuf_t) : cbuf_t := mk_cbuf 0 0 0 (capacity c) (raw_data c).
Definition cbuf_copy_write_ptr (src dest : cbuf_t) (len : Z) : cbuf_t :=
  set_length (s32 (length dest + len)) (set_write_ptr (write_ptr src) dest).
Definition cbuf_deinit : cbuf_t := mk_cbuf 0 0 0 0 0.
Definition cbuf_get_used_space (c : option cbuf_t) : Z := match c with None => 0 | Some c => length c end.
Definition cbuf_get_free_space (c : option cbuf_t) : Z := match c with None => 0 | Some c => s32 (capacity c - length c) end.
Definition cbuf_is_init (c : option cbuf_t) : bool := match c with None => false | Some c => negb (capacity c =? 0) end.
Definition cbuf_is_ptr_valid (c : cbuf_t) (ptr : Z) : bool :=
  (raw_data c <=? ptr) && (ptr <=? u32 (raw_data c + capacity c)).

(** ** The invariant *)

Record cb_ok (c : cbuf_t) : Prop := {
  cb_capacity : 0 < capacity c ≤ INT32_MAX;
  cb_length : 0 ≤ length c ≤ capacity c;
  cb_read : 0 ≤ read_ptr c ≤ capacity c;
  cb_write : 0 ≤ write_ptr c ≤ capacity c;
  (** the write pointer stands [length] bytes after the read pointer *)
  cb_between : write_ptr c mod capacity c = (read_ptr c + length c) mod capacity c
}.

(** The bytes in the buffer, oldest first. *)
Definition cb_contents (m : gmap Z Z) (c : cbuf_t) : list Z := rng m (raw_data c) (capacity c) (read_ptr c) (length c).

Lemma cbuf_init_ok buffer size m :
  0 < size ≤ INT32_MAX → cb_ok (cbuf_init buffer size) ∧ cb_contents m (cbuf_init buffer size) = [].
Proof.
  intros Hs. unfold INT32_MAX in Hs. split; [|done]. unfold cbuf_init. rewrite u32_id by lia.
  constructor; simpl; unfold INT32_MAX; (lia || done).
Qed.

(** A pointer reset from the capacity to 0 means the same offset. *)
Lemma reset_read_ok c :
  cb_ok c → let c' := reset_read_ptr c in
  read_ptr c' = read_ptr c mod capacity c ∧ write_ptr c' = write_ptr c ∧ length c' = length c ∧
  capacity c' = capacity c ∧ raw_data c' = raw_data c.
Proof.
  intros Hc. pose proof (cb_capacity c Hc) as Hk. pose proof (cb_read c Hc). unfold INT32_MAX in Hk. unfold reset_read_ptr.
  rewrite u32_id by lia. destruct (capacity c <=? read_ptr c) eqn:E; zbool; simpl; split_and!; try done.
  - replace (read_ptr c) with (capacity c) by lia. symmetry. apply Z.mod_same. lia.
  - symmetry. apply Z.mod_small. lia.
Qed.
Lemma reset_write_ok c :
  cb_ok c → let c' := reset_write_ptr c in
  write_ptr c' = write_ptr c mod capacity c ∧ read_ptr c' = read_ptr c ∧ length c' = length c ∧
  capacity c' = capacity c ∧ raw_data c' = raw_data c.
Proof.
  intros Hc. pose proof (cb_capacity c Hc) as Hk. pose proof (cb_write c Hc). unfold INT32_MAX in Hk. unfold reset_write_ptr.
  rewrite u32_id by lia. destruct (capacity c <=? write_ptr c) eqn:E; zbool; simpl; split_and!; try done.
  - replace (write_ptr c) with (capacity c) by lia. symmetry. apply Z.mod_same. lia.
  - symmetry. apply Z.mod_small. lia.
Qed.

(** Any pointer that means the right offset will do. *)
Lemma cb_ok_taken c n p :
  cb_ok c → 0 ≤ n ≤ length c → 0 ≤ p ≤ capacity c → p mod capacity c = (read_ptr c + n) mod capacity c →
  cb_ok (mk_cbuf p (write_ptr c) (length c - n) (capacity c) (raw_data c)) ∧
  ∀ m, cb_contents m c = rng m (raw_data c) (capacity c) (read_ptr c mod capacity c) n ++
         cb_contents m (mk_cbuf p (write_ptr c) (length c - n) (capacity c) (raw_data c)).
Proof.
  intros Hc Hn Hp He. pose proof (cb_length c Hc). split.
  - constructor; simpl; try apply Hc; try lia. rewrite (cb_between c Hc), <-(Zplus_mod_idemp_l p), He, Zplus_mod_idemp_l. f_equal. lia.
  - intros m. unfold cb_contents. simpl. rewrite rng_mod, <-(rng_mod _ _ _ p), He, rng_mod, <-rng_app by lia. f_equal. lia.
Qed.
Lemma cb_ok_added c n p :
  cb_ok c → 0 ≤ n → length c + n ≤ capacity c → 0 ≤ p ≤ capacity c → p mod capacity c = (write_ptr c + n) mod capacity c →
  cb_ok (mk_cbuf (read_ptr c) p (length c + n) (capacity c) (raw_data c)).
Proof.
  intros Hc Hn Hl Hp He. pose proof (cb_length c Hc). constructor; simpl; try apply Hc; try lia.
  rewrite He, <-(Zplus_mod_idemp_l (write_ptr c)), (cb_between c Hc), Zplus_mod_idemp_l. f_equal. lia.
Qed.

Lemma cb_contents_ext m m' c :
  cb_ok c → (∀ a, raw_data c ≤ a < raw_data c + capacity c → m !!! a = m' !!! a) → cb_contents m c = cb_contents m' c.
Proof.
  intros Hc Hm. apply rng_ext. intros i Hi. apply Hm. pose proof (cb_capacity c Hc).
  pose proof (Z.mod_pos_bound (read_ptr c + i) (capacity c)). lia.
Qed.

(** The offset behind [n] bytes, as the code computes it. *)
Lemma moved_ptr cap p n :
  0 ≤ p < cap → 0 ≤ n ≤ cap → let q := if n <=? cap - p then p + n else n - (cap - p) in
  0 ≤ q ≤ cap ∧ q mod cap = (p + n) mod cap.
Proof.
  intros Hp Hn. simpl. destruct (n <=? cap - p) eqn:E; zbool; [split; [lia|done]|]. split; [lia|].
  replace (p + n) with (n - (cap - p) + 1 * cap) by lia. by rewrite Z.mod_add by lia.
Qed.

(** ** Reading and writing *)

Lemma cbuf_write_spec c buffer len m :
  cb_ok c → 0 < len ≤ capacity c - length c →
  ∃ p, 0 ≤ p ≤ capacity c ∧ p mod capacity c = (write_ptr c + len) mod capacity c ∧
  cbuf_write (Some c) buffer len m =
    (len, Some (mk_cbuf (read_ptr c) p (length c + len) (capacity c) (raw_data c)),
     copy_in (raw_data c) (capacity c) (write_ptr c mod capacity c) buffer len m).
Proof.
  intros Hc Hl. destruct (reset_write_ok c Hc) as (Ew & Er & El & Ek & Ed). pose proof (cb_capacity c Hc) as Hk. unfold INT32_MAX in Hk.
  pose proof (cb_length c Hc). pose proof (Z.mod_pos_bound (write_ptr c) (capacity c) ltac:(lia)) as Hw.
  pose proof (moved_ptr (capacity c) (write_ptr c mod capacity c) len Hw ltac:(lia)) as Hq. rewrite Zplus_mod_idemp_l in Hq.
  eexists. split; [apply Hq|]. split; [apply Hq|]. unfold cbuf_write, copy_in. cbv zeta.
  rewrite (u32_id len), (u32_id (capacity c - length c)) by lia.
  rewrite (proj2 (Z.eqb_neq len 0)), (proj2 (Z.ltb_ge _ _)), (proj2 (Z.ltb_ge (capacity c - length c) _)) by lia. simpl.
  unfold set_length, set_write_ptr. rewrite Ew, Ek, Ed, (u32_id (capacity c - _)) by lia.
  destruct (len <=? capacity c - write_ptr c mod capacity c) eqn:E; zbool; simpl; rewrite ?Er, ?El, ?Ek, ?Ed, (s32_id (length c + len)) by lia.
  - by rewrite s32_id by lia.
  - by rewrite (u32_id (len - _)), s32_id by lia.
Qed.

Lemma cbuf_read_spec c buffer len m :
  cb_ok c → 0 ≤ len ≤ length c →
  ∃ p, 0 ≤ p ≤ capacity c ∧ p mod capacity c = (read_ptr c + len) mod capacity c ∧
  cbuf_read (Some c) (Some buffer) len m =
    (len, Some (mk_cbuf p (write_ptr c) (length c - len) (capacity c) (raw_data c)),
     copy_out (raw_data c) (capacity c) (read_ptr c mod capacity c) buffer len m) ∧
  cbuf_prepare_read (Some c) (Some buffer) len m =
    (len, Some (reset_read_ptr c), copy_out (raw_data c) (capacity c) (read_ptr c mod capacity c) buffer len m).
Proof.
  intros Hc Hl. destruct (reset_read_ok c Hc) as (Er & Ew & El & Ek & Ed). pose proof (cb_capacity c Hc) as Hk. unfold INT32_MAX in Hk.
  pose proof (cb_length c Hc). pose proof (Z.mod_pos_bound (read_ptr c) (capacity c) ltac:(lia)) as Hw.
  pose proof (moved_ptr (capacity c) (read_ptr c mod capacity c) len Hw ltac:(lia)) as Hq. rewrite Zplus_mod_idemp_l in Hq.
  eexists. split; [apply Hq|]. split; [apply Hq|]. unfold cbuf_read, cbuf_prepare_read, copy_out. cbv zeta.
  rewrite (proj2 (Z.ltb_ge _ _)) by lia. unfold set_length, set_read_ptr. rewrite Er, Ek, Ed, (s32_id (capacity c - _)) by lia.
  set (r := capacity c - read_ptr c mod capacity c) in *. set (l := if len <? r then len else r).
  assert (Hll : l = Z.min len r) by (unfold l; destruct (len <? r) eqn:E; zbool; lia). clearbody l. subst l.
  rewrite (s32_id (len - _)), (u32_id (Z.min _ _)) by lia. destruct (len <=? r) eqn:E; zbool.
  - rewrite Z.min_l, Z.sub_diag by lia. simpl. by rewrite ?Ew, ?El, ?Ek, ?Ed, (s32_id (length c - len)), s32_id by lia.
  - rewrite Z.min_r, (proj2 (Z.eqb_neq _ 0)) by lia. simpl. by rewrite ?Ew, ?El, ?Ek, ?Ed, (s32_id (length c - len)), u32_id by lia.
Qed.

Lemma cbuf_write_fifo c buffer len m :
  cb_ok c → 0 ≤ len ≤ INT32_MAX → disjoint_ranges buffer len (raw_data c) (capacity c) →
  ∃ r c' m', cbuf_write (Some c) buffer len m = (r, Some c', m') ∧ cb_ok c' ∧
    r = (if len <=? capacity c - length c then len else 0) ∧ cb_contents m' c' = cb_contents m c ++ bytes m buffer r.
Proof.
  intros Hc Hl Hd. pose proof (cb_length c Hc). pose proof (cb_capacity c Hc). unfold INT32_MAX in *.
  destruct (decide (0 < len ≤ capacity c - length c)) as [Hf|Hf].
  - destruct (cbuf_write_spec c buffer len m Hc Hf) as (p & Hp & He & Hr). rewrite Hr. eexists _, _, _. split; [done|].
    rewrite (proj2 (Z.leb_le _ _)) by lia. split_and!; [apply cb_ok_added; (done || lia)|done|]. unfold cb_contents. simpl.
    rewrite (cb_between c Hc). apply copy_in_appends; [lia..|done].
  - exists 0, c, m. assert (Hr : (if len <=? capacity c - length c then len else 0) = 0) by (case_match; zbool; lia).
    rewrite Hr, app_nil_r. split_and!; try done. unfold cbuf_write. rewrite (u32_id len), (u32_id (capacity c - length c)) by lia.
    destruct ((len =? 0) || (capacity c <? len)) eqn:E; [done|]. apply orb_false_iff in E as [E1 E2]. zbool.
    by rewrite (proj2 (Z.ltb_lt _ _)) by lia.
Qed.

Lemma take_contents c len m :
  0 ≤ len ≤ length c → rng m (raw_data c) (capacity c) (read_ptr c mod capacity c) len = take (Z.to_nat len) (cb_contents m c).
Proof.
  intros Hl. unfold cb_contents. replace (length c) with (len + (length c - len)) by lia. rewrite rng_app, rng_mod by lia.
  rewrite take_app_length'; [done|]. pose proof (rng_length m (raw_data c) (capacity c) (read_ptr c) len). lia.
Qed.
Lemma contents_reset c m : cb_ok c → cb_contents m (reset_read_ptr c) = cb_contents m c.
Proof.
  intros Hc. destruct (reset_read_ok c Hc) as (Er & _ & El & Ek & Ed). unfold cb_contents. by rewrite Er, El, Ek, Ed, rng_mod.
Qed.

(** C27: the cyclic buffer is a queue of bytes: a [cbuf_write] that fits appends
    its bytes and one that does not writes nothing; [cbuf_read] moves the oldest bytes to the caller, or none when there are
    fewer than asked for; [cbuf_prepare_read] copies the same bytes and
    leaves them in the buffer. *)
Theorem cbuf_fifo c buffer len m :
  cb_ok c → 0 ≤ len ≤ INT32_MAX → disjoint_ranges buffer len (raw_data c) (capacity c) →
  (∃ r c' m', cbuf_write (Some c) buffer len m = (r, Some c', m') ∧ cb_ok c' ∧
     r = (if len <=? capacity c - length c then len else 0) ∧ cb_contents m' c' = cb_contents m c ++ bytes m buffer r) ∧
  (∃ r c' m', cbuf_read (Some c) (Some buffer) len m = (r, Some c', m') ∧ cb_ok c' ∧
     r = (if len <=? length c then len else 0) ∧ cb_contents m c = bytes m' buffer r ++ cb_contents m' c') ∧
  (∃ r c' m', cbuf_prepare_read (Some c) (Some buffer) len m = (r, Some c', m') ∧
     r = (if len <=? length c then len else 0) ∧ bytes m' buffer r = take (Z.to_nat r) (cb_contents m c) ∧
     cb_contents m' c' = cb_contents m c).
Proof.
  intros Hc Hl Hd. pose proof (cb_length c Hc) as Hlen. pose proof (cb_capacity c Hc) as Hk. unfold INT32_MAX in *.
  pose proof (Z.mod_pos_bound (read_ptr c) (capacity c) ltac:(lia)) as Hrp. split; [|split].
  - by apply cbuf_write_fifo.
  - destruct (len <=? length c) eqn:E; zbool.
    + destruct (cbuf_read_spec c buffer len m Hc ltac:(lia)) as (p & Hp & He & Hr & _). rewrite Hr. eexists _, _, _. split; [done|].
      destruct (cb_ok_taken c len p Hc ltac:(lia) Hp He) as [Hc' Hcon]. split_and!; [done..|]. rewrite Hcon.
      destruct (copy_out_spec (raw_data c) (capacity c) (read_ptr c mod capacity c) buffer len m Hrp ltac:(lia) Hd) as [-> Ho]. f_equal.
      apply cb_contents_ext; [done|]. simpl. intros a Ha. symmetry. apply Ho. unfold disjoint_ranges in Hd. lia.
    + exists 0, c, m. split; [|done]. unfold cbuf_read. by rewrite (proj2 (Z.ltb_lt _ _)) by lia.
  - destruct (len <=? length c) eqn:E; zbool.
    + destruct (cbuf_read_spec c buffer len m Hc ltac:(lia)) as (p & _ & _ & _ & Hr). rewrite Hr. eexists _, _, _. split; [done|].
      destruct (copy_out_spec (raw_data c) (capacity c) (read_ptr c mod capacity c) buffer len m Hrp ltac:(lia) Hd) as [-> Ho].
      split_and!; [done|apply take_contents; lia|]. etrans; [apply contents_reset; done|]. apply cb_contents_ext; [done|].
      intros a Ha. apply Ho. unfold disjoint_ranges in Hd. lia.
    + exists 0, c, m. split; [|done]. unfold cbuf_prepare_read. by rewrite (proj2 (Z.ltb_lt _ _)) by lia.
Qed.
Lemma cbuf_fifo_witness :
  let c := mk_cbuf 2 1 2 3 100 in let m := write_bytes 100 [6; 0; 5] (write_bytes 200 [7] ∅) in
  ∃ r c' m', cbuf_write (Some c) 200 1 m = (r, Some c', m') ∧ cb_ok c' ∧ r = 1 ∧ cb_contents m' c' = [5; 6] ++ bytes m 200 r.
Proof.
  intros c m. apply (cbuf_fifo c 200 1 m).
  - constructor; simpl; unfold INT32_MAX; (lia || done).
  - unfold INT32_MAX. lia.
  - right. simpl. lia.
Defined.

(** A DMA transfer: [cbuf_dma_read] offers the oldest bytes up to the end of the area, and
    [cbuf_dma_update_read_ptr] with the length it stored takes just those off the buffer. *)
Theorem cbuf_dma_transfer c dma len m :
  cb_ok c → 0 ≤ len ≤ length c →
  ∃ c' d, cbuf_dma_read (Some c) dma len = (len, Some c', d) ∧ 0 ≤ dma_read_len d ≤ len ∧
    (0 < len → 0 < dma_read_len d) ∧ cb_ok (cbuf_dma_update_read_ptr c' (dma_read_len d)) ∧
    cb_contents m c = bytes m (start_addr d) (dma_read_len d) ++ cb_contents m (cbuf_dma_update_read_ptr c' (dma_read_len d)).
Proof.
  intros Hc Hl. destruct (reset_read_ok c Hc) as (Er & Ew & El & Ek & Ed). pose proof (cb_capacity c Hc) as Hk. unfold INT32_MAX in Hk.
  pose proof (cb_length c Hc). pose proof (Z.mod_pos_bound (read_ptr c) (capacity c) ltac:(lia)) as Hw.
  unfold cbuf_dma_read. cbv zeta. rewrite (proj2 (Z.ltb_ge _ _)) by lia. rewrite Er, Ek, Ed, (u32_id len), u32_id by lia.
  set (l := if _ <? _ then len else _). assert (Hll : l = Z.min len (capacity c - read_ptr c mod capacity c)).
  { unfold l. destruct (len <? _) eqn:E; zbool; lia. }
  clearbody l. eexists _, _. split; [done|]. simpl.
  assert (Hu : cbuf_dma_update_read_ptr (reset_read_ptr c) l =
    mk_cbuf (read_ptr c mod capacity c + l) (write_ptr c) (length c - l) (capacity c) (raw_data c)).
  { unfold cbuf_dma_update_read_ptr, set_length, set_read_ptr. simpl. by rewrite Er, Ew, El, Ek, Ed, !s32_id by lia. }
  rewrite Hu. destruct (cb_ok_taken c l (read_ptr c mod capacity c + l) Hc) as [Hc' Hcon];
    [lia|lia|apply Zplus_mod_idemp_l|]. split_and!; [lia..|done|]. rewrite Hcon. f_equal. apply rng_bytes; lia.
Qed.
Lemma cbuf_dma_transfer_witness :
  let c := mk_cbuf 2 1 2 3 100 in
  ∃ c' d, cbuf_dma_read (Some c) (mk_dma 0 0) 2 = (2, Some c', d) ∧ 0 ≤ dma_read_len d ≤ 2 ∧
    (0 < 2 → 0 < dma_read_len d) ∧ cb_ok (cbuf_dma_update_read_ptr c' (dma_read_len d)) ∧
    cb_contents ∅ c = bytes ∅ (start_addr d) (dma_read_len d) ++ cb_contents ∅ (cbuf_dma_update_read_ptr c' (dma_read_len d)).
Proof.
  intros c. apply (cbuf_dma_transfer c (mk_dma 0 0) 2 ∅).
  - constructor; simpl; unfold INT32_MAX; (lia || done).
  - simpl. lia.
Defined.

(** [cbuf_dma_read] returns the length asked for even when it stores a shorter
    one; advancing by the returned length takes the wrong byte next: of the bytes 5, 6, 7 asked two by two, the byte
    after 5 and 6 is read as 6. *)
Theorem cbuf_dma_returned_length_overruns :
  let c := mk_cbuf 2 2 3 3 100 in let m := write_bytes 100 [6; 7; 5] ∅ in
  let '(r, c', d) := cbuf_dma_read (Some c) (mk_dma 0 0) 2 in
  cb_contents m c = [5; 6; 7] ∧ r = 2 ∧ dma_read_len d = 1 ∧
  match c' with
  | None => False
  | Some c' =>
      let '(r, _, m') := cbuf_read (Some (cbuf_dma_update_read_ptr c' r)) (Some 200) 1 m in r = 1 ∧ bytes m' 200 1 = [6]
  end.
Proof. by vm_compute. Qed.
