(* ===== verification/RingBuffer.v ===== *)
(** * The kernel's ring buffer ([misc/ring_buffer.c], [include/misc/ring_buffer.h])

    In byte mode the buffer holds bytes, claimed and finished in contiguous
    areas; in item mode it holds items of a header word and data words.  One
    element always stays free.  The two modes share the words of a union:
    [dropped_put_count] is [tmp_tail]. *)
From stdpp Require Import gmap list.
From S2P Require Import Prelude KState Mem Ring.
Local Open Scope Z_scope.

(** ** Data and operations *)

Definition EMSGSIZE : Z := 36.

Record ring_buf := mk_ring_buf { rhead : Z; rtail : Z; tmp_tail : Z; tmp_head : Z; rsize : Z; rbuf : Z; rmask : Z }.

Definition set_rhead (v : Z) (b : ring_buf) : ring_buf := mk_ring_buf v (rtail b) (tmp_tail b) (tmp_head b) (rsize b) (rbuf b) (rmask b).
Definition set_rtail (v : Z) (b : ring_buf) : ring_buf := mk_ring_buf (rhead b) v (tmp_tail b) (tmp_head b) (rsize b) (rbuf b) (rmask b).
Definition set_tmp_tail (v : Z) (b : ring_buf) : ring_buf := mk_ring_buf (rhead b) (rtail b) v (tmp_head b) (rsize b) (rbuf b) (rmask b).
Definition set_tmp_head (v : Z) (b : ring_buf) : ring_buf := mk_ring_buf (rhead b) (rtail b) (tmp_tail b) v (rsize b) (rbuf b) (rmask b).

Definition ring_buf_init (n data : Z) : ring_buf :=
  mk_ring_buf 0 0 0 0 n data (if is_power_of_two n then u32 (n - 1) else 0).
Definition z_ring_buf_custom_space_get (n h t : Z) : Z :=
  if t <? h then u32 (h - t - 1) else u32 (n - t + h - 1).
Definition ring_buf_is_empty (b : ring_buf) : bool := rhead b =? rtail b.
Definition ring_buf_reset (b : ring_buf) : ring_buf := mk_ring_buf 0 0 0 0 (rsize b) (rbuf b) (rmask b).
Definition ring_buf_space_get (b : ring_buf) : Z := z_ring_buf_custom_space_get (rsize b) (rhead b) (rtail b).
Definition ring_buf_capacity_get (b : ring_buf) : Z := u32 (rsize b - 1).

Definition wrap (val max : Z) : Z := if max <=? val then val - max else val.

(** *** Byte mode *)

Definition ring_buf_put_claim (b : ring_buf) (n : Z) : Z * Z * ring_buf :=
  let space := z_ring_buf_custom_space_get (rsize b) (rhead b) (tmp_tail b) in
  let n := Z.min n space in
  let trail_size := u32 (rsize b - tmp_tail b) in
  let allocated := Z.min trail_size n in
  (allocated, rbuf b + tmp_tail b, set_tmp_tail (wrap (u32 (tmp_tail b + allocated)) (rsize b)) b).
Definition ring_buf_put_finish (b : ring_buf) (n : Z) : Z * ring_buf :=
  if ring_buf_space_get b <? n then (- EINVAL, b)
  else
    let b := set_rtail (wrap (u32 (rtail b + n)) (rsize b)) b in
    (0, set_tmp_tail (rtail b) b).

(** The [do ... while (size && partial_size)] loops: every round but the last moves a byte at least. *)
Fixpoint put_loop (fuel : nat) (b : ring_buf) (data n total : Z) (m : gmap Z Z) : option (Z * ring_buf * gmap Z Z) :=
  match fuel with
  | O => None
  | S fuel =>
      let '(partial, dst, b) := ring_buf_put_claim b n in
      let m := memcpy dst data partial m in
      let total := u32 (total + partial) in
      let n := u32 (n - partial) in
      if negb (n =? 0) && negb (partial =? 0) then put_loop fuel b (data + partial) n total m else Some (total, b, m)
  end.
Definition ring_buf_put (b : ring_buf) (data n : Z) (m : gmap Z Z) : option (Z * ring_buf * gmap Z Z) :=
  '(total, b, m) ← put_loop (S (Z.to_nat n)) b data n 0 m;
  let (_, b) := ring_buf_put_finish b total in
  Some (total, b, m).

Definition ring_buf_get_claim (b : ring_buf) (n : Z) : Z * Z * ring_buf :=
  let space := u32 (rsize b - 1 - z_ring_buf_custom_space_get (rsize b) (tmp_head b) (rtail b)) in
  let trail_size := u32 (rsize b - tmp_head b) in
  let granted := Z.min n space in
  let granted := Z.min trail_size granted in
  (granted, rbuf b + tmp_head b, set_tmp_head (wrap (u32 (tmp_head b + granted)) (rsize b)) b).
Definition ring_buf_get_finish (b : ring_buf) (n : Z) : Z * ring_buf :=
  let allocated := u32 (rsize b - 1 - ring_buf_space_get b) in
  if allocated <? n then (- EINVAL, b)
  else
    let b := set_rhead (wrap (u32 (rhead b + n)) (rsize b)) b in
    (0, set_tmp_head (rhead b) b).
Fixpoint get_loop (fuel : nat) (b : ring_buf) (data n total : Z) (m : gmap Z Z) : option (Z * ring_buf * gmap Z Z) :=
  match fuel with
  | O => None
  | S fuel =>
      let '(partial, src, b) := ring_buf_get_claim b n in
      let m := memcpy data src partial m in
      let total := u32 (total + partial) in
      let n := u32 (n - partial) in
      if negb (n =? 0) && negb (partial =? 0) then get_loop fuel b (data + partial) n total m else Some (total, b, m)
  end.
Definition ring_buf_get (b : ring_buf) (data n : Z) (m : gmap Z Z) : option (Z * ring_buf * gmap Z Z) :=
  '(total, b, m) ← get_loop (S (Z.to_nat n)) b data n 0 m;
  let (_, b) := ring_buf_get_finish b total in
  Some (total, b, m).

(** *** Item mode: memory is counted in 32-bit words here *)

(** [struct ring_element], as the word it occupies *)
Definition ring_element (type len value : Z) : Z := type + 65536 * len + 16777216 * value.
Definition el_type (w : Z) : Z := w mod 65536.
Definition el_length (w : Z) : Z := (w / 65536) mod 256.
Definition el_value (w : Z) : Z := (w / 16777216) mod 256.

Definition index (b : ring_buf) (x : Z) : Z := if rmask b =? 0 then x mod rsize b else Z.land x (rmask b).

(** [for (i = 0; i < n; ++i) buf32[index(i + tail + 1)] = data[i];] and its converse *)
Fixpoint store_words (n : nat) (i : Z) (b : ring_buf) (data : Z) (m : gmap Z Z) : gmap Z Z :=
  match n with
  | O => m
  | S n => store_words n (i + 1) b data (<[rbuf b + index b (u32 (i + rtail b + 1)) := m !!! (data + i)]> m)
  end.
Fixpoint load_words (n : nat) (i : Z) (b : ring_buf) (data : Z) (m : gmap Z Z) : gmap Z Z :=
  match n with
  | O => m
  | S n => load_words n (i + 1) b data (<[data + i := m !!! (rbuf b + index b (u32 (i + rhead b + 1)))]> m)
  end.

Definition ring_buf_item_put (b : ring_buf) (type value data size32 : Z) (m : gmap Z Z) : Z * ring_buf * gmap Z Z :=
  let space := ring_buf_space_get b in
  if size32 + 1 <=? space then
    let m := <[rbuf b + rtail b := ring_element type size32 value]> m in
    let m := store_words (Z.to_nat size32) 0 b data m in
    (0, set_rtail (index b (u32 (rtail b + size32 + 1))) b, m)
  else (- EMSGSIZE, set_tmp_tail (u32 (tmp_tail b + 1)) b, m).

(** The results: error code, type, value (when stored), the length stored in [*size32]. *)
Definition ring_buf_item_get (b : ring_buf) (data size32 : Z) (m : gmap Z Z) :
  Z * option (Z * Z) * Z * ring_buf * gmap Z Z :=
  if ring_buf_is_empty b then (- EAGAIN, None, size32, b, m)
  else
    let header := m !!! (rbuf b + rhead b) in
    if size32 <? el_length header then (- EMSGSIZE, None, el_length header, b, m)
    else
      (0, Some (el_type header, el_value header), el_length header,
       set_rhead (index b (u32 (rhead b + el_length header + 1))) b,
       load_words (Z.to_nat (el_length header)) 0 b data m).

(** ** The invariant *)

Record rbuf_ok (b : ring_buf) : Prop := {
  rb_size : 0 < rsize b ≤ 2147483648;
  rb_head : 0 ≤ rhead b < rsize b;
  rb_tail : 0 ≤ rtail b < rsize b;
  rb_mask : rmask b = 0 ∨ (pow2 (rsize b) ∧ rmask b = rsize b - 1)
}.
(** In byte mode, no area is claimed. *)
Definition unclaimed (b : ring_buf) : Prop := tmp_tail b = rtail b ∧ tmp_head b = rhead b.

(** The elements between two offsets, and the contents. *)
Definition used (n h t : Z) : Z := (t - h) mod n.
Definition rb_contents (m : gmap Z Z) (b : ring_buf) : list Z :=
  rng m (rbuf b) (rsize b) (rhead b) (used (rsize b) (rhead b) (rtail b)).

Lemma used_eq n h t : 0 ≤ h < n → 0 ≤ t < n → used n h t = if t <? h then t - h + n else t - h.
Proof.
  intros Hh Ht. unfold used. destruct (t <? h) eqn:E; zbool; [|apply Z.mod_small; lia].
  rewrite <-(Z.mod_add (t - h) 1 n) by lia. rewrite Z.mod_small; lia.
Qed.
Lemma used_bounds n h t : 0 < n → 0 ≤ used n h t < n.
Proof. intros Hn. by apply Z.mod_pos_bound. Qed.
Lemma used_end n h t : 0 ≤ t < n → (h + used n h t) mod n = t.
Proof. intros Ht. unfold used. rewrite Zplus_mod_idemp_r. replace (h + (t - h)) with t by lia. apply Z.mod_small. lia. Qed.
Lemma used_add n h t k : 0 < n → 0 ≤ k → used n h t + k < n → used n h ((t + k) mod n) = used n h t + k.
Proof.
  intros Hn Hk Hlt. unfold used in *. rewrite Zminus_mod_idemp_l. replace (t + k - h) with ((t - h) + k) by lia.
  rewrite <-Zplus_mod_idemp_l. pose proof (Z.mod_pos_bound (t - h) n Hn). apply Z.mod_small. lia.
Qed.
Lemma used_sub n h t k : 0 < n → 0 ≤ k ≤ used n h t → used n ((h + k) mod n) t = used n h t - k.
Proof.
  intros Hn Hk. unfold used in *. rewrite Zminus_mod_idemp_r. replace (t - (h + k)) with ((t - h) - k) by lia.
  rewrite <-Zminus_mod_idemp_l. pose proof (Z.mod_pos_bound (t - h) n Hn). apply Z.mod_small. lia.
Qed.

Lemma space_used n h t :
  0 < n ≤ 2147483648 → 0 ≤ h < n → 0 ≤ t < n → z_ring_buf_custom_space_get n h t = n - 1 - used n h t.
Proof.
  intros Hn Hh Ht. unfold z_ring_buf_custom_space_get. rewrite used_eq by done.
  destruct (t <? h) eqn:E; zbool; rewrite u32_id by lia; lia.
Qed.
Lemma wrap_mod v n : 0 < n ≤ 2147483648 → 0 ≤ v < 2 * n → wrap (u32 v) n = v mod n.
Proof.
  intros Hn Hv. rewrite u32_id by lia. unfold wrap. destruct (n <=? v) eqn:E; zbool.
  - rewrite <-(Z.mod_add v (- 1) n) by lia. rewrite Z.mod_small; lia.
  - symmetry. apply Z.mod_small. lia.
Qed.

(** ** Byte mode *)

(** A claim, with [k] bytes of the free area already claimed. *)
Lemma put_claim_eq b n k :
  rbuf_ok b → 0 ≤ n → 0 ≤ k → used (rsize b) (rhead b) (rtail b) + k < rsize b →
  tmp_tail b = (rtail b + k) mod rsize b →
  let p := n `min` (rsize b - 1 - used (rsize b) (rhead b) (rtail b) - k) `min` (rsize b - tmp_tail b) in
  ring_buf_put_claim b n = (p, rbuf b + tmp_tail b, set_tmp_tail ((rtail b + (k + p)) mod rsize b) b).
Proof.
  intros Hb Hn Hk Hu Ht p. pose proof (rb_size b Hb) as Hs. pose proof (Z.mod_pos_bound (rtail b + k) (rsize b) ltac:(lia)) as Hm.
  unfold ring_buf_put_claim. cbv zeta. rewrite space_used, Ht, used_add, (u32_id (rsize b - _)) by (apply Hb || lia).
  set (q := Z.min _ _). assert (Hq : q = p) by (unfold q, p; rewrite Ht; lia). rewrite Hq.
  rewrite wrap_mod by (unfold p; lia). rewrite Zplus_mod_idemp_l. do 3 f_equal. lia.
Qed.
Lemma get_claim_eq b n k :
  rbuf_ok b → 0 ≤ n → 0 ≤ k ≤ used (rsize b) (rhead b) (rtail b) → tmp_head b = (rhead b + k) mod rsize b →
  let p := n `min` (used (rsize b) (rhead b) (rtail b) - k) `min` (rsize b - tmp_head b) in
  ring_buf_get_claim b n = (p, rbuf b + tmp_head b, set_tmp_head ((rhead b + (k + p)) mod rsize b) b).
Proof.
  intros Hb Hn Hk Ht p. pose proof (rb_size b Hb) as Hs. pose proof (Z.mod_pos_bound (rhead b + k) (rsize b) ltac:(lia)) as Hm.
  pose proof (used_bounds (rsize b) (rhead b) (rtail b) ltac:(lia)) as Hu.
  unfold ring_buf_get_claim. cbv zeta. rewrite space_used, Ht, used_sub, !(u32_id (rsize b - _)), (u32_id (rsize b - 1 - _)) by (apply Hb || lia).
  set (q := Z.min _ _). assert (Hq : q = p) by (unfold q, p; rewrite Ht; lia). rewrite Hq.
  rewrite wrap_mod by (unfold p; lia). rewrite Zplus_mod_idemp_l. do 3 f_equal. lia.
Qed.

Lemma rbuf_ok_tmp b v w : rbuf_ok b → rbuf_ok (set_tmp_tail v b) ∧ rbuf_ok (set_tmp_head w b).
Proof. intros Hb. split; constructor; apply Hb. Qed.

Lemma copy_in_piece base n p src l m : l ≤ n - p → memcpy (base + p) src l m = copy_in base n p src l m.
Proof. intros Hl. unfold copy_in. by rewrite (proj2 (Z.leb_le _ _)) by lia. Qed.
Lemma copy_out_piece base n p dst l m : l ≤ n - p → memcpy dst (base + p) l m = copy_out base n p dst l m.
Proof. intros Hl. unfold copy_out. by rewrite (proj2 (Z.leb_le _ _)) by lia. Qed.

Lemma put_loop_spec fuel b data n k m :
  rbuf_ok b → 0 ≤ n < 4294967296 → 0 ≤ k → used (rsize b) (rhead b) (rtail b) + k < rsize b →
  tmp_tail b = (rtail b + k) mod rsize b → disjoint_ranges data n (rbuf b) (rsize b) → (Z.to_nat n < fuel)%nat →
  let u := used (rsize b) (rhead b) (rtail b) in let r := n `min` (rsize b - 1 - u - k) in
  ∃ m', put_loop fuel b data n k m = Some (k + r, set_tmp_tail ((rtail b + (k + r)) mod rsize b) b, m') ∧
    rng m' (rbuf b) (rsize b) (rhead b) (u + k + r) = rng m (rbuf b) (rsize b) (rhead b) (u + k) ++ bytes m data r.
Proof.
  revert b data n k m. induction fuel as [|fuel IH]; intros b data n k m Hb Hn Hk Hu Ht Hd Hf u r; [lia|].
  pose proof (rb_size b Hb) as Hs. pose proof (Z.mod_pos_bound (rtail b + k) (rsize b) ltac:(lia)) as Hm. rewrite <-Ht in Hm.
  pose proof (used_bounds (rsize b) (rhead b) (rtail b) ltac:(lia)) as Hub. fold u in Hu, Hub.
  cbn [put_loop]. rewrite (put_claim_eq b n k Hb ltac:(lia) Hk Hu Ht). fold u. set (p := Z.min (Z.min _ _) _).
  assert (Hp : p = r `min` (rsize b - tmp_tail b)) by (unfold p, r; lia). clearbody p.
  assert (Hrd : r = n `min` (rsize b - 1 - u - k)) by done. clearbody r.
  rewrite (u32_id (k + p)), (u32_id (n - p)), (copy_in_piece _ (rsize b)) by lia.
  assert (Happ : rng (copy_in (rbuf b) (rsize b) (tmp_tail b) data p m) (rbuf b) (rsize b) (rhead b) (u + k + p) =
    rng m (rbuf b) (rsize b) (rhead b) (u + k) ++ bytes m data p).
  { assert (Htu : tmp_tail b = (rhead b + (u + k)) mod rsize b).
    { rewrite Ht, <-Zplus_mod_idemp_l, <-(used_end (rsize b) (rhead b) (rtail b)), Zplus_mod_idemp_l, Zplus_mod_idemp_l by apply Hb. f_equal. fold u. lia. }
    rewrite Htu. apply copy_in_appends; try lia. unfold disjoint_ranges in *. lia. }
  destruct (negb (n - p =? 0) && negb (p =? 0)) eqn:E.
  - apply andb_true_iff in E as [E1 E2]. apply negb_true_iff in E1, E2. zbool.
    destruct (IH (set_tmp_tail ((rtail b + (k + p)) mod rsize b) b) (data + p) (n - p) (k + p)
      (copy_in (rbuf b) (rsize b) (tmp_tail b) data p m)) as (m' & Hm' & Hr); simpl; fold u;
      [by apply rbuf_ok_tmp|lia|lia|lia|done|unfold disjoint_ranges in *; lia|lia|]. simpl in Hr. fold u in Hr, Hm'.
    exists m'. rewrite Hm'. cbn [rsize rtail rhead set_tmp_tail]. fold u.
    replace ((n - p) `min` (rsize b - 1 - u - (k + p))) with (r - p) in * by lia. split.
    + by replace (k + p + (r - p)) with (k + r) by lia.
    + replace (u + k + r) with (u + (k + p) + (r - p)) by lia. rewrite Hr. replace (u + (k + p)) with (u + k + p) by lia.
      rewrite Happ, <-app_assoc. f_equal. rewrite (bytes_split m data p r) by lia. f_equal. apply read_bytes_ext. intros x Hx.
      apply copy_in_spec; unfold disjoint_ranges in *; lia.
  - assert (Hpr : p = r).
    { apply andb_false_iff in E as [E|E]; apply negb_false_iff in E; zbool; lia. }
    rewrite <-Hpr. eexists. split; [done|done].
Qed.

Lemma get_loop_spec fuel b data n k m :
  rbuf_ok b → 0 ≤ n < 4294967296 → 0 ≤ k ≤ used (rsize b) (rhead b) (rtail b) →
  tmp_head b = (rhead b + k) mod rsize b → disjoint_ranges data n (rbuf b) (rsize b) → (Z.to_nat n < fuel)%nat →
  let r := n `min` (used (rsize b) (rhead b) (rtail b) - k) in
  ∃ m', get_loop fuel b data n k m = Some (k + r, set_tmp_head ((rhead b + (k + r)) mod rsize b) b, m') ∧
    bytes m' data r = rng m (rbuf b) (rsize b) (rhead b + k) r ∧
    (∀ a, a < data ∨ data + n ≤ a → m' !!! a = m !!! a).
Proof.
  revert b data n k m. induction fuel as [|fuel IH]; intros b data n k m Hb Hn Hk Ht Hd Hf r; [lia|].
  pose proof (rb_size b Hb) as Hs. pose proof (Z.mod_pos_bound (rhead b + k) (rsize b) ltac:(lia)) as Hm. rewrite <-Ht in Hm.
  pose proof (used_bounds (rsize b) (rhead b) (rtail b) ltac:(lia)) as Hub. set (u := used (rsize b) (rhead b) (rtail b)) in *.
  cbn [get_loop]. rewrite (get_claim_eq b n k Hb ltac:(lia) Hk Ht). fold u. set (p := Z.min (Z.min _ _) _).
  assert (Hp : p = r `min` (rsize b - tmp_head b)) by (unfold p, r; lia). clearbody p.
  assert (Hrd : r = n `min` (u - k)) by done. clearbody r.
  rewrite (u32_id (k + p)), (u32_id (n - p)) by lia. set (m1 := memcpy data _ p m).
  assert (Hcp : bytes m1 data p = rng m (rbuf b) (rsize b) (rhead b + k) p ∧ (∀ a, a < data ∨ data + p ≤ a → m1 !!! a = m !!! a)).
  { split; [|intros a Ha; by apply memcpy_other]. unfold m1. rewrite bytes_memcpy, <-rng_mod, <-Ht, rng_bytes by lia. done. }
  clearbody m1. destruct Hcp as [Hc1 Hc2]. destruct (negb (n - p =? 0) && negb (p =? 0)) eqn:E.
  - apply andb_true_iff in E as [E1 E2]. apply negb_true_iff in E1, E2. zbool.
    destruct (IH (set_tmp_head ((rhead b + (k + p)) mod rsize b) b) (data + p) (n - p) (k + p) m1) as (m' & Hm' & Hr & Ho); simpl; fold u;
      [by apply rbuf_ok_tmp|lia|lia|done|unfold disjoint_ranges in *; lia|lia|]. simpl in Hr. fold u in Hr.
    exists m'. rewrite Hm'. cbn [rsize rtail rhead set_tmp_head]. fold u.
    replace ((n - p) `min` (u - (k + p))) with (r - p) in * by lia. split_and!.
    + by replace (k + p + (r - p)) with (k + r) by lia.
    + rewrite (bytes_split m' data p r), Hr by lia. replace r with (p + (r - p)) at 2 by lia. rewrite rng_app by lia. f_equal.
      * rewrite <-Hc1. apply read_bytes_ext. intros x Hx. apply Ho. lia.
      * replace (rhead b + (k + p)) with (rhead b + k + p) by lia. apply rng_ext. intros i Hi. apply Hc2.
        pose proof (Z.mod_pos_bound (rhead b + k + p + i) (rsize b)). unfold disjoint_ranges in Hd. lia.
    + intros a Ha. rewrite Ho by lia. apply Hc2. lia.
  - assert (Hpr : p = r).
    { apply andb_false_iff in E as [E|E]; apply negb_false_iff in E; zbool; lia. }
    rewrite <-Hpr. eexists. split_and!; [done|done|]. intros a Ha. apply Hc2. lia.
Qed.

Lemma put_finish_eq b n :
  rbuf_ok b → 0 ≤ n → used (rsize b) (rhead b) (rtail b) + n < rsize b →
  let b' := set_rtail ((rtail b + n) mod rsize b) b in ring_buf_put_finish b n = (0, set_tmp_tail (rtail b') b') ∧ rbuf_ok b'.
Proof.
  intros Hb Hn Hu b'. pose proof (rb_size b Hb) as Hs. pose proof (rb_tail b Hb) as Htl. pose proof (used_bounds (rsize b) (rhead b) (rtail b) ltac:(lia)). split.
  - unfold ring_buf_put_finish, ring_buf_space_get. rewrite space_used by apply Hb. rewrite (proj2 (Z.ltb_ge _ _)) by lia.
    cbv zeta. rewrite wrap_mod by lia. done.
  - constructor; try apply Hb. apply Z.mod_pos_bound. simpl. lia.
Qed.
Lemma get_finish_eq b n :
  rbuf_ok b → 0 ≤ n ≤ used (rsize b) (rhead b) (rtail b) →
  let b' := set_rhead ((rhead b + n) mod rsize b) b in ring_buf_get_finish b n = (0, set_tmp_head (rhead b') b') ∧ rbuf_ok b'.
Proof.
  intros Hb Hn b'. pose proof (rb_size b Hb) as Hs. pose proof (rb_head b Hb) as Hh. pose proof (used_bounds (rsize b) (rhead b) (rtail b) ltac:(lia)). split.
  - unfold ring_buf_get_finish, ring_buf_space_get. rewrite space_used by apply Hb. rewrite (u32_id (_ - _)) by lia.
    rewrite (proj2 (Z.ltb_ge _ _)) by lia. cbv zeta. rewrite wrap_mod by lia. done.
  - constructor; try apply Hb. apply Z.mod_pos_bound. simpl. lia.
Qed.

(** C28: in byte mode the ring buffer is a queue of at most [size - 1] bytes:
    [ring_buf_put] returns and appends as many of the given bytes as fit, [ring_buf_get] returns and
    moves as many of the oldest bytes as are there, both over the wrap, and
    no area is left claimed. *)
Theorem ring_buf_byte_fifo b data n m :
  rbuf_ok b → unclaimed b → 0 ≤ n < 4294967296 → disjoint_ranges data n (rbuf b) (rsize b) →
  (∃ r b' m', ring_buf_put b data n m = Some (r, b', m') ∧ rbuf_ok b' ∧ unclaimed b' ∧
     r = n `min` (ring_buf_capacity_get b - Z.of_nat (length (rb_contents m b))) ∧
     rb_contents m' b' = rb_contents m b ++ bytes m data r) ∧
  (∃ r b' m', ring_buf_get b data n m = Some (r, b', m') ∧ rbuf_ok b' ∧ unclaimed b' ∧
     r = n `min` Z.of_nat (length (rb_contents m b)) ∧ rb_contents m b = bytes m' data r ++ rb_contents m' b').
Proof.
  intros Hb [Htt Hth] Hn Hd. pose proof (rb_size b Hb) as Hs. pose proof (used_bounds (rsize b) (rhead b) (rtail b) ltac:(lia)) as Hu.
  unfold rb_contents at 1 4. rewrite rng_length by lia. unfold ring_buf_capacity_get. rewrite u32_id by lia.
  set (u := used (rsize b) (rhead b) (rtail b)) in *. split.
  - destruct (put_loop_spec (S (Z.to_nat n)) b data n 0 m) as (m' & Hm' & Hr);
      [done|done|done|lia|rewrite Z.add_0_r, Z.mod_small; [done|apply Hb]|done|lia|]. fold u in Hm', Hr.
    rewrite !Z.sub_0_r, Z.add_0_l, Z.add_0_r in *. set (r := n `min` (rsize b - 1 - u)) in *.
    unfold ring_buf_put. rewrite Hm'. simpl.
    destruct (put_finish_eq (set_tmp_tail ((rtail b + r) mod rsize b) b) r) as [-> Hb']; [by apply rbuf_ok_tmp|lia|simpl; fold u; lia|].
    eexists _, _, _. split; [done|]. split; [by apply rbuf_ok_tmp|]. split; [done|]. split; [done|].
    unfold rb_contents. simpl. rewrite used_add by lia. exact Hr.
  - destruct (get_loop_spec (S (Z.to_nat n)) b data n 0 m) as (m' & Hm' & Hr & Ho);
      [done|done|lia|rewrite Z.add_0_r, Z.mod_small; [done|apply Hb]|done|lia|]. fold u in Hm', Hr.
    rewrite !Z.sub_0_r, ?Z.add_0_l, ?Z.add_0_r in *. set (r := n `min` u) in *.
    unfold ring_buf_get. rewrite Hm'. simpl.
    destruct (get_finish_eq (set_tmp_head ((rhead b + r) mod rsize b) b) r) as [-> Hb']; [by apply rbuf_ok_tmp|simpl; fold u; lia|].
    eexists _, _, _. split; [done|]. split; [by apply rbuf_ok_tmp|]. split; [done|]. split; [done|].
    rewrite Hr. unfold rb_contents. simpl. fold u. rewrite used_sub by lia. fold u. rewrite rng_mod. replace u with (r + (u - r)) at 1 by lia.
    rewrite rng_app by lia. f_equal. apply rng_ext. intros i Hi. symmetry. apply Ho.
    pose proof (Z.mod_pos_bound (rhead b + r + i) (rsize b)). unfold disjoint_ranges in Hd. lia.
Qed.
Lemma ring_buf_byte_fifo_witness :
  let b := mk_ring_buf 3 3 3 3 5 100 0 in
  ∃ r b' m', ring_buf_put b 200 7 ∅ = Some (r, b', m') ∧ rbuf_ok b' ∧ unclaimed b' ∧ r = 4 ∧
    rb_contents m' b' = rb_contents ∅ b ++ bytes ∅ 200 r.
Proof.
  intros b. apply (ring_buf_byte_fifo b 200 7 ∅).
  - constructor; simpl; lia.
  - done.
  - lia.
  - right. simpl. lia.
Defined.

(** ** Item mode *)

Record item := mk_item { it_type : Z; it_value : Z; it_data : list Z }.
Definition item_ok (i : item) : Prop :=
  0 ≤ it_type i < 65536 ∧ 0 ≤ it_value i < 256 ∧ Z.of_nat (length (it_data i)) < 256.
Definition encode (i : item) : list Z := ring_element (it_type i) (Z.of_nat (length (it_data i))) (it_value i) :: it_data i.

(** The words in the buffer are those of the items. *)
Definition holds (b : ring_buf) (m : gmap Z Z) (items : list item) : Prop :=
  rb_contents m b = concat (encode <$> items) ∧ Forall item_ok items.

Lemma ring_element_fields type len value :
  0 ≤ type < 65536 → 0 ≤ len < 256 → 0 ≤ value < 256 →
  let w := ring_element type len value in el_type w = type ∧ el_length w = len ∧ el_value w = value.
Proof. intros Ht Hl Hv. simpl. unfold el_type, el_length, el_value, ring_element. split_and!; dlia. Qed.

Lemma index_mod b x : rbuf_ok b → index b x = x mod rsize b.
Proof. intros Hb. apply mask_mod, (rb_mask b Hb). Qed.

(** The loops copy the words in ring order. *)
Lemma store_words_spec n i b data m :
  rbuf_ok b → 0 ≤ i → i + Z.of_nat n < rsize b → disjoint_ranges data (i + Z.of_nat n) (rbuf b) (rsize b) →
  let m' := store_words n i b data m in
  rng m' (rbuf b) (rsize b) (rtail b + 1 + i) (Z.of_nat n) = bytes m (data + i) (Z.of_nat n) ∧
  (∀ a, (∀ j, i ≤ j < i + Z.of_nat n → a ≠ rbuf b + (rtail b + 1 + j) mod rsize b) → m' !!! a = m !!! a).
Proof.
  intros Hb. revert i m. induction n as [|n IH]; intros i m Hi Hn Hd; [done|]. rewrite Nat2Z.inj_succ in *. simpl.
  pose proof (rb_size b Hb) as Hs. pose proof (rb_tail b Hb) as Ht. rewrite index_mod, u32_id by (done || lia).
  replace (i + rtail b + 1) with (rtail b + 1 + i) by lia. set (q := rbuf b + (rtail b + 1 + i) mod rsize b).
  set (m1 := <[q := _]> m).
  destruct (IH (i + 1) m1) as [Hr Ho]; [lia|lia|by replace (i + 1 + Z.of_nat n) with (i + Z.succ (Z.of_nat n)) by lia|].
  assert (Hq : ∀ j, i < j < i + rsize b → q ≠ rbuf b + (rtail b + 1 + j) mod rsize b).
  { intros j Hj He. apply (ring_ne (rtail b + 1) i j (rsize b)); [lia|]. unfold q in He. lia. }
  split.
  - rewrite <-Z.add_1_l, rng_app, (bytes_app m) by lia. f_equal.
    + unfold rng, bytes. simpl. rewrite Z.add_0_r, Ho by (intros j Hj; rewrite ?Z.add_0_r; apply Hq; lia). unfold m1, q. by rewrite lookup_total_insert_eq.
    + replace (rtail b + 1 + i + 1) with (rtail b + 1 + (i + 1)) by lia. rewrite Hr. replace (data + (i + 1)) with (data + i + 1) by lia.
      apply read_bytes_ext. intros x Hx. unfold m1. rewrite lookup_total_insert_ne; [done|].
      pose proof (Z.mod_pos_bound (rtail b + 1 + i) (rsize b)). unfold q, disjoint_ranges in *. lia.
  - intros a Ha. rewrite Ho by (intros j Hj; apply Ha; lia). unfold m1. apply lookup_total_insert_ne. intros He. apply (Ha i); [lia|done].
Qed.

Lemma load_words_spec n i b data m :
  rbuf_ok b → 0 ≤ i → i + Z.of_nat n < rsize b → disjoint_ranges data (i + Z.of_nat n) (rbuf b) (rsize b) →
  let m' := load_words n i b data m in
  bytes m' (data + i) (Z.of_nat n) = rng m (rbuf b) (rsize b) (rhead b + 1 + i) (Z.of_nat n) ∧
  (∀ a, a < data + i ∨ data + i + Z.of_nat n ≤ a → m' !!! a = m !!! a).
Proof.
  intros Hb. revert i m. induction n as [|n IH]; intros i m Hi Hn Hd; [done|]. rewrite Nat2Z.inj_succ in *. simpl.
  pose proof (rb_size b Hb) as Hs. pose proof (rb_head b Hb) as Ht. rewrite index_mod, u32_id by (done || lia).
  replace (i + rhead b + 1) with (rhead b + 1 + i) by lia. set (m1 := <[data + i := _]> m).
  destruct (IH (i + 1) m1) as [Hr Ho]; [lia|lia|by replace (i + 1 + Z.of_nat n) with (i + Z.succ (Z.of_nat n)) by lia|]. split.
  - rewrite <-Z.add_1_l, rng_app, bytes_app by lia. f_equal.
    + unfold rng, bytes. simpl. rewrite Z.add_0_r, Ho by lia. unfold m1. by rewrite lookup_total_insert_eq.
    + replace (data + i + 1) with (data + (i + 1)) by lia. rewrite Hr. replace (rhead b + 1 + (i + 1)) with (rhead b + 1 + i + 1) by lia.
      apply rng_ext. intros j Hj. unfold m1. apply lookup_total_insert_ne.
      pose proof (Z.mod_pos_bound (rhead b + 1 + i + 1 + j) (rsize b)). unfold disjoint_ranges in *. lia.
  - intros a Ha. rewrite Ho by lia. unfold m1. apply lookup_total_insert_ne. lia.
Qed.

(** Storing an item behind the contents. *)
Lemma item_stored b type value data size32 m :
  rbuf_ok b → 0 ≤ size32 → used (rsize b) (rhead b) (rtail b) + size32 + 1 < rsize b → disjoint_ranges data size32 (rbuf b) (rsize b) →
  let m1 := <[rbuf b + rtail b := ring_element type size32 value]> m in
  let m' := store_words (Z.to_nat size32) 0 b data m1 in
  rng m' (rbuf b) (rsize b) (rhead b) (used (rsize b) (rhead b) (rtail b) + (1 + size32)) =
    rb_contents m b ++ ring_element type size32 value :: bytes m data size32.
Proof.
  intros Hb Hn Hu Hd m1 m'. pose proof (rb_size b Hb) as Hs. pose proof (rb_tail b Hb) as Ht.
  pose proof (used_bounds (rsize b) (rhead b) (rtail b) ltac:(lia)) as Hub. pose proof (used_end (rsize b) (rhead b) (rtail b) Ht) as He.
  destruct (store_words_spec (Z.to_nat size32) 0 b data m1) as [Hr Ho]; [done|lia|lia|by rewrite Z.add_0_l, Z2Nat.id by lia|].
  fold m' in Hr, Ho. unfold rb_contents. set (u := used (rsize b) (rhead b) (rtail b)) in *.
  rewrite !Z2Nat.id, !Z.add_0_l, !Z.add_0_r in * by lia.
  assert (Hcell : ∀ j, (rtail b + 1 + j) mod rsize b = (rhead b + (u + 1 + j)) mod rsize b).
  { intros j. rewrite <-He at 1. rewrite <-Z.add_assoc, Zplus_mod_idemp_l. f_equal. lia. }
  rewrite rng_app by lia. f_equal.
  - apply rng_ext. intros i Hi. rewrite Ho.
    + unfold m1. apply lookup_total_insert_ne. rewrite <-He. intros Heq. apply (ring_ne (rhead b) i u (rsize b)); lia.
    + intros j Hj. rewrite Hcell. intros Heq. apply (ring_ne (rhead b) i (u + 1 + j) (rsize b)); lia.
  - rewrite <-rng_mod, He, rng_app by lia. change (?h :: ?l) with ([h] ++ l). f_equal.
    + unfold rng. simpl. rewrite Z.add_0_r, Z.mod_small by lia. rewrite Ho; [unfold m1; by rewrite lookup_total_insert_eq|].
      intros j Hj Heq. rewrite Hcell, <-He in Heq at 1. apply (ring_ne (rhead b) u (u + 1 + j) (rsize b)); lia.
    + rewrite Hr. apply read_bytes_ext. intros x Hx. unfold m1. apply lookup_total_insert_ne. unfold disjoint_ranges in Hd. lia.
Qed.

Lemma item_put_spec b m items type value data size32 :
  rbuf_ok b → holds b m items → 0 ≤ type < 65536 → 0 ≤ value < 256 → 0 ≤ size32 < 256 →
  disjoint_ranges data size32 (rbuf b) (rsize b) →
  let '(e, b', m') := ring_buf_item_put b type value data size32 m in
  rbuf_ok b' ∧
  if size32 + 1 <=? ring_buf_capacity_get b - Z.of_nat (length (rb_contents m b))
  then e = 0 ∧ holds b' m' (items ++ [mk_item type value (bytes m data size32)])
  else e = - EMSGSIZE ∧ holds b' m' items.
Proof.
  intros Hb [Hc Hi] Htype Hvalue Hn Hd. pose proof (rb_size b Hb) as Hs. pose proof (rb_tail b Hb) as Ht.
  pose proof (used_bounds (rsize b) (rhead b) (rtail b) ltac:(lia)) as Hub.
  unfold ring_buf_item_put, ring_buf_space_get, ring_buf_capacity_get. rewrite space_used by apply Hb.
  rewrite (u32_id (rsize b - 1)) by lia. unfold rb_contents at 1. rewrite rng_length by lia. destruct (size32 + 1 <=? _) eqn:E; zbool; cbv zeta.
  - rewrite index_mod, u32_id by (done || lia). split; [constructor; try apply Hb; apply Z.mod_pos_bound; simpl; lia|].
    split; [done|]. split.
    + unfold rb_contents. simpl. rewrite <-Z.add_assoc, (used_add _ _ _ (size32 + 1)), (Z.add_comm size32) by lia.
      rewrite (item_stored b type value data size32 m Hb) by (done || lia). rewrite Hc, fmap_app, concat_app. simpl.
      unfold encode at 2. simpl. by rewrite bytes_length, app_nil_r by lia.
    + apply Forall_app_2; [done|]. apply Forall_singleton. split_and!; simpl; rewrite ?bytes_length; lia.
  - split; [by apply rbuf_ok_tmp|]. done.
Qed.

Lemma item_get_spec b m i rest data size32 :
  rbuf_ok b → holds b m (i :: rest) → 0 ≤ size32 < 256 → disjoint_ranges data size32 (rbuf b) (rsize b) →
  let '(e, tv, n, b', m') := ring_buf_item_get b data size32 m in
  rbuf_ok b' ∧ n = Z.of_nat (length (it_data i)) ∧
  if n <=? size32 then e = 0 ∧ tv = Some (it_type i, it_value i) ∧ bytes m' data n = it_data i ∧ holds b' m' rest
  else e = - EMSGSIZE ∧ b' = b ∧ m' = m.
Proof.
  intros Hb [Hc Hi] Hn Hd. apply Forall_cons in Hi as [(Hit & Hiv & Hil) Hrest]. pose proof (rb_size b Hb) as Hs.
  pose proof (rb_head b Hb) as Hh. pose proof (used_bounds (rsize b) (rhead b) (rtail b) ltac:(lia)) as Hub.
  set (w := ring_element (it_type i) (Z.of_nat (length (it_data i))) (it_value i)).
  destruct (ring_element_fields (it_type i) (Z.of_nat (length (it_data i))) (it_value i)) as (F1 & F2 & F3); [done|lia|done|]. fold w in F1, F2, F3.
  change (rb_contents m b = [w] ++ (it_data i ++ concat (encode <$> rest))) in Hc. unfold rb_contents in Hc.
  set (u := used (rsize b) (rhead b) (rtail b)) in *. apply rng_app_inv in Hc as (Hl1 & Hw & Hc); [|lia].
  simpl in Hl1. change (Z.of_nat (length [w])) with 1 in *. apply rng_app_inv in Hc as (Hl2 & Hdata & Hc); [|lia].
  unfold rng in Hw. simpl in Hw. rewrite Z.add_0_r, Z.mod_small in Hw by lia. injection Hw as Hw.
  unfold ring_buf_item_get. assert (He : ring_buf_is_empty b = false).
  { apply Z.eqb_neq. intros Heq. unfold u, used in Hl1. rewrite Heq, Z.sub_diag, Z.mod_0_l in Hl1; lia. }
  rewrite He. cbv zeta. rewrite Hw, F2. destruct (size32 <? _) eqn:E; zbool.
  { split_and!; [done..|]. by rewrite (proj2 (Z.leb_gt _ _)) by lia. }
  rewrite (proj2 (Z.leb_le _ _)), F1, F3, Nat2Z.id, index_mod, u32_id by (done || lia).
  destruct (load_words_spec (length (it_data i)) 0 b data m) as [Hr Ho]; [done|lia|lia|unfold disjoint_ranges in *; lia|].
  rewrite !Z.add_0_r in Hr. rewrite Z.add_0_r in Ho. split; [constructor; try apply Hb; apply Z.mod_pos_bound; simpl; lia|].
  split_and!; [done..| |split; [|done]].
  - by rewrite Hr.
  - rewrite <-Hc. unfold rb_contents. simpl. rewrite <-Z.add_assoc, used_sub, rng_mod by (fold u; lia). fold u.
    replace (rhead b + 1 + Z.of_nat (length (it_data i))) with (rhead b + (Z.of_nat (length (it_data i)) + 1)) by lia.
    replace (u - 1 - Z.of_nat (length (it_data i))) with (u - (Z.of_nat (length (it_data i)) + 1)) by lia.
    apply rng_ext. intros j Hj. apply Ho. pose proof (Z.mod_pos_bound (rhead b + (Z.of_nat (length (it_data i)) + 1) + j) (rsize b)).
    unfold disjoint_ranges in Hd. lia.
Qed.

(** C29: in item mode the ring buffer is a queue of items: [ring_buf_item_put] stores an
    item with its type, value and data words, or drops it with [-EMSGSIZE]
    when its words do not fit; [ring_buf_item_get] returns the oldest
    item with the type, value, length and data it was put with, or [-EAGAIN] when there is
    none, or [-EMSGSIZE] and the needed length, leaving the item in
    place, when the caller's area is too small. *)
Theorem ring_buf_item_roundtrip b m items type value data size32 :
  rbuf_ok b → holds b m items → 0 ≤ type < 65536 → 0 ≤ value < 256 → 0 ≤ size32 < 256 →
  disjoint_ranges data size32 (rbuf b) (rsize b) →
  (let '(e, b', m') := ring_buf_item_put b type value data size32 m in
   rbuf_ok b' ∧
   if size32 + 1 <=? ring_buf_capacity_get b - Z.of_nat (length (rb_contents m b))
   then e = 0 ∧ holds b' m' (items ++ [mk_item type value (bytes m data size32)])
   else e = - EMSGSIZE ∧ holds b' m' items) ∧
  (let '(e, tv, n, b', m') := ring_buf_item_get b data size32 m in
   rbuf_ok b' ∧
   match items with
   | [] => e = - EAGAIN ∧ b' = b ∧ m' = m
   | i :: rest =>
       n = Z.of_nat (length (it_data i)) ∧
       if n <=? size32 then e = 0 ∧ tv = Some (it_type i, it_value i) ∧ bytes m' data n = it_data i ∧ holds b' m' rest
       else e = - EMSGSIZE ∧ b' = b ∧ m' = m
   end).
Proof.
  intros Hb Hi Ht Hv Hn Hd. split; [by apply item_put_spec|]. destruct items as [|i rest]; [|by apply item_get_spec].
  assert (He : ring_buf_is_empty b = true).
  { destruct Hi as [Hc _]. pose proof (rb_size b Hb) as Hs. pose proof (rb_head b Hb) as Hh. pose proof (rb_tail b Hb) as Htl.
    assert (Hu : used (rsize b) (rhead b) (rtail b) = 0).
    { pose proof (used_bounds (rsize b) (rhead b) (rtail b) ltac:(lia)).
      rewrite <-(rng_length m (rbuf b) (rsize b) (rhead b) (used (rsize b) (rhead b) (rtail b))) by lia.
      unfold rb_contents in Hc. by rewrite Hc. }
    apply Z.eqb_eq. rewrite used_eq in Hu by done. destruct (rtail b <? rhead b) eqn:E; zbool; lia. }
  unfold ring_buf_item_get. by rewrite He.
Qed.
Lemma ring_buf_item_roundtrip_witness :
  let b := ring_buf_init 8 100 in
  let '(e, b', m') := ring_buf_item_put b 3 4 200 2 ∅ in
  rbuf_ok b' ∧ e = 0 ∧ holds b' m' [mk_item 3 4 (bytes ∅ 200 2)].
Proof.
  intros b. apply (ring_buf_item_roundtrip b ∅ [] 3 4 200 2).
  - constructor; simpl; try lia. right. split; [by exists 3|done].
  - split; [done|constructor].
  - lia.
  - lia.
  - lia.
  - right. simpl. lia.
Defined.
