(* ===== verification/Crc.v ===== *)
(** * Checksums ([lib/utils/source/crc/crc.c])

    The data is the list of its bytes. *)
From stdpp Require Import list.
From S2P Require Import Prelude.
Local Open Scope Z_scope.

(** ** Operations *)

(** The inner loop of [utils_crc16], from bit [b] on; [src_i] is [None] past the end of the data. *)
Fixpoint crc16_bits (n : nat) (b : Z) (polynomial : Z) (src_i : option Z) (crc : Z) : Z :=
  match n with
  | O => crc
  | S n =>
      let divide := Z.land crc 32768 in
      let crc := u16 (Z.shiftl crc 1) in
      let crc := match src_i with
                 | Some x => Z.lor crc (if Z.land x (Z.shiftr 128 b) =? 0 then 0 else 1)
                 | None => crc
                 end in
      let crc := if divide =? 0 then crc else Z.lxor crc polynomial in
      crc16_bits n (b + 1) polynomial src_i crc
  end.
Definition utils_crc16 (src : list Z) (polynomial initial_value pad : Z) : Z :=
  let padding := if pad =? 0 then 0%nat else 2%nat in
  foldl (λ crc src_i, crc16_bits 8 0 polynomial src_i crc) initial_value ((Some <$> src) ++ replicate padding None).

Definition s_crc32 : list Z :=
  [0; 0x1db71064; 0x3b6e20c8; 0x26d930ac; 0x76dc4190; 0x6b6b51f4; 0x4db26158; 0x5005713c;
   0xedb88320; 0xf00f9344; 0xd6d6a3e8; 0xcb61b38c; 0x9b64c2b0; 0x86d3d2d4; 0xa00ae278; 0xbdbdf21c].
Definition crc32_byte (crcu32 b : Z) : Z :=
  let crcu32 := Z.lxor (Z.shiftr crcu32 4) (s_crc32 !!! Z.to_nat (Z.lxor (Z.land crcu32 15) (Z.land b 15))) in
  Z.lxor (Z.shiftr crcu32 4) (s_crc32 !!! Z.to_nat (Z.lxor (Z.land crcu32 15) (Z.shiftr b 4))).
Definition utils_crc32 (crc : Z) (src : list Z) : Z :=
  u32 (Z.lnot (foldl crc32_byte (u32 (Z.lnot crc)) src)).

(** ** Reference: one bit at a time *)

(** Division by the reflected polynomial of CRC-32. *)
Definition bit_step (x : Z) : Z := Z.lxor (Z.shiftr x 1) (if Z.odd x then 0xedb88320 else 0).
Definition crc32_reference (crc : Z) (src : list Z) : Z :=
  u32 (Z.lnot (foldl (λ c b, Nat.iter 8 bit_step (Z.lxor c b)) (u32 (Z.lnot crc)) src)).

Lemma bit_step_lxor x y : bit_step (Z.lxor x y) = Z.lxor (bit_step x) (bit_step y).
Proof.
  unfold bit_step. rewrite Z.shiftr_lxor, <-!Z.bit0_odd, Z.lxor_spec, !Z.bit0_odd. set (P := 0xedb88320).
  apply Z.bits_inj'. intros i Hi. destruct (Z.odd x), (Z.odd y); simpl xorb; rewrite !Z.lxor_spec, ?Z.bits_0;
    by destruct (Z.testbit (Z.shiftr x 1) i), (Z.testbit (Z.shiftr y 1) i), (Z.testbit P i).
Qed.
Lemma bit_steps_lxor n x y : Nat.iter n bit_step (Z.lxor x y) = Z.lxor (Nat.iter n bit_step x) (Nat.iter n bit_step y).
Proof. induction n as [|n IH]; [done|]. simpl. by rewrite IH, bit_step_lxor. Qed.
(** Bits above the divided ones only move down. *)
Lemma bit_steps_shiftl n x : Nat.iter n bit_step (Z.shiftl x (Z.of_nat n)) = x.
Proof.
  revert x. induction n as [|n IH]; intros x; [apply Z.shiftl_0_r|]. rewrite Nat.iter_succ_r.
  assert (He : bit_step (Z.shiftl x (Z.of_nat (S n))) = Z.shiftl x (Z.of_nat n)); [|by rewrite He].
  unfold bit_step. rewrite <-Z.bit0_odd, Z.shiftl_spec_low by lia. rewrite Z.lxor_0_r, Z.shiftr_shiftl_l by lia. f_equal. lia.
Qed.

Lemma split_low n x : 0 ≤ n → x = Z.lxor (Z.shiftl (Z.shiftr x n) n) (x mod 2 ^ n).
Proof.
  intros Hn. rewrite <-Z.land_ones by done. apply Z.bits_inj'. intros i Hi.
  rewrite Z.lxor_spec, Z.land_spec, Z.testbit_ones_nonneg, Z.shiftl_spec by done. destruct (i <? n) eqn:E; zbool.
  - by rewrite (Z.testbit_neg_r _ (i - n)), xorb_false_l, andb_true_r by lia.
  - rewrite Z.shiftr_spec by lia. rewrite andb_false_r, xorb_false_r. f_equal. lia.
Qed.

Lemma table_nibble i : 0 ≤ i < 16 → s_crc32 !!! Z.to_nat i = Nat.iter 4 bit_step i.
Proof.
  intros Hi. assert (Hn : (Z.to_nat i < 16)%nat) by lia. rewrite <-(Z2Nat.id i) at 2 by lia. generalize dependent (Z.to_nat i). clear Hi.
  intros n Hn. do 16 (destruct n as [|n]; [by vm_compute|]). lia.
Qed.

Lemma lxor_range n x y : 0 ≤ n → 0 ≤ x < 2 ^ n → 0 ≤ y < 2 ^ n → 0 ≤ Z.lxor x y < 2 ^ n.
Proof.
  intros Hn Hx Hy. assert (H0 : 0 ≤ Z.lxor x y) by (apply Z.lxor_nonneg; lia). split; [done|].
  destruct (decide (Z.lxor x y = 0)) as [->|Hne]; [lia|]. apply Z.log2_lt_pow2; [lia|].
  eapply Z.le_lt_trans; [apply Z.log2_lxor; lia|].
  assert (Hlog : ∀ z, 0 ≤ z < 2 ^ n → Z.lxor x y ≠ 0 → z ≠ 0 → Z.log2 z < n) by (intros z Hz _ ?; apply Z.log2_lt_pow2; lia).
  assert (0 < n) by (destruct (decide (n = 0)) as [->|]; [|lia]; rewrite Z.pow_0_r in *; exfalso; apply Hne; by replace x with 0 by lia; replace y with 0 by lia).
  apply Z.max_lub_lt; [destruct (decide (x = 0)) as [->|]|destruct (decide (y = 0)) as [->|]]; auto.
Qed.

(** A nibble by the table is four bits by the reference. *)
Lemma nibble_step x y :
  0 ≤ y < 16 → Z.lxor (Z.shiftr x 4) (s_crc32 !!! Z.to_nat (Z.lxor (Z.land x 15) y)) = Nat.iter 4 bit_step (Z.lxor x y).
Proof.
  intros Hy. assert (Hl : 0 ≤ Z.lxor (Z.land x 15) y < 16).
  { change 15 with (Z.ones 4). rewrite Z.land_ones by lia. apply (lxor_range 4); [lia|apply Z.mod_pos_bound; lia|done]. }
  rewrite table_nibble by done. change (Z.land x 15) with (Z.land x (Z.ones 4)) in *. rewrite Z.land_ones by lia.
  rewrite (bit_steps_lxor 4 x), (bit_steps_lxor 4 (x mod 2 ^ 4)), <-Z.lxor_assoc. f_equal.
  rewrite (split_low 4 x) at 3 by lia. rewrite bit_steps_lxor. f_equal. symmetry. apply (bit_steps_shiftl 4).
Qed.

Lemma crc32_byte_bits c b : 0 ≤ b < 256 → crc32_byte c b = Nat.iter 8 bit_step (Z.lxor c b).
Proof.
  intros Hb. unfold crc32_byte. cbv zeta. assert (Hlo : Z.land b 15 = b mod 2 ^ 4) by (change 15 with (Z.ones 4); by apply Z.land_ones).
  rewrite (nibble_step c (Z.land b 15)) by (rewrite Hlo; apply Z.mod_pos_bound; lia).
  rewrite nibble_step by (rewrite Z.shiftr_div_pow2 by lia; change (2 ^ 4) with 16; dlia).
  rewrite (Nat.iter_add 4 4), <-(bit_steps_shiftl 4 (Z.shiftr b 4)), <-bit_steps_lxor, Z.lxor_assoc. do 3 f_equal.
  rewrite Hlo, Z.lxor_comm. symmetry. by apply (split_low 4).
Qed.

(** ** CRC-32 *)

Definition is_byte (b : Z) : Prop := 0 ≤ b < 256.
Lemma foldl_ext_in {A B} (P : B → Prop) (f g : A → B → A) l a :
  (∀ a b, P b → f a b = g a b) → Forall P l → foldl f a l = foldl g a l.
Proof. intros Hfg Hl. revert a. induction Hl as [|b l Hb _ IH]; intros a; simpl; [done|]. by rewrite Hfg. Qed.


Lemma bit_steps_range n x : 0 ≤ x < 2 ^ 32 → 0 ≤ Nat.iter n bit_step x < 2 ^ 32.
Proof.
  intros Hx. induction n as [|n IH]; [done|]. simpl Nat.iter. set (y := Nat.iter n bit_step x) in *. unfold bit_step.
  apply lxor_range; [lia| |by destruct (Z.odd y)]. rewrite Z.shiftr_div_pow2 by lia. change (2 ^ 1) with 2. dlia.
Qed.
Lemma crc32_fold_range c l : 0 ≤ c < 2 ^ 32 → Forall is_byte l → 0 ≤ foldl crc32_byte c l < 2 ^ 32.
Proof.
  intros Hc Hl. revert c Hc. induction Hl as [|b l Hb _ IH]; intros c Hc; simpl foldl; [done|]. apply IH.
  rewrite crc32_byte_bits by done. apply bit_steps_range, lxor_range; [lia|done|]. unfold is_byte in Hb. lia.
Qed.
Lemma u32_lnot_lnot x : 0 ≤ x < 2 ^ 32 → u32 (Z.lnot (u32 (Z.lnot x))) = x.
Proof. unfold u32, Z.lnot. change (2 ^ 32) with 4294967296. intros Hx. dlia. Qed.

(** C38: the table-driven [utils_crc32] computes CRC-32: it equals the reference that
    divides by the reflected polynomial bit by bit, for any starting value and data; and the
    checksum of data that comes in pieces is computed piece by piece. *)
Theorem utils_crc32_correct crc src more :
  Forall is_byte src →
  utils_crc32 crc src = crc32_reference crc src ∧ utils_crc32 (utils_crc32 crc src) more = utils_crc32 crc (src ++ more).
Proof.
  intros Hs. split.
  - unfold utils_crc32, crc32_reference. do 2 f_equal. by apply (foldl_ext_in is_byte), Hs; apply crc32_byte_bits.
  - unfold utils_crc32. rewrite foldl_app, u32_lnot_lnot; [done|]. apply crc32_fold_range; [|done]. apply u32_range.
Qed.
(** The check value of CRC-32: the digits 1 to 9. *)
Lemma utils_crc32_correct_witness :
  crc32_reference 0 [49; 50; 51; 52; 53; 54; 55; 56; 57] = 0xcbf43926 ∧
  utils_crc32 (utils_crc32 0 [49; 50; 51; 52; 53; 54; 55; 56; 57]) [] = 0xcbf43926.
Proof.
  destruct (utils_crc32_correct 0 [49; 50; 51; 52; 53; 54; 55; 56; 57] []) as [<- ->].
  - repeat constructor; lia.
  - by vm_compute.
Defined.

(** The data as one number, first byte lowest. *)
Fixpoint le (l : list Z) : Z := match l with [] => 0 | b :: l => Z.lxor b (Z.shiftl (le l) 8) end.

(** All the bits of the data can be added before the division starts. *)
Lemma crc32_fold_le c l : Forall is_byte l → foldl crc32_byte c l = Nat.iter (8 * length l) bit_step (Z.lxor c (le l)).
Proof.
  intros Hl. revert c. induction Hl as [|b l Hb _ IH]; intros c; simpl foldl; [by rewrite Z.lxor_0_r|].
  rewrite IH, crc32_byte_bits by done. cbn [length le]. replace (8 * S (length l))%nat with (8 * length l + 8)%nat by lia.
  rewrite Nat.iter_add. f_equal. by rewrite <-Z.lxor_assoc, (bit_steps_lxor 8 (Z.lxor c b)), (bit_steps_shiftl 8 (le l) : Nat.iter 8 bit_step (Z.shiftl (le l) 8) = le l).
Qed.
Lemma le_app l1 l2 : le (l1 ++ l2) = Z.lxor (le l1) (Z.shiftl (le l2) (Z.of_nat (8 * length l1))).
Proof.
  induction l1 as [|b l1 IH]; cbn [app le length]; [by rewrite Z.shiftl_0_r, Z.lxor_0_l|].
  rewrite IH, Z.shiftl_lxor, Z.shiftl_shiftl, Z.lxor_assoc by lia. do 3 f_equal. lia.
Qed.
Lemma lxor_byte x y : is_byte x → Z.lxor x (Z.shiftl y 8) = x + 256 * y.
Proof.
  unfold is_byte. intros Hx. rewrite <-Z.add_nocarry_lxor; [rewrite Z.shiftl_mul_pow2 by lia; lia|].
  apply Z.bits_inj'. intros i Hi. rewrite Z.land_spec, Z.bits_0. destruct (decide (i < 8)).
  - by rewrite Z.shiftl_spec_low, andb_false_r by lia.
  - by rewrite <-(Z.mod_small x (2 ^ 8)), Z.mod_pow2_bits_high by lia.
Qed.
Lemma lxor_cancel x y z : Z.lxor (Z.lxor x z) (Z.lxor y z) = Z.lxor x y.
Proof.
  apply Z.bits_inj'. intros i Hi. rewrite !Z.lxor_spec. by destruct (Z.testbit x i), (Z.testbit y i), (Z.testbit z i).
Qed.
Lemma le_range l : Forall is_byte l → 0 ≤ le l < 2 ^ Z.of_nat (8 * length l).
Proof.
  induction 1 as [|b l Hb _ IH]; [done|]. cbn [le length]. replace (Z.of_nat (8 * S (length l))) with (Z.of_nat (8 * length l) + 8) by lia.
  unfold is_byte in Hb. apply lxor_range; [lia| |]; rewrite Z.pow_add_r by lia; [nia|]. rewrite Z.shiftl_mul_pow2 by lia. lia.
Qed.
Lemma le_inj l l' : Forall is_byte l → Forall is_byte l' → length l = length l' → le l = le l' → l = l'.
Proof.
  intros Hl. revert l'. induction Hl as [|b l Hb _ IH]; intros l' Hl' Hlen He; destruct l' as [|b' l']; try done.
  apply Forall_cons in Hl' as [Hb' Hl']. cbn [le] in He.
  rewrite !lxor_byte in He by done. unfold is_byte in Hb, Hb'. f_equal; [lia|]. apply IH; [done|by injection Hlen|lia].
Qed.

(** No nonzero 32-bit difference is divided away. *)
Lemma bit_steps_zero n x : 0 ≤ x < 2 ^ 32 → Nat.iter n bit_step x = 0 → x = 0.
Proof.
  intros Hx. induction n as [|n IH]; [done|]. simpl Nat.iter. pose proof (bit_steps_range n x Hx) as Hr.
  set (y := Nat.iter n bit_step x) in *. intros H0. apply IH. unfold bit_step in H0. apply Z.lxor_eq in H0.
  rewrite Z.shiftr_div_pow2 in H0 by lia. change (2 ^ 1) with 2 in H0. change (2 ^ 32) with 4294967296 in Hr. destruct (Z.odd y) eqn:E.
  - exfalso. dlia.
  - rewrite Zodd_mod in E. apply Z.eqb_neq in E. dlia.
Qed.
Lemma u32_lnot_inj x y : 0 ≤ Z.lxor x y < 2 ^ 32 → u32 (Z.lnot x) = u32 (Z.lnot y) → Z.lxor x y = 0.
Proof.
  intros Hr He. rewrite <-(Z.mod_small _ _ Hr). apply Z.bits_inj'. intros i Hi. rewrite Z.bits_0. destruct (decide (i < 32)) as [Hlt|].
  - rewrite Z.mod_pow2_bits_low, Z.lxor_spec by lia. apply (f_equal (λ z, Z.testbit z i)) in He.
    rewrite !testbit_u32, !Z.lnot_spec in He by lia. by destruct (Z.testbit x i), (Z.testbit y i).
  - apply Z.mod_pow2_bits_high. lia.
Qed.

(** C39: CRC-32 detects bursts: data that differ only in up to four consecutive bytes have different checksums. *)
Theorem utils_crc32_detects_bursts crc l1 d d' l2 :
  Forall is_byte l1 → Forall is_byte d → Forall is_byte d' → Forall is_byte l2 → length d = length d' → (length d ≤ 4)%nat →
  d ≠ d' → utils_crc32 crc (l1 ++ d ++ l2) ≠ utils_crc32 crc (l1 ++ d' ++ l2).
Proof.
  intros H1 Hd Hd' H2 Hlen H4 Hne He. apply Hne. clear Hne. unfold utils_crc32 in He. rewrite !foldl_app in He. set (c := foldl crc32_byte _ l1) in He.
  assert (Hz : 0 ≤ Z.lxor (le d) (le d') < 2 ^ 32).
  { pose proof (le_range d Hd). pose proof (le_range d' Hd') as Hr'. rewrite <-Hlen in Hr'.
    assert (2 ^ Z.of_nat (8 * length d) ≤ 2 ^ 32) by (apply Z.pow_le_mono_r; lia). apply lxor_range; lia. }
  assert (Hx : Z.lxor (foldl crc32_byte (foldl crc32_byte c d) l2) (foldl crc32_byte (foldl crc32_byte c d') l2) =
    Nat.iter (8 * length l2 + 8 * length d) bit_step (Z.lxor (le d) (le d'))).
  { rewrite !crc32_fold_le by done. rewrite <-Hlen, <-bit_steps_lxor, lxor_cancel, <-bit_steps_lxor, !(Z.lxor_comm c), lxor_cancel.
    by rewrite Nat.iter_add. }
  apply le_inj; [done..|]. apply Z.lxor_eq, (bit_steps_zero (8 * length l2 + 8 * length d)); [done|]. rewrite <-Hx.
  apply u32_lnot_inj; [|done]. rewrite Hx. by apply bit_steps_range.
Qed.
Lemma utils_crc32_detects_bursts_witness :
  utils_crc32 0 ([1; 2] ++ [3; 4; 5; 6] ++ [7]) ≠ utils_crc32 0 ([1; 2] ++ [3; 4; 5; 7] ++ [7]).
Proof.
  apply (utils_crc32_detects_bursts 0 [1; 2] [3; 4; 5; 6] [3; 4; 5; 7] [7]); try (repeat constructor; lia); done.
Defined.

(** ** CRC-16 *)

(** One bit into the register; the bits of a byte, highest first. *)
Definition shift_in (polynomial crc : Z) (bit : bool) : Z :=
  Z.lxor (Z.lor (u16 (Z.shiftl crc 1)) (Z.b2z bit)) (if Z.testbit crc 15 then polynomial else 0).
Definition bits_of (x : Z) : list bool := Z.testbit x <$> [7; 6; 5; 4; 3; 2; 1; 0].

Lemma crc16_bits_step n b polynomial src_i crc bit :
  match src_i with Some x => 0 ≤ b ≤ 7 ∧ bit = Z.testbit x (7 - b) | None => bit = false end →
  crc16_bits (S n) b polynomial src_i crc = crc16_bits n (b + 1) polynomial src_i (shift_in polynomial crc bit).
Proof.
  intros Hbit. cbn [crc16_bits]. cbv zeta. change 32768 with (2 ^ 15). rewrite land_pow2_eqb by lia. f_equal. unfold shift_in.
  assert (Hin : match src_i with
    | Some x => Z.lor (u16 (Z.shiftl crc 1)) (if Z.land x (Z.shiftr 128 b) =? 0 then 0 else 1)
    | None => u16 (Z.shiftl crc 1) end = Z.lor (u16 (Z.shiftl crc 1)) (Z.b2z bit)).
  { destruct src_i as [x|]; [|subst; by rewrite Z.lor_0_r]. destruct Hbit as [Hb ->].
    assert (Z.shiftr 128 b = 2 ^ (7 - b)) as ->.
    { change 128 with (2 ^ 7). rewrite <-(Z.mul_1_l (2 ^ 7)), <-Z.shiftl_mul_pow2, Z.shiftr_shiftl_l by lia. apply Z.shiftl_1_l. }
    rewrite land_pow2_eqb by lia. by destruct (Z.testbit x (7 - b)). }
  rewrite Hin. destruct (Z.testbit crc 15); simpl; [done|by rewrite Z.lxor_0_r].
Qed.
Lemma crc16_bits_some polynomial x crc : crc16_bits 8 0 polynomial (Some x) crc = foldl (shift_in polynomial) crc (bits_of x).
Proof.
  simpl foldl. do 8 (erewrite crc16_bits_step by (split; [lia|reflexivity]); simpl Z.add). done.
Qed.
Lemma crc16_bits_none polynomial crc : crc16_bits 8 0 polynomial None crc = foldl (shift_in polynomial) crc (replicate 8 false).
Proof. simpl foldl. do 8 (rewrite (crc16_bits_step _ _ _ None _ false eq_refl)). done. Qed.

Lemma utils_crc16_bits src polynomial init pad :
  utils_crc16 src polynomial init pad =
    foldl (shift_in polynomial) init (concat (bits_of <$> src) ++ replicate (if pad =? 0 then 0 else 16) false).
Proof.
  unfold utils_crc16. cbv zeta. rewrite !foldl_app. assert (Hs : foldl (λ crc src_i, crc16_bits 8 0 polynomial src_i crc) init (Some <$> src) =
    foldl (shift_in polynomial) init (concat (bits_of <$> src))).
  { revert init. induction src as [|x src IH]; intros init; [done|]. cbn [fmap list_fmap foldl concat]. by rewrite IH, crc16_bits_some, <-foldl_app. }
  rewrite Hs. destruct (pad =? 0); [done|]. cbn [replicate foldl]. rewrite !crc16_bits_none. done.
Qed.

Lemma testbit_shifted c i : 0 ≤ i → Z.testbit (u16 (Z.shiftl c 1)) i = bool_decide (1 ≤ i < 16) && Z.testbit c (i - 1).
Proof.
  intros Hi. unfold u16. change 65536 with (2 ^ 16). destruct (decide (i < 16)) as [Hlt|].
  - rewrite Z.mod_pow2_bits_low, Z.shiftl_spec by lia. case_bool_decide; [done|]. replace (i - 1) with (- 1) by lia. done.
  - rewrite Z.mod_pow2_bits_high by lia. by rewrite bool_decide_eq_false_2 by lia.
Qed.
Lemma testbit_double w bit i : 0 ≤ i → Z.testbit (2 * w + Z.b2z bit) i = if i =? 0 then bit else Z.testbit w (i - 1).
Proof.
  intros Hi. destruct (i =? 0) eqn:E; zbool; [subst; apply Z.testbit_0_r|].
  rewrite <-(Z.testbit_succ_r w bit (i - 1)) by lia. f_equal. lia.
Qed.

(** A bit shifted in stays in the register until it reaches the top. *)
Lemma shift_in_lxor polynomial s w bit :
  0 ≤ w < 2 ^ 15 → shift_in polynomial (Z.lxor s w) bit = Z.lxor (shift_in polynomial s false) (2 * w + Z.b2z bit).
Proof.
  intros Hw. unfold shift_in. assert (H15 : ∀ i, 15 ≤ i → Z.testbit w i = false).
  { intros i Hi. rewrite <-(Z.mod_small w (2 ^ 15)) by done. by apply Z.mod_pow2_bits_high. }
  rewrite Z.lxor_spec, (H15 15), xorb_false_r by lia. apply Z.bits_inj'. intros i Hi.
  rewrite !Z.lxor_spec, !Z.lor_spec, !testbit_shifted, testbit_double, Z.lxor_spec by done.
  assert (Hb : Z.testbit (Z.b2z bit) i = (i =? 0) && bit).
  { destruct (i =? 0) eqn:E; zbool; [subst; by destruct bit|]. destruct bit; [|apply Z.bits_0]. apply (Z.pow2_bits_false 0). lia. }
  rewrite Hb. change (Z.b2z false) with 0. rewrite Z.bits_0. set (p := Z.testbit (if Z.testbit s 15 then polynomial else 0) i). destruct (i =? 0) eqn:E; zbool.
  - rewrite bool_decide_eq_false_2 by lia. by destruct p, bit.
  - case_bool_decide; [by destruct (Z.testbit s (i - 1)), (Z.testbit w (i - 1)), p|]. rewrite (H15 (i - 1)) by lia. by destruct p.
Qed.

Definition value (w : Z) (bs : list bool) : Z := foldl (λ w bit, 2 * w + Z.b2z bit) w bs.
Lemma shift_in_all polynomial bs s w :
  0 ≤ w → (w + 1) * 2 ^ Z.of_nat (length bs) ≤ 2 ^ 16 →
  foldl (shift_in polynomial) (Z.lxor s w) bs = Z.lxor (foldl (shift_in polynomial) s (replicate (length bs) false)) (value w bs).
Proof.
  revert s w. induction bs as [|bit bs IH]; intros s w Hw Hl; [done|]. cbn [length replicate foldl value] in *.
  rewrite Nat2Z.inj_succ, Z.pow_succ_r in Hl by lia. pose proof (Z.pow_pos_nonneg 2 (Z.of_nat (length bs))) as Hp.
  change (2 ^ 16) with (2 * 2 ^ 15) in Hl. rewrite shift_in_lxor by nia. apply IH; [destruct bit; simpl; lia|].
  change (2 ^ 16) with (2 * 2 ^ 15). destruct bit; simpl Z.b2z; nia.
Qed.

Lemma value_app w bs bs' : value w (bs ++ bs') = value (value w bs) bs'.
Proof. apply foldl_app. Qed.
Lemma value_byte w x : 0 ≤ x < 256 → value w (bits_of x) = 256 * w + x.
Proof.
  intros Hx. assert (H0 : value 0 (bits_of x) = x).
  { assert (Hall : forallb (λ x, value 0 (bits_of x) =? x) (seqZ 0 256) = true) by by vm_compute.
    rewrite forallb_forall in Hall. apply Z.eqb_eq, Hall, list_elem_of_In, elem_of_seqZ. lia. }
  rewrite <-H0 at 2. unfold value, bits_of. simpl foldl. lia.
Qed.
Lemma bits_of_length l : length (concat (bits_of <$> l)) = (8 * length l)%nat.
Proof. induction l as [|x l IH]; [done|]. cbn [fmap list_fmap concat]. rewrite length_app, IH. simpl. lia. Qed.

(** [utils_crc16] with padding leaves a proper checksum: for every polynomial and
    initial value, the data followed by the two bytes of its padded
    checksum, highest first, has the checksum 0, and any other two bytes have not. *)
Theorem utils_crc16_verifies src polynomial init hi lo :
  is_byte hi → is_byte lo →
  utils_crc16 (src ++ [hi; lo]) polynomial init 0 = 0 ↔ utils_crc16 src polynomial init 1 = 256 * hi + lo.
Proof.
  intros Hhi Hlo. rewrite !utils_crc16_bits, fmap_app, concat_app, !foldl_app. change (1 =? 0) with false. change (0 =? 0) with true. cbv iota.
  set (s := foldl (shift_in polynomial) init (concat (bits_of <$> src))). cbn [fmap list_fmap concat]. rewrite app_nil_r.
  change (foldl (shift_in polynomial) ?c (replicate 0 false)) with c. rewrite <-(Z.lxor_0_r s) at 1.
  rewrite shift_in_all by (simpl; lia). change (length (bits_of hi ++ bits_of lo)) with 16%nat.
  rewrite value_app, !value_byte by done. rewrite Z.mul_0_r, Z.add_0_l. split; [apply Z.lxor_eq|intros ->; apply Z.lxor_nilpotent].
Qed.
(** The polynomial of CRC-16/CCITT and the digits 1 to 3. *)
Lemma utils_crc16_verifies_witness : utils_crc16 ([49; 50; 51] ++ [0x97; 0x52]) 0x1021 0 0 = 0.
Proof.
  apply (utils_crc16_verifies [49; 50; 51] 0x1021 0 0x97 0x52); [unfold is_byte; lia|unfold is_byte; lia|by vm_compute].
Defined.
