(* ===== verification/Libc.v ===== *)
(** * The C library: memory and strings ([lib/libc/minimal/source/string])

    Memory is a map from addresses to bytes.  [char] is signed: a byte read
    through a [char] pointer is [s8] of it.  The loops over strings take fuel;
    the theorems give the amount that is enough.  The memory functions are shown to be the
    copies of Mem.v that the rest of the development uses. *)
From stdpp Require Import gmap list.
From S2P Require Import Prelude Mem Ring.
Local Open Scope Z_scope.

Module Libc.

(** ** Memory *)

(** [while (n > 0)], the byte at [s] is stored at [d] and both move on. *)
Fixpoint copy_forward (n : nat) (d s : Z) (m : gmap Z Z) : gmap Z Z :=
  match n with O => m | S n => copy_forward n (d + 1) (s + 1) (<[d := m !!! s]> m) end.
(** [while (n > 0)], the last of the [n] bytes is copied. *)
Fixpoint copy_backward (n : nat) (d s : Z) (m : gmap Z Z) : gmap Z Z :=
  match n with O => m | S n => copy_backward n d s (<[d + Z.of_nat n := m !!! (s + Z.of_nat n)]> m) end.

Definition memmove (d s n : Z) (m : gmap Z Z) : gmap Z Z :=
  if u32 (d - s) <? n then copy_backward (Z.to_nat n) d s m else copy_forward (Z.to_nat n) d s m.

(** Bytes are copied while [d] is not aligned to a word; what is left to do is returned. *)
Fixpoint copy_align (n : nat) (d s : Z) (m : gmap Z Z) : nat * Z * Z * gmap Z Z :=
  if Z.land d 3 =? 0 then (n, d, s, m)
  else match n with O => (n, d, s, m) | S n => copy_align n (d + 1) (s + 1) (<[d := m !!! s]> m) end.
(** [while (n >= 4)], a word is copied; a word is its four bytes. *)
Fixpoint copy_words (n : nat) (d s : Z) (m : gmap Z Z) : nat * Z * Z * gmap Z Z :=
  match n with
  | S (S (S (S n))) => copy_words n (d + 4) (s + 4) (write_bytes d (read_bytes 4 s m) m)
  | _ => (n, d, s, m)
  end.
Definition memcpy (d s n : Z) (m : gmap Z Z) : gmap Z Z :=
  if Z.land (Z.lxor d s) 3 =? 0 then
    let '(n, d, s, m) := copy_align (Z.to_nat n) d s m in
    let '(n, d, s, m) := copy_words n d s m in
    copy_forward n d s m
  else copy_forward (Z.to_nat n) d s m.

Fixpoint set_forward (n : nat) (d c : Z) (m : gmap Z Z) : gmap Z Z :=
  match n with O => m | S n => set_forward n (d + 1) c (<[d := c]> m) end.
Fixpoint set_align (n : nat) (d c : Z) (m : gmap Z Z) : nat * Z * gmap Z Z :=
  if Z.land d 3 =? 0 then (n, d, m)
  else match n with O => (n, d, m) | S n => set_align n (d + 1) c (<[d := c]> m) end.
(** The bytes of a word, lowest first. *)
Definition word_bytes (w : Z) : list Z := [u8 w; u8 (Z.shiftr w 8); u8 (Z.shiftr w 16); u8 (Z.shiftr w 24)].
Fixpoint set_words (n : nat) (d c_word : Z) (m : gmap Z Z) : nat * Z * gmap Z Z :=
  match n with
  | S (S (S (S n))) => set_words n (d + 4) c_word (write_bytes d (word_bytes c_word) m)
  | _ => (n, d, m)
  end.
Definition memset (buf c n : Z) (m : gmap Z Z) : gmap Z Z :=
  let c_byte := u8 c in
  let '(n, d, m) := set_align (Z.to_nat n) buf c_byte m in
  let c_word := c_byte in
  let c_word := Z.lor c_word (u32 (Z.shiftl c_word 8)) in
  let c_word := Z.lor c_word (u32 (Z.shiftl c_word 16)) in
  let '(n, d, m) := set_words n d c_word m in
  set_forward n d c_byte m.

(** The pointers move on while there is another byte and the bytes are equal. *)
Fixpoint memcmp_loop (n : nat) (c1 c2 : Z) (m : gmap Z Z) : Z :=
  match n with
  | S (S _ as n) =>
      if s8 (m !!! c1) =? s8 (m !!! c2) then memcmp_loop n (c1 + 1) (c2 + 1) m else s8 (m !!! c1) - s8 (m !!! c2)
  | _ => s8 (m !!! c1) - s8 (m !!! c2)
  end.
Definition memcmp (m1 m2 n : Z) (m : gmap Z Z) : Z := if n =? 0 then 0 else memcmp_loop (Z.to_nat n) m1 m2 m.

Fixpoint memchr_loop (n : nat) (p c : Z) (m : gmap Z Z) : option Z :=
  match n with
  | O => None
  | S n => if m !!! p =? c then Some p else memchr_loop n (p + 1) c m
  end.
Definition memchr (s c n : Z) (m : gmap Z Z) : option Z := memchr_loop (Z.to_nat n) s c m.

(** ** Strings; [None] when the fuel runs out *)

Fixpoint strlen_loop (fuel : nat) (s n : Z) (m : gmap Z Z) : option Z :=
  match fuel with
  | O => None
  | S fuel => if m !!! s =? 0 then Some n else strlen_loop fuel (s + 1) (n + 1) m
  end.
Definition strlen (fuel : nat) (s : Z) (m : gmap Z Z) : option Z := strlen_loop fuel s 0 m.

Fixpoint strcpy (fuel : nat) (d s : Z) (m : gmap Z Z) : option (gmap Z Z) :=
  match fuel with
  | O => None
  | S fuel => if m !!! s =? 0 then Some (<[d := 0]> m) else strcpy fuel (d + 1) (s + 1) (<[d := m !!! s]> m)
  end.
(** At most one terminator is written: the padding loop of the C library is commented out. *)
Fixpoint strncpy (n : nat) (d s : Z) (m : gmap Z Z) : gmap Z Z :=
  match n with
  | O => m
  | S n => if m !!! s =? 0 then <[d := 0]> m else strncpy n (d + 1) (s + 1) (<[d := m !!! s]> m)
  end.

(** [NULL] is [None] inside the result. *)
Fixpoint strchr (fuel : nat) (s c : Z) (m : gmap Z Z) : option (option Z) :=
  match fuel with
  | O => None
  | S fuel =>
      if negb (s8 (m !!! s) =? s8 c) && negb (m !!! s =? 0) then strchr fuel (s + 1) c m
      else Some (if s8 (m !!! s) =? s8 c then Some s else None)
  end.
Fixpoint strrchr_loop (fuel : nat) (s c : Z) (found : option Z) (m : gmap Z Z) : option (option Z) :=
  match fuel with
  | O => None
  | S fuel =>
      let found := if s8 (m !!! s) =? s8 c then Some s else found in
      if m !!! s =? 0 then Some found else strrchr_loop fuel (s + 1) c found m
  end.
Definition strrchr (fuel : nat) (s c : Z) (m : gmap Z Z) : option (option Z) := strrchr_loop fuel s c None m.

Fixpoint strcmp (fuel : nat) (s1 s2 : Z) (m : gmap Z Z) : option Z :=
  match fuel with
  | O => None
  | S fuel =>
      if (s8 (m !!! s1) =? s8 (m !!! s2)) && negb (m !!! s1 =? 0) then strcmp fuel (s1 + 1) (s2 + 1) m
      else Some (s8 (m !!! s1) - s8 (m !!! s2))
  end.
Fixpoint strncmp (n : nat) (s1 s2 : Z) (m : gmap Z Z) : Z :=
  match n with
  | O => 0
  | S n =>
      if (s8 (m !!! s1) =? s8 (m !!! s2)) && negb (m !!! s1 =? 0) then strncmp n (s1 + 1) (s2 + 1) m
      else s8 (m !!! s1) - s8 (m !!! s2)
  end.

Definition strcat (fuel : nat) (dest src : Z) (m : gmap Z Z) : option (gmap Z Z) :=
  n ← strlen fuel dest m; strcpy fuel (dest + n) src m.
Fixpoint strncat_loop (n : nat) (dest src : Z) (m : gmap Z Z) : gmap Z Z :=
  match n with
  | O => <[dest := 0]> m
  | S n => if m !!! src =? 0 then <[dest := 0]> m else strncat_loop n (dest + 1) (src + 1) (<[dest := m !!! src]> m)
  end.
Definition strncat (fuel : nat) (dest src : Z) (n : nat) (m : gmap Z Z) : option (gmap Z Z) :=
  len ← strlen fuel dest m; Some (strncat_loop n (dest + len) src m).

Fixpoint strnlen_loop (count : nat) (sc : Z) (m : gmap Z Z) : Z :=
  match count with
  | O => sc
  | S count => if m !!! sc =? 0 then sc else strnlen_loop count (sc + 1) m
  end.
Definition strnlen (s : Z) (count : nat) (m : gmap Z Z) : Z := strnlen_loop count s m - s.
End Libc.

(** ** The memory functions are the copies of Mem.v *)

Lemma write_bytes_insert a l b x m :
  b < a ∨ a + Z.of_nat (length l) ≤ b → write_bytes a l (<[b := x]> m) = <[b := x]> (write_bytes a l m).
Proof.
  revert a m. induction l as [|y l IH]; intros a m Hb; simpl in *; [done|]. rewrite insert_insert_ne by lia. apply IH. lia.
Qed.

(** The memory after [n] bytes have been copied. *)
Definition copied_bytes (n : nat) (d s : Z) (m : gmap Z Z) : gmap Z Z := write_bytes d (read_bytes n s m) m.
(** Copying upwards is sound when the source is not overwritten before it is read. *)
Definition forward_ok (n : nat) (d s : Z) : Prop := d ≤ s ∨ s + Z.of_nat n ≤ d.

Lemma copied_bytes_app n1 n2 d s m :
  forward_ok (n1 + n2) d s →
  copied_bytes n2 (d + Z.of_nat n1) (s + Z.of_nat n1) (copied_bytes n1 d s m) = copied_bytes (n1 + n2) d s m.
Proof.
  intros Hf. unfold copied_bytes. rewrite read_bytes_app, write_bytes_app, read_bytes_length. f_equal.
  apply read_bytes_ext. intros b Hb. apply write_bytes_other. rewrite read_bytes_length. unfold forward_ok in Hf. lia.
Qed.

Lemma copy_forward_spec n d s m : forward_ok n d s → Libc.copy_forward n d s m = copied_bytes n d s m.
Proof.
  revert d s m. induction n as [|n IH]; intros d s m Hf; simpl; [done|]. unfold forward_ok in *.
  rewrite IH by lia. rewrite <-(copied_bytes_app 1 n) by (unfold forward_ok; lia). done.
Qed.
Lemma copy_backward_spec n d s m :
  s ≤ d ∨ d + Z.of_nat n ≤ s → Libc.copy_backward n d s m = copied_bytes n d s m.
Proof.
  revert m. induction n as [|n IH]; intros m Hf; [done|]. cbn [Libc.copy_backward]. rewrite IH by lia. unfold copied_bytes.
  replace (S n) with (n + 1)%nat by lia. rewrite read_bytes_app, write_bytes_app, read_bytes_length. simpl.
  rewrite write_bytes_insert by (rewrite read_bytes_length; lia). do 2 f_equal.
  apply read_bytes_ext. intros b Hb. apply lookup_total_insert_ne. lia.
Qed.
Lemma copy_align_spec n d s m :
  forward_ok n d s → let '(n', d', s', m') := Libc.copy_align n d s m in
  ∃ k, n = (k + n')%nat ∧ d' = d + Z.of_nat k ∧ s' = s + Z.of_nat k ∧ m' = copied_bytes k d s m.
Proof.
  revert d s m. induction n as [|n IH]; intros d s m Hf; simpl.
  - destruct (_ =? 0); exists 0%nat; split_and!; (done || lia).
  - destruct (_ =? 0); [exists 0%nat; split_and!; (done || lia)|]. unfold forward_ok in *.
    pose proof (IH (d + 1) (s + 1) (<[d := m !!! s]> m) ltac:(lia)) as Hi.
    destruct (Libc.copy_align n _ _ _) as [[[n' d'] s'] m']. destruct Hi as (k & -> & -> & -> & ->).
    exists (S k). split_and!; [lia..|]. rewrite <-(copied_bytes_app 1 k) by (unfold forward_ok; lia). done.
Qed.
Lemma copy_words_spec n d s m :
  forward_ok n d s → let '(n', d', s', m') := Libc.copy_words n d s m in
  ∃ k, n = (k + n')%nat ∧ d' = d + Z.of_nat k ∧ s' = s + Z.of_nat k ∧ m' = copied_bytes k d s m.
Proof.
  revert d s m. induction n as [n IH] using lt_wf_ind. intros d s m Hf.
  destruct n as [|[|[|[|n]]]]; try (exists 0%nat; split_and!; (done || lia)). cbn [Libc.copy_words]. unfold forward_ok in *.
  pose proof (IH n ltac:(lia) (d + 4) (s + 4) (write_bytes d (read_bytes 4 s m) m) ltac:(lia)) as Hi.
  destruct (Libc.copy_words n _ _ _) as [[[n' d'] s'] m']. destruct Hi as (k & -> & -> & -> & ->).
  exists (4 + k)%nat. split_and!; [lia..|]. rewrite <-(copied_bytes_app 4 k) by (unfold forward_ok; lia). done.
Qed.

Lemma memcpy_spec d s n m :
  0 ≤ n → disjoint_ranges d n s n ∨ d ≤ s → Libc.memcpy d s n m = memcpy d s n m.
Proof.
  intros Hn Hd. assert (Hf : forward_ok (Z.to_nat n) d s) by (unfold forward_ok, disjoint_ranges in *; lia).
  unfold Libc.memcpy, memcpy. fold (copied_bytes (Z.to_nat n) d s m). destruct (_ =? 0); [|by apply copy_forward_spec].
  generalize dependent (Z.to_nat n). intros N Hf. pose proof (copy_align_spec N d s m Hf) as H1. destruct (Libc.copy_align _ _ _ _) as [[[n1 d1] s1] m1].
  destruct H1 as (k1 & -> & -> & -> & ->). unfold forward_ok in Hf.
  pose proof (copy_words_spec n1 (d + Z.of_nat k1) (s + Z.of_nat k1) (copied_bytes k1 d s m) ltac:(unfold forward_ok; lia)) as H2.
  destruct (Libc.copy_words _ _ _ _) as [[[n2 d2] s2] m2]. destruct H2 as (k2 & -> & -> & -> & ->).
  rewrite copy_forward_spec, (copied_bytes_app k2 n2), (copied_bytes_app k1 (k2 + n2)) by (unfold forward_ok; lia). done.
Qed.

Lemma memmove_spec d s n m :
  0 ≤ d < 4294967296 → 0 ≤ s → 0 ≤ n → s + n ≤ 4294967296 → Libc.memmove d s n m = memcpy d s n m.
Proof.
  intros Hd Hs Hn Hsn. unfold Libc.memmove, memcpy. fold (copied_bytes (Z.to_nat n) d s m).
  destruct (decide (s ≤ d)) as [Hle|Hgt].
  - rewrite u32_id by lia. destruct (d - s <? n) eqn:E; zbool; [apply copy_backward_spec; lia|].
    apply copy_forward_spec. unfold forward_ok. lia.
  - assert (u32 (d - s) = d - s + 4294967296) as ->.
    { unfold u32. rewrite <-(Z.mod_add (d - s) 1) by lia. apply Z.mod_small. lia. }
    rewrite (proj2 (Z.ltb_ge _ _)) by lia. apply copy_forward_spec. unfold forward_ok. lia.
Qed.

Definition set_to (n : nat) (d c : Z) (m : gmap Z Z) : gmap Z Z := write_bytes d (replicate n c) m.
Lemma set_to_app n1 n2 d c m : set_to n2 (d + Z.of_nat n1) c (set_to n1 d c m) = set_to (n1 + n2) d c m.
Proof. unfold set_to. by rewrite replicate_add, write_bytes_app, length_replicate. Qed.
Lemma set_forward_spec n d c m : Libc.set_forward n d c m = set_to n d c m.
Proof. revert d m. induction n as [|n IH]; intros d m; simpl; [done|]. by rewrite IH. Qed.
Lemma set_align_spec n d c m :
  let '(n', d', m') := Libc.set_align n d c m in ∃ k, n = (k + n')%nat ∧ d' = d + Z.of_nat k ∧ m' = set_to k d c m.
Proof.
  revert d m. induction n as [|n IH]; intros d m; simpl.
  - destruct (_ =? 0); exists 0%nat; split_and!; (done || lia).
  - destruct (_ =? 0); [exists 0%nat; split_and!; (done || lia)|].
    pose proof (IH (d + 1) (<[d := c]> m)) as Hi. destruct (Libc.set_align n _ _ _) as [[n' d'] m'].
    destruct Hi as (k & -> & -> & ->). exists (S k). split_and!; [lia..|]. by rewrite <-(set_to_app 1 k).
Qed.
Lemma set_words_spec n d w c m :
  Libc.word_bytes w = replicate 4 c →
  let '(n', d', m') := Libc.set_words n d w m in ∃ k, n = (k + n')%nat ∧ d' = d + Z.of_nat k ∧ m' = set_to k d c m.
Proof.
  intros Hw. revert d m. induction n as [n IH] using lt_wf_ind. intros d m.
  destruct n as [|[|[|[|n]]]]; try (exists 0%nat; split_and!; (done || lia)). cbn [Libc.set_words]. rewrite Hw.
  pose proof (IH n ltac:(lia) (d + 4) (write_bytes d (replicate 4 c) m)) as Hi.
  destruct (Libc.set_words n _ _ _) as [[n' d'] m']. destruct Hi as (k & -> & -> & ->).
  exists (4 + k)%nat. split_and!; [lia..|]. by rewrite <-(set_to_app 4 k).
Qed.

(** The word of four equal bytes. *)
Lemma c_word_bytes c :
  0 ≤ c < 256 → let w := Z.lor c (u32 (Z.shiftl c 8)) in Libc.word_bytes (Z.lor w (u32 (Z.shiftl w 16))) = replicate 4 c.
Proof.
  intros Hc. assert (Hall : forallb (λ c, let w := Z.lor c (u32 (Z.shiftl c 8)) in
    bool_decide (Libc.word_bytes (Z.lor w (u32 (Z.shiftl w 16))) = replicate 4 c)) (seqZ 0 256) = true) by by vm_compute.
  rewrite forallb_forall in Hall. specialize (Hall c). rewrite <-list_elem_of_In, elem_of_seqZ in Hall.
  specialize (Hall ltac:(lia)). by apply bool_decide_eq_true in Hall.
Qed.
Lemma memset_spec d c n m : Libc.memset d c n m = memset d (u8 c) n m.
Proof.
  unfold Libc.memset, memset. fold (set_to (Z.to_nat n) d (u8 c) m). pose proof (u8_range c) as Hc. generalize (Z.to_nat n). intros N.
  pose proof (set_align_spec N d (u8 c) m) as H1. destruct (Libc.set_align _ _ _ _) as [[n1 d1] m1]. destruct H1 as (k1 & -> & -> & ->).
  pose proof (set_words_spec n1 (d + Z.of_nat k1) _ (u8 c) (set_to k1 d (u8 c) m) (c_word_bytes (u8 c) Hc)) as H2. cbv zeta in *.
  destruct (Libc.set_words _ _ _ _) as [[n2 d2] m2]. destruct H2 as (k2 & -> & -> & ->).
  by rewrite set_forward_spec, set_to_app, set_to_app.
Qed.

(** C37: the memory functions of the C library, which copy words where alignment allows, do what memory copies
    mean: [memcpy] on ranges that do not overlap - and, this
    implementation, on a destination below an overlapping source -, [memmove] on any ranges, [memset] with the low byte
    of its argument; bytes outside the destination are untouched. *)
Theorem libc_memory_functions d s c n m :
  0 ≤ d < 4294967296 → 0 ≤ s → 0 ≤ n → s + n ≤ 4294967296 →
  (disjoint_ranges d n s n ∨ d ≤ s → Libc.memcpy d s n m = memcpy d s n m) ∧
  Libc.memmove d s n m = memcpy d s n m ∧ Libc.memset d c n m = memset d (u8 c) n m ∧
  (bytes (memcpy d s n m) d n = bytes m s n ∧ bytes (memset d (u8 c) n m) d n = replicate (Z.to_nat n) (u8 c)) ∧
  (∀ a, a < d ∨ d + n ≤ a → memcpy d s n m !!! a = m !!! a ∧ memset d (u8 c) n m !!! a = m !!! a).
Proof.
  intros Hd Hs Hn Hsn. split_and!.
  - by apply memcpy_spec.
  - by apply memmove_spec.
  - apply memset_spec.
  - apply bytes_memcpy.
  - apply bytes_memset.
  - intros a Ha. split; [by apply memcpy_other|by apply memset_other].
Qed.
Lemma libc_memory_functions_witness :
  let m := write_bytes 100 [1; 2; 3; 4; 5; 6; 7; 8; 9] ∅ in Libc.memmove 103 100 6 m = memcpy 103 100 6 m.
Proof. intros m. apply (libc_memory_functions 103 100 0 6 m); lia. Defined.

(** ** Strings *)

(** The string [l] is stored at [a]: its characters, none of them 0, and a 0. *)
Fixpoint cstring (m : gmap Z Z) (a : Z) (l : list Z) : Prop :=
  match l with
  | [] => m !!! a = 0
  | c :: l => m !!! a = c ∧ 0 < c < 256 ∧ cstring m (a + 1) l
  end.

Lemma cstring_ext m m' a l :
  (∀ b, a ≤ b ≤ a + Z.of_nat (length l) → m' !!! b = m !!! b) → cstring m a l → cstring m' a l.
Proof.
  revert a. induction l as [|c l IH]; intros a Hm; simpl in *; [rewrite Hm by lia; done|].
  intros (Hc & Hr & Hl). split_and!; [rewrite Hm by lia; done|lia..|]. apply IH; [|done]. intros b Hb. apply Hm. lia.
Qed.
Lemma cstring_write m a l : Forall (λ c, 0 < c < 256) l → cstring (write_bytes a (l ++ [0]) m) a l.
Proof.
  revert a m. induction l as [|c l IH]; intros a m Hl; simpl; [apply lookup_total_insert_eq|].
  apply Forall_cons in Hl as [Hc Hl]. split_and!; [|lia..|by apply IH].
  rewrite write_bytes_other by lia. apply lookup_total_insert_eq.
Qed.
Lemma cstring_chars m a l : cstring m a l → Forall (λ c, 0 < c < 256) l.
Proof. revert a. induction l as [|c l IH]; intros a Hl; constructor; [apply Hl|]. apply (IH (a + 1)), Hl. Qed.
Lemma cstring_prefix m a l1 l2 :
  cstring m a (l1 ++ l2) → cstring m (a + Z.of_nat (length l1)) l2.
Proof.
  revert a. induction l1 as [|c l1 IH]; intros a; simpl; [by rewrite Z.add_0_r|]. intros (_ & _ & Hl).
  apply IH in Hl. by replace (a + Z.of_nat (S (length l1))) with (a + 1 + Z.of_nat (length l1)) by lia.
Qed.
Lemma cstring_nonzero c : 0 < c < 256 → (c =? 0) = false.
Proof. intros Hc. apply Z.eqb_neq. lia. Qed.
Lemma s8_inj x y : 0 ≤ x < 256 → 0 ≤ y < 256 → (s8 x =? s8 y) = (x =? y).
Proof. intros Hx Hy. unfold s8. destruct (x =? y) eqn:E; zbool; [subst; apply Z.eqb_refl|]. apply Z.eqb_neq. dlia. Qed.

Lemma strlen_loop_spec fuel s n m l :
  cstring m s l → (length l < fuel)%nat → Libc.strlen_loop fuel s n m = Some (n + Z.of_nat (length l)).
Proof.
  revert fuel s n. induction l as [|c l IH]; intros [|fuel] s n Hl Hf; simpl in *; try lia.
  - rewrite Hl. simpl. f_equal. lia.
  - destruct Hl as (-> & Hc & Hl). rewrite cstring_nonzero, IH by (done || lia). f_equal. lia.
Qed.
Lemma strnlen_loop_spec n s m l :
  cstring m s l → Libc.strnlen_loop n s m = s + Z.of_nat (n `min` length l).
Proof.
  revert n s. induction l as [|c l IH]; intros [|n] s Hl; simpl in *; try lia.
  - rewrite Hl. simpl. lia.
  - destruct Hl as (-> & Hc & Hl). rewrite cstring_nonzero, IH by done. lia.
Qed.

(** The first and the last place of a character, the final 0 included. *)
Fixpoint first_at (c : Z) (l : list Z) : option Z :=
  match l with
  | [] => None
  | x :: l => if x =? c then Some 0 else Z.succ <$> first_at c l
  end.
Definition last_at (c : Z) (l : list Z) : option Z := (λ i, Z.of_nat (length l) - 1 - i) <$> first_at c (rev l).

Lemma strchr_spec fuel s c m l :
  cstring m s l → 0 ≤ c < 256 → (length l < fuel)%nat → Libc.strchr fuel s c m = Some (Z.add s <$> first_at c (l ++ [0])).
Proof.
  intros Hl Hc. revert fuel s Hl. induction l as [|x l IH]; intros [|fuel] s Hl Hf; simpl in *; try lia.
  - rewrite Hl, s8_inj by lia. rewrite andb_false_r. destruct c; simpl; by rewrite ?Z.add_0_r.
  - destruct Hl as (-> & Hx & Hl). rewrite s8_inj, (cstring_nonzero x Hx) by lia. destruct (x =? c); simpl; [by rewrite Z.add_0_r|].
    rewrite IH by (done || lia). f_equal. destruct (first_at c (l ++ [0])); simpl; [|done]. f_equal. lia.
Qed.

Lemma first_at_app c l1 l2 :
  first_at c (l1 ++ l2) = match first_at c l1 with Some i => Some i | None => Z.add (Z.of_nat (length l1)) <$> first_at c l2 end.
Proof.
  induction l1 as [|x l1 IH]; simpl; [by destruct (first_at c l2)|]. destruct (x =? c); [done|]. rewrite IH.
  destruct (first_at c l1); [done|]. destruct (first_at c l2); simpl; [|done]. f_equal. lia.
Qed.
Lemma last_at_cons c x l :
  last_at c (x :: l) = match last_at c l with Some i => Some (i + 1) | None => if x =? c then Some 0 else None end.
Proof.
  unfold last_at. simpl. rewrite first_at_app, length_rev. destruct (first_at c (rev l)) as [i|]; simpl; [f_equal; lia|].
  destruct (x =? c); simpl; [f_equal; lia|done].
Qed.
Lemma strrchr_loop_spec fuel s c found m l :
  cstring m s l → 0 ≤ c < 256 → (length l < fuel)%nat →
  Libc.strrchr_loop fuel s c found m = Some (match last_at c (l ++ [0]) with Some i => Some (s + i) | None => found end).
Proof.
  intros Hl Hc. revert fuel s found Hl. induction l as [|x l IH]; intros [|fuel] s found Hl Hf; simpl in *; try lia.
  - rewrite Hl, s8_inj by lia. rewrite last_at_cons. change (last_at c []) with (@None Z). destruct c; simpl; by rewrite ?Z.add_0_r.
  - destruct Hl as (-> & Hx & Hl). rewrite s8_inj, (cstring_nonzero x Hx) by lia. rewrite IH by (done || lia).
    rewrite last_at_cons. destruct (last_at c (l ++ [0])); [do 2 f_equal; lia|]. destruct (x =? c); by rewrite ?Z.add_0_r.
Qed.

(** The difference of the first characters, as signed ones, that differ. *)
Fixpoint compare_strings (l1 l2 : list Z) : Z :=
  match l1, l2 with
  | [], [] => 0
  | [], y :: _ => - s8 y
  | x :: _, [] => s8 x
  | x :: l1, y :: l2 => if x =? y then compare_strings l1 l2 else s8 x - s8 y
  end.
Lemma compare_strings_eq l1 l2 :
  Forall (λ c, 0 < c < 256) l1 → Forall (λ c, 0 < c < 256) l2 → compare_strings l1 l2 = 0 ↔ l1 = l2.
Proof.
  assert (H8 : ∀ x, 0 < x < 256 → s8 x ≠ 0) by (intros x Hx; unfold s8; dlia).
  intros H1. revert l2. induction H1 as [|x l1 Hx _ IH]; intros l2 H2; destruct H2 as [|y l2 Hy H2]; simpl; try done.
  - split; [|done]. intros He. pose proof (H8 y Hy). lia.
  - split; [|done]. intros He. by pose proof (H8 x Hx).
  - destruct (x =? y) eqn:E; zbool.
    + rewrite IH by done. subst. split; [by intros ->|by injection 1].
    + pose proof (s8_inj x y ltac:(lia) ltac:(lia)) as Hs. apply Z.eqb_neq in E as E'. rewrite E' in Hs. apply Z.eqb_neq in Hs.
      split; [lia|]. injection 1. lia.
Qed.
Lemma strcmp_spec fuel s1 s2 m l1 l2 :
  cstring m s1 l1 → cstring m s2 l2 → (length l1 < fuel)%nat → Libc.strcmp fuel s1 s2 m = Some (compare_strings l1 l2).
Proof.
  revert fuel s1 s2 l2. induction l1 as [|x l1 IH]; intros [|fuel] s1 s2 l2 H1 H2 Hf; simpl in *; try lia.
  - rewrite H1. rewrite andb_false_r. destruct l2 as [|y l2]; simpl in H2; [by rewrite H2|]. by destruct H2 as (-> & _).
  - destruct H1 as (-> & Hx & H1). rewrite (cstring_nonzero x Hx), andb_true_r. destruct l2 as [|y l2]; simpl in H2.
    + rewrite H2, s8_inj, cstring_nonzero by (done || lia). f_equal. change (s8 0) with 0. lia.
    + destruct H2 as (-> & Hy & H2). rewrite s8_inj by lia. destruct (x =? y); [apply IH; (done || lia)|done].
Qed.
Lemma strncmp_spec n s1 s2 m l1 l2 :
  cstring m s1 l1 → cstring m s2 l2 → Libc.strncmp n s1 s2 m = compare_strings (take n l1) (take n l2).
Proof.
  revert n s1 s2 l2. induction l1 as [|x l1 IH]; intros [|n] s1 s2 l2 H1 H2; simpl in *; try done.
  - rewrite H1, andb_false_r. destruct l2 as [|y l2]; simpl in H2; [by rewrite H2|]. by destruct H2 as (-> & _).
  - destruct H1 as (-> & Hx & H1). rewrite (cstring_nonzero x Hx), andb_true_r. destruct l2 as [|y l2]; simpl in H2.
    + rewrite H2, s8_inj, cstring_nonzero by (done || lia). change (s8 0) with 0. simpl. lia.
    + destruct H2 as (-> & Hy & H2). rewrite s8_inj by lia. simpl. destruct (x =? y); [by apply IH|done].
Qed.

(** String scanning on a stored string [l]: [strlen] and [strnlen] give its length,
    [strchr] and [strrchr] the first and last place of a character (the final 0 included, [NULL] if it does not
    occur), and [strcmp] and [strncmp] are 0 exactly for equal strings,
    or strings with equal first [n] characters. *)
Theorem string_scans fuel s s' c n m l l' :
  cstring m s l → cstring m s' l' → 0 ≤ c < 256 → (length l < fuel)%nat →
  Libc.strlen fuel s m = Some (Z.of_nat (length l)) ∧ Libc.strnlen s n m = Z.of_nat (n `min` length l) ∧
  Libc.strchr fuel s c m = Some (Z.add s <$> first_at c (l ++ [0])) ∧
  Libc.strrchr fuel s c m = Some (Z.add s <$> last_at c (l ++ [0])) ∧
  (∃ r, Libc.strcmp fuel s s' m = Some r ∧ (r = 0 ↔ l = l')) ∧
  (Libc.strncmp n s s' m = 0 ↔ take n l = take n l').
Proof.
  intros Hl Hl' Hc Hf. pose proof (cstring_chars m s l Hl) as Hcl. pose proof (cstring_chars m s' l' Hl') as Hcl'. split_and!.
  - unfold Libc.strlen. by rewrite (strlen_loop_spec fuel s 0 m l).
  - unfold Libc.strnlen. rewrite (strnlen_loop_spec n s m l Hl). lia.
  - by apply strchr_spec.
  - unfold Libc.strrchr. rewrite (strrchr_loop_spec fuel s c None m l Hl Hc Hf). by destruct (last_at c (l ++ [0])).
  - exists (compare_strings l l'). split; [by apply strcmp_spec|by apply compare_strings_eq].
  - rewrite (strncmp_spec n s s' m l l' Hl Hl'). apply compare_strings_eq; by apply Forall_take.
Qed.
Lemma string_scans_witness :
  let m := write_bytes 200 [97; 98; 0] (write_bytes 100 [97; 98; 97; 0] ∅) in Libc.strlen 4 100 m = Some 3.
Proof.
  intros m. apply (string_scans 4 100 200 97 2 m [97; 98; 97] [97; 98]).
  - cbn [cstring]. split_and!; by vm_compute.
  - cbn [cstring]. split_and!; by vm_compute.
  - lia.
  - simpl. lia.
Defined.

(** ** Copying strings *)

Lemma strcpy_spec fuel d s m l :
  cstring m s l → (length l < fuel)%nat → disjoint_ranges d (Z.of_nat (length l) + 1) s (Z.of_nat (length l) + 1) →
  Libc.strcpy fuel d s m = Some (write_bytes d (l ++ [0]) m).
Proof.
  revert fuel d s m. induction l as [|c l IH]; intros [|fuel] d s m Hl Hf Hd; simpl in *; try lia; [by rewrite Hl|].
  destruct Hl as (-> & Hc & Hl). rewrite cstring_nonzero by done. unfold disjoint_ranges in *. apply IH; [|lia|lia].
  eapply cstring_ext; [|done]. intros b Hb. apply lookup_total_insert_ne. lia.
Qed.
Lemma strncpy_spec n d s m l :
  cstring m s l → disjoint_ranges d (Z.of_nat (length l) + 1) s (Z.of_nat (length l) + 1) →
  Libc.strncpy n d s m = write_bytes d (take n (l ++ [0])) m.
Proof.
  revert n d s m. induction l as [|c l IH]; intros [|n] d s m Hl Hd; simpl in *; try done; [by rewrite Hl, take_nil|].
  destruct Hl as (-> & Hc & Hl). rewrite cstring_nonzero by done. unfold disjoint_ranges in *. apply IH; [|lia].
  eapply cstring_ext; [|done]. intros b Hb. apply lookup_total_insert_ne. lia.
Qed.
Lemma strncat_loop_spec n d s m l :
  cstring m s l → disjoint_ranges d (Z.of_nat (length l) + 1) s (Z.of_nat (length l) + 1) →
  Libc.strncat_loop n d s m = write_bytes d (take n l ++ [0]) m.
Proof.
  revert n d s m. induction l as [|c l IH]; intros [|n] d s m Hl Hd; simpl in *; try done; [by rewrite Hl|].
  destruct Hl as (-> & Hc & Hl). rewrite cstring_nonzero by done. unfold disjoint_ranges in *. apply IH; [|lia].
  eapply cstring_ext; [|done]. intros b Hb. apply lookup_total_insert_ne. lia.
Qed.

(** A string followed by another one written over its final 0. *)
Lemma cstring_concat m a l1 l2 :
  cstring m a l1 → Forall (λ c, 0 < c < 256) l2 →
  cstring (write_bytes (a + Z.of_nat (length l1)) (l2 ++ [0]) m) a (l1 ++ l2).
Proof.
  revert a m. induction l1 as [|c l1 IH]; intros a m Hl H2; simpl.
  - rewrite Z.add_0_r. by apply cstring_write.
  - destruct Hl as (Hc & Hr & Hl). split_and!; [|lia..|].
    + rewrite write_bytes_other by lia. done.
    + replace (a + Z.of_nat (S (length l1))) with (a + 1 + Z.of_nat (length l1)) by lia. by apply IH.
Qed.

(** Copying a string [l] that does not overlap the destination: [strcpy] stores it with
    its final 0; [strncpy] stores it so if it is shorter than [n],
    and otherwise its first [n] characters and no 0; [strcat] and [strncat] append it, or its
    first [n] characters, to the string [l0] at the destination. *)
Theorem string_copies fuel d s n m l l0 :
  cstring m s l → cstring m d l0 → (length l < fuel)%nat → (length l0 < fuel)%nat →
  disjoint_ranges d (Z.of_nat (length l0 + length l) + 1) s (Z.of_nat (length l) + 1) →
  (∃ m', Libc.strcpy fuel d s m = Some m' ∧ cstring m' d l) ∧
  (let m' := Libc.strncpy n d s m in
   if (length l <? n)%nat then cstring m' d l else bytes m' d (Z.of_nat n) = take n l) ∧
  (∃ m', Libc.strcat fuel d s m = Some m' ∧ cstring m' d (l0 ++ l)) ∧
  (∃ m', Libc.strncat fuel d s n m = Some m' ∧ cstring m' d (l0 ++ take n l)).
Proof.
  intros Hl Hl0 Hf Hf0 Hd. pose proof (cstring_chars m s l Hl) as Hc. unfold disjoint_ranges in Hd. split_and!.
  - exists (write_bytes d (l ++ [0]) m). split; [apply strcpy_spec; unfold disjoint_ranges; (done || lia)|by apply cstring_write].
  - rewrite (strncpy_spec n d s m l) by (done || unfold disjoint_ranges; lia). destruct (length l <? n)%nat eqn:E.
    + apply Nat.ltb_lt in E. rewrite take_ge by (rewrite length_app; simpl; lia). by apply cstring_write.
    + apply Nat.ltb_ge in E. rewrite take_app_le by lia. unfold bytes. rewrite Nat2Z.id.
      rewrite <-(length_take_le l n) at 1 by lia. apply read_write_bytes.
  - unfold Libc.strcat, Libc.strlen. rewrite (strlen_loop_spec fuel d 0 m l0) by done. simpl.
    rewrite (strcpy_spec fuel _ s m l) by (done || unfold disjoint_ranges; lia). eexists. split; [done|]. by apply cstring_concat.
  - unfold Libc.strncat, Libc.strlen. rewrite (strlen_loop_spec fuel d 0 m l0) by done. simpl.
    rewrite (strncat_loop_spec n _ s m l) by (done || unfold disjoint_ranges; lia). eexists. split; [done|].
    apply cstring_concat; [done|by apply Forall_take].
Qed.
Lemma string_copies_witness :
  let m := write_bytes 200 [120; 0] (write_bytes 100 [97; 98; 99; 0] ∅) in
  ∃ m', Libc.strcat 4 200 100 m = Some m' ∧ cstring m' 200 ([120] ++ [97; 98; 99]).
Proof.
  intros m. apply (string_copies 4 200 100 2 m [97; 98; 99] [120]).
  - cbn [cstring]. split_and!; by vm_compute.
  - cbn [cstring]. split_and!; by vm_compute.
  - simpl. lia.
  - simpl. lia.
  - right. simpl. lia.
Defined.

(** [memcmp] compares bytes as signed characters: 0x80 comes out below 1, where C
    compares unsigned; [strncpy] leaves the rest of the destination as it was, where C pads it with zeros. *)
Lemma libc_deviations :
  let m := write_bytes 100 [128] (write_bytes 200 [1] ∅) in
  Libc.memcmp 100 200 1 m < 0 ∧ bytes (Libc.strncpy 3 200 300 (write_bytes 300 [0] (write_bytes 200 [7; 7; 7] m))) 200 3 = [0; 7; 7].
Proof. by vm_compute. Qed.
