(* ===== verification/Strtol.v ===== *)
(** * Numbers from strings ([lib/libc/minimal/source/stdlib], [include/ctype.h])

    Characters are signed.  [long] has 32 bits.  The loops take fuel, one unit
    per character looked at. *)
From stdpp Require Import gmap list.
From S2P Require Import Prelude Mem.
Local Open Scope Z_scope.

(** ** Character classes *)

Definition isupper (a : Z) : bool := u32 (a - 65) <? 26.
Definition isalpha (c : Z) : bool := u32 (Z.lor (u32 c) 32 - 97) <? 26.
Definition isspace (c : Z) : bool := (c =? 32) || (u32 (c - 9) <? 5).
Definition isdigit (a : Z) : bool := u32 (a - 48) <? 10.
Definition tolower (chr : Z) : Z := if (65 <=? chr) && (chr <=? 90) then chr + 32 else chr.
Definition toupper (chr : Z) : Z := if (97 <=? chr) && (chr <=? 122) then chr - 32 else chr.
Definition isalnum (chr : Z) : bool := isalpha chr || isdigit chr.

(** The character at [s]. *)
Definition char_at (m : gmap Z Z) (s : Z) : Z := s8 (m !!! s).

(** ** strtol, strtoul, atoi *)

Definition LONG_MAX : Z := 2147483647.
Definition LONG_MIN : Z := - 2147483648.
Definition ULONG_MAX : Z := 4294967295.

(** [do c = ...; while (isspace(c));]: the first other character and what follows it. *)
Fixpoint skip_space (fuel : nat) (s : Z) (m : gmap Z Z) : option (Z * Z) :=
  match fuel with
  | O => None
  | S fuel => let c := char_at m s in if isspace c then skip_space fuel (s + 1) m else Some (c, s + 1)
  end.

(** The value of a character as a digit. *)
Definition digit_of (c : Z) : option Z :=
  if isdigit c then Some (c - 48)
  else if isalpha c then Some (c - (if isupper c then 65 - 10 else 97 - 10))
  else None.

(** The loop over the digits; [any] is 0, 1, or -1 after an overflow. *)
Fixpoint digits_loop (fuel : nat) (base cutoff cutlim c s acc any : Z) (m : gmap Z Z) : option (Z * Z * Z) :=
  match fuel with
  | O => None
  | S fuel =>
      match digit_of c with
      | None => Some (acc, any, s)
      | Some d =>
          if base <=? d then Some (acc, any, s)
          else if (any <? 0) || (cutoff <? acc) || ((acc =? cutoff) && (cutlim <? d))
          then digits_loop fuel base cutoff cutlim (char_at m s) (s + 1) acc (- 1) m
          else digits_loop fuel base cutoff cutlim (char_at m s) (s + 1) (u32 (u32 (acc * base) + d)) 1 m
      end
  end.

(** The sign and the prefix: whether negative, the base, the first digit and what follows it. *)
Definition number_start (fuel : nat) (nptr base : Z) (m : gmap Z Z) : option (bool * Z * Z * Z) :=
  '(c, s) ← skip_space fuel nptr m;
  let '(neg, c, s) :=
    if c =? 45 then (true, char_at m s, s + 1)
    else if c =? 43 then (false, char_at m s, s + 1) else (false, c, s) in
  let '(base, c, s) :=
    if ((base =? 0) || (base =? 16)) && (c =? 48) && ((char_at m s =? 120) || (char_at m s =? 88))
    then (16, char_at m (s + 1), s + 2) else (base, c, s) in
  let base := if base =? 0 then (if c =? 48 then 8 else 10) else base in
  Some (neg, base, c, s).

(** The result, whether [errno] is set to [ERANGE], and what is stored at [endptr]. *)
Definition strtol (fuel : nat) (nptr base : Z) (m : gmap Z Z) : option (Z * bool * Z) :=
  '(neg, base, c, s) ← number_start fuel nptr base m;
  let cutoff := if neg : bool then u32 (- LONG_MIN) else LONG_MAX in
  let cutlim := cutoff mod base in
  let cutoff := cutoff / base in
  '(acc, any, s) ← digits_loop fuel base cutoff cutlim c s 0 0 m;
  let '(acc, range) :=
    if any <? 0 then (u32 (if neg : bool then LONG_MIN else LONG_MAX), true)
    else if neg : bool then (u32 (- acc), false) else (acc, false) in
  Some (s32 acc, range, if any =? 0 then nptr else s - 1).
Definition strtoul (fuel : nat) (nptr base : Z) (m : gmap Z Z) : option (Z * bool * Z) :=
  '(neg, base, c, s) ← number_start fuel nptr base m;
  let cutoff := ULONG_MAX / base in
  let cutlim := ULONG_MAX mod base in
  '(acc, any, s) ← digits_loop fuel base cutoff cutlim c s 0 0 m;
  let '(acc, range) :=
    if any <? 0 then (ULONG_MAX, true) else if neg : bool then (u32 (- acc), false) else (acc, false) in
  Some (acc, range, if any =? 0 then nptr else s - 1).
Definition atol (fuel : nat) (nptr : Z) (m : gmap Z Z) : option Z :=
  '(r, _, _) ← strtol fuel nptr 10 m; Some r.

(** [n] is computed as a negative number. *)
Fixpoint atoi_loop (fuel : nat) (s n : Z) (m : gmap Z Z) : option Z :=
  match fuel with
  | O => None
  | S fuel =>
      let c := char_at m s in
      if isdigit c then atoi_loop fuel (s + 1) (s32 (s32 (10 * n) - (c - 48))) m else Some n
  end.
Definition atoi (fuel : nat) (s : Z) (m : gmap Z Z) : option Z :=
  '(c, s) ← skip_space fuel s m;
  let s := s - 1 in
  let '(neg, s) := if c =? 45 then (true, s + 1) else if c =? 43 then (false, s + 1) else (false, s) in
  n ← atoi_loop fuel s 0 m;
  Some (if neg : bool then n else s32 (- n)).

(** ** What a string means *)

(** The characters [l] are stored from [a] on. *)
Fixpoint chars (m : gmap Z Z) (a : Z) (l : list Z) : Prop :=
  match l with [] => True | c :: l => char_at m a = c ∧ chars m (a + 1) l end.
(** [cs] are digits in [base] with the values [ds]; [stop] is not a digit. *)
Definition digits (base : Z) (cs ds : list Z) : Prop := Forall2 (λ c d, digit_of c = Some d ∧ 0 ≤ d < base) cs ds.
Definition no_digit (base c : Z) : Prop := match digit_of c with None => True | Some d => base ≤ d end.
Definition number (base v : Z) (ds : list Z) : Z := foldl (λ v d, v * base + d) v ds.

Lemma chars_app m a l1 l2 : chars m a (l1 ++ l2) ↔ chars m a l1 ∧ chars m (a + Z.of_nat (length l1)) l2.
Proof.
  revert a. induction l1 as [|c l1 IH]; intros a; simpl; [rewrite Z.add_0_r; tauto|].
  rewrite IH. replace (a + 1 + Z.of_nat (length l1)) with (a + Z.of_nat (S (length l1))) by lia. tauto.
Qed.

Lemma skip_space_spec fuel a m ws c l :
  chars m a (ws ++ c :: l) → Forall (λ c, isspace c = true) ws → isspace c = false → (length ws < fuel)%nat →
  skip_space fuel a m = Some (c, a + Z.of_nat (length ws) + 1).
Proof.
  revert fuel a. induction ws as [|w ws IH]; intros [|fuel] a Hm Hw Hc Hf; simpl in *; try lia.
  - destruct Hm as [-> _]. rewrite Hc. do 2 f_equal. lia.
  - destruct Hm as [-> Hm]. apply Forall_cons in Hw as [-> Hw]. rewrite (IH fuel (a + 1)) by (done || lia). do 2 f_equal. lia.
Qed.

Lemma number_ge base v ds : 1 ≤ base → 0 ≤ v → Forall (λ d, 0 ≤ d) ds → v ≤ number base v ds.
Proof.
  intros Hb Hv Hd. revert v Hv. induction Hd as [|d ds Hd _ IH]; intros v Hv; simpl; [done|]. etrans; [|apply IH]; nia.
Qed.

(** An accumulated value: exact up to the limit, flagged above it. *)
Definition accumulated (lim acc any v : Z) : Prop := (0 ≤ any ∧ acc = v ∧ v ≤ lim) ∨ (any = - 1 ∧ lim < v).

Lemma digits_loop_spec fuel base cutoff cutlim m cs ds stop c l s acc any v :
  let lim := cutoff * base + cutlim in
  2 ≤ base → 0 ≤ cutlim < base → lim < 4294967296 → digits base cs ds → no_digit base stop →
  c :: l = cs ++ [stop] → chars m s l → (length cs < fuel)%nat → 0 ≤ v → accumulated lim acc any v →
  ∃ acc' any', digits_loop fuel base cutoff cutlim c s acc any m = Some (acc', any', s + Z.of_nat (length cs)) ∧
    accumulated lim acc' any' (number base v ds) ∧ (any' = 0 ↔ cs = [] ∧ any = 0).
Proof.
  intros lim Hb Hcl Hlim Hds Hstop. revert fuel c l s acc any v.
  induction Hds as [|ch d cs ds [Hch Hd] Hds IH]; intros [|fuel] c l s acc any v He Hl Hf Hv Hacc; simpl in *; try lia.
  - injection He as -> ->. unfold no_digit in Hstop. exists acc, any. rewrite Z.add_0_r. split; [|split; [done|tauto]].
    destruct (digit_of stop) as [d|]; [|done]. by rewrite (proj2 (Z.leb_le _ _)).
  - injection He as -> ->. rewrite Hch, (proj2 (Z.leb_gt _ _)) by lia.
    destruct (cs ++ [stop]) as [|c' l'] eqn:Ecs; [by destruct cs|]. simpl in Hl. destruct Hl as [Hc' Hl']. rewrite Hc'.
    set (over := (any <? 0) || (cutoff <? acc) || ((acc =? cutoff) && (cutlim <? d))).
    assert (Hover : over = true ↔ lim < v * base + d).
    { unfold over. rewrite !orb_true_iff, andb_true_iff, !Z.ltb_lt, Z.eqb_eq. unfold lim in *.
      destruct Hacc as [(Ha & -> & Hv')|(-> & Hv')]; nia. }
    destruct over.
    + destruct (IH fuel c' l' (s + 1) acc (- 1) (v * base + d)) as (acc' & any' & H1 & H2 & H3);
        [done|done|lia|nia|right; split; [done|by apply Hover]|]. exists acc', any'. rewrite H1. split; [do 2 f_equal; lia|].
      split; [done|]. rewrite H3. split; [lia|]. by intros [? _].
    + assert (Hle : v * base + d ≤ lim) by (destruct (decide (lim < v * base + d)) as [Hlt|]; [apply Hover in Hlt; done|lia]).
      destruct Hacc as [(Ha & -> & Hv')|(-> & Hv')]; [|exfalso; nia]. rewrite (u32_id (v * base)), u32_id by nia.
      destruct (IH fuel c' l' (s + 1) (v * base + d) 1 (v * base + d)) as (acc' & any' & H1 & H2 & H3);
        [done|done|lia|nia|left; lia|]. exists acc', any'. rewrite H1. split; [do 2 f_equal; lia|].
      split; [done|]. rewrite H3. split; [lia|]. by intros [? _].
Qed.

(** Facts about single characters, by inspection of all of them. *)
Lemma char_cases (P : Z → bool) c : -128 ≤ c < 128 → forallb P (seqZ (- 128) 256) = true → P c = true.
Proof. intros Hc Hall. rewrite forallb_forall in Hall. apply Hall, list_elem_of_In, elem_of_seqZ. lia. Qed.
Lemma char_at_range m s : -128 ≤ char_at m s < 128.
Proof. unfold char_at, s8. dlia. Qed.
Lemma digit_not_special c d :
  -128 ≤ c < 128 → digit_of c = Some d → isspace c = false ∧ c ≠ 45 ∧ c ≠ 43 ∧ 0 ≤ d < 36 ∧ ((c = 120 ∨ c = 88) → d = 33).
Proof.
  intros Hc. assert (Hp := char_cases (λ c, match digit_of c with
    | Some d => negb (isspace c) && negb (c =? 45) && negb (c =? 43) && (0 <=? d) && (d <? 36) && (negb ((c =? 120) || (c =? 88)) || (d =? 33))
    | None => true end) c Hc ltac:(by vm_compute)). intros He. cbv beta in Hp. rewrite He in Hp.
  rewrite !andb_true_iff, !orb_true_iff, !negb_true_iff, orb_false_iff, !Z.eqb_neq, Z.leb_le, Z.ltb_lt, Z.eqb_eq in Hp.
  destruct Hp as (((((H1 & H2) & H3) & H4) & H5) & H6). split_and!; (done || lia).
Qed.
Lemma chars_range m a l c : chars m a l → c ∈ l → -128 ≤ c < 128.
Proof.
  revert a. induction l as [|x l IH]; intros a Hl Hc; [by apply not_elem_of_nil in Hc|]. destruct Hl as [<- Hl].
  apply elem_of_cons in Hc as [->|Hc]; [apply char_at_range|by apply (IH (a + 1))].
Qed.

Definition is_x (c : Z) : Prop := c = 120 ∨ c = 88.
(** The prefix [pre] makes the argument [base0] mean the base [base]. *)
Definition prefixed (base0 base : Z) (pre cs : list Z) (stop : Z) : Prop :=
  match pre with
  | [] =>
      base = (if base0 =? 0 then (if bool_decide (head cs = Some 48) then 8 else 10) else base0) ∧
      ¬ ((base0 = 0 ∨ base0 = 16) ∧ cs = [48] ∧ is_x stop)
  | _ => (∃ x, pre = [48; x] ∧ is_x x) ∧ base = 16 ∧ (base0 = 0 ∨ base0 = 16)
  end.

(** The sign of a number whose first other character is [a0]. *)
Lemma sign_spec fuel nptr m ws sgn a0 t :
  chars m nptr (ws ++ sgn ++ a0 :: t) → Forall (λ c, isspace c = true) ws → sgn ∈ [[]; [43]; [45]] →
  isspace a0 = false → a0 ≠ 45 → a0 ≠ 43 → (length ws < fuel)%nat →
  let s' := nptr + Z.of_nat (length ws + length sgn) + 1 in
  ∃ c s, skip_space fuel nptr m = Some (c, s) ∧ chars m s' t ∧
    (if c =? 45 then (true, char_at m s, s + 1) else if c =? 43 then (false, char_at m s, s + 1) else (false, c, s)) =
    (bool_decide (sgn = [45]), a0, s').
Proof.
  intros Hm Hws Hsgn Ha0 Ha45 Ha43 Hf s'. pose proof Hm as Hm'. apply chars_app in Hm' as [_ Hm2]. apply chars_app in Hm2 as [Hs Hm2].
  destruct Hm2 as [Ha Hm2]. unfold s'. set (s := nptr + Z.of_nat (length ws)) in *.
  assert (Hskip : ∀ c l, sgn ++ a0 :: t = c :: l → isspace c = false → skip_space fuel nptr m = Some (c, s + 1)).
  { intros c l E Hc. rewrite E in Hm. by eapply skip_space_spec. }
  rewrite !list_elem_of_In in Hsgn. simpl in Hsgn. destruct Hsgn as [<-|[<-|[<-|[]]]]; simpl length in *.
  - exists a0, (s + 1). rewrite (Hskip a0 t) by done. rewrite Z.add_0_r in *. rewrite Nat.add_0_r. split_and!; [done|done|].
    by rewrite (proj2 (Z.eqb_neq _ _) Ha45), (proj2 (Z.eqb_neq _ _) Ha43).
  - exists 43, (s + 1). rewrite (Hskip 43 (a0 :: t)) by done. change (Z.of_nat 1) with 1 in *.
    replace (nptr + Z.of_nat (length ws + 1) + 1) with (s + 1 + 1) by lia. rewrite Ha. done.
  - exists 45, (s + 1). rewrite (Hskip 45 (a0 :: t)) by done. change (Z.of_nat 1) with 1 in *.
    replace (nptr + Z.of_nat (length ws + 1) + 1) with (s + 1 + 1) by lia. rewrite Ha. done.
Qed.

(** The character after a first digit [c0] is an x only in an excluded case. *)
Lemma no_hex_prefix base0 base c0 cs ds stop x l :
  prefixed base0 base [] (c0 :: cs) stop → digits base cs ds → base ≤ 16 → cs ++ [stop] = x :: l → -128 ≤ x < 128 →
  (base0 = 0 ∨ base0 = 16) → c0 = 48 → ¬ is_x x.
Proof.
  intros [_ Hno] Hds Hb He Hx Hb0 -> Hisx. destruct Hds as [|c d cs ds [Hc Hd] _]; simpl in He; injection He as -> _.
  - apply Hno. done.
  - destruct (digit_not_special x d Hx Hc) as (_ & _ & _ & _ & H33). specialize (H33 Hisx). lia.
Qed.

Lemma number_start_spec fuel nptr base0 base m ws sgn pre cs ds stop :
  chars m nptr (ws ++ sgn ++ pre ++ cs ++ [stop]) → Forall (λ c, isspace c = true) ws → sgn ∈ [[]; [43]; [45]] →
  prefixed base0 base pre cs stop → digits base cs ds → cs ≠ [] → (length ws < fuel)%nat →
  ∃ c l s, number_start fuel nptr base0 m = Some (bool_decide (sgn = [45]), base, c, s) ∧ c :: l = cs ++ [stop] ∧ chars m s l ∧
    s = nptr + Z.of_nat (length ws + length sgn + length pre) + 1.
Proof.
  intros Hm Hws Hsgn Hpre Hds Hcs Hf. destruct Hds as [|c0 d0 cs ds [Hc0 Hd0] Hds]; [done|]. clear Hcs.
  assert (Hr : ∀ c, c ∈ ws ++ sgn ++ pre ++ (c0 :: cs) ++ [stop] → -128 ≤ c < 128) by (intros c; by apply (chars_range m nptr)).
  unfold number_start. destruct pre as [|p pre].
  - assert (Hrc : -128 ≤ c0 < 128) by (apply Hr; rewrite !elem_of_app, elem_of_cons; tauto).
    destruct (digit_not_special c0 d0 Hrc Hc0) as (H1 & H2 & H3 & _).
    destruct (sign_spec fuel nptr m ws sgn c0 (cs ++ [stop])) as (c & s & -> & Ht & Hs); [done..|]. simpl. rewrite Hs.
    set (s' := nptr + _ + 1) in *. simpl length. rewrite Nat.add_0_r.
    assert (Hnx : ((base0 =? 0) || (base0 =? 16)) && (c0 =? 48) && ((char_at m s' =? 120) || (char_at m s' =? 88)) = false).
    { destruct (((base0 =? 0) || (base0 =? 16)) && (c0 =? 48)) eqn:E; [|done]. simpl. apply andb_true_iff in E as [E1 E2].
      apply orb_true_iff in E1. rewrite !Z.eqb_eq in *. destruct (cs ++ [stop]) as [|x l] eqn:El; [by destruct cs|].
      destruct Ht as [-> _]. apply not_true_is_false. rewrite orb_true_iff, !Z.eqb_eq.
      eapply (no_hex_prefix base0 base c0 cs ds stop x l); try done.
      - destruct Hpre as [-> _]. destruct E1 as [-> | ->]; [|done]. by destruct (bool_decide _).
      - apply Hr. rewrite <-app_comm_cons, El. rewrite !elem_of_app, !elem_of_cons. tauto. }
    rewrite Hnx. destruct Hpre as [Hb _]. exists c0, (cs ++ [stop]), s'. split_and!; try done. do 4 f_equal. rewrite Hb.
    destruct (base0 =? 0); [|done]. simpl. destruct (c0 =? 48) eqn:E; zbool.
    + subst. by rewrite bool_decide_true.
    + rewrite bool_decide_false; [done|]. by injection 1.
  - destruct Hpre as ((x & [= -> ->] & Hx) & -> & Hb0).
    destruct (sign_spec fuel nptr m ws sgn 48 (x :: (c0 :: cs) ++ [stop])) as (c & s & -> & Ht & Hs); [done..|]. simpl. rewrite Hs.
    set (s' := nptr + _ + 1) in *. destruct Ht as [Hxs [Hc0s Ht]]. rewrite Hxs.
    assert (((base0 =? 0) || (base0 =? 16)) && (48 =? 48) && ((x =? 120) || (x =? 88)) = true) as ->.
    { rewrite !andb_true_iff, !orb_true_iff, !Z.eqb_eq. done. }
    exists c0, (cs ++ [stop]), (s' + 2). rewrite Hc0s. replace (s' + 1 + 1) with (s' + 2) in Ht by lia. split_and!; try done. lia.
Qed.

(** The results for a number with the given sign and digits. *)
Lemma strtol_accumulated neg acc any v :
  let lim := if neg : bool then 2147483648 else 2147483647 in 0 ≤ v → accumulated lim acc any v →
  let x := if neg then - v else v in
  (let '(acc, range) := if any <? 0 then (u32 (if neg then LONG_MIN else LONG_MAX), true)
    else if neg then (u32 (- acc), false) else (acc, false) in (s32 acc, range)) =
  (LONG_MIN `max` (x `min` LONG_MAX), (x <? LONG_MIN) || (LONG_MAX <? x)).
Proof.
  intros lim Hv Hacc x. unfold lim, x, LONG_MIN, LONG_MAX in *. assert (Hr : ∀ b b' : bool, (b = true ↔ b' = true) → b = b').
  { intros [] []; naive_solver. }
  destruct Hacc as [(Ha & -> & Hl)|(-> & Hl)]; destruct neg.
  - rewrite (proj2 (Z.ltb_ge any 0)) by lia. f_equal; [|apply Hr; rewrite orb_true_iff, !Z.ltb_lt; lia].
    unfold s32, u32. dlia.
  - rewrite (proj2 (Z.ltb_ge any 0)) by lia. f_equal; [|apply Hr; rewrite orb_true_iff, !Z.ltb_lt; lia]. rewrite s32_id; lia.
  - simpl (-1 <? 0). cbv iota. f_equal; [|apply Hr; rewrite orb_true_iff, !Z.ltb_lt; lia]. rewrite Z.max_l by lia. done.
  - simpl (-1 <? 0). cbv iota. f_equal; [|apply Hr; rewrite orb_true_iff, !Z.ltb_lt; lia]. rewrite Z.min_r by lia. done.
Qed.

Lemma digits_nonneg base cs ds : digits base cs ds → Forall (λ d, 0 ≤ d) ds.
Proof. induction 1 as [|c d cs ds [_ Hd] _ IH]; constructor; [lia|done]. Qed.

Lemma strtol_spec fuel nptr base0 base m ws sgn pre cs ds stop :
  chars m nptr (ws ++ sgn ++ pre ++ cs ++ [stop]) → Forall (λ c, isspace c = true) ws → sgn ∈ [[]; [43]; [45]] →
  prefixed base0 base pre cs stop → 2 ≤ base → digits base cs ds → cs ≠ [] → no_digit base stop →
  (length ws < fuel)%nat → (length cs < fuel)%nat →
  let v := number base 0 ds in let neg := bool_decide (sgn = [45]) in let x := if neg then - v else v in
  let endptr := nptr + Z.of_nat (length (ws ++ sgn ++ pre ++ cs)) in
  strtol fuel nptr base0 m = Some (LONG_MIN `max` (x `min` LONG_MAX), (x <? LONG_MIN) || (LONG_MAX <? x), endptr) ∧
  strtoul fuel nptr base0 m = Some (if ULONG_MAX <? v then ULONG_MAX else u32 x, ULONG_MAX <? v, endptr).
Proof.
  intros Hm Hws Hsgn Hpre Hb Hds Hcs Hstop Hf1 Hf2 v neg x endptr.
  destruct (number_start_spec fuel nptr base0 base m ws sgn pre cs ds stop) as (c & l & s & Hst & He & Hl & Hs); [done..|].
  assert (Hend : s + Z.of_nat (length cs) - 1 = endptr) by (unfold endptr; rewrite !length_app; lia).
  assert (Hv : 0 ≤ v) by (apply number_ge; [lia|done|by eapply digits_nonneg]).
  assert (Hrun : ∀ lim, 0 ≤ lim < 4294967296 → ∃ acc any, digits_loop fuel base (lim / base) (lim mod base) c s 0 0 m =
    Some (acc, any, s + Z.of_nat (length cs)) ∧ accumulated lim acc any v ∧ any ≠ 0).
  { intros lim Hlim. pose proof (Z.mod_pos_bound lim base ltac:(lia)). pose proof (Z.div_mod lim base ltac:(lia)) as Hdm.
    destruct (digits_loop_spec fuel base (lim / base) (lim mod base) m cs ds stop c l s 0 0 0) as (acc & any & H1 & H2 & H3);
      try done; [lia|left; lia|]. exists acc, any. split_and!; [done|by replace (lim / base * base + lim mod base) with lim in H2 by lia|].
    intros ->. by destruct (proj1 H3 eq_refl). }
  unfold strtol, strtoul. rewrite Hst. simpl. fold neg. split.
  - set (lim := if neg then 2147483648 else 2147483647). assert (Hlim : (if neg then u32 (- LONG_MIN) else LONG_MAX) = lim) by by destruct neg.
    rewrite Hlim. destruct (Hrun lim) as (acc & any & -> & Hacc & Hany); [unfold lim; destruct neg; lia|]. simpl.
    pose proof (strtol_accumulated neg acc any v Hv Hacc) as Hres. rewrite (proj2 (Z.eqb_neq _ _) Hany), Hend.
    destruct (any <? 0); [|destruct neg]; injection Hres as H1 H2; by rewrite H1, H2.
  - destruct (Hrun ULONG_MAX) as (acc & any & -> & Hacc & Hany); [done|]. simpl. rewrite (proj2 (Z.eqb_neq _ _) Hany), Hend.
    destruct Hacc as [(Ha & -> & Hle)|(-> & Hlt)].
    + rewrite (proj2 (Z.ltb_ge any 0)), (proj2 (Z.ltb_ge ULONG_MAX v)) by lia. unfold x, ULONG_MAX in *.
      destruct neg; [done|]. by rewrite u32_id by lia.
    + rewrite (proj2 (Z.ltb_lt ULONG_MAX v)) by lia. done.
Qed.

(** C34: [strtol] reads a number: after white space, a sign and a prefix, the digits in
    the base that base and prefix say, it returns the value of the digits up
    to the first character that is none and where that character is; values outside [long] become [LONG_MIN] or
    [LONG_MAX] and set [errno], however many digits there are.  [strtoul] does the same for [unsigned long], a
    negative number being taken modulo 2{^32}. *)
Theorem strtol_reads_number fuel nptr base0 base m ws sgn pre cs ds stop :
  chars m nptr (ws ++ sgn ++ pre ++ cs ++ [stop]) → Forall (λ c, isspace c = true) ws → sgn ∈ [[]; [43]; [45]] →
  prefixed base0 base pre cs stop → 2 ≤ base → digits base cs ds → cs ≠ [] → no_digit base stop →
  (length ws < fuel)%nat → (length cs < fuel)%nat →
  let v := number base 0 ds in let neg := bool_decide (sgn = [45]) in let x := if neg then - v else v in
  let endptr := nptr + Z.of_nat (length (ws ++ sgn ++ pre ++ cs)) in
  strtol fuel nptr base0 m = Some (LONG_MIN `max` (x `min` LONG_MAX), (x <? LONG_MIN) || (LONG_MAX <? x), endptr) ∧
  strtoul fuel nptr base0 m = Some (if ULONG_MAX <? v then ULONG_MAX else u32 x, ULONG_MAX <? v, endptr).
Proof. exact (strtol_spec fuel nptr base0 base m ws sgn pre cs ds stop). Qed.
Lemma strtol_reads_number_witness :
  let m := write_bytes 100 [32; 45; 52; 50; 0] ∅ in strtol 5 100 10 m = Some (- 42, false, 104).
Proof.
  intros m. destruct (strtol_reads_number 5 100 10 10 m [32] [45] [] [52; 50] [4; 2] 0) as [H _].
  - by vm_compute.
  - by repeat constructor.
  - rewrite !elem_of_cons. tauto.
  - split; [done|]. intros (_ & [=] & _).
  - lia.
  - repeat constructor; done.
  - done.
  - done.
  - simpl. lia.
  - simpl. lia.
  - exact H.
Defined.
