(* ===== verification/Prf.v ===== *)
(** * Formatted output ([lib/libc/minimal/source/stdout/prf.c])

    The conversions of numbers to text in a buffer in memory, and the format
    interpreter [_prf].  Characters written are the low bytes. *)
From stdpp Require Import gmap list.
From S2P Require Import Prelude Mem Ring Libc Strtol.
Local Open Scope Z_scope.

Definition MAXFLD : Z := 80.

(** ** Integers *)

(** [_uc]: letters to upper case, up to the final 0. *)
Fixpoint _uc (fuel : nat) (buf : Z) (m : gmap Z Z) : gmap Z Z :=
  match fuel with
  | O => m
  | S fuel =>
      let c := char_at m buf in
      if c =? 0 then m
      else _uc fuel (buf + 1) (if (97 <=? c) && (c <=? 122) then <[buf := u8 (c + (65 - 97))]> m else m)
  end.

(** [while (end - start < minlen)], a '0' is written at [end]. *)
Fixpoint pad_zeros (n : nat) (e : Z) (m : gmap Z Z) : Z * gmap Z Z :=
  match n with O => (e, m) | S n => pad_zeros n (e + 1) (<[e := 48]> m) end.
(** The characters from [start] to [e] change places while [e > start]. *)
Fixpoint reverse_loop (fuel : nat) (start e : Z) (m : gmap Z Z) : gmap Z Z :=
  match fuel with
  | O => m
  | S fuel =>
      if start <? e then
        let tmp := m !!! e in
        let m := <[e := m !!! start]> m in
        let m := <[start := tmp]> m in
        reverse_loop fuel (start + 1) (e - 1) m
      else m
  end.
Definition _reverse_and_pad (start e minlen : Z) (m : gmap Z Z) : Z * gmap Z Z :=
  let '(e, m) := pad_zeros (Z.to_nat (minlen - (e - start))) e m in
  let m := <[e := 0]> m in
  let len := e - start in
  (len, reverse_loop (Z.to_nat len) start (e - 1) m).

(** The digits of a 32-bit number, lowest first: at most 32 of them. *)
Fixpoint to_x_loop (fuel : nat) (buf n base : Z) (m : gmap Z Z) : Z * gmap Z Z :=
  match fuel with
  | O => (buf, m)
  | S fuel =>
      let d := n mod base in
      let n := n / base in
      let m := <[buf := u8 (48 + d + (if 9 <? d then 97 - 48 - 10 else 0))]> m in
      if n =? 0 then (buf + 1, m) else to_x_loop fuel (buf + 1) n base m
  end.
Definition _to_x (buf n base minlen : Z) (m : gmap Z Z) : Z * gmap Z Z :=
  let '(e, m) := to_x_loop 32 buf n base m in _reverse_and_pad buf e minlen m.

Definition _to_hex (buf value : Z) (alt_form : bool) (precision prefix : Z) (m : gmap Z Z) : Z * gmap Z Z :=
  let buf0 := buf in
  let '(buf, m) := if alt_form then (buf + 2, <[buf + 1 := 120]> (<[buf := 48]> m)) else (buf, m) in
  let '(len, m) := _to_x buf value 16 precision m in
  let m := if prefix =? 88 then _uc (Z.to_nat (len + (buf - buf0) + 1)) buf0 m else m in
  (len + (buf - buf0), m).
Definition _to_octal (buf value : Z) (alt_form : bool) (precision : Z) (m : gmap Z Z) : Z * gmap Z Z :=
  if alt_form then
    let m := <[buf := 48]> m in
    if value =? 0 then (1, <[buf + 1 := 0]> m)
    else let '(len, m) := _to_x (buf + 1) value 8 precision m in (1 + len, m)
  else _to_x buf value 8 precision m.
Definition _to_udec (buf value precision : Z) (m : gmap Z Z) : Z * gmap Z Z := _to_x buf value 10 precision m.
Definition _to_dec (buf value : Z) (fplus fspace : bool) (precision : Z) (m : gmap Z Z) : Z * gmap Z Z :=
  let start := buf in
  let '(buf, value, m) :=
    if value <? 0 then (buf + 1, if u32 value =? 2147483648 then value else s32 (- value), <[buf := 45]> m)
    else if fplus then (buf + 1, value, <[buf := 43]> m)
    else if fspace then (buf + 1, value, <[buf := 32]> m)
    else (buf, value, m) in
  let '(len, m) := _to_udec buf (u32 value) precision m in
  (buf + len - start, m).

(** ** Floating point: on the 64 bits of a double *)

Definition _rlrshift (v : Z) : Z := u64 (Z.land v 1 + Z.shiftr v 1).

(** One round of [_ldiv5] with the given shift: remainder and quotient. *)
Definition ldiv5_round (shift : Z) (rq : Z * Z) : Z * Z :=
  let '(rem, quot) := rq in
  let hi := u32 (Z.shiftr rem shift) in
  let q := u64 (Z.shiftl (hi / 5) shift) in
  (u64 (rem - u64 (q * 5)), u64 (quot + q)).
Definition _ldiv5 (v : Z) : Z := snd (ldiv5_round 0 (ldiv5_round 3 (ldiv5_round 32 (u64 (v + 2), 0)))).

Definition _get_digit (fr digit_count : Z) : Z * Z * Z :=
  if 0 <? digit_count then
    let fr := u64 (fr * 10) in
    (Z.land (Z.shiftr fr 60) 15 + 48, Z.land fr 0x0FFFFFFFFFFFFFFF, digit_count - 1)
  else (48, fr, digit_count).

Definition MAXFP1 : Z := 0xFFFFFFFF.
Definition HIGHBIT64 : Z := 0x8000000000000000.

(** [while ((fract >> 32) >= (MAXFP1 / 5))] *)
Fixpoint shift_down (fuel : nat) (fract exp : Z) : option (Z * Z) :=
  match fuel with
  | O => None
  | S fuel => if MAXFP1 / 5 <=? Z.shiftr fract 32 then shift_down fuel (_rlrshift fract) (exp + 1) else Some (fract, exp)
  end.
(** [while ((fract >> 32) <= (MAXFP1 / 2))] *)
Fixpoint shift_up (fuel : nat) (fract exp : Z) : option (Z * Z) :=
  match fuel with
  | O => None
  | S fuel => if Z.shiftr fract 32 <=? MAXFP1 / 2 then shift_up fuel (u64 (Z.shiftl fract 1)) (exp - 1) else Some (fract, exp)
  end.
(** [while (exp <= -3)] and [while (exp > 0)] *)
Fixpoint scale_small (fuel : nat) (fract exp decexp : Z) : option (Z * Z * Z) :=
  match fuel with
  | O => None
  | S fuel =>
      if exp <=? -3 then
        '(fract, exp) ← shift_down 65 fract exp;
        '(fract, exp) ← shift_up 65 (u64 (fract * 5)) (exp + 1);
        scale_small fuel fract exp (decexp - 1)
      else Some (fract, exp, decexp)
  end.
Fixpoint scale_large (fuel : nat) (fract exp decexp : Z) : option (Z * Z * Z) :=
  match fuel with
  | O => None
  | S fuel =>
      if 0 <? exp then
        '(fract, exp) ← shift_up 65 (_ldiv5 fract) (exp - 1);
        scale_large fuel fract exp (decexp + 1)
      else Some (fract, exp, decexp)
  end.
(** [while (exp < 4)] *)
Definition align_digit (fract exp : Z) : Z := Nat.iter (Z.to_nat (4 - exp)) _rlrshift fract.
Definition round_half (exp : Z) : Z := Nat.iter (Z.to_nat exp) (λ l, _rlrshift (_ldiv5 l)) 0x0800000000000000.

(** A character is written at the end of the text. *)
Definition put (c : Z) (bm : Z * gmap Z Z) : Z * gmap Z Z := (bm.1 + 1, <[bm.1 := u8 c]> bm.2).
(** [n] digits. *)
Fixpoint put_digits (n : nat) (fract digit_count : Z) (bm : Z * gmap Z Z) : Z * Z * (Z * gmap Z Z) :=
  match n with
  | O => (fract, digit_count, bm)
  | S n => let '(d, fract, digit_count) := _get_digit fract digit_count in put_digits n fract digit_count (put d bm)
  end.
(** [while (precision-- > 0)], zeros as long as [decexp] is negative. *)
Fixpoint put_fraction (n : nat) (decexp fract digit_count : Z) (bm : Z * gmap Z Z) : Z * gmap Z Z :=
  match n with
  | O => bm
  | S n =>
      if decexp <? 0 then put_fraction n (decexp + 1) fract digit_count (put 48 bm)
      else let '(d, fract, digit_count) := _get_digit fract digit_count in put_fraction n decexp fract digit_count (put d bm)
  end.
(** Trailing zeros are taken off, and the point behind them: [buf] points to the last character first. *)
Fixpoint prune (fuel : nat) (buf : Z) (m : gmap Z Z) : Z :=
  match fuel with
  | O => buf
  | S fuel => if m !!! buf =? 48 then prune fuel (buf - 1) m else if m !!! buf =? 46 then buf else buf + 1
  end.

(** From the scaled fraction to the end of the text. *)
Definition float_text (start fract exp decexp c : Z) (falt : bool) (precision : Z) (bm : Z * gmap Z Z) : Z * gmap Z Z :=
  let fract := align_digit fract exp in
  let precision := if precision <? 0 then 6 else precision in
  let general := (c =? 103) || (c =? 71) in
  let prune_zero := general && negb falt && (0 <? precision) in
  let c :=
    if general then
      (if (decexp <? -4 + 1) || (precision + 1 <? decexp) then (if c =? 103 then 101 else 69) else 102)
    else c in
  let exp := if c =? 102 then Z.max 0 (precision + decexp) else precision + 1 in
  let exp := Z.min exp 16 in
  let fract := u64 (fract + round_half exp) in
  let '(fract, decexp) :=
    if negb (Z.land (Z.shiftr fract 32) 0xF0000000 =? 0) then (_rlrshift (_ldiv5 fract), decexp + 1) else (fract, decexp) in
  let '(decexp, bm) :=
    if c =? 102 then
      let '(fract, digit_count, bm) :=
        if 0 <? decexp then put_digits (Z.to_nat decexp) fract 16 bm else (fract, 16, put 48 bm) in
      let decexp := Z.min decexp 0 in
      let bm := if falt || (0 <? precision) then put 46 bm else bm in
      (decexp, put_fraction (Z.to_nat precision) decexp fract digit_count bm)
    else
      let '(d, fract, digit_count) := _get_digit fract 16 in
      let bm := put d bm in
      let decexp := if d =? 48 then decexp else decexp - 1 in
      let bm := if falt || (0 <? precision) then put 46 bm else bm in
      (decexp, (put_digits (Z.to_nat precision) fract digit_count bm).2) in
  let bm := if prune_zero then (prune (Z.to_nat (bm.1 - start)) (bm.1 - 1) bm.2, bm.2) else bm in
  let '(buf, m) :=
    if (c =? 101) || (c =? 69) then
      let bm := put c bm in
      let '(decexp, bm) := if decexp <? 0 then (- decexp, put 45 bm) else (decexp, put 43 bm) in
      let bm := put (decexp / 100 + 48) bm in
      let decexp := decexp mod 100 in
      let bm := put (decexp / 10 + 48) bm in
      put (decexp mod 10 + 48) bm
    else bm in
  (buf - start, <[buf := 0]> m).

Definition _to_float (buf double_temp c : Z) (falt fplus fspace : bool) (precision : Z) (m : gmap Z Z) : option (Z * gmap Z Z) :=
  let start := buf in
  let exp := Z.land (Z.shiftr double_temp 52) 0x7ff in
  let fract := Z.land (u64 (Z.shiftl double_temp 11)) (HIGHBIT64 - 1) in
  let sign := negb (Z.land double_temp HIGHBIT64 =? 0) in
  let bm := (buf, m) in
  if exp =? 0x7ff then
    let '(buf, m) :=
      if fract =? 0 then put 70 (put 78 (put 73 (put (if sign then 45 else 43) bm))) else put 78 (put 97 (put 78 bm)) in
    Some (buf - start, <[buf := 0]> m)
  else
    let nonzero := negb (Z.lor exp fract =? 0) in
    let '(exp, fract) := if nonzero then (exp - (1023 - 1), Z.lor fract HIGHBIT64) else (exp, fract) in
    let bm := if nonzero && sign then put 45 bm else if fplus then put 43 bm else if fspace then put 32 bm else bm in
    '(fract, exp, decexp) ← scale_small 2000 fract exp 0;
    '(fract, exp, decexp) ← scale_large 2000 fract exp decexp;
    Some (float_text start fract exp decexp c falt precision bm).

(** ** What is written *)

Definition digit_char (d : Z) : Z := if d <? 10 then 48 + d else 87 + d.
(** The digits of [n], lowest first. *)
Fixpoint digits_low (fuel : nat) (n base : Z) : list Z :=
  match fuel with
  | O => []
  | S fuel => n mod base :: (if n / base =? 0 then [] else digits_low fuel (n / base) base)
  end.

Lemma digits_low_range fuel n base : 2 ≤ base → Forall (λ d, 0 ≤ d < base) (digits_low fuel n base).
Proof.
  intros Hb. revert n. induction fuel as [|fuel IH]; intros n; simpl; constructor; [apply Z.mod_pos_bound; lia|].
  destruct (n / base =? 0); [constructor|apply IH].
Qed.
Lemma number_snoc base v ds d : number base v (ds ++ [d]) = number base v ds * base + d.
Proof. unfold number. by rewrite foldl_app. Qed.
Lemma digits_low_value fuel n base :
  2 ≤ base → 0 ≤ n < 2 ^ Z.of_nat fuel → n ≠ 0 ∨ (0 < fuel)%nat → number base 0 (rev (digits_low fuel n base)) = n.
Proof.
  intros Hb. revert n. induction fuel as [|fuel IH]; intros n Hn Hf; [simpl in *; lia|].
  rewrite Nat2Z.inj_succ, Z.pow_succ_r in Hn by lia. cbn [digits_low rev]. rewrite number_snoc.
  pose proof (Z.div_mod n base ltac:(lia)) as Hdm. pose proof (Z.div_pos n base ltac:(lia) ltac:(lia)).
  assert (n / base ≤ n / 2) by (apply Z.div_le_compat_l; lia).
  destruct (n / base =? 0) eqn:E; zbool; [simpl; lia|]. rewrite IH; [lia| |by left]. split; [done|]. dlia.
Qed.
Lemma digits_low_length fuel n base : (length (digits_low fuel n base) ≤ fuel)%nat.
Proof. revert n. induction fuel as [|fuel IH]; intros n; simpl; [done|]. destruct (_ =? 0); simpl; [lia|]. specialize (IH (n / base)). lia. Qed.

Lemma digits_low_pos fuel n base : (0 < length (digits_low (S fuel) n base))%nat.
Proof. cbn [digits_low length]. lia. Qed.

Lemma to_x_loop_spec fuel buf n base m :
  2 ≤ base ≤ 36 →
  to_x_loop fuel buf n base m =
    (buf + Z.of_nat (length (digits_low fuel n base)), write_bytes buf (digit_char <$> digits_low fuel n base) m).
Proof.
  intros Hb. revert buf n m. induction fuel as [|fuel IH]; intros buf n m; simpl; [f_equal; lia|].
  pose proof (Z.mod_pos_bound n base ltac:(lia)) as Hd.
  assert (u8 (48 + n mod base + (if 9 <? n mod base then 97 - 48 - 10 else 0)) = digit_char (n mod base)) as ->.
  { unfold digit_char. destruct (9 <? n mod base) eqn:E, (n mod base <? 10) eqn:E2; zbool; try lia; rewrite u8_id; lia. }
  destruct (n / base =? 0); [done|]. rewrite IH. f_equal. simpl. lia.
Qed.
Lemma pad_zeros_spec n e m : pad_zeros n e m = (e + Z.of_nat n, write_bytes e (replicate n 48) m).
Proof. revert e m. induction n as [|n IH]; intros e m; simpl; [f_equal; lia|]. rewrite IH. f_equal. lia. Qed.

Lemma write_bytes_snoc a l y m : write_bytes a (l ++ [y]) m = <[a + Z.of_nat (length l) := y]> (write_bytes a l m).
Proof. by rewrite write_bytes_app. Qed.
Lemma reverse_loop_spec fuel start l m :
  (length l ≤ 2 * fuel)%nat →
  reverse_loop fuel start (start + Z.of_nat (length l) - 1) (write_bytes start l m) = write_bytes start (rev l) m.
Proof.
  revert start l m. induction fuel as [|fuel IH]; intros start l m Hf; [by destruct l; [|simpl in Hf; lia]|].
  destruct l as [|x l]; [simpl; by rewrite (proj2 (Z.ltb_ge _ _)) by lia|].
  destruct l as [|y mid _] using rev_ind; [simpl; by rewrite (proj2 (Z.ltb_ge _ _)) by lia|].
  cbn [length] in *. rewrite length_app in *. cbn [length] in *. set (e := start + _ - 1).
  assert (He : e = start + 1 + Z.of_nat (length mid)) by lia. cbn [reverse_loop]. rewrite (proj2 (Z.ltb_lt start e)) by lia.
  assert (HW : write_bytes start (x :: mid ++ [y]) m = <[e := y]> (<[start := x]> (write_bytes (start + 1) mid m))).
  { cbn [write_bytes]. rewrite write_bytes_snoc, <-He. f_equal. apply write_bytes_insert. lia. }
  rewrite HW, lookup_total_insert_eq, (lookup_total_insert_ne _ e start), lookup_total_insert_eq by lia.
  rewrite insert_insert_eq, (insert_insert_ne _ start e), insert_insert_eq by lia.
  assert (<[e:=x]> (<[start:=y]> (write_bytes (start + 1) mid m)) = write_bytes (start + 1) mid (<[e := x]> (<[start := y]> m))) as ->.
  { rewrite write_bytes_insert, write_bytes_insert by lia. done. }
  replace (e - 1) with (start + 1 + Z.of_nat (length mid) - 1) by lia. rewrite IH by lia. cbn [rev].
  rewrite rev_unit. cbn [app write_bytes]. rewrite write_bytes_snoc, length_rev, <-He. apply write_bytes_insert. rewrite length_rev. lia.
Qed.

Lemma fmap_rev_list {A B} (f : A → B) l : f <$> rev l = rev (f <$> l).
Proof. induction l as [|x l IH]; [done|]. simpl. by rewrite fmap_app, IH. Qed.
Lemma rev_replicate {A} k (x : A) : rev (replicate k x) = replicate k x.
Proof. induction k as [|k IH]; [done|]. simpl. rewrite IH. symmetry. apply replicate_S_end. Qed.

(** Digits padded with zeros in front to the length [minlen]. *)
Definition digit_text (n base minlen : Z) : list Z :=
  let ds := rev (digits_low 32 n base) in replicate (Z.to_nat (minlen - Z.of_nat (length ds))) 0 ++ ds.

Lemma to_x_spec buf n base minlen m :
  2 ≤ base ≤ 36 →
  let l := digit_char <$> digit_text n base minlen in
  _to_x buf n base minlen m = (Z.of_nat (length l), write_bytes buf (l ++ [0]) m).
Proof.
  intros Hb l. unfold _to_x, _reverse_and_pad. rewrite to_x_loop_spec by done. set (ds := digits_low 32 n base).
  rewrite pad_zeros_spec. set (k := Z.to_nat _). set (r := (digit_char <$> ds) ++ replicate k 48).
  assert (Hl : l = rev r).
  { unfold l, r, digit_text. fold ds. rewrite length_rev, fmap_app, rev_app_distr, fmap_replicate.
    replace (minlen - Z.of_nat (length ds)) with (minlen - (buf + Z.of_nat (length ds) - buf)) by lia. fold k. change (digit_char 0) with 48.
    by rewrite fmap_rev_list, rev_replicate. }
  assert (Hlen : length r = (length ds + k)%nat) by (unfold r; by rewrite length_app, length_fmap, length_replicate).
  assert (Hw : write_bytes (buf + Z.of_nat (length ds)) (replicate k 48) (write_bytes buf (digit_char <$> ds) m) = write_bytes buf r m)
    by (unfold r; by rewrite write_bytes_app, length_fmap).
  rewrite Hw, Hl, length_rev, Hlen. f_equal; [lia|].
  replace (<[buf + Z.of_nat (length ds) + Z.of_nat k := 0]> (write_bytes buf r m)) with (write_bytes buf r (<[buf + Z.of_nat (length r) := 0]> m))
    by (rewrite Hlen, write_bytes_insert by lia; f_equal; lia).
  replace (buf + Z.of_nat (length ds) + Z.of_nat k - 1) with (buf + Z.of_nat (length r) - 1) by lia.
  rewrite reverse_loop_spec by lia. rewrite write_bytes_snoc, length_rev. apply write_bytes_insert. rewrite length_rev. lia.
Qed.

Lemma digit_text_range n base minlen : 2 ≤ base → Forall (λ d, 0 ≤ d < base) (digit_text n base minlen).
Proof.
  intros Hb. apply Forall_app_2; [apply Forall_replicate; lia|]. apply Forall_rev, digits_low_range. done.
Qed.
Lemma digit_text_value n base minlen : 2 ≤ base → 0 ≤ n < 4294967296 → number base 0 (digit_text n base minlen) = n.
Proof.
  intros Hb Hn. unfold digit_text, number. rewrite foldl_app. set (k := Z.to_nat _).
  assert (foldl (λ v d, v * base + d) 0 (replicate k 0) = 0) as -> by (induction k as [|k IH]; simpl; [done|by rewrite Z.add_0_r]).
  apply digits_low_value; [done|done|]. right. lia.
Qed.
Lemma digit_text_length n base minlen : (0 < length (digit_text n base minlen) ≤ Nat.max 32 (Z.to_nat minlen))%nat.
Proof.
  unfold digit_text. rewrite length_app, length_replicate, length_rev. pose proof (digits_low_length 32 n base).
  pose proof (digits_low_pos 31 n base). lia.
Qed.

(** ** Reading back what was printed *)

Lemma char_at_byte m a c : m !!! a = c → 0 ≤ c < 128 → char_at m a = c.
Proof. intros <- Hc. unfold char_at, s8. dlia. Qed.
Lemma chars_write a l m : Forall (λ c, 0 ≤ c < 128) l → chars (write_bytes a l m) a l.
Proof.
  revert a m. induction l as [|c l IH]; intros a m Hl; simpl; [done|]. apply Forall_cons in Hl as [Hc Hl].
  split; [|by apply IH]. apply char_at_byte; [|done]. rewrite write_bytes_other by lia. apply lookup_total_insert_eq.
Qed.
Lemma digit_char_range d : 0 ≤ d < 36 → 48 ≤ digit_char d < 123.
Proof. intros Hd. unfold digit_char. destruct (d <? 10) eqn:E; zbool; lia. Qed.
Lemma digit_of_char d : 0 ≤ d < 36 → digit_of (digit_char d) = Some d ∧ digit_of (toupper (digit_char d)) = Some d.
Proof.
  intros Hd. assert (Hall : forallb (λ d, bool_decide (digit_of (digit_char d) = Some d ∧ digit_of (toupper (digit_char d)) = Some d)) (seqZ 0 36) = true)
    by by vm_compute.
  rewrite forallb_forall in Hall. specialize (Hall d). rewrite <-list_elem_of_In, elem_of_seqZ in Hall.
  specialize (Hall ltac:(lia)). by apply bool_decide_eq_true in Hall.
Qed.
Lemma digits_chars base ds : base ≤ 36 → Forall (λ d, 0 ≤ d < base) ds → digits base (digit_char <$> ds) ds.
Proof.
  intros Hb. induction 1 as [|d ds Hd _ IH]; constructor; [|done]. split; [apply digit_of_char; lia|done].
Qed.
Lemma no_digit_end base : no_digit base 0.
Proof. done. Qed.

(** A printed number with what stands in front of it, read again. *)
Lemma printed_number m buf sgn n base minlen :
  2 ≤ base ≤ 36 → 0 ≤ n < 4294967296 → sgn ∈ [[]; [32]; [43]; [45]] →
  let cs := digit_char <$> digit_text n base minlen in
  let v := if bool_decide (sgn = [45]) then - n else n in
  chars m buf (sgn ++ cs ++ [0]) → ∀ fuel, (length (sgn ++ cs) < fuel)%nat →
  strtol fuel buf base m =
    Some (LONG_MIN `max` (v `min` LONG_MAX), (v <? LONG_MIN) || (LONG_MAX <? v), buf + Z.of_nat (length (sgn ++ cs))) ∧
  strtoul fuel buf base m = Some (u32 v, false, buf + Z.of_nat (length (sgn ++ cs))).
Proof.
  intros Hb Hn Hs cs v Hm fuel Hf. rewrite length_app in Hf.
  assert (Hds : digits base cs (digit_text n base minlen)) by (apply digits_chars; [lia|apply digit_text_range; lia]).
  assert (Hcs : cs ≠ []) by (intros E; pose proof (digit_text_length n base minlen) as Hl; rewrite <-(length_fmap digit_char) in Hl; fold cs in Hl; rewrite E in Hl; simpl in Hl; lia).
  assert (Hpre : prefixed base base [] cs 0).
  { split; [by rewrite (proj2 (Z.eqb_neq _ _)) by lia|]. intros (_ & _ & [?|?]); done. }
  assert (∃ ws sgn', sgn = ws ++ sgn' ∧ Forall (λ c, isspace c = true) ws ∧ sgn' ∈ [[]; [43]; [45]] ∧ bool_decide (sgn' = [45]) = bool_decide (sgn = [45]))
    as (ws & sgn' & -> & Hws & Hsgn & Hneg).
  { rewrite !elem_of_cons in Hs. destruct Hs as [->|[->|[->|[->|Hs]]]]; [|..|by apply not_elem_of_nil in Hs].
    - exists [], []. split_and!; [done|constructor|rewrite !elem_of_cons; tauto|done].
    - exists [32], []. split_and!; [done|by repeat constructor|rewrite !elem_of_cons; tauto|done].
    - exists [], [43]. split_and!; [done|constructor|rewrite !elem_of_cons; tauto|done].
    - exists [], [45]. split_and!; [done|constructor|rewrite !elem_of_cons; tauto|done]. }
  rewrite length_app in Hf. rewrite <-app_assoc in Hm.
  destruct (strtol_spec fuel buf base base m ws sgn' [] cs (digit_text n base minlen) 0) as [H1 H2]; try done; [lia..|].
  rewrite digit_text_value in H1, H2 by lia. rewrite Hneg, app_assoc in H1, H2. fold v in H1, H2. simpl app in H1, H2. rewrite H1, H2. split; [done|].
  by rewrite (proj2 (Z.ltb_ge ULONG_MAX n)) by (unfold ULONG_MAX; lia).
Qed.

Lemma to_dec_spec buf v (fplus fspace : bool) precision m :
  -2147483648 ≤ v ≤ 2147483647 →
  let sgn := if v <? 0 then [45] else if fplus then [43] else if fspace then [32] else [] in
  let cs := digit_char <$> digit_text (Z.abs v) 10 precision in
  _to_dec buf v fplus fspace precision m = (Z.of_nat (length (sgn ++ cs)), write_bytes buf (sgn ++ cs ++ [0]) m).
Proof.
  intros Hv sgn cs. unfold _to_dec, _to_udec. unfold sgn. destruct (v <? 0) eqn:E; zbool.
  - assert (u32 (if u32 v =? 2147483648 then v else s32 (- v)) = Z.abs v) as ->.
    { destruct (u32 v =? 2147483648) eqn:E2; zbool; [unfold u32 in *; dlia|]. assert (v ≠ -2147483648) by (intros ->; done).
      rewrite s32_id, u32_id by lia. lia. }
    rewrite to_x_spec by lia. fold cs. f_equal. rewrite length_app. simpl. lia.
  - assert (Hu : u32 v = Z.abs v) by (rewrite u32_id; lia).
    destruct fplus; [|destruct fspace]; rewrite Hu, to_x_spec by lia; fold cs; f_equal; rewrite ?length_app; simpl; lia.
Qed.

Lemma uc_spec fuel a l m :
  Forall (λ c, 0 < c < 128) l → (length l < fuel)%nat →
  _uc fuel a (write_bytes a (l ++ [0]) m) = write_bytes a ((toupper <$> l) ++ [0]) m.
Proof.
  intros Hl. revert fuel a m. induction Hl as [|c l Hc _ IH]; intros [|fuel] a m Hf; simpl in *; try lia.
  - by rewrite (char_at_byte _ _ 0) by (by rewrite ?lookup_total_insert_eq).
  - assert (Hat : char_at (write_bytes (a + 1) (l ++ [0]) (<[a:=c]> m)) a = c).
    { apply char_at_byte; [|lia]. rewrite write_bytes_other by lia. apply lookup_total_insert_eq. }
    rewrite Hat, (proj2 (Z.eqb_neq c 0)) by lia. rewrite <-(IH fuel) by lia. f_equal.
    unfold toupper. destruct ((97 <=? c) && (c <=? 122)) eqn:E; [|done]. apply andb_true_iff in E as [E1 E2]. zbool.
    rewrite <-write_bytes_insert by lia. rewrite insert_insert_eq, u8_id by lia. f_equal.
Qed.

Lemma digit_text_chars n base minlen : 2 ≤ base ≤ 36 → Forall (λ c, 0 < c < 128) (digit_char <$> digit_text n base minlen).
Proof.
  intros Hb. apply Forall_fmap. eapply Forall_impl; [apply digit_text_range; lia|]. intros d Hd. simpl in *.
  pose proof (digit_char_range d ltac:(lia)). lia.
Qed.
(** [toupper] or nothing. *)
Definition upper (prefix : Z) (c : Z) : Z := if prefix =? 88 then toupper c else c.
Lemma to_hex_spec buf v (alt : bool) precision prefix m :
  let l := (if alt then [48; 120] else []) ++ (digit_char <$> digit_text v 16 precision) in
  _to_hex buf v alt precision prefix m = (Z.of_nat (length l), write_bytes buf ((upper prefix <$> l) ++ [0]) m).
Proof.
  intros l. unfold _to_hex. set (cs := digit_char <$> digit_text v 16 precision) in *.
  assert (Hl : Forall (λ c, 0 < c < 128) l).
  { unfold l. apply Forall_app_2; [destruct alt; repeat constructor; lia|apply digit_text_chars; lia]. }
  assert (Hrun : ∀ m0 b0, write_bytes b0 (cs ++ [0]) m0 = write_bytes buf (l ++ [0]) m → b0 = buf + (if alt then 2 else 0) →
    (let '(len, m) := _to_x b0 v 16 precision m0 in
     let m := if prefix =? 88 then _uc (Z.to_nat (len + (b0 - buf) + 1)) buf m else m in (len + (b0 - buf), m)) =
    (Z.of_nat (length l), write_bytes buf ((upper prefix <$> l) ++ [0]) m)).
  { intros m0 b0 Hm0 ->. rewrite to_x_spec by lia. fold cs. rewrite Hm0.
    assert (Hlen : Z.of_nat (length cs) + (buf + (if alt then 2 else 0) - buf) = Z.of_nat (length l)).
    { unfold l. rewrite length_app. destruct alt; simpl; lia. }
    rewrite Hlen. f_equal. unfold upper. destruct (prefix =? 88); [|by rewrite list_fmap_id]. apply uc_spec; [done|lia]. }
  destruct alt; apply Hrun; try lia; [|done]. unfold l. cbn [app write_bytes]. f_equal; lia.
Qed.

Lemma digits_upper prefix ds : Forall (λ d, 0 ≤ d < 16) ds → digits 16 (upper prefix <$> (digit_char <$> ds)) ds.
Proof.
  induction 1 as [|d ds Hd _ IH]; constructor; [|done]. destruct (digit_of_char d ltac:(lia)) as [H1 H2].
  split; [|done]. unfold upper. by destruct (prefix =? 88).
Qed.

(** C33: what is printed can be read again: the text [_to_dec] writes for a 32-bit number,
    with any flags and precision, makes [strtol] return the number and stop at its
    end, and the text of [_to_hex], in the prefixed and the plain form and in upper and lower case,
    makes [strtoul] return the number. *)
Theorem printed_numbers_read_back buf v u (fplus fspace alt : bool) precision prefix m fuel :
  -2147483648 ≤ v ≤ 2147483647 → 0 ≤ u < 4294967296 → (Z.to_nat precision + 40 < fuel)%nat →
  (let '(len, m') := _to_dec buf v fplus fspace precision m in strtol fuel buf 10 m' = Some (v, false, buf + len)) ∧
  (let '(len, m') := _to_hex buf u alt precision prefix m in strtoul fuel buf 16 m' = Some (u, false, buf + len)).
Proof.
  intros Hv Hu Hf. split.
  - rewrite to_dec_spec by done. set (sgn := if v <? 0 then _ else _). set (cs := digit_char <$> _).
    pose proof (digit_text_length (Z.abs v) 10 precision) as Hl.
    destruct (printed_number (write_bytes buf (sgn ++ cs ++ [0]) m) buf sgn (Z.abs v) 10 precision) with (fuel := fuel) as [H1 _];
      [lia|lia| |apply chars_write|rewrite length_app; unfold cs; rewrite length_fmap; unfold sgn; repeat case_match; simpl; lia|].
    + unfold sgn. rewrite !elem_of_cons. destruct (v <? 0), fplus, fspace; tauto.
    + repeat apply Forall_app_2; [|eapply Forall_impl; [apply digit_text_chars; lia|simpl; lia]|repeat constructor; lia].
      unfold sgn. destruct (v <? 0), fplus, fspace; repeat constructor; lia.
    + fold cs in H1. rewrite H1. clear H1. assert (Hx : (if bool_decide (sgn = [45]) then - Z.abs v else Z.abs v) = v).
      { unfold sgn. destruct (v <? 0) eqn:E; zbool; [rewrite bool_decide_true by done; lia|].
        rewrite bool_decide_false by (destruct fplus, fspace; done). lia. }
      rewrite Hx. unfold LONG_MIN, LONG_MAX. rewrite Z.max_r, Z.min_l by lia.
      by rewrite (proj2 (Z.ltb_ge v _)), (proj2 (Z.ltb_ge _ v)) by lia.
  - rewrite to_hex_spec. set (ds := digit_text u 16 precision). pose proof (digit_text_length u 16 precision) as Hl. fold ds in Hl.
    set (pre := if alt then [48; 120] else []). set (cs := upper prefix <$> (digit_char <$> ds)).
    destruct (strtol_spec fuel buf 16 16 (write_bytes buf ((upper prefix <$> pre ++ (digit_char <$> ds)) ++ [0]) m) [] []
      (upper prefix <$> pre) cs ds 0) as [_ H2].
    + rewrite fmap_app, <-app_assoc. rewrite !app_nil_l. apply chars_write. repeat apply Forall_app_2; [| |repeat constructor; lia].
      * apply Forall_fmap. unfold pre. destruct alt; repeat constructor; unfold upper; simpl; destruct (prefix =? 88); done.
      * unfold cs. apply Forall_fmap. eapply Forall_impl; [apply digit_text_chars; lia|]. intros c Hc. simpl in Hc. unfold upper, toupper. simpl.
        destruct (prefix =? 88); [|lia]. destruct ((97 <=? c) && (c <=? 122)) eqn:E; [|lia]. apply andb_true_iff in E as [E1 E2]. zbool. lia.
    + constructor.
    + rewrite elem_of_cons. by left.
    + unfold pre. destruct alt.
      * split_and!; [|done|by right]. exists (upper prefix 120). split; [unfold upper; simpl; by destruct (prefix =? 88)|].
        unfold is_x, upper. destruct (prefix =? 88); [by right|by left].
      * split; [done|]. intros (_ & _ & [?|?]); done.
    + lia.
    + apply digits_upper, digit_text_range. lia.
    + unfold cs. destruct ds; [simpl in Hl; lia|done].
    + done.
    + simpl. lia.
    + unfold cs. rewrite !length_fmap. lia.
    + rewrite H2. unfold ds. rewrite digit_text_value by lia. unfold ULONG_MAX. rewrite (proj2 (Z.ltb_ge _ u)) by lia. simpl.
      rewrite u32_id by lia. do 3 f_equal. unfold cs, ds. rewrite !length_app, !length_fmap. done.
Qed.
Lemma printed_numbers_read_back_witness :
  let '(len, m') := _to_dec 100 (- 2147483648) false false 12 ∅ in strtol 60 100 10 m' = Some (- 2147483648, false, 100 + len).
Proof.
  destruct (printed_numbers_read_back 100 (- 2147483648) 0 false false false 12 120 ∅ 60) as [H _];
    [lia|lia|change (Z.to_nat 12) with 12%nat; lia|exact H].
Defined.

(** ** Division by five *)

(** One round takes a multiple of five times the shifted quotient off the remainder. *)
Lemma ldiv5_round_spec shift rem quot :
  0 ≤ shift → 0 ≤ rem < 18446744073709551616 → Z.shiftr rem shift < 4294967296 → 0 ≤ quot → quot + rem < 18446744073709551616 →
  ∃ q, ldiv5_round shift (rem, quot) = (rem - 5 * q, quot + q) ∧ 0 ≤ q ∧ 0 ≤ rem - 5 * q < 5 * 2 ^ shift.
Proof.
  intros Hs Hr Hhi Hq Hqr. assert (Hp : 0 < 2 ^ shift) by lia. exists (Z.shiftr rem shift / 5 * 2 ^ shift).
  assert (Hb : 0 ≤ Z.shiftr rem shift) by (apply Z.shiftr_nonneg; lia).
  assert (Hq0 : 0 ≤ Z.shiftr rem shift / 5 * 2 ^ shift ∧ 0 ≤ rem - 5 * (Z.shiftr rem shift / 5 * 2 ^ shift) < 5 * 2 ^ shift).
  { rewrite Z.shiftr_div_pow2 in * by done. generalize dependent (2 ^ shift). intros p. intros.
    pose proof (Z.div_mod rem p ltac:(lia)) as H1. pose proof (Z.mod_pos_bound rem p ltac:(lia)).
    set (h := rem / p) in *. pose proof (Z.div_mod h 5 ltac:(lia)) as H2. pose proof (Z.mod_pos_bound h 5 ltac:(lia)).
    set (k := h / 5) in *. assert (0 ≤ k) by (apply Z.div_pos; lia). nia. }
  split; [|lia]. unfold ldiv5_round. rewrite (u32_id (Z.shiftr rem shift)), Z.shiftl_mul_pow2 by lia.
  set (q := Z.shiftr rem shift / 5 * 2 ^ shift) in *. rewrite (u64_id q) by lia.
  rewrite (u64_id (q * 5)), (u64_id (rem - _)), u64_id by lia. f_equal. lia.
Qed.

Lemma ldiv5_rounds v : 0 ≤ v < 18446744073709551614 → _ldiv5 v = (v + 2) / 5.
Proof.
  intros Hv. unfold _ldiv5. rewrite (u64_id (v + 2)) by lia.
  destruct (ldiv5_round_spec 32 (v + 2) 0) as (q1 & -> & H1 & H2); [lia..| |lia|lia|].
  { rewrite Z.shiftr_div_pow2 by lia. apply Z.div_lt_upper_bound; [lia|]. change (2 ^ 32 * 4294967296) with 18446744073709551616. lia. }
  change (2 ^ 32) with 4294967296 in H2.
  destruct (ldiv5_round_spec 3 (v + 2 - 5 * q1) (0 + q1)) as (q2 & -> & H3 & H4); [lia..| |lia|lia|].
  { rewrite Z.shiftr_div_pow2 by lia. apply Z.div_lt_upper_bound; lia. }
  change (2 ^ 3) with 8 in H4.
  destruct (ldiv5_round_spec 0 (v + 2 - 5 * q1 - 5 * q2) (0 + q1 + q2)) as (q3 & -> & H5 & H6); [lia..| |lia|lia|].
  { rewrite Z.shiftr_0_r. lia. }
  simpl snd. rewrite Z.pow_0_r in H6. apply Z.div_unique with (v + 2 - 5 * q1 - 5 * q2 - 5 * q3); lia.
Qed.

(** [_ldiv5] divides every 64-bit number by five, rounding to the nearest: the three partial
    divisions of 32-bit numbers lose nothing, which the code's comment reports as tested on a sample.
    Only for the last two numbers the 2 added for rounding wraps around, and the result is 0. *)
Theorem ldiv5_correct v :
  0 ≤ v < 18446744073709551616 → _ldiv5 v = if v <? 18446744073709551614 then (v + 2) / 5 else 0.
Proof.
  intros Hv. destruct (v <? 18446744073709551614) eqn:E; zbool; [apply ldiv5_rounds; lia|].
  assert (v = 18446744073709551614 ∨ v = 18446744073709551615) as [-> | ->] by lia; done.
Qed.
Lemma ldiv5_correct_witness : _ldiv5 18446744073709551613 = 3689348814741910323.
Proof. etrans; [apply (ldiv5_correct 18446744073709551613); lia|reflexivity]. Defined.
