(* ===== verification/FloatProps.v ===== *)
(** * The conversion of doubles ([_to_float] of [stdout/prf.c])

    The loops that turn a power of two into a power of ten end, for every
    double, and what is written is the text of a number: the scaled fraction
    stays normalised, below the two values at which [_ldiv5] wraps around, and the
    digits are taken from a fraction below 2^60, so that ten times it does not overflow. *)
From stdpp Require Import gmap list.
From S2P Require Import Prelude Mem Ring Libc Strtol Prf.
Local Open Scope Z_scope.

Definition two63 : Z := 9223372036854775808.
Definition two64 : Z := 18446744073709551616.
Definition two60 : Z := 1152921504606846976.

(** A normalised fraction that [_ldiv5] divides. *)
Definition normal (f : Z) : Prop := two63 ≤ f < two64 - 2.

Lemma shiftr32 f : Z.shiftr f 32 = f / 4294967296.
Proof. by rewrite Z.shiftr_div_pow2 by lia. Qed.
Lemma rlrshift_spec f : 0 ≤ f < two64 → _rlrshift f = (f + 1) / 2.
Proof.
  unfold two64. intros Hf. unfold _rlrshift.
  replace (Z.land f 1) with (f mod 2) by (symmetry; apply (Z.land_ones f 1); lia). rewrite Z.shiftr_div_pow2 by lia. change (2 ^ 1) with 2. rewrite u64_id; dlia.
Qed.

(** ** Scaling *)

Lemma shift_up_step fuel f e :
  0 ≤ f < two64 → shift_up (S fuel) f e = if f <? two63 then shift_up fuel (f * 2) (e - 1) else Some (f, e).
Proof.
  unfold two63, two64. intros Hf. cbn [shift_up]. change (MAXFP1 / 2) with 2147483647. rewrite shiftr32.
  destruct (_ <=? 2147483647) eqn:E1, (f <? _) eqn:E2; zbool; try done; try dlia. rewrite Z.shiftl_mul_pow2, u64_id by lia. done.
Qed.
Lemma shift_up_spec fuel f e :
  0 < f < two63 * 2 → two64 ≤ f * 2 ^ Z.of_nat fuel →
  ∃ k, shift_up fuel f e = Some (f * 2 ^ Z.of_nat k, e - Z.of_nat k) ∧ two63 ≤ f * 2 ^ Z.of_nat k < two64.
Proof.
  revert f e. induction fuel as [|fuel IH]; intros f e Hf Hfuel; [simpl in Hfuel; unfold two63, two64 in *; lia|].
  rewrite shift_up_step by (unfold two63, two64 in *; lia). destruct (f <? two63) eqn:E; zbool.
  - rewrite Nat2Z.inj_succ, Z.pow_succ_r in Hfuel by lia. destruct (IH (f * 2) (e - 1)) as (k & -> & Hk); [lia..|].
    exists (S k). rewrite Nat2Z.inj_succ, Z.pow_succ_r by lia. replace (f * (2 * 2 ^ Z.of_nat k)) with (f * 2 * 2 ^ Z.of_nat k) by ring.
    split; [do 2 f_equal; lia|done].
  - exists 0%nat. simpl. rewrite Z.mul_1_r, Z.sub_0_r. split; [done|]. unfold two63, two64 in *. lia.
Qed.

Lemma shift_down_step fuel f e :
  0 ≤ f < two64 → shift_down (S fuel) f e = if 858993459 * 4294967296 <=? f then shift_down fuel ((f + 1) / 2) (e + 1) else Some (f, e).
Proof.
  intros Hf. cbn [shift_down]. change (MAXFP1 / 5) with 858993459. rewrite shiftr32, rlrshift_spec by done.
  destruct (858993459 <=? _) eqn:E1, (858993459 * 4294967296 <=? f) eqn:E2; zbool; try done; dlia.
Qed.
(** A normalised fraction goes down two or three bits, and times five it is normalised again, or one bit below. *)
Lemma small_round f e :
  normal f →
  ∃ f' k, ('(f, e) ← shift_down 65 f e; shift_up 65 (u64 (f * 5)) (e + 1)) = Some (f', e + k) ∧ normal f' ∧ 3 ≤ k ≤ 4.
Proof.
  unfold normal, two63, two64. intros Hf.
  rewrite (shift_down_step 64) by (unfold two64; lia). rewrite (proj2 (Z.leb_le _ f)) by lia.
  rewrite (shift_down_step 63) by (unfold two64; dlia). rewrite (proj2 (Z.leb_le _ ((f + 1) / 2))) by dlia.
  set (f2 := ((f + 1) / 2 + 1) / 2). assert (Hf2 : 2305843009213693952 ≤ f2 ≤ 4611686018427387904) by (unfold f2; dlia). clearbody f2.
  assert (Hup : ∀ g e, 9223372036854775808 - 4294967296 ≤ g < 18446744073709551616 - 2 → g mod 5 = 0 →
    ∃ f' j, shift_up 65 (u64 g) e = Some (f', e - j) ∧ normal f' ∧ 0 ≤ j ≤ 1 ∧ (9223372036854775808 ≤ g → j = 0)).
  { intros g e' Hg Hg5. rewrite u64_id, (shift_up_step 64) by (unfold two64; lia). unfold normal. destruct (g <? two63) eqn:E; unfold two63, two64 in *; zbool.
    - rewrite (shift_up_step 63) by (unfold two64; lia). rewrite (proj2 (Z.ltb_ge _ _)) by (unfold two63; lia). eexists _, 1. split; [done|]. dlia.
    - eexists _, 0. rewrite Z.sub_0_r. split; [done|]. lia. }
  rewrite (shift_down_step 62) by (unfold two64; lia).
  destruct (858993459 * 4294967296 <=? f2) eqn:E; zbool; cbn [mbind option_bind].
  - rewrite (shift_down_step 61) by (unfold two64; dlia). rewrite (proj2 (Z.leb_gt _ _)) by dlia. cbn [mbind option_bind].
    destruct (Hup ((f2 + 1) / 2 * 5) (e + 1 + 1 + 1 + 1)) as (f' & j & -> & H1 & H2 & _); [dlia|apply Z.mod_mul; lia|].
    exists f', (4 - j). unfold normal, two63, two64 in H1. split; [do 2 f_equal|]; lia.
  - destruct (Hup (f2 * 5) (e + 1 + 1 + 1)) as (f' & j & -> & H1 & H2 & H3); [lia|apply Z.mod_mul; lia|].
    exists f', 3. unfold normal, two63, two64 in H1. split; [do 2 f_equal|]; lia.
Qed.

Lemma scale_small_spec fuel f e d :
  normal f → (0 < fuel)%nat → - 3 * Z.of_nat fuel < e →
  ∃ f' e' d', scale_small fuel f e d = Some (f', e', d') ∧ normal f' ∧ -3 < e' ≤ Z.max e 1 ∧ 0 ≤ 3 * (d - d') ≤ e' - e.
Proof.
  revert f e d. induction fuel as [|fuel IH]; intros f e d Hf H0 Hfuel; [lia|]. cbn [scale_small].
  destruct (e <=? -3) eqn:E; zbool; [|eexists _, _, _; split; [done|]; split; [done|lia]].
  destruct (small_round f e Hf) as (f' & k & Hr & Hf' & Hk). destruct (shift_down 65 f e) as [[g e1]|]; [|done].
  cbn [mbind option_bind] in Hr |- *. rewrite Hr. cbn [mbind option_bind].
  destruct (IH f' (e + k) (d - 1)) as (f2 & e2 & d2 & -> & Hf2 & He2 & Hd2); [done|lia..|]. eexists _, _, _. split; [done|]. split; [done|lia].
Qed.

(** A fifth of a normalised fraction goes up two or three bits. *)
Lemma large_round f e :
  normal f → ∃ f' k, shift_up 65 (_ldiv5 f) e = Some (f', e - k) ∧ normal f' ∧ 2 ≤ k ≤ 3.
Proof.
  unfold normal, two63, two64. intros Hf. rewrite ldiv5_rounds by lia. set (v := (f + 2) / 5).
  assert (Hv : 1844674407370955162 ≤ v < 3689348814741910324) by (unfold v; dlia). clearbody v.
  rewrite (shift_up_step 64) by (unfold two64; lia). rewrite (proj2 (Z.ltb_lt _ _)) by (unfold two63; lia).
  rewrite (shift_up_step 63) by (unfold two64; lia). rewrite (proj2 (Z.ltb_lt _ _)) by (unfold two63; lia).
  rewrite (shift_up_step 62) by (unfold two64; lia). destruct (_ <? two63) eqn:E; unfold two63 in *; zbool.
  - rewrite (shift_up_step 61) by (unfold two64; lia). rewrite (proj2 (Z.ltb_ge _ _)) by (unfold two63; lia).
    eexists _, 3. split; [do 2 f_equal; lia|lia].
  - eexists _, 2. split; [do 2 f_equal; lia|lia].
Qed.
Lemma scale_large_spec fuel f e d :
  normal f → (0 < fuel)%nat → e ≤ 3 * Z.of_nat fuel - 3 →
  ∃ f' e' d', scale_large fuel f e d = Some (f', e', d') ∧ normal f' ∧ Z.min e (-3) ≤ e' ≤ 0 ∧ 0 ≤ 3 * (d' - d) ≤ e - e'.
Proof.
  revert f e d. induction fuel as [|fuel IH]; intros f e d Hf H0 Hfuel; [lia|]. cbn [scale_large].
  destruct (0 <? e) eqn:E; zbool; [|eexists _, _, _; split; [done|]; split; [done|lia]].
  destruct (large_round f (e - 1) Hf) as (f' & k & -> & Hf' & Hk). cbn [mbind option_bind].
  destruct (IH f' (e - 1 - k) (d + 1)) as (f2 & e2 & d2 & -> & Hf2 & He2 & Hd2); [done|lia..|]. eexists _, _, _. split; [done|]. split; [done|lia].
Qed.

(** ** Digits *)

Lemma rlrshift_le f b : 0 ≤ f ≤ 2 * b → f < two64 → 0 ≤ _rlrshift f ≤ b.
Proof. intros Hf H. rewrite rlrshift_spec by lia. dlia. Qed.
Lemma align_digit_spec f e : 0 ≤ f < two64 - 2 → e ≤ 0 → 0 ≤ align_digit f e ≤ two60.
Proof.
  intros Hf He. unfold align_digit. replace (Z.to_nat (4 - e)) with (Z.to_nat (- e) + 4)%nat by lia. rewrite Nat.iter_add.
  assert (H4 : 0 ≤ Nat.iter 4 _rlrshift f ≤ two60).
  { change (Nat.iter 4 _rlrshift f) with (_rlrshift (_rlrshift (_rlrshift (_rlrshift f)))). unfold two64, two60 in *.
    pose proof (rlrshift_le f two63 ltac:(unfold two63; lia) ltac:(unfold two64; lia)) as H1. unfold two63 in H1.
    pose proof (rlrshift_le _ 4611686018427387904 ltac:(split; [apply H1|lia]) ltac:(unfold two64; lia)) as H2.
    pose proof (rlrshift_le _ 2305843009213693952 ltac:(split; [apply H2|lia]) ltac:(unfold two64; lia)) as H3.
    apply rlrshift_le; unfold two64; lia. }
  generalize dependent (Nat.iter 4 _rlrshift f). intros g Hg. generalize (Z.to_nat (- e)). intros n.
  induction n as [|n IH]; [done|]. rewrite Nat.iter_succ. rewrite rlrshift_spec by (unfold two64, two60 in *; lia). unfold two60 in *. dlia.
Qed.
Lemma round_half_spec e : 0 ≤ round_half e ≤ 576460752303423488.
Proof.
  unfold round_half. induction (Z.to_nat e) as [|n IH]; [done|]. rewrite Nat.iter_succ. set (x := Nat.iter n _ _) in *. clearbody x.
  rewrite ldiv5_rounds by lia. rewrite rlrshift_spec by (unfold two64; dlia). dlia.
Qed.
(** Rounding may carry into a new digit, which is divided away. *)
Lemma high_nibble f : 0 ≤ f < two64 → Z.land (Z.shiftr f 32) 0xF0000000 = 0 → f < two60.
Proof.
  unfold two64, two60. intros Hf H. rewrite shiftr32 in H. set (x := f / 4294967296) in *. assert (Hx : 0 ≤ x < 4294967296) by (unfold x; dlia).
  assert (Hl : x = Z.land x (Z.lor (Z.ones 28) 0xF0000000)).
  { change (Z.lor (Z.ones 28) 0xF0000000) with (Z.ones 32). rewrite Z.land_ones by lia. by rewrite Z.mod_small by lia. }
  rewrite Z.land_lor_distr_r, H, Z.lor_0_r, Z.land_ones in Hl by lia. pose proof (Z.mod_pos_bound x (2 ^ 28) ltac:(lia)).
  change (2 ^ 28) with 268435456 in *. unfold x in *. dlia.
Qed.

(** The characters of a number, of an infinity and of a NaN. *)
Definition number_char (c : Z) : bool := (48 <=? c) && (c <=? 57) || existsb (Z.eqb c) [43; 45; 32; 46; 69; 101; 73; 78; 70; 97].
(** The text from [start] up to the end of what has been written; nothing is written in front of it. *)
Definition text_ok (start : Z) (m0 : gmap Z Z) (bm : Z * gmap Z Z) : Prop :=
  start ≤ bm.1 ∧ (∀ a, start ≤ a < bm.1 → number_char (bm.2 !!! a) = true) ∧ (∀ a, a < start → bm.2 !!! a = m0 !!! a).

Section Text.
  Context (start : Z) (m0 : gmap Z Z).

Lemma put_ok c bm : number_char (u8 c) = true → text_ok start m0 bm → text_ok start m0 (put c bm).
Proof.
  intros Hc (H1 & H2 & H3). unfold put, text_ok. cbn [fst snd]. split_and!; [lia|..].
  - intros a Ha. destruct (decide (a = bm.1)) as [->|Hne]; [by rewrite lookup_total_insert_eq|]. rewrite lookup_total_insert_ne by done. apply H2. lia.
  - intros a Ha. rewrite lookup_total_insert_ne by lia. by apply H3.
Qed.
Lemma digit_number_char d : 48 ≤ d ≤ 57 → number_char (u8 d) = true.
Proof. intros Hd. rewrite u8_id by lia. unfold number_char. by rewrite (proj2 (Z.leb_le 48 d)), (proj2 (Z.leb_le d 57)) by lia. Qed.
Lemma get_digit_spec fr n : 0 ≤ fr < two60 → let '(d, fr', n') := _get_digit fr n in 48 ≤ d ≤ 57 ∧ 0 ≤ fr' < two60.
Proof.
  unfold two60. intros Hf. unfold _get_digit. destruct (0 <? n); [|lia]. rewrite u64_id by lia.
  change 15 with (Z.ones 4). change 0x0FFFFFFFFFFFFFFF with (Z.ones 60). rewrite !Z.land_ones, Z.shiftr_div_pow2 by lia.
  change (2 ^ 60) with 1152921504606846976. change (2 ^ 4) with 16. dlia.
Qed.
Lemma put_digits_spec n fr dc bm :
  0 ≤ fr < two60 → text_ok start m0 bm →
  let '(fr', dc', bm') := put_digits n fr dc bm in 0 ≤ fr' < two60 ∧ text_ok start m0 bm'.
Proof.
  revert fr dc bm. induction n as [|n IH]; intros fr dc bm Hf Hb; cbn [put_digits]; [done|].
  pose proof (get_digit_spec fr dc Hf) as Hd. destruct (_get_digit fr dc) as [[d fr'] dc']. destruct Hd as [Hd Hf'].
  apply IH; [done|]. apply put_ok; [by apply digit_number_char|done].
Qed.
Lemma put_fraction_spec n decexp fr dc bm : 0 ≤ fr < two60 → text_ok start m0 bm → text_ok start m0 (put_fraction n decexp fr dc bm).
Proof.
  revert decexp fr dc bm. induction n as [|n IH]; intros decexp fr dc bm Hf Hb; cbn [put_fraction]; [done|].
  destruct (decexp <? 0); [apply IH; [done|by apply put_ok]|].
  pose proof (get_digit_spec fr dc Hf) as Hd. destruct (_get_digit fr dc) as [[d fr'] dc']. destruct Hd as [Hd Hf'].
  apply IH; [done|]. apply put_ok; [by apply digit_number_char|done].
Qed.
(** A decimal point has been written. *)
Definition has_point (bm : Z * gmap Z Z) : Prop := ∃ a, start ≤ a < bm.1 ∧ bm.2 !!! a = 46.
Lemma put_point bm : start ≤ bm.1 → has_point (put 46 bm).
Proof. intros H. exists bm.1. unfold put. cbn [fst snd]. rewrite lookup_total_insert_eq. split; [lia|done]. Qed.
Lemma put_has_point c bm : has_point bm → has_point (put c bm).
Proof. intros (a & Ha & E). exists a. unfold put. cbn [fst snd]. rewrite lookup_total_insert_ne by lia. split; [lia|done]. Qed.
Lemma put_digits_point n fr dc bm : has_point bm → has_point (put_digits n fr dc bm).2.
Proof.
  revert fr dc bm. induction n as [|n IH]; intros fr dc bm Hb; cbn [put_digits]; [done|]. destruct (_get_digit fr dc) as [[d fr'] dc']. by apply IH, put_has_point.
Qed.
Lemma put_fraction_point n decexp fr dc bm : has_point bm → has_point (put_fraction n decexp fr dc bm).
Proof.
  revert decexp fr dc bm. induction n as [|n IH]; intros decexp fr dc bm Hb; cbn [put_fraction]; [done|].
  destruct (decexp <? 0); [by apply IH, put_has_point|]. destruct (_get_digit fr dc) as [[d fr'] dc']. by apply IH, put_has_point.
Qed.
Lemma prune_ok bm : has_point bm → text_ok start m0 bm → text_ok start m0 (prune (Z.to_nat (bm.1 - start)) (bm.1 - 1) bm.2, bm.2).
Proof.
  intros (p & Hp & E46) (H1 & H2 & H3).
  assert (Hpr : ∀ n buf, buf = start + Z.of_nat n - 1 → p ≤ buf → start ≤ prune n buf bm.2 ≤ buf + 1).
  { induction n as [|n IH]; intros buf Hb Hpb; [lia|]. cbn [prune]. destruct (_ =? 48) eqn:E; zbool; [|destruct (_ =? 46); lia].
    assert (p ≠ buf) by (intros ->; congruence). specialize (IH (buf - 1)). lia. }
  specialize (Hpr (Z.to_nat (bm.1 - start)) (bm.1 - 1) ltac:(lia) ltac:(lia)). unfold text_ok. cbn [fst snd]. split_and!; [lia| |done].
  intros a Ha. apply H2. lia.
Qed.
End Text.

(** ** The whole conversion *)

(** The exponent of %e. *)
Lemma exponent_ok start m0 c decexp bm :
  (c = 101 ∨ c = 69) → -1000 < decexp < 1000 → text_ok start m0 bm →
  text_ok start m0
    (let bm := put c bm in
     let '(decexp, bm) := if decexp <? 0 then (- decexp, put 45 bm) else (decexp, put 43 bm) in
     let bm := put (decexp / 100 + 48) bm in
     let decexp := decexp mod 100 in
     let bm := put (decexp / 10 + 48) bm in put (decexp mod 10 + 48) bm).
Proof.
  intros Hc Hd Hb. cbv zeta. assert (Hb1 : text_ok start m0 (put c bm)) by (apply put_ok; [by destruct Hc as [-> | ->]|done]).
  destruct (decexp <? 0) eqn:E; zbool; repeat (apply put_ok; [apply digit_number_char; dlia|]); by apply put_ok.
Qed.

(** The digits and the point. *)
Lemma mantissa_ok start m0 (fixed falt : bool) fr de prec bm :
  0 ≤ fr < two60 → -901 < de < 901 → text_ok start m0 bm →
  let r :=
    if fixed then
      let '(fract, digit_count, bm) := if 0 <? de then put_digits (Z.to_nat de) fr 16 bm else (fr, 16, put 48 bm) in
      (Z.min de 0, put_fraction (Z.to_nat prec) (Z.min de 0) fract digit_count (if falt || (0 <? prec) then put 46 bm else bm))
    else
      let '(d, fract, digit_count) := _get_digit fr 16 in
      (if d =? 48 then de else de - 1, (put_digits (Z.to_nat prec) fract digit_count (if falt || (0 <? prec) then put 46 (put d bm) else put d bm)).2) in
  text_ok start m0 r.2 ∧ (0 < prec → has_point start r.2) ∧ -1000 < r.1 < 1000.
Proof.
  intros Hf Hd Hb. assert (Hpoint : ∀ bm, text_ok start m0 bm →
    text_ok start m0 (if falt || (0 <? prec) then put 46 bm else bm) ∧ (0 < prec → has_point start (if falt || (0 <? prec) then put 46 bm else bm))).
  { intros b Ht. destruct (falt || (0 <? prec)) eqn:E; [split; [by apply put_ok|intros _; apply put_point, Ht]|].
    apply orb_false_iff in E as [_ E]. zbool. split; [done|lia]. }
  destruct fixed; cbv zeta.
  - assert (Hi : let '(fract, dc, bm) := if 0 <? de then put_digits (Z.to_nat de) fr 16 bm else (fr, 16, put 48 bm) in 0 ≤ fract < two60 ∧ text_ok start m0 bm).
    { destruct (0 <? de); [by apply put_digits_spec|]. split; [done|by apply put_ok]. }
    destruct (if 0 <? de then _ else _) as [[fract dc] bm1]. destruct Hi as [Hfr Hb1]. destruct (Hpoint bm1 Hb1) as [H1 H2]. cbn [fst snd].
    split_and!; [by apply put_fraction_spec|intros H; by apply put_fraction_point, H2|lia..].
  - pose proof (get_digit_spec fr 16 Hf) as Hg. destruct (_get_digit fr 16) as [[d fract] dc]. destruct Hg as [Hdg Hfr].
    destruct (Hpoint (put d bm)) as [H1 H2]; [apply put_ok; [by apply digit_number_char|done]|]. cbn [fst snd].
    split_and!; [|intros H; by apply put_digits_point, H2|destruct (d =? 48); lia..].
    pose proof (put_digits_spec start m0 (Z.to_nat prec) fract dc _ Hfr H1) as Hp. destruct (put_digits _ _ _ _) as [[? ?] ?]. apply Hp.
Qed.

Lemma float_text_ok start m0 fract exp decexp c falt precision bm :
  0 ≤ fract < two64 - 2 → exp ≤ 0 → -900 < decexp < 900 → c ∈ [101; 69; 102; 103; 71] → text_ok start m0 bm →
  let '(n, m') := float_text start fract exp decexp c falt precision bm in
  text_ok start m0 (start + n, m') ∧ m' !!! (start + n) = 0.
Proof.
  intros Hf He Hd Hc Hb. unfold float_text. pose proof (align_digit_spec fract exp Hf He) as Ha. set (fr0 := align_digit fract exp) in *. clearbody fr0.
  set (prec := if precision <? 0 then 6 else precision). set (general := (c =? 103) || (c =? 71)).
  set (c' := if general then _ else c). assert (Hc' : c' = 101 ∨ c' = 69 ∨ c' = 102).
  { unfold c', general. rewrite !elem_of_cons, elem_of_nil in Hc. destruct Hc as [->|[->|[->|[->|[->|[]]]]]]; cbn [Z.eqb Pos.eqb orb]; repeat case_match; tauto. }
  clearbody c'. cbv zeta. set (e2 := Z.min _ 16). pose proof (round_half_spec e2) as Hr. set (h := round_half e2) in *. clearbody h.
  rewrite u64_id by (unfold two60 in *; lia). set (fr1 := fr0 + h). assert (Hfr1 : 0 ≤ fr1 < 2 * two60) by (unfold fr1, two60 in *; lia). clearbody fr1.
  (* the carry *)
  match goal with |- context [if negb ?t then ?a else ?b] => assert (Hcarry : 0 ≤ (if negb t then a else b).1 < two60 ∧ -901 < (if negb t then a else b).2 < 901) end.
  { destruct (Z.land _ _ =? 0) eqn:E; zbool; cbn [negb fst snd].
    - split; [|lia]. split; [lia|]. apply high_nibble; [unfold two60, two64 in *; lia|done].
    - split; [|lia]. rewrite ldiv5_rounds by (unfold two60 in *; lia). rewrite rlrshift_spec by (unfold two60, two64 in *; dlia). unfold two60 in *. dlia. }
  destruct (if negb _ then _ else _) as [fr2 de2]. cbn [fst snd] in Hcarry. destruct Hcarry as [Hfr2 Hde2].
  set (mantissa := if c' =? 102 then _ else _).
  assert (Hm : text_ok start m0 mantissa.2 ∧ (0 < prec → has_point start mantissa.2) ∧ -1000 < mantissa.1 < 1000) by (apply mantissa_ok; (done || lia)).
  destruct mantissa as [de3 bm3]. cbn [fst snd] in Hm. destruct Hm as (Hb3 & Hpt & Hde3).
  set (bm4 := if general && _ && _ then _ else bm3). assert (Hb4 : text_ok start m0 bm4).
  { unfold bm4. destruct (general && _ && _) eqn:E; [|done]. apply andb_true_iff in E as [_ E]. zbool. apply prune_ok; [by apply Hpt|done]. }
  clearbody bm4. pose proof (exponent_ok start m0 c' de3 bm4) as Hexp. cbv zeta in Hexp.
  set (final := if (c' =? 101) || (c' =? 69) then _ else bm4). assert (Hfin : text_ok start m0 final).
  { unfold final. destruct ((c' =? 101) || (c' =? 69)) eqn:E; [|done]. apply Hexp; [|lia|done]. apply orb_true_iff in E. destruct E; zbool; lia. }
  clearbody final. destruct final as [buf m]. destruct Hfin as (H1 & H2 & H3). cbn [fst snd] in *. unfold text_ok. cbn [fst snd].
  replace (start + (buf - start)) with buf by lia. rewrite lookup_total_insert_eq. split_and!; [lia| | |done].
  - intros a Ha2. rewrite lookup_total_insert_ne by lia. apply H2. lia.
  - intros a Ha2. rewrite lookup_total_insert_ne by lia. by apply H3.
Qed.

(** The bits of a finite double that is not zero, scaled. *)
Lemma start_fraction bits :
  let fract := Z.land (u64 (Z.shiftl bits 11)) (HIGHBIT64 - 1) in
  0 ≤ fract < two63 ∧ normal (Z.lor fract HIGHBIT64).
Proof.
  intros fract. change (HIGHBIT64 - 1) with (Z.ones 63) in fract. unfold fract. rewrite Z.land_ones, Z.shiftl_mul_pow2 by lia.
  change (2 ^ 11) with 2048. change (2 ^ 63) with two63. set (f := u64 (bits * 2048) mod two63).
  assert (Hf : 0 ≤ f < two63) by (apply Z.mod_pos_bound; done). assert (Hk : f mod 2048 = 0) by (unfold f, u64, two63; dlia).
  split; [done|]. replace (Z.lor f HIGHBIT64) with (f + two63); [unfold normal, two63, two64 in *; dlia|].
  change HIGHBIT64 with (2 ^ 63). change two63 with (2 ^ 63) in *.
  assert (Hand : Z.land f (2 ^ 63) = 0).
  { apply Z.bits_inj'. intros i Hi. rewrite Z.land_spec, Z.bits_0, Z.pow2_bits_eqb by lia. destruct (63 =? i) eqn:E; zbool; [|by rewrite andb_false_r].
    subst i. rewrite andb_true_r. destruct (decide (f = 0)) as [->|Hne]; [apply Z.bits_0|]. apply Z.bits_above_log2; [lia|]. apply Z.log2_lt_pow2; lia. }
  by rewrite <-Z.lxor_lor, <-Z.add_nocarry_lxor by done.
Qed.


(** A denormal number is printed as if it were normalised: the smallest double, about 4.9e-324, as 1.112537e-308. *)
Lemma denormal_printed_wrong :
  (λ r : Z * gmap Z Z, read_bytes 13 1000 r.2) <$> _to_float 1000 1 101 false false false (-1) ∅ =
  Some [49; 46; 49; 49; 50; 53; 51; 55; 101; 45; 51; 48; 56].
Proof. by vm_compute. Qed.
