(* ===== verification/Output.v ===== *)
(** * Character output functions

    [_prf] and [_vprintk] hand their text to an output function, one character
    at a time.  [Output] states what they may rely on: having been given the
    bytes [l], the object and the memory satisfy [holds]; one more character is
    accepted, and memory changes in the region [R] only.

    Their variable arguments are 32-bit words, or 64 bits wide (a double, a
    [long long]); taking one of the other kind or one that is not there has no
    result. *)
From stdpp Require Import gmap list.
From S2P Require Import Prelude Mem.
Local Open Scope Z_scope.

Definition EOF : Z := -1.

Inductive va_arg := VWord (x : Z) | VDword (x : Z).
Definition va_word (vargs : list va_arg) : option (Z * list va_arg) :=
  match vargs with VWord x :: vargs => Some (x, vargs) | _ => None end.
Definition va_dword (vargs : list va_arg) : option (Z * list va_arg) :=
  match vargs with VDword x :: vargs => Some (x, vargs) | _ => None end.

(** Two memories agree where [K] holds. *)
Definition same_on (K : Z → Prop) (m m' : gmap Z Z) : Prop := ∀ a, K a → m' !!! a = m !!! a.
#[global] Instance same_on_refl K : Reflexive (same_on K).
Proof. by intros m a. Qed.
#[global] Instance same_on_trans K : Transitive (same_on K).
Proof. intros m1 m2 m3 H1 H2 a Ha. by rewrite H2, H1. Qed.
Lemma same_on_weaken (K K' : Z → Prop) m m' : (∀ a, K a → K' a) → same_on K' m m' → same_on K m m'.
Proof. intros HK Hm a Ha. apply Hm, HK, Ha. Qed.

Class Output {dest : Type} (func : Z → dest → gmap Z Z → Z * dest * gmap Z Z)
    (R : Z → Prop) (holds : dest → gmap Z Z → list Z → Prop) : Prop := {
  out_step d m l c r d' m' :
    holds d m l → func c d m = (r, d', m') → holds d' m' (l ++ [u8 c]) ∧ same_on (λ a, ¬ R a) m m';
  out_frame d m m' l : holds d m l → same_on R m m' → holds d m' l;
}.

(** [_prf] stops at a result of [EOF]. *)
Class NeverEOF {dest : Type} (func : Z → dest → gmap Z Z → Z * dest * gmap Z Z) : Prop :=
  never_eof c d m : (func c d m).1.1 ≠ EOF.
Lemma out_step_ok {dest func R holds} `{!@Output dest func R holds} `{!NeverEOF func} d m l c r d' m' :
  holds d m l → func c d m = (r, d', m') → r ≠ EOF ∧ holds d' m' (l ++ [u8 c]) ∧ same_on (λ a, ¬ R a) m m'.
Proof. intros Hd E. pose proof (never_eof c d m) as Hr. rewrite E in Hr. split; [done|]. by apply (out_step _ _ _ _ _ _ _ Hd E). Qed.

Lemma u8_s8 b : 0 ≤ b < 256 → u8 (s8 b) = b.
Proof. intros Hb. unfold u8, s8. dlia. Qed.
