(* ===== verification/Printf.v ===== *)
(** * The format interpreter [_prf] and [sprintf] ([stdout/prf.c], [stdout/sprintf.c])

    [_prf] calls an output function for each character.  It is a parameter here
    as it is in the code: it gets the character, the object [dest] points to and
    the memory, and returns a result (-1 is [EOF]) and the two changed.
    Characters of the format are signed. *)
From stdpp Require Import gmap list.
From S2P Require Import Prelude Mem Ring Libc Strtol Prf Output.
Local Open Scope Z_scope.

(** [strchr(set, c) != NULL]: the terminating 0 is found too. *)
Definition in_set (set : list Z) (c : Z) : bool := existsb (Z.eqb c) (set ++ [0]).

(** ** The parts of a conversion specification *)

Record flags := { fminus : bool; fplus : bool; fspace : bool; falt : bool; pad : Z }.
Definition no_flags : flags := {| fminus := false; fplus := false; fspace := false; falt := false; pad := 32 |}.
Definition set_flag (c : Z) (f : flags) : flags :=
  if c =? 45 then {| fminus := true; fplus := fplus f; fspace := fspace f; falt := falt f; pad := pad f |}
  else if c =? 43 then {| fminus := fminus f; fplus := true; fspace := fspace f; falt := falt f; pad := pad f |}
  else if c =? 32 then {| fminus := fminus f; fplus := fplus f; fspace := true; falt := falt f; pad := pad f |}
  else if c =? 35 then {| fminus := fminus f; fplus := fplus f; fspace := fspace f; falt := true; pad := pad f |}
  else if c =? 48 then {| fminus := fminus f; fplus := fplus f; fspace := fspace f; falt := falt f; pad := 48 |}
  else f.

(** [Some None]: the format ended. *)
Fixpoint read_flags (fuel : nat) (format : Z) (f : flags) (m : gmap Z Z) : option (option (Z * Z * flags)) :=
  match fuel with
  | O => None
  | S fuel =>
      let c := char_at m format in
      if in_set [45; 43; 32; 35; 48] c then
        (if c =? 0 then Some None else read_flags fuel (format + 1) (set_flag c f) m)
      else Some (Some (c, format + 1, f))
  end.

(** [_atoi]: the number that starts one character before [p], and what follows it. *)
Fixpoint atoi_digits (fuel : nat) (p i : Z) (m : gmap Z Z) : option (Z * Z) :=
  match fuel with
  | O => None
  | S fuel =>
      let c := char_at m p in
      if isdigit c then atoi_digits fuel (p + 1) (s32 (10 * i + c - 48)) m else Some (i, p)
  end.
Definition _atoi (fuel : nat) (sptr : Z) (m : gmap Z Z) : option (Z * Z) := atoi_digits fuel (sptr - 1) 0 m.

(** Width, the character behind it, and the rest. *)
Definition read_width (fuel : nat) (c format : Z) (f : flags) (vargs : list va_arg) (m : gmap Z Z) : option (Z * Z * Z * flags * list va_arg) :=
  '(width, c, format, f, vargs) ←
    (if c =? 42 then
       '(x, vargs) ← va_word vargs;
       let width := s32 x in
       let '(width, f) := if width <? 0 then (s32 (- width), set_flag 45 f) else (width, f) in
       Some (width, char_at m format, format + 1, f, vargs)
     else if negb (isdigit c) then Some (0, c, format, f, vargs)
     else
       '(width, format) ← _atoi fuel format m;
       Some (width, char_at m format, format + 1, f, vargs));
  Some (if MAXFLD <? u32 width then MAXFLD else width, c, format, f, vargs).

Definition read_precision (fuel : nat) (c format : Z) (vargs : list va_arg) (m : gmap Z Z) : option (Z * Z * Z * list va_arg) :=
  if c =? 46 then
    let c := char_at m format in
    let format := format + 1 in
    '(precision, format, vargs) ←
      (if c =? 42 then '(x, vargs) ← va_word vargs; Some (s32 x, format, vargs)
       else '(precision, format) ← _atoi fuel format m; Some (precision, format, vargs));
    Some (if MAXFLD <? precision then -1 else precision, char_at m format, format + 1, vargs)
  else Some (-1, c, format, vargs).

Definition read_modifier (c format : Z) (m : gmap Z Z) : Z * Z :=
  if in_set [104; 108; 76; 122] c then (char_at m format, format + 1) else (c, format).

(** ** One conversion *)

(** The string length, at most [MAXFLD]. *)
Fixpoint field_length (n : nat) (s c : Z) (m : gmap Z Z) : Z :=
  match n with O => c | S n => if char_at m (s + c) =? 0 then c else field_length n s (c + 1) m end.

(** What the [switch] leaves: the result of [_prf], a character to print, or
    the length of the text in [buf], [need_justifying], [prefix] and [pad]. *)
Inductive converted :=
  | Return (r : Z)
  | Character
  | Field (c : Z) (need_justifying : bool) (prefix pad : Z).

(** A conversion of a 32-bit word. *)
Definition convert_word (buf c x : Z) (f : flags) (precision count : Z) (m : gmap Z Z) : converted * gmap Z Z :=
  let int_pad := if precision =? -1 then pad f else 32 in
  if c =? 99 then (Field 1 true 0 (pad f), <[buf + 1 := 0]> (<[buf := u8 (s32 x)]> m))
  else if (c =? 100) || (c =? 105) then
    let x := s32 x in
    let '(c, m) := _to_dec buf x (fplus f) (fspace f) precision m in
    (Field c true (if fplus f || fspace f || (x <? 0) then 1 else 0) int_pad, m)
  else if c =? 110 then (Field c false 0 (pad f), write_bytes x (Libc.word_bytes (u32 count)) m)
  else if c =? 111 then
    let '(c, m) := _to_octal buf (u32 x) (falt f) precision m in (Field c true 0 int_pad, m)
  else if c =? 112 then
    let '(c, m) := _to_hex buf (u32 x) true 8 120 m in (Field c true 0 int_pad, m)
  else if c =? 115 then
    let c := field_length (Z.to_nat MAXFLD) x 0 m in
    let c := if (0 <=? precision) && (precision <? c) then precision else c in
    if 0 <? c then (Field c true 0 (pad f), Libc.memcpy buf x c m) else (Field c false 0 (pad f), m)
  else if c =? 117 then
    let '(c, m) := _to_udec buf (u32 x) precision m in (Field c true 0 int_pad, m)
  else
    let '(c, m) := _to_hex buf (u32 x) (falt f) precision c m in
    (Field c true (if falt f then 2 else 0) int_pad, m).

Definition word_conversions : list Z := [99; 100; 105; 110; 111; 112; 115; 117; 120; 88].
Definition float_conversions : list Z := [101; 69; 102; 103; 71].

Definition convert (buf c : Z) (f : flags) (precision count : Z) (vargs : list va_arg) (m : gmap Z Z) : option (converted * list va_arg * gmap Z Z) :=
  if existsb (Z.eqb c) word_conversions then
    '(x, vargs) ← va_word vargs;
    let '(r, m) := convert_word buf c x f precision count m in Some (r, vargs, m)
  else if existsb (Z.eqb c) float_conversions then
    '(bits, vargs) ← va_dword vargs;
    '(c, m) ← _to_float buf bits c (falt f) (fplus f) (fspace f) precision m;
    Some (Field c true (if fplus f || fspace f || (char_at m buf =? 45) then 1 else 0) (pad f), vargs, m)
  else if c =? 37 then Some (Character, vargs, m)
  else if c =? 0 then Some (Return count, vargs, m)
  else Some (Field c false 0 (pad f), vargs, m).

(** [for (i = from; i < to; i++) buf[i] = ch;] *)
Definition fill (buf from to ch : Z) (m : gmap Z Z) : gmap Z Z := Libc.set_forward (Z.to_nat (to - from)) (buf + from) ch m.

Definition justify (buf c width : Z) (left : bool) (pad prefix : Z) (m : gmap Z Z) : Z * gmap Z Z :=
  if c <? width then
    (width,
     if left then fill buf c width 32 m
     else
       let m := Libc.memmove (buf + (width - c)) buf (c + 1) m in
       let prefix := if pad =? 32 then 0 else prefix in
       fill buf prefix (width - c + prefix) pad m)
  else (c, m).

Section Prf.
  Context {dest : Type} (func : Z → dest → gmap Z Z → Z * dest * gmap Z Z) (buf : Z).

(** The characters of [buf] are handed out; [false]: the output function returned [EOF]. *)
Fixpoint emit (n : nat) (cptr : Z) (d : dest) (m : gmap Z Z) : bool * dest * gmap Z Z :=
  match n with
  | O => (true, d, m)
  | S n =>
      let '(r, d, m) := func (char_at m cptr) d m in
      if r =? EOF then (false, d, m) else emit n (cptr + 1) d m
  end.

(** The conversion that has been read: [inl], the result of [_prf]; [inr], where the format goes on. *)
Definition prf_field (c format width precision : Z) (f : flags) (vargs : list va_arg) (count : Z) (d : dest) (m : gmap Z Z) :
    option ((Z + Z * list va_arg * Z) * dest * gmap Z Z) :=
  '(r, vargs, m) ← convert buf c f precision count vargs m;
  match r with
  | Return r => Some (inl r, d, m)
  | Character =>
      let '(r, d, m) := func 37 d m in
      Some (if r =? EOF then inl EOF else inr (format, vargs, count + 1), d, m)
  | Field c need_justifying prefix pad =>
      if MAXFLD + 1 <=? c then Some (inl EOF, d, m)
      else if need_justifying then
        let '(c, m) := justify buf c width (fminus f) pad prefix m in
        let '(ok, d, m) := emit (Z.to_nat c) buf d m in
        Some (if ok : bool then inr (format, vargs, count + Z.max 0 c) else inl EOF, d, m)
      else Some (inr (format, vargs, count), d, m)
  end.

(** A conversion specification, from behind the '%'. *)
Definition prf_spec (fuel : nat) (format : Z) (vargs : list va_arg) (count : Z) (d : dest) (m : gmap Z Z) :
    option ((Z + Z * list va_arg * Z) * dest * gmap Z Z) :=
  start ← read_flags fuel format no_flags m;
  match start with
  | None => Some (inl count, d, m)
  | Some (c, format, f) =>
      '(width, c, format, f, vargs) ← read_width fuel c format f vargs m;
      '(precision, c, format, vargs) ← read_precision fuel c format vargs m;
      let '(c, format) := read_modifier c format m in
      prf_field c format width precision f vargs count d m
  end.

Fixpoint _prf_loop (fuel : nat) (format : Z) (vargs : list va_arg) (count : Z) (d : dest) (m : gmap Z Z) : option (Z * dest * gmap Z Z) :=
  match fuel with
  | O => None
  | S fuel =>
      let c := char_at m format in
      if c =? 0 then Some (count, d, m)
      else if c =? 37 then
        '(r, d, m) ← prf_spec fuel (format + 1) vargs count d m;
        match r with
        | inl r => Some (r, d, m)
        | inr (format, vargs, count) => _prf_loop fuel format vargs count d m
        end
      else
        let '(r, d, m) := func c d m in
        if r =? EOF then Some (EOF, d, m) else _prf_loop fuel (format + 1) vargs (count + 1) d m
  end.
Definition _prf (fuel : nat) (d : dest) (format : Z) (vargs : list va_arg) (m : gmap Z Z) : option (Z * dest * gmap Z Z) :=
  _prf_loop fuel format vargs 0 d m.
End Prf.

(** ** sprintf.c *)

Record emitter := { ptr : Z; len : Z }.
Definition sprintf_out (c : Z) (p : emitter) (m : gmap Z Z) : Z * emitter * gmap Z Z :=
  if 1 <? len p then (0, {| ptr := ptr p + 1; len := len p - 1 |}, <[ptr p := u8 c]> m) else (0, p, m).

(** [dummy] is the address of the local variable, [buf] of the one of [_prf]. *)
Definition vsnprintf (buf dummy : Z) (fuel : nat) (s n format : Z) (vargs : list va_arg) (m : gmap Z Z) : option (Z * gmap Z Z) :=
  let s := if n =? 0 then dummy else s in
  '(r, p, m) ← _prf sprintf_out buf fuel {| ptr := s; len := s32 n |} format vargs m;
  Some (r, <[ptr p := 0]> m).
Definition snprintf := vsnprintf.
Definition vsprintf (buf : Z) (fuel : nat) (s format : Z) (vargs : list va_arg) (m : gmap Z Z) : option (Z * gmap Z Z) :=
  '(r, p, m) ← _prf sprintf_out buf fuel {| ptr := s; len := 0x7fffffff |} format vargs m;
  Some (r, <[ptr p := 0]> m).
Definition sprintf := vsprintf.
