(* ===== verification/PrintfProps.v ===== *)
(** * What [_prf] prints

    A format is a list of pieces: ordinary characters, "%%", and conversion
    specifications with flags, width, precision, modifier and one of the
    conversions c d i o p s u x X.  [prf_output_of] is the text that [_prf] hands to
    any output function that satisfies [Output]; [output_of] is the text that the
    C standard says the format stands for.  They are the same for the
    specifications within the limits of the implementation ([fits]), and
    [vsnprintf] leaves as much of that text in its buffer as there is room for. *)
From stdpp Require Import gmap list.
From S2P Require Import Prelude Mem Ring Libc Strtol Prf Output Printf.
Local Open Scope Z_scope.

(** ** Formats *)

(** A width or precision: digits or an argument. *)
Inductive size := Digits (ds : list Z) | Star (x : Z).
Definition size_text (sz : size) : list Z := match sz with Digits ds => (λ d, 48 + d) <$> ds | Star _ => [42] end.
Definition size_args (sz : size) : list va_arg := match sz with Digits _ => [] | Star x => [VWord x] end.
Definition size_value (sz : size) : Z := match sz with Digits ds => number 10 0 ds | Star x => s32 x end.
Definition size_ok (sz : size) : Prop :=
  match sz with Digits ds => Forall (λ d, 0 ≤ d < 10) ds ∧ number 10 0 ds < 2147483648 | Star _ => True end.

(** A conversion specification with its argument, for %s the string there. *)
Record spec := { sflags : list Z; swidth : option size; sprec : option size; smod : list Z; sconv : Z; sarg : Z; sstr : list Z }.
Inductive piece := Lit (c : Z) | Percent | Conv (sp : spec).

Definition opt_text (o : option size) (dot : list Z) : list Z := match o with None => [] | Some sz => dot ++ size_text sz end.
Definition opt_args (o : option size) : list va_arg := match o with None => [] | Some sz => size_args sz end.
Definition spec_text (sp : spec) : list Z :=
  sflags sp ++ opt_text (swidth sp) [] ++ opt_text (sprec sp) [46] ++ smod sp ++ [sconv sp].
Definition spec_args (sp : spec) : list va_arg := opt_args (swidth sp) ++ opt_args (sprec sp) ++ [VWord (sarg sp)].

(** The format and the arguments of a list of pieces. *)
Definition piece_format (p : piece) : list Z := match p with Lit c => [c] | Percent => [37; 37] | Conv sp => 37 :: spec_text sp end.
Definition piece_args (p : piece) : list va_arg := match p with Conv sp => spec_args sp | _ => [] end.
Definition format_of (ps : list piece) : list Z := concat (piece_format <$> ps).
Definition args_of (ps : list piece) : list va_arg := concat (piece_args <$> ps).

(** The flags, the width and the precision a specification sets. *)
Definition width_flags (w : option size) (f : flags) : flags :=
  match w with Some (Star x) => if s32 x <? 0 then set_flag 45 f else f | _ => f end.
Definition width_value (w : option size) : Z :=
  match w with None => 0 | Some sz => let w := Z.abs (size_value sz) in if MAXFLD <? w then MAXFLD else w end.
Definition precision_value (p : option size) : Z :=
  match p with None => -1 | Some sz => let p := size_value sz in if MAXFLD <? p then -1 else p end.
Definition flags_of (sp : spec) : flags := width_flags (swidth sp) (foldl (λ f c, set_flag c f) no_flags (sflags sp)).
Definition prf_width (sp : spec) : Z := width_value (swidth sp).
Definition prf_precision (sp : spec) : Z := precision_value (sprec sp).

(** What [_prf] makes of the argument, without padding, and how many characters of it stay in front of padding zeros. *)
Definition prf_text (sp : spec) : list Z * Z :=
  let f := flags_of sp in
  let p := prf_precision sp in
  let c := sconv sp in
  let x := s32 (sarg sp) in
  let u := u32 (sarg sp) in
  if c =? 99 then ([u8 (sarg sp)], 0)
  else if (c =? 100) || (c =? 105) then
    let sgn := if x <? 0 then [45] else if fplus f then [43] else if fspace f then [32] else [] in
    (sgn ++ (digit_char <$> digit_text (Z.abs x) 10 p), Z.of_nat (length sgn))
  else if c =? 111 then
    ((if falt f then if u =? 0 then [48] else 48 :: (digit_char <$> digit_text u 8 p) else digit_char <$> digit_text u 8 p), 0)
  else if c =? 112 then (48 :: 120 :: (digit_char <$> digit_text u 16 8), 0)
  else if c =? 115 then
    let str := take (Z.to_nat MAXFLD) (sstr sp) in (if 0 <=? p then take (Z.to_nat p) str else str, 0)
  else if c =? 117 then (digit_char <$> digit_text u 10 p, 0)
  else (upper c <$> ((if falt f then [48; 120] else []) ++ (digit_char <$> digit_text u 16 p)), if falt f then 2 else 0).

(** Zeros are used for padding if there is no precision, or none is looked at. *)
Definition prf_pad (sp : spec) : Z :=
  if existsb (Z.eqb (sconv sp)) [99; 115] then pad (flags_of sp)
  else if prf_precision sp =? -1 then pad (flags_of sp) else 32.

(** The field: padded on the right, on the left with spaces, or with zeros behind the prefix. *)
Definition field (left : bool) (pad width prefix : Z) (cs : list Z) : list Z :=
  let k := Z.to_nat (width - Z.of_nat (length cs)) in
  if left then cs ++ replicate k 32
  else if pad =? 32 then replicate k 32 ++ cs
  else take (Z.to_nat prefix) cs ++ replicate k pad ++ drop (Z.to_nat prefix) cs.
Definition prf_output (sp : spec) : list Z :=
  let '(cs, prefix) := prf_text sp in
  if (sconv sp =? 115) && bool_decide (cs = []) then [] else field (fminus (flags_of sp)) (prf_pad sp) (prf_width sp) prefix cs.
Definition prf_piece (p : piece) : list Z := match p with Lit c => [c] | Percent => [37] | Conv sp => prf_output sp end.
Definition prf_output_of (ps : list piece) : list Z := concat (prf_piece <$> ps).

(** ** Reading a specification *)

Definition in_list (set : list Z) (c : Z) : bool := existsb (Z.eqb c) set.
Definition width_ok (w : option size) : Prop :=
  match w with
  | None => True
  | Some sz => size_ok sz ∧ match sz with Digits [] => False | Digits (d :: _) => d ≠ 0 | Star _ => True end
  end.
Definition spec_ok (sp : spec) : Prop :=
  Forall (λ c, in_list [45; 43; 32; 35; 48] c = true) (sflags sp) ∧ width_ok (swidth sp) ∧
  match sprec sp with None => True | Some sz => size_ok sz end ∧
  match smod sp with [] => True | [c] => in_list [104; 108; 122] c = true | _ => False end ∧
  in_list [99; 100; 105; 111; 112; 115; 117; 120; 88] (sconv sp) = true.

Lemma in_list_spec set c : in_list set c = true ↔ c ∈ set.
Proof.
  unfold in_list. rewrite existsb_exists. split.
  - intros (x & Hx & E). zbool. subst. by apply list_elem_of_In.
  - intros Hc. exists c. split; [by apply list_elem_of_In|apply Z.eqb_refl].
Qed.
Lemma in_set_false set c : c ∉ set → c ≠ 0 → in_set set c = false.
Proof.
  intros Hc H0. apply not_true_is_false. intros E. apply (in_list_spec (set ++ [0])) in E. set_solver.
Qed.

Lemma cstring_char m a c l : cstring m a (c :: l) → char_at m a = s8 c ∧ 0 < c < 256 ∧ cstring m (a + 1) l.
Proof. intros (H1 & H2 & H3). unfold char_at. by rewrite H1. Qed.
Lemma cstring_ascii m a c l : cstring m a (c :: l) → c < 128 → char_at m a = c ∧ cstring m (a + 1) l.
Proof. intros Hl Hc. apply cstring_char in Hl as (-> & H & Hl). rewrite s8_id by lia. done. Qed.
Lemma cstring_end m a : cstring m a [] → char_at m a = 0.
Proof. simpl. intros H. unfold char_at. by rewrite H. Qed.

Lemma read_flags_spec fuel a f m fl c l :
  cstring m a (fl ++ c :: l) → Forall (λ c, in_list [45; 43; 32; 35; 48] c = true) fl →
  c < 128 → c ∉ [45; 43; 32; 35; 48] → (length fl < fuel)%nat →
  read_flags fuel a f m = Some (Some (c, a + Z.of_nat (length fl) + 1, foldl (λ f c, set_flag c f) f fl)).
Proof.
  revert fuel a f. induction fl as [|x fl IH]; intros [|fuel] a f Hm Hfl Hc Hn Hf; simpl in Hf; try lia; cbn [read_flags app foldl length] in *.
  - assert (c ≠ 0) by (destruct Hm; lia). destruct (cstring_ascii _ _ _ _ Hm Hc) as [-> _]. rewrite in_set_false by done. do 3 f_equal. f_equal. lia.
  - apply Forall_cons in Hfl as [Hx Hfl]. assert (Hxs := proj1 (in_list_spec _ _) Hx).
    assert (Hx' : 0 < x < 128) by (rewrite !elem_of_cons, elem_of_nil in Hxs; lia).
    destruct (cstring_ascii _ _ _ _ Hm ltac:(lia)) as [-> Hm']. assert (in_set [45; 43; 32; 35; 48] x = true) as ->.
    { apply (in_list_spec (_ ++ [0])). set_solver. }
    rewrite (proj2 (Z.eqb_neq x 0)) by lia. rewrite IH by (done || lia). do 3 f_equal. f_equal. lia.
Qed.

Lemma isdigit_digit d : 0 ≤ d < 10 → isdigit (48 + d) = true.
Proof. intros Hd. unfold isdigit. rewrite u32_id by lia. apply Z.ltb_lt. lia. Qed.
Lemma isdigit_false c : 0 ≤ c < 128 → c < 48 ∨ 57 < c → isdigit c = false.
Proof.
  intros Hc H. unfold isdigit. apply Z.ltb_ge. destruct H; [|rewrite u32_id by lia; lia].
  unfold u32. rewrite <-(Z.mod_add _ 1) by lia. rewrite Z.mod_small; lia.
Qed.
Lemma atoi_digits_spec fuel p i m ds c l :
  cstring m p (((λ d, 48 + d) <$> ds) ++ c :: l) → Forall (λ d, 0 ≤ d < 10) ds → c < 128 → isdigit c = false →
  0 ≤ i → number 10 i ds < 2147483648 → (length ds < fuel)%nat →
  atoi_digits fuel p i m = Some (number 10 i ds, p + Z.of_nat (length ds)).
Proof.
  revert fuel p i. induction ds as [|d ds IH]; intros [|fuel] p i Hm Hds Hc Hd Hi Hn Hf; simpl in Hf; try lia; cbn [atoi_digits].
  - destruct (cstring_ascii _ _ _ _ Hm Hc) as [-> _]. rewrite Hd. simpl. do 2 f_equal. lia.
  - apply Forall_cons in Hds as [H1 Hds]. destruct (cstring_ascii _ _ _ _ Hm ltac:(lia)) as [-> Hm']. rewrite isdigit_digit by done.
    assert (Hge : i * 10 + d ≤ number 10 (i * 10 + d) ds).
    { apply number_ge; [lia..|]. eapply Forall_impl; [exact Hds|]. simpl. lia. }
    change (number 10 i (d :: ds)) with (number 10 (i * 10 + d) ds) in *.
    replace (s32 (10 * i + (48 + d) - 48)) with (i * 10 + d) by (rewrite s32_id; lia).
    rewrite IH by (done || lia). simpl. do 2 f_equal. lia.
Qed.

Lemma read_width_spec fuel p f m w c l vargs :
  cstring m p (opt_text w [] ++ c :: l) → width_ok w → c < 128 → isdigit c = false → c ≠ 42 → (length (opt_text w []) < fuel)%nat →
  read_width fuel (char_at m p) (p + 1) f (opt_args w ++ vargs) m =
  Some (width_value w, c, p + Z.of_nat (length (opt_text w [])) + 1, width_flags w f, vargs).
Proof.
  intros Hm Hw Hc Hd H42 Hf. unfold read_width. destruct w as [[ds|x]|]; cbn [opt_text opt_args size_text size_args app] in *.
  - destruct Hw as [[Hds Hn] Hne]. destruct ds as [|d ds]; [done|].
    assert (Hd1 : 0 ≤ d < 10) by (by apply Forall_cons in Hds as [? _]).
    destruct (cstring_ascii _ _ _ _ Hm ltac:(lia)) as [-> _]. rewrite (proj2 (Z.eqb_neq (48 + d) 42)), isdigit_digit by lia. simpl negb. cbv iota.
    unfold _atoi. replace (p + 1 - 1) with p by lia. rewrite length_fmap in *.
    rewrite (atoi_digits_spec fuel p 0 m (d :: ds) c l) by (done || lia). cbn [mbind option_bind].
    pose proof (cstring_prefix _ _ _ _ Hm) as Hm2. rewrite length_fmap in Hm2.
    destruct (cstring_ascii _ _ _ _ Hm2 Hc) as [-> _]. unfold width_value, size_value.
    assert (0 ≤ number 10 0 (d :: ds)) by (apply number_ge; [lia..|]; eapply Forall_impl; [exact Hds|]; simpl; lia).
    generalize dependent (number 10 0 (d :: ds)). intros w Hw1 Hw2. rewrite u32_id, Z.abs_eq by lia. done.
  - destruct (cstring_ascii _ _ _ _ Hm ltac:(lia)) as [-> Hm2]. destruct (cstring_ascii _ _ _ _ Hm2 Hc) as [Hc2 _].
    rewrite Z.eqb_refl. simpl. unfold width_value, size_value, width_flags. pose proof (s32_range x) as Hx.
    destruct (s32 x <? 0) eqn:E; zbool; simpl; rewrite Hc2.
    + assert (u32 (s32 (- s32 x)) = Z.abs (s32 x)) as Ha.
      { destruct (decide (s32 x = -2147483648)) as [->|Hne]; [done|]. rewrite (s32_id (- s32 x)), u32_id by lia. lia. }
      rewrite Ha. destruct (MAXFLD <? _) eqn:E2; [done|]. assert (s32 x ≠ -2147483648) by (intros E3; rewrite E3 in E2; done).
      rewrite s32_id by lia. repeat f_equal. lia.
    + rewrite u32_id, Z.abs_eq by lia. done.
  - destruct (cstring_ascii _ _ _ _ Hm Hc) as [-> _]. rewrite (proj2 (Z.eqb_neq c 42)), Hd by done. simpl. repeat f_equal. lia.
Qed.

Lemma read_precision_spec fuel p m pr c l vargs :
  cstring m p (opt_text pr [46] ++ c :: l) → match pr with None => True | Some sz => size_ok sz end →
  c < 128 → isdigit c = false → c ≠ 42 → c ≠ 46 → (length (opt_text pr [46%Z]) < fuel)%nat →
  read_precision fuel (char_at m p) (p + 1) (opt_args pr ++ vargs) m =
  Some (precision_value pr, c, p + Z.of_nat (length (opt_text pr [46])) + 1, vargs).
Proof.
  intros Hm Hw Hc Hd H42 H46 Hf. unfold read_precision. destruct pr as [[ds|x]|]; cbn [opt_text opt_args size_text size_args app] in *.
  - destruct Hw as [Hds Hn]. destruct (cstring_ascii _ _ _ _ Hm ltac:(lia)) as [-> Hm1]. rewrite Z.eqb_refl.
    assert ((char_at m (p + 1) =? 42) = false) as ->.
    { destruct ds as [|d ds]; simpl in Hm1.
      - destruct (cstring_ascii _ _ _ _ Hm1 Hc) as [-> _]. by apply Z.eqb_neq.
      - apply Forall_cons in Hds as [Hd1 _]. destruct (cstring_ascii _ _ _ _ Hm1 ltac:(lia)) as [-> _]. apply Z.eqb_neq. lia. }
    unfold _atoi. replace (p + 1 + 1 - 1) with (p + 1) by lia. cbn [length] in *. rewrite length_fmap in *.
    rewrite (atoi_digits_spec fuel (p + 1) 0 m ds c l) by (done || lia). cbn [mbind option_bind].
    pose proof (cstring_prefix _ _ _ _ Hm1) as Hm2. rewrite length_fmap in Hm2.
    destruct (cstring_ascii _ _ _ _ Hm2 Hc) as [-> _]. simpl. unfold precision_value, size_value. do 2 f_equal. f_equal. lia.
  - destruct (cstring_ascii _ _ _ _ Hm ltac:(lia)) as [-> Hm1]. destruct (cstring_ascii _ _ _ _ Hm1 ltac:(lia)) as [-> Hm2].
    destruct (cstring_ascii _ _ _ _ Hm2 Hc) as [Hc2 _]. rewrite !Z.eqb_refl. simpl. rewrite Hc2. do 2 f_equal. f_equal. lia.
  - destruct (cstring_ascii _ _ _ _ Hm Hc) as [-> _]. rewrite (proj2 (Z.eqb_neq c 46)) by done. simpl. do 2 f_equal. f_equal. lia.
Qed.

(** The characters at which one part ends and the next begins. *)
Lemma letter_props c :
  c ∈ [104; 108; 76; 122; 99; 100; 105; 111; 112; 115; 117; 120; 88] →
  c < 128 ∧ isdigit c = false ∧ c ≠ 42 ∧ c ≠ 46 ∧ c ∉ [45; 43; 32; 35; 48].
Proof.
  intros Hc. assert (Hall : forallb (λ c, (c <? 128) && negb (isdigit c) && negb (in_list [42; 46; 45; 43; 32; 35; 48] c))
    [104; 108; 76; 122; 99; 100; 105; 111; 112; 115; 117; 120; 88] = true) by by vm_compute.
  rewrite forallb_forall in Hall. specialize (Hall c). rewrite <-list_elem_of_In in Hall. specialize (Hall Hc).
  apply andb_true_iff in Hall as [Hall H3]. apply andb_true_iff in Hall as [H1 H2]. apply negb_true_iff in H2, H3. zbool.
  assert (Hn : c ∉ [42; 46; 45; 43; 32; 35; 48]) by (intros E; apply in_list_spec in E; congruence).
  split_and!; [lia|done|set_solver..].
Qed.
Lemma conv_head sp l :
  spec_ok sp → ∃ c l', smod sp ++ sconv sp :: l = c :: l' ∧ c ∈ [104; 108; 76; 122; 99; 100; 105; 111; 112; 115; 117; 120; 88].
Proof.
  intros (_ & _ & _ & Hm & Hc). apply in_list_spec in Hc. destruct (smod sp) as [|c [|]]; [|apply in_list_spec in Hm|done]; simpl; eexists _, _; (split; [done|]); set_solver.
Qed.
Lemma prec_head sp l :
  spec_ok sp → ∃ c l', opt_text (sprec sp) [46] ++ smod sp ++ sconv sp :: l = c :: l' ∧
    c < 128 ∧ isdigit c = false ∧ c ≠ 42 ∧ c ∉ [45; 43; 32; 35; 48].
Proof.
  intros Hok. destruct (sprec sp) as [sz|]; simpl; [eexists _, _; split_and!; [done..|set_solver]|].
  destruct (conv_head sp l Hok) as (c & l' & -> & Hc). apply letter_props in Hc. exists c, l'. tauto.
Qed.
Lemma width_head sp l :
  spec_ok sp → ∃ c l', opt_text (swidth sp) [] ++ opt_text (sprec sp) [46] ++ smod sp ++ sconv sp :: l = c :: l' ∧
    c < 128 ∧ c ∉ [45; 43; 32; 35; 48].
Proof.
  intros Hok. destruct (swidth sp) as [[[|d ds]|x]|] eqn:Ew; simpl.
  - destruct Hok as (_ & Hw & _). rewrite Ew in Hw. destruct Hw as [_ []].
  - destruct Hok as (_ & Hw & _). rewrite Ew in Hw. destruct Hw as [[Hds _] Hd]. apply Forall_cons in Hds as [Hd1 _].
    eexists _, _. split_and!; [done|lia|]. rewrite !elem_of_cons, elem_of_nil. lia.
  - eexists _, _. split_and!; [done..|set_solver].
  - destruct (prec_head sp l Hok) as (c & l' & -> & H). exists c, l'. tauto.
Qed.
Lemma read_modifier_spec sp p m l :
  spec_ok sp → cstring m p (smod sp ++ sconv sp :: l) →
  read_modifier (char_at m p) (p + 1) m = (sconv sp, p + Z.of_nat (length (smod sp)) + 1).
Proof.
  intros (_ & _ & _ & Hmod & Hc) Hm. apply in_list_spec in Hc. unfold read_modifier.
  assert (Hc128 : sconv sp < 128) by (apply letter_props; set_solver).
  destruct (smod sp) as [|x [|]]; [| |done]; cbn [app length] in Hm |- *.
  - destruct (cstring_ascii _ _ _ _ Hm Hc128) as [-> _].
    rewrite in_set_false; [f_equal; lia| |]; intros E; rewrite !elem_of_cons, elem_of_nil in *; lia.
  - apply in_list_spec in Hmod. assert (x < 128) by (apply letter_props; set_solver).
    destruct (cstring_ascii _ _ _ _ Hm ltac:(lia)) as [-> Hm2]. destruct (cstring_ascii _ _ _ _ Hm2 Hc128) as [-> _].
    assert (in_set [104; 108; 76; 122] x = true) as -> by (apply (in_list_spec (_ ++ [0])); set_solver). f_equal; lia.
Qed.

Section Reads.
  Context {dest : Type} (func : Z → dest → gmap Z Z → Z * dest * gmap Z Z) (buf : Z).

Lemma prf_spec_reads sp fuel p l vargs count d m :
  spec_ok sp → cstring m p (spec_text sp ++ l) → (length (spec_text sp) ≤ fuel)%nat →
  prf_spec func buf fuel p (spec_args sp ++ vargs) count d m =
  prf_field func buf (sconv sp) (p + Z.of_nat (length (spec_text sp))) (prf_width sp) (prf_precision sp) (flags_of sp)
    (VWord (sarg sp) :: vargs) count d m.
Proof.
  intros Hok Hm Hf. unfold spec_text, spec_args in *. rewrite <-!app_assoc in Hm. rewrite !length_app in Hf. cbn [length] in Hf.
  rewrite <-!app_assoc. simpl ([sconv sp] ++ l) in Hm. simpl ([VWord (sarg sp)] ++ vargs). unfold prf_spec.
  destruct (width_head sp l Hok) as (c1 & l1 & E1 & Hc1 & Hn1). destruct (prec_head sp l Hok) as (c2 & l2 & E2 & Hc2 & Hd2 & Hs2 & _).
  destruct (conv_head sp l Hok) as (c3 & l3 & E3 & Hc3). destruct (letter_props _ Hc3) as (Hl3 & Hd3 & Hs3 & Hp3 & _).
  pose proof (cstring_prefix _ _ _ _ Hm) as Hm1. pose proof (cstring_prefix _ _ _ _ Hm1) as Hm2. pose proof (cstring_prefix _ _ _ _ Hm2) as Hm3.
  set (p1 := p + _) in *. set (p2 := p1 + _) in *. set (p3 := p2 + _) in *.
  rewrite (read_flags_spec fuel p no_flags m (sflags sp) c1 l1); [|by rewrite <-E1|apply Hok|done|done|lia]. cbn [mbind option_bind]. fold p1.
  assert (Hh1 : char_at m p1 = c1) by (rewrite E1 in Hm1; by destruct (cstring_ascii _ _ _ _ Hm1 Hc1)).
  assert (Hh2 : char_at m p2 = c2) by (rewrite E2 in Hm2; by destruct (cstring_ascii _ _ _ _ Hm2 Hc2)).
  assert (Hh3 : char_at m p3 = c3) by (rewrite E3 in Hm3; by destruct (cstring_ascii _ _ _ _ Hm3 Hl3)).
  rewrite <-Hh1, (read_width_spec fuel p1 _ m (swidth sp) c2 l2); [|by rewrite <-E2|apply Hok|done..|lia]. cbn [mbind option_bind]. fold p2.
  rewrite <-Hh2, (read_precision_spec fuel p2 m (sprec sp) c3 l3); [|by rewrite <-E3|apply Hok|done..|lia]. cbn [mbind option_bind]. fold p3.
  rewrite <-Hh3, (read_modifier_spec sp p3 m l Hok Hm3).
  replace (p3 + Z.of_nat (length (smod sp)) + 1) with (p + Z.of_nat (length (sflags sp ++ opt_text (swidth sp) [] ++ opt_text (sprec sp) [46] ++ smod sp ++ [sconv sp]))).
  - done.
  - unfold p3, p2, p1. rewrite !length_app. simpl. lia.
Qed.
End Reads.

(** ** One field *)

(** The bytes of the buffer [_prf] works in. *)
Definition in_buf (buf a : Z) : Prop := buf ≤ a < buf + MAXFLD + 1.

Lemma read_write_middle a l1 l2 l3 m :
  read_bytes (length l2) (a + Z.of_nat (length l1)) (write_bytes a (l1 ++ l2 ++ l3) m) = l2.
Proof.
  rewrite !write_bytes_app. etrans; [|apply (read_write_bytes l2 (a + Z.of_nat (length l1)) (write_bytes a l1 m))].
  apply read_bytes_ext. intros b Hb. apply write_bytes_other. lia.
Qed.
Lemma write_bytes_same (K : Z → Prop) a l m : (∀ b, K b → b < a ∨ a + Z.of_nat (length l) ≤ b) → same_on K m (write_bytes a l m).
Proof. intros HK b Hb. apply write_bytes_other, HK, Hb. Qed.
Lemma fill_spec buf from to ch m : fill buf from to ch m = write_bytes (buf + from) (replicate (Z.to_nat (to - from)) ch) m.
Proof. apply set_forward_spec. Qed.

Lemma read_bytes_take n k a m : (k ≤ n)%nat → read_bytes k a m = take k (read_bytes n a m).
Proof.
  intros Hk. replace n with (k + (n - k))%nat by lia. rewrite read_bytes_app, take_app_le by (rewrite read_bytes_length; lia).
  rewrite take_ge; [done|]. rewrite read_bytes_length. lia.
Qed.

(** Zeros go between the prefix and the rest unless there are fewer of them than the prefix is long. *)
Definition prefix_ok (left : bool) (pad width prefix len : Z) : Prop :=
  0 ≤ prefix ≤ len ∧ (left = false → pad ≠ 32 → len < width → prefix ≤ width - len).

Lemma justify_spec buf width left pad prefix cs m :
  0 ≤ buf → buf + MAXFLD < 4294967296 → 0 ≤ width ≤ MAXFLD → Z.of_nat (length cs) ≤ MAXFLD →
  prefix_ok left pad width prefix (Z.of_nat (length cs)) → read_bytes (length cs) buf m = cs →
  ∃ m', justify buf (Z.of_nat (length cs)) width left pad prefix m = (Z.of_nat (length (field left pad width prefix cs)), m') ∧
    read_bytes (length (field left pad width prefix cs)) buf m' = field left pad width prefix cs ∧ same_on (λ a, ¬ in_buf buf a) m m'.
Proof.
  unfold in_buf, MAXFLD. intros Hb0 Hb1 Hw Hl [Hp Hpk] Hcs. unfold justify, field. set (c := Z.of_nat (length cs)) in *. set (k := Z.to_nat (width - c)).
  destruct (c <? width) eqn:E; zbool.
  2: { exists m. assert (k = 0%nat) as -> by lia. simpl replicate. rewrite app_nil_r, !app_nil_l, take_drop.
       assert ((if left then cs else if pad =? 32 then cs else cs) = cs) as -> by (by destruct left, (pad =? 32)). done. }
  destruct left.
  - exists (fill buf c width 32 m). rewrite fill_spec. fold k. rewrite length_app, length_replicate. split_and!; [f_equal; lia| |].
    + rewrite read_bytes_app. f_equal.
      * rewrite <-Hcs at 2. apply read_bytes_ext. intros b Hb. apply write_bytes_other. lia.
      * rewrite <-(length_replicate k 32) at 1. apply read_write_bytes.
    + apply write_bytes_same. rewrite length_replicate. unfold MAXFLD. lia.
  - rewrite memmove_spec by lia. unfold memcpy. replace (Z.to_nat (c + 1)) with (length cs + 1)%nat by lia. rewrite read_bytes_app, Hcs. fold c.
    set (m1 := write_bytes (buf + (width - c)) _ m). set (pf := if pad =? 32 then 0 else prefix). eexists. rewrite fill_spec.
    replace (Z.to_nat (width - c + pf - pf)) with k by lia.
    assert (Hpf : 0 ≤ pf ≤ c ∧ pf ≤ Z.of_nat k) by (unfold pf; destruct (pad =? 32) eqn:E2; zbool; [lia|]; specialize (Hpk eq_refl E2); lia).
    assert (Hfield : (if pad =? 32 then replicate k 32 ++ cs else take (Z.to_nat prefix) cs ++ replicate k pad ++ drop (Z.to_nat prefix) cs) =
      take (Z.to_nat pf) cs ++ replicate k pad ++ drop (Z.to_nat pf) cs).
    { unfold pf. destruct (pad =? 32) eqn:E2; zbool; [|done]. by rewrite E2. }
    rewrite Hfield, !length_app, length_take, length_drop, length_replicate. split_and!; [f_equal; lia| |].
    + rewrite !read_bytes_app. set (n0 := (Z.to_nat pf `min` length cs)%nat). f_equal; [|f_equal].
      * rewrite <-Hcs at 1. replace (Z.to_nat pf) with n0 by lia. rewrite <-read_bytes_take by lia. apply read_bytes_ext.
        intros b Hb. unfold m1. rewrite !write_bytes_other; [done|..]; rewrite ?length_app, ?length_replicate; lia.
      * replace (buf + Z.of_nat n0) with (buf + pf) by lia. rewrite <-(length_replicate k pad) at 1. apply read_write_bytes.
      * rewrite <-(read_write_middle (buf + (width - c)) (take (Z.to_nat pf) cs) (drop (Z.to_nat pf) cs) (read_bytes 1 (buf + c) m) m).
        rewrite app_assoc, take_drop, length_drop, length_take. fold n0.
        replace (buf + (width - c) + Z.of_nat n0) with (buf + Z.of_nat n0 + Z.of_nat k) by lia. apply read_bytes_ext. intros b Hb.
        unfold m1. rewrite write_bytes_other; [done|]. rewrite length_replicate. lia.
    + intros b Hb. unfold m1. rewrite !write_bytes_other; [done|..]; rewrite ?length_app, ?length_replicate, ?read_bytes_length; lia.
Qed.

Section Emit.
  Context {dest : Type} {func : Z → dest → gmap Z Z → Z * dest * gmap Z Z} {R : Z → Prop} {holds : dest → gmap Z Z → list Z → Prop} `{!Output func R holds} `{!NeverEOF func}.

Lemma emit_spec n cptr d m l :
  holds d m l → (∀ a, cptr ≤ a < cptr + Z.of_nat n → ¬ R a) → Forall (λ c, 0 ≤ c < 256) (read_bytes n cptr m) →
  ∃ d' m', emit func n cptr d m = (true, d', m') ∧ holds d' m' (l ++ read_bytes n cptr m) ∧ same_on (λ a, ¬ R a) m m'.
Proof.
  revert cptr d m l. induction n as [|n IH]; intros cptr d m l Hd HR Hb; simpl in *.
  - exists d, m. by rewrite app_nil_r.
  - apply Forall_cons in Hb as [Hc Hb]. destruct (func (char_at m cptr) d m) as [[r d1] m1] eqn:E.
    destruct (out_step_ok _ _ _ _ _ _ _ Hd E) as (Hr & Hd1 & Hm1). rewrite (proj2 (Z.eqb_neq _ _) Hr).
    unfold char_at in Hd1. rewrite u8_s8 in Hd1 by done.
    assert (Heq : read_bytes n (cptr + 1) m1 = read_bytes n (cptr + 1) m) by (apply read_bytes_ext; intros b Hb2; apply Hm1, HR; lia).
    destruct (IH (cptr + 1) d1 m1 _ Hd1) as (d' & m' & -> & Hd' & Hm'); [intros a Ha; apply HR; lia|by rewrite Heq|].
    exists d', m'. split; [done|]. rewrite Heq, <-app_assoc in Hd'. split; [done|]. by etrans.
Qed.
End Emit.

(** ** One conversion *)

Lemma cstring_read m a l k : cstring m a l → (k ≤ length l)%nat → read_bytes k a m = take k l.
Proof.
  revert a k. induction l as [|c l IH]; intros a [|k] Hl Hk; simpl in *; try done; [lia|]. destruct Hl as (-> & _ & Hl).
  f_equal. apply IH; [done|lia].
Qed.
Lemma field_length_spec n s c m l :
  cstring m (s + c) l → field_length n s c m = c + Z.of_nat (n `min` length l).
Proof.
  revert c l. induction n as [|n IH]; intros c l Hl; cbn [field_length]; [simpl; lia|]. destruct l as [|x l].
  - rewrite (cstring_end _ _ Hl). simpl. lia.
  - apply cstring_char in Hl as (-> & Hx & Hl). assert ((s8 x =? 0) = false) as ->.
    { change 0 with (s8 0) at 1. rewrite s8_inj by lia. apply Z.eqb_neq. lia. }
    rewrite (IH (c + 1) l) by (by rewrite Z.add_assoc). simpl. lia.
Qed.

(** The string of a %s stays clear of the buffer. *)
Definition arg_ok (K : Z → Prop) (m : gmap Z Z) (sp : spec) : Prop :=
  sconv sp = 115 → cstring m (sarg sp) (sstr sp) ∧ ∀ a, sarg sp ≤ a ≤ sarg sp + Z.of_nat (length (sstr sp)) → K a.

Definition byte_text (l : list Z) : Prop := Forall (λ c, 0 ≤ c < 256) l.
Lemma digit_text_bytes n base p : 2 ≤ base ≤ 36 → byte_text (digit_char <$> digit_text n base p).
Proof. intros Hb. eapply Forall_impl; [by apply digit_text_chars|]. simpl. lia. Qed.
Lemma upper_bytes c l : Forall (λ c, 0 < c < 128) l → byte_text (upper c <$> l).
Proof.
  intros Hl. apply Forall_fmap. eapply Forall_impl; [done|]. intros x Hx. simpl in *. unfold upper, toupper.
  destruct (c =? 88); [|lia]. destruct ((97 <=? x) && (x <=? 122)) eqn:E; [|lia]. apply andb_true_iff in E as [E1 E2]. zbool. lia.
Qed.

(** What a conversion leaves in the buffer. *)
Definition left_in_buf (buf : Z) (cs : list Z) (m m' : gmap Z Z) : Prop :=
  read_bytes (length cs) buf m' = cs ∧ same_on (λ a, ¬ in_buf buf a) m m'.
Lemma left_in_buf_write buf cs m : Z.of_nat (length cs) ≤ MAXFLD → left_in_buf buf cs m (write_bytes buf (cs ++ [0]) m).
Proof.
  intros Hl. split.
  - rewrite <-(Z.add_0_r buf) at 1. apply (read_write_middle buf [] cs [0]).
  - apply write_bytes_same. unfold in_buf. rewrite length_app. simpl. lia.
Qed.
Lemma to_octal_spec buf v (alt : bool) p m :
  let cs := if alt then if v =? 0 then [48] else 48 :: (digit_char <$> digit_text v 8 p) else digit_char <$> digit_text v 8 p in
  _to_octal buf v alt p m = (Z.of_nat (length cs), write_bytes buf (cs ++ [0]) m).
Proof.
  unfold _to_octal. destruct alt; [|apply to_x_spec; lia]. destruct (v =? 0); [done|]. rewrite to_x_spec by lia. f_equal. simpl. lia.
Qed.

Lemma take_min_length {A} n (l : list A) : take n l = take (n `min` length l) l.
Proof. destruct (decide (n ≤ length l)%nat); [f_equal; lia|by rewrite !take_ge by lia]. Qed.
(** A string: its length, cut to the precision, and the copy. *)
Lemma convert_string buf x p m str pad :
  cstring m x str → (∀ a, x ≤ a ≤ x + Z.of_nat (length str) → ¬ in_buf buf a) →
  let cs := if 0 <=? p then take (Z.to_nat p) (take (Z.to_nat MAXFLD) str) else take (Z.to_nat MAXFLD) str in
  let c := field_length (Z.to_nat MAXFLD) x 0 m in
  let c := if (0 <=? p) && (p <? c) then p else c in
  ∃ m', (if 0 <? c then (Field c true 0 pad, Libc.memcpy buf x c m) else (Field c false 0 pad, m)) =
      (Field (Z.of_nat (length cs)) (negb (bool_decide (cs = []))) 0 pad, m') ∧ left_in_buf buf cs m m' ∧ byte_text cs.
Proof.
  intros Hs Hk cs c. unfold c. rewrite (field_length_spec _ x 0 m str) by (by rewrite Z.add_0_r). unfold in_buf, MAXFLD in *.
  set (k := ((if (0 <=? p)%Z then Z.to_nat p `min` 80 else 80) `min` length str)%nat).
  assert (Hcs : cs = take k str).
  { unfold cs, k. destruct (0 <=? p); rewrite ?take_take; apply take_min_length. }
  assert (Hk80 : (k ≤ 80 ∧ k ≤ length str)%nat) by (unfold k; destruct (0 <=? p); lia).
  assert (Hlen : length cs = k) by (rewrite Hcs, length_take; lia).
  assert ((if (0 <=? p) && (p <? 0 + Z.of_nat (Z.to_nat 80 `min` length str)) then p else 0 + Z.of_nat (Z.to_nat 80 `min` length str)) = Z.of_nat k) as ->.
  { unfold k. destruct (0 <=? p) eqn:E; zbool; cbn [andb]; [|lia]. destruct (p <? _) eqn:E2; zbool; lia. }
  assert (Hb : byte_text cs) by (rewrite Hcs; apply Forall_take; eapply Forall_impl; [by eapply cstring_chars|]; simpl; lia).
  rewrite Hlen. destruct (0 <? Z.of_nat k) eqn:E; zbool.
  - exists (memcpy buf x (Z.of_nat k) m). rewrite memcpy_spec.
    + rewrite bool_decide_false by (intros H; rewrite H in Hlen; simpl in Hlen; lia). split; [done|]. split; [split|done].
      * rewrite Hlen. pose proof (bytes_memcpy buf x (Z.of_nat k) m) as H. unfold bytes in H. rewrite Nat2Z.id in H. rewrite H, Hcs.
        apply cstring_read; [done|lia].
      * apply write_bytes_same. rewrite read_bytes_length. unfold in_buf, MAXFLD. lia.
    + lia.
    + pose proof (Hk x) as H1. pose proof (Hk (x + Z.of_nat (length str))) as H2. left. unfold disjoint_ranges.
      destruct (decide (buf + Z.of_nat k ≤ x)); [lia|]. right. destruct (decide (x < buf)); [|lia].
      destruct (decide (x + Z.of_nat k ≤ buf)); [done|]. specialize (Hk buf). lia.
  - exists m. assert (cs = []) as Hnil by (apply length_zero_iff_nil; lia). rewrite Hnil, bool_decide_true by done.
    split; [done|]. split; [by split|constructor].
Qed.

(** A signed number. *)
Lemma convert_dec buf x f p vargs pad m :
  let sgn := if s32 x <? 0 then [45] else if fplus f then [43] else if fspace f then [32] else [] in
  let cs := sgn ++ (digit_char <$> digit_text (Z.abs (s32 x)) 10 p) in
  Z.of_nat (length cs) ≤ MAXFLD →
  ∃ m', (let '(r, m) := let '(c, m) := _to_dec buf (s32 x) (fplus f) (fspace f) p m in
           (Field c true (if fplus f || fspace f || (s32 x <? 0) then 1 else 0) pad, m) in Some (r, vargs, m)) =
      Some (Field (Z.of_nat (length cs)) true (Z.of_nat (length sgn)) pad, vargs : list va_arg, m') ∧ left_in_buf buf cs m m' ∧ byte_text cs.
Proof.
  intros sgn cs Hl. pose proof (s32_range x). rewrite to_dec_spec by lia. cbv zeta. fold sgn. rewrite app_assoc. fold cs.
  assert ((if fplus f || fspace f || (s32 x <? 0) then 1 else 0) = Z.of_nat (length sgn)) as ->.
  { unfold sgn. by destruct (s32 x <? 0), (fplus f), (fspace f). }
  eexists. split; [done|]. split; [by apply left_in_buf_write|]. apply Forall_app_2; [|apply digit_text_bytes; lia].
  unfold sgn. destruct (s32 x <? 0), (fplus f), (fspace f); repeat constructor; lia.
Qed.

(** A conversion leaves its text and length. *)
Lemma convert_spec buf sp vargs count m :
  spec_ok sp → arg_ok (λ a, ¬ in_buf buf a) m sp → Z.of_nat (length (prf_text sp).1) ≤ MAXFLD →
  ∃ m', convert buf (sconv sp) (flags_of sp) (prf_precision sp) count (VWord (sarg sp) :: vargs) m =
      Some (Field (Z.of_nat (length (prf_text sp).1)) (negb ((sconv sp =? 115) && bool_decide ((prf_text sp).1 = []))) (prf_text sp).2 (prf_pad sp), vargs, m') ∧
    left_in_buf buf (prf_text sp).1 m m' ∧ byte_text (prf_text sp).1.
Proof.
  intros (_ & _ & _ & _ & Hc) Harg. apply in_list_spec in Hc. unfold arg_ok in Harg. unfold convert, convert_word, prf_text, prf_pad.
  set (f := flags_of sp). set (p := prf_precision sp). set (x := sarg sp) in *.
  assert (Hhex : ∀ alt p, Forall (λ c, 0 < c < 128) ((if alt : bool then [48; 120] else []) ++ (digit_char <$> digit_text (u32 x) 16 p))).
  { intros alt p'. apply Forall_app_2; [destruct alt; repeat constructor; lia|apply digit_text_chars; lia]. }
  rewrite !elem_of_cons, elem_of_nil in Hc. destruct Hc as [E|[E|[E|[E|[E|[E|[E|[E|[E|[]]]]]]]]]]; rewrite E in *;
    cbn [word_conversions existsb orb Z.eqb Pos.eqb mbind option_bind va_word andb negb fst snd]; intros Hl.
  - eexists. split; [done|]. split; [|repeat constructor; apply u8_range].
    split; [cbn [read_bytes length]; by rewrite lookup_total_insert_ne, lookup_total_insert_eq, u8_s32 by lia|].
    intros b Hb. unfold in_buf, MAXFLD in Hb. by rewrite !lookup_total_insert_ne by lia.
  - by apply convert_dec.
  - by apply convert_dec.
  - rewrite to_octal_spec. eexists. split; [done|]. split; [by apply left_in_buf_write|]. destruct (falt f); [destruct (_ =? 0)|];
      repeat constructor; try lia; apply digit_text_bytes; lia.
  - rewrite to_hex_spec. cbv zeta. rewrite (list_fmap_id _ : upper 120 <$> _ = _). eexists. split; [done|]. split; [by apply left_in_buf_write|]. repeat constructor; try lia. apply digit_text_bytes. lia.
  - destruct (Harg eq_refl) as [Hs Hk]. destruct (convert_string buf x p m (sstr sp) (pad f) Hs Hk) as (m' & Heq & H). cbv zeta in Heq. rewrite Heq. by exists m'.
  - unfold _to_udec. rewrite to_x_spec by lia. eexists. split; [done|]. split; [by apply left_in_buf_write|]. apply digit_text_bytes. lia.
  - rewrite to_hex_spec. cbv zeta. rewrite length_fmap in *. eexists. split; [done|]. split; [apply left_in_buf_write; by rewrite length_fmap|by apply upper_bytes].
  - rewrite to_hex_spec. cbv zeta. rewrite length_fmap in *. eexists. split; [done|]. split; [apply left_in_buf_write; by rewrite length_fmap|by apply upper_bytes].
Qed.

(** ** Formats *)

Lemma conv_prefix sp : 0 ≤ (prf_text sp).2 ≤ Z.of_nat (length (prf_text sp).1).
Proof.
  unfold prf_text. repeat case_match; simpl; rewrite ?length_app, ?length_fmap; simpl; lia.
Qed.
Lemma width_range w : 0 ≤ width_value w ≤ MAXFLD.
Proof. unfold width_value, MAXFLD. destruct w as [sz|]; [|lia]. cbv zeta. destruct (_ <? _) eqn:E; zbool; lia. Qed.
Lemma field_bytes left pad width prefix cs : 0 ≤ pad < 256 → byte_text cs → byte_text (field left pad width prefix cs).
Proof.
  intros Hp Hc. unfold field, byte_text in *. destruct left; [|destruct (pad =? 32)]; repeat apply Forall_app_2; try done;
    try (apply Forall_replicate; lia); [by apply Forall_take|by apply Forall_drop].
Qed.
Lemma flag_pad sp : pad (flags_of sp) = 32 ∨ pad (flags_of sp) = 48.
Proof.
  assert (Hf : ∀ fl f, pad f = 32 ∨ pad f = 48 → pad (foldl (λ f c, set_flag c f) f fl) = 32 ∨ pad (foldl (λ f c, set_flag c f) f fl) = 48).
  { induction fl as [|c fl IH]; intros f Hp; simpl; [done|]. apply IH. unfold set_flag. repeat case_match; simpl; tauto. }
  unfold flags_of, width_flags. specialize (Hf (sflags sp) no_flags (or_introl eq_refl)). repeat case_match; done.
Qed.
Lemma pad_range sp : prf_pad sp = 32 ∨ prf_pad sp = 48.
Proof. pose proof (flag_pad sp). unfold prf_pad. repeat case_match; tauto. Qed.

(** The field is at most [MAXFLD] characters, and there is room for the prefix in front of padding zeros. *)
Definition prf_fits (sp : spec) : Prop :=
  let len := Z.of_nat (length (prf_text sp).1) in
  len ≤ MAXFLD ∧ (fminus (flags_of sp) = false → prf_pad sp ≠ 32 → len < prf_width sp → (prf_text sp).2 ≤ prf_width sp - len).
Definition prf_piece_ok (K : Z → Prop) (m : gmap Z Z) (p : piece) : Prop :=
  match p with Lit c => 0 < c < 256 ∧ c ≠ 37 | Percent => True | Conv sp => spec_ok sp ∧ prf_fits sp ∧ arg_ok K m sp end.

Lemma prf_piece_ok_same K m m' p : same_on K m m' → prf_piece_ok K m p → prf_piece_ok K m' p.
Proof.
  intros Hm. destruct p as [c| |sp]; simpl; [done..|]. intros (H1 & H2 & H3). split_and!; [done..|]. intros E.
  destruct (H3 E) as [Hs HK]. split; [|done]. eapply cstring_ext; [|done]. intros b Hb. apply Hm, HK, Hb.
Qed.

Section Prints.
  Context {dest : Type} {func : Z → dest → gmap Z Z → Z * dest * gmap Z Z} {R : Z → Prop} {holds : dest → gmap Z Z → list Z → Prop} `{!Output func R holds} `{!NeverEOF func}.
  Context (buf : Z) (Hbuf : 0 ≤ buf) (Hbuf' : buf + MAXFLD < 4294967296) (HR : ∀ a, in_buf buf a → ¬ R a).
Let K (a : Z) : Prop := ¬ R a ∧ ¬ in_buf buf a.

Lemma prf_field_spec sp format vargs count d m l :
  prf_piece_ok K m (Conv sp) → holds d m l →
  ∃ d' m', prf_field func buf (sconv sp) format (prf_width sp) (prf_precision sp) (flags_of sp) (VWord (sarg sp) :: vargs) count d m =
      Some (inr (format, vargs, count + Z.of_nat (length (prf_output sp))), d', m') ∧
    holds d' m' (l ++ prf_output sp) ∧ same_on K m m'.
Proof.
  intros (Hok & [Hlen Hfit] & Harg) Hd.
  destruct (convert_spec buf sp vargs count m Hok) as (m1 & Hconv & [Hread Hm1] & Hbytes); [|done|].
  { intros E. destruct (Harg E) as [H1 H2]. split; [done|]. intros a Ha. by apply H2. }
  unfold prf_field. rewrite Hconv. cbn [mbind option_bind]. unfold prf_output. destruct (prf_text sp) as [cs prefix] eqn:Ect. simpl fst in *. simpl snd in *.
  rewrite (proj2 (Z.leb_gt _ _)) by lia. assert (Hd1 : holds d m1 l) by (eapply out_frame; [done|]; intros a Ha; apply Hm1; intros Hb; by apply (HR a)).
  destruct (_ && _); cbn [negb].
  { exists d, m1. rewrite app_nil_r, Z.add_0_r. split_and!; [done..|]. eapply same_on_weaken; [|done]. by intros a [_ ?]. }
  destruct (justify_spec buf (prf_width sp) (fminus (flags_of sp)) (prf_pad sp) prefix cs m1) as (m2 & -> & Hread2 & Hm2); [done..|apply width_range|done| |done|].
  { split; [|done]. pose proof (conv_prefix sp) as H. by rewrite Ect in H. }
  set (out := field _ _ _ _ _) in *. rewrite Nat2Z.id.
  assert (Hd2 : holds d m2 l) by (eapply out_frame; [done|]; intros a Ha; apply Hm2; intros Hb; by apply (HR a)).
  assert (Hout : byte_text out) by (apply field_bytes; [destruct (pad_range sp); lia|done]).
  assert (Hl80 : Z.of_nat (length out) ≤ MAXFLD).
  { pose proof (width_range (swidth sp)) as Hw. fold (prf_width sp) in Hw. unfold out, field. destruct (fminus _); [|destruct (_ =? 32)];
      rewrite !length_app, length_replicate, ?length_take, ?length_drop; lia. }
  destruct (emit_spec (length out) buf d m2 l Hd2) as (d3 & m3 & -> & Hd3 & Hm3); [|by rewrite Hread2|].
  { intros a Ha. apply HR. unfold in_buf. lia. }
  rewrite Hread2 in Hd3. exists d3, m3. rewrite Z.max_r by lia. split_and!; [done..|]. intros a [Ha1 Ha2]. rewrite Hm3, Hm2, Hm1 by done. done.
Qed.

Lemma prf_spec_percent fuel format vargs count d m l :
  char_at m format = 37 → holds d m l →
  ∃ d' m', prf_spec func buf (S fuel) format vargs count d m = Some (inr (format + 1, vargs, count + 1), d', m') ∧
    holds d' m' (l ++ [37]) ∧ same_on (λ a, ¬ R a) m m'.
Proof.
  intros Hc Hd. unfold prf_spec. cbn [read_flags]. rewrite Hc. cbn [in_set existsb app orb Z.eqb Pos.eqb mbind option_bind].
  unfold read_width. cbn [Z.eqb Pos.eqb]. rewrite isdigit_false by lia. cbn [negb mbind option_bind]. unfold read_precision, read_modifier, prf_field.
  cbn [in_set existsb app orb Z.eqb Pos.eqb mbind option_bind convert word_conversions float_conversions].
  destruct (func 37 d m) as [[r d1] m1] eqn:E. destruct (out_step_ok _ _ _ _ _ _ _ Hd E) as (Hr & Hd1 & Hm1). rewrite (proj2 (Z.eqb_neq _ _) Hr).
  by exists d1, m1.
Qed.

Lemma prf_loop_prints ps fuel format vargs count d m l :
  Forall (prf_piece_ok K m) ps → holds d m l → cstring m format (format_of ps) →
  (∀ a, format ≤ a ≤ format + Z.of_nat (length (format_of ps)) → K a) → (length (format_of ps) < fuel)%nat →
  ∃ d' m', _prf_loop func buf fuel format (args_of ps ++ vargs) count d m = Some (count + Z.of_nat (length (prf_output_of ps)), d', m') ∧
    holds d' m' (l ++ prf_output_of ps) ∧ same_on K m m'.
Proof.
  revert fuel format count d m l. induction ps as [|p ps IH]; intros fuel format count d m l Hok Hd Hs HK Hf; (destruct fuel as [|fuel]; [lia|]); cbn [_prf_loop].
  { rewrite (cstring_end _ _ Hs). exists d, m. rewrite app_nil_r. simpl. by rewrite Z.add_0_r. }
  change (format_of (p :: ps)) with (piece_format p ++ format_of ps) in *. change (args_of (p :: ps)) with (piece_args p ++ args_of ps).
  change (prf_output_of (p :: ps)) with (prf_piece p ++ prf_output_of ps). rewrite !length_app in *. apply Forall_cons in Hok as [Hp Hok].
  pose proof (cstring_prefix _ _ _ _ Hs) as Hs'. set (format' := format + Z.of_nat (length (piece_format p))) in *.
  (* The rest of the format, from a state in which the piece has been printed. *)
  assert (Hrest : ∀ fuel' d1 m1, holds d1 m1 (l ++ prf_piece p) → same_on K m m1 → (length (format_of ps) < fuel')%nat →
    ∃ d' m', _prf_loop func buf fuel' format' (args_of ps ++ vargs) (count + Z.of_nat (length (prf_piece p))) d1 m1 =
        Some (count + Z.of_nat (length (prf_piece p) + length (prf_output_of ps)), d', m') ∧
      holds d' m' (l ++ prf_piece p ++ prf_output_of ps) ∧ same_on K m m').
  { intros fuel' d1 m1 Hd1 Hm1 Hf'. destruct (IH fuel' format' (count + Z.of_nat (length (prf_piece p))) d1 m1 (l ++ prf_piece p)) as (d' & m' & -> & H1 & H2); try done.
    - eapply Forall_impl; [exact Hok|]. intros p'. by apply prf_piece_ok_same.
    - eapply cstring_ext; [|exact Hs']. intros b Hb. apply Hm1, HK. lia.
    - intros a Ha. apply HK. lia.
    - exists d', m'. rewrite app_assoc. split_and!; [|done|by etrans]. do 3 f_equal. lia. }
  destruct p as [c| |sp]; cbn [piece_format piece_args prf_piece app length] in *.
  - destruct Hp as [Hc Hne]. apply cstring_char in Hs as (-> & _ & _).
    assert ((s8 c =? 0) = false ∧ (s8 c =? 37) = false) as [-> ->].
    { change 0 with (s8 0). change 37 with (s8 37). rewrite !s8_inj by lia. split; apply Z.eqb_neq; lia. }
    destruct (func (s8 c) d m) as [[r d1] m1] eqn:E. destruct (out_step_ok _ _ _ _ _ _ _ Hd E) as (Hr & Hd1 & Hm1).
    rewrite u8_s8 in Hd1 by lia. rewrite (proj2 (Z.eqb_neq _ _) Hr). apply (Hrest fuel); [done| |lia]. eapply same_on_weaken; [|done]. by intros a [? _].
  - destruct (cstring_ascii _ _ _ _ Hs ltac:(lia)) as [-> Hs1]. destruct (cstring_ascii _ _ _ _ Hs1 ltac:(lia)) as [Hc1 _].
    cbn [Z.eqb Pos.eqb]. destruct fuel as [|fuel]; [lia|].
    destruct (prf_spec_percent fuel (format + 1) (args_of ps ++ vargs) count d m l Hc1 Hd) as (d1 & m1 & -> & Hd1 & Hm1). cbn [mbind option_bind].
    replace (format + 1 + 1) with format' by (unfold format'; simpl; lia). apply (Hrest (S fuel)); [done| |lia]. eapply same_on_weaken; [|done]. by intros a [? _].
  - destruct (cstring_ascii _ _ _ _ Hs ltac:(lia)) as [-> Hs1]. cbn [Z.eqb Pos.eqb]. rewrite <-app_assoc.
    rewrite (prf_spec_reads func buf sp fuel (format + 1) (format_of ps)) by (done || apply Hp || lia).
    destruct (prf_field_spec sp (format + 1 + Z.of_nat (length (spec_text sp))) (args_of ps ++ vargs) count d m l Hp Hd) as (d1 & m1 & -> & Hd1 & Hm1).
    cbn [mbind option_bind]. replace (format + 1 + Z.of_nat (length (spec_text sp))) with format' by (unfold format'; lia). apply Hrest; [done..|lia].
Qed.
End Prints.

(** ** sprintf *)

(** The state of an emitter of [n] bytes at [s] that was given [l]. *)
Definition emitted_count (n : Z) (l : list Z) : nat := length l `min` Z.to_nat (n - 1).
Definition emitted (s n : Z) (p : emitter) (m : gmap Z Z) (l : list Z) : Prop :=
  ptr p = s + Z.of_nat (emitted_count n l) ∧ len p = n - Z.of_nat (emitted_count n l) ∧
  read_bytes (emitted_count n l) s m = take (emitted_count n l) l.
Instance sprintf_output s n : Output sprintf_out (λ a, s ≤ a < s + n) (emitted s n).
Proof.
  unfold emitted. split.
  - intros d m l c r d' m' (Hp & Hl & Hb) E. unfold sprintf_out in E. set (k := emitted_count n l) in *.
    assert (Hk : k = (length l `min` Z.to_nat (n - 1))%nat) by done.
    destruct (1 <? len d) eqn:E1; zbool; injection E as <- <- <-; cbn [ptr len].
    + assert (emitted_count n (l ++ [u8 c]) = S k ∧ k = length l) as [-> Hkl] by (unfold emitted_count; rewrite length_app; simpl; lia).
      split_and!; [lia..| |].
      * replace (S k) with (k + 1)%nat by lia. rewrite read_bytes_app, take_ge by (rewrite length_app; simpl; lia). f_equal.
        -- rewrite take_ge in Hb by lia. rewrite <-Hb. apply read_bytes_ext. intros b Hb2. rewrite Hp. apply lookup_total_insert_ne. lia.
        -- simpl. rewrite Hp. by rewrite lookup_total_insert_eq.
      * intros a Ha. apply lookup_total_insert_ne. lia.
    + assert (emitted_count n (l ++ [u8 c]) = k) as -> by (unfold emitted_count; rewrite length_app; simpl; lia).
      split_and!; [lia..|by rewrite take_app_le by lia|done].
  - intros d m m' l (Hp & Hl & Hb) Hm. split_and!; [done..|]. rewrite <-Hb. apply read_bytes_ext. intros b Hb2. apply Hm.
    unfold emitted_count in *. lia.
Qed.

Instance sprintf_never_eof : NeverEOF sprintf_out.
Proof. intros c p m. unfold sprintf_out, EOF. by destruct (1 <? len p). Qed.

Lemma prf_piece_ok_weaken (K K' : Z → Prop) m p : (∀ a, K a → K' a) → prf_piece_ok K m p → prf_piece_ok K' m p.
Proof.
  intros HK. destruct p as [c| |sp]; simpl; [done..|]. intros (H1 & H2 & H3). split_and!; [done..|]. intros E.
  destruct (H3 E) as [Hs Ha]. split; [done|]. intros a H. by apply HK, Ha.
Qed.

Lemma vsnprintf_text ps buf dummy fuel s n format m :
  let K := λ a, ¬ (s ≤ a < s + n) ∧ ¬ in_buf buf a in
  0 ≤ buf → buf + MAXFLD < 4294967296 → 0 ≤ n < 2147483648 → (∀ a, in_buf buf a → ¬ (s ≤ a < s + n)) →
  cstring m format (format_of ps) → (∀ a, format ≤ a ≤ format + Z.of_nat (length (format_of ps)) → K a) →
  Forall (prf_piece_ok K m) ps → (length (format_of ps) < fuel)%nat →
  let out := prf_output_of ps in
  ∃ m', vsnprintf buf dummy fuel s n format (args_of ps) m = Some (Z.of_nat (length out), m') ∧
    (0 < n → read_bytes (S (emitted_count n out)) s m' = take (emitted_count n out) out ++ [0]) ∧
    same_on (λ a, K a ∧ (n = 0 → a ≠ dummy)) m m'.
Proof.
  intros K Hb1 Hb2 Hn Hdis Hs HK Hok Hf out. unfold vsnprintf. rewrite s32_id by lia. set (s' := if n =? 0 then dummy else s).
  assert (Hs' : ∀ a, s' ≤ a < s' + n → s ≤ a < s + n) by (unfold s'; intros a; destruct (n =? 0) eqn:E; zbool; lia).
  assert (HKK : ∀ a, K a → ¬ (s' ≤ a < s' + n) ∧ ¬ in_buf buf a) by (intros a [H1 H2]; split; [|done]; intros H; by apply H1, Hs').
  destruct (prf_loop_prints (R := λ a, s' ≤ a < s' + n) (holds := emitted s' n) buf Hb1 Hb2) with (ps := ps) (fuel := fuel) (format := format) (vargs := @nil va_arg)
    (count := 0) (d := {| ptr := s'; len := n |}) (m := m) (l := @nil Z) as (d' & m' & Hrun & (Hp & Hl & Hbs) & Hm'); [|..|done|].
  - intros a Ha H. by apply (Hdis a), Hs'.
  - eapply Forall_impl; [exact Hok|]. intros p. by apply prf_piece_ok_weaken.
  - unfold emitted, emitted_count. simpl. split_and!; (done || lia).
  - done.
  - intros a Ha. by apply HKK, HK.
  - rewrite app_nil_r in Hrun. unfold _prf. rewrite Hrun. cbn [mbind option_bind]. rewrite app_nil_l in *. fold out in Hp, Hl, Hbs |- *. eexists. split_and!; [done| |].
    + intros H0. assert (s' = s) as Hss by (unfold s'; by rewrite (proj2 (Z.eqb_neq n 0)) by lia). rewrite Hss in *. rewrite Hp.
      replace (S (emitted_count n out)) with (emitted_count n out + 1)%nat by lia. rewrite read_bytes_app. f_equal.
      * rewrite <-Hbs. apply read_bytes_ext. intros b Hb. apply lookup_total_insert_ne. lia.
      * simpl. by rewrite lookup_total_insert_eq.
    + intros a [Ha Hdummy]. rewrite Hp, lookup_total_insert_ne; [by apply Hm', HKK|]. intros <-. unfold emitted_count, s', K in *.
      destruct (n =? 0) eqn:E; zbool; [apply Hdummy; lia|]. destruct Ha as [Ha _]. lia.
Qed.

(** ** What the C standard says *)

(** The sizes: a negative width from an argument is the flag - and its absolute
    value, a negative precision counts as none. *)
Definition width_of (sp : spec) : Z := match swidth sp with None => 0 | Some sz => Z.abs (size_value sz) end.
Definition precision_of (sp : spec) : option Z :=
  match sprec sp with None => None | Some sz => if size_value sz <? 0 then None else Some (size_value sz) end.
(** The modifier h makes the argument a short. *)
Definition signed_arg (sp : spec) : Z :=
  if bool_decide (smod sp = [104]) then (sarg sp + 32768) mod 65536 - 32768 else s32 (sarg sp).
Definition unsigned_arg (sp : spec) : Z := if bool_decide (smod sp = [104]) then sarg sp mod 65536 else u32 (sarg sp).
(** The digits of a number, at least as many as the precision says. *)
Definition digits_of (n base : Z) (p : option Z) : list Z :=
  match p with
  | None => digit_text n base 1
  | Some p => if (n =? 0) && (p =? 0) then [] else digit_text n base p
  end.
Definition numeric (sp : spec) : bool := in_list [100; 105; 111; 117; 120; 88] (sconv sp).
(** The converted argument, without padding, and the length of its sign or 0x. *)
Definition conv_text (sp : spec) : list Z * Z :=
  let f := flags_of sp in
  let p := precision_of sp in
  let c := sconv sp in
  let u := unsigned_arg sp in
  if c =? 99 then ([u8 (sarg sp)], 0)
  else if (c =? 100) || (c =? 105) then
    let x := signed_arg sp in
    let sgn := if x <? 0 then [45] else if fplus f then [43] else if fspace f then [32] else [] in
    (sgn ++ (digit_char <$> digits_of (Z.abs x) 10 p), Z.of_nat (length sgn))
  else if c =? 111 then
    let ds := digits_of u 8 p in
    (digit_char <$> (if falt f && negb (bool_decide (head ds = Some 0)) then 0 :: ds else ds), 0)
  else if c =? 112 then (48 :: 120 :: (digit_char <$> digit_text (u32 (sarg sp)) 16 8), 0)
  else if c =? 115 then (match p with Some p => take (Z.to_nat p) (sstr sp) | None => sstr sp end, 0)
  else if c =? 117 then (digit_char <$> digits_of u 10 p, 0)
  else
    let pre := if falt f && negb (u =? 0) then [48; 120] else [] in
    (upper c <$> (pre ++ (digit_char <$> digits_of u 16 p)), Z.of_nat (length pre)).
(** A number is padded with zeros if the flag 0 is given and no precision. *)
Definition pad_of (sp : spec) : Z :=
  if (pad (flags_of sp) =? 48) && numeric sp && bool_decide (precision_of sp = None) then 48 else 32.
Definition spec_output (sp : spec) : list Z :=
  let '(cs, prefix) := conv_text sp in field (fminus (flags_of sp)) (pad_of sp) (width_of sp) prefix cs.
Definition piece_output (p : piece) : list Z := match p with Lit c => [c] | Percent => [37] | Conv sp => spec_output sp end.
Definition output_of (ps : list piece) : list Z := concat (piece_output <$> ps).

(** The specifications that [_prf] handles as the standard says.  Width,
    precision and converted argument are at most [MAXFLD] = 80; a precision from
    an argument is -1 or more; there is room for a sign or 0x in front of padding
    zeros; an empty string has no width, a zero no precision 0 and no 0x; an octal
    number with the flag # has no precision; an argument for the modifier h is a
    short.  (Zero padding of other things than numbers is undefined in C.) *)
Record fits (sp : spec) : Prop := {
  fit_width : width_of sp ≤ MAXFLD;
  fit_precision : match sprec sp with None => True | Some sz => -1 ≤ size_value sz ≤ MAXFLD end;
  fit_length : Z.of_nat (length (conv_text sp).1) ≤ MAXFLD;
  fit_prefix : fminus (flags_of sp) = false → pad_of sp = 48 → Z.of_nat (length (conv_text sp).1) < width_of sp →
    (conv_text sp).2 ≤ width_of sp - Z.of_nat (length (conv_text sp).1);
  fit_pad : numeric sp = false → pad (flags_of sp) = 32;
  fit_string : sconv sp = 115 → (conv_text sp).1 ≠ [] ∨ width_of sp = 0;
  fit_zero : numeric sp = true → u32 (sarg sp) = 0 → precision_of sp ≠ Some 0;
  fit_octal : sconv sp = 111 → falt (flags_of sp) = true → precision_of sp = None;
  fit_hex : sconv sp = 120 ∨ sconv sp = 88 → falt (flags_of sp) = true → u32 (sarg sp) ≠ 0;
  fit_short : smod sp = [104] → if (sconv sp =? 100) || (sconv sp =? 105) then -32768 ≤ s32 (sarg sp) < 32768
    else u32 (sarg sp) < 65536;
}.
Definition piece_ok (K : Z → Prop) (m : gmap Z Z) (p : piece) : Prop :=
  match p with Lit c => 0 < c < 256 ∧ c ≠ 37 | Percent => True | Conv sp => spec_ok sp ∧ fits sp ∧ arg_ok K m sp end.

Lemma std_width sp : fits sp → prf_width sp = width_of sp.
Proof.
  intros [Hw _ _ _ _ _ _ _ _ _]. unfold prf_width, width_value, width_of in *. destruct (swidth sp) as [sz|]; [|done]. cbv zeta.
  by rewrite (proj2 (Z.ltb_ge _ _) Hw).
Qed.
Lemma std_precision sp :
  fits sp → prf_precision sp = from_option id (-1) (precision_of sp) ∧ from_option (λ p, 0 ≤ p ≤ MAXFLD) True (precision_of sp).
Proof.
  intros [_ Hp _ _ _ _ _ _ _ _]. unfold prf_precision, precision_value, precision_of. destruct (sprec sp) as [sz|]; [|done]. cbv zeta.
  rewrite (proj2 (Z.ltb_ge _ _)) by lia. destruct (size_value sz <? 0) eqn:E; zbool; simpl; lia.
Qed.
Lemma digit_text_min n base p : digit_text n base (Z.max p 1) = digit_text n base p.
Proof.
  unfold digit_text. cbv zeta. pose proof (digits_low_pos 31 n base) as Hl. rewrite length_rev. do 2 f_equal. lia.
Qed.
Lemma digits_of_text n base p :
  from_option (λ p, 0 ≤ p ≤ MAXFLD) True p → (n = 0 → p ≠ Some 0) → digits_of n base p = digit_text n base (from_option id (-1) p).
Proof.
  intros Hp Hz. unfold digits_of. destruct p as [p|]; simpl in *; [|exact (digit_text_min n base (-1))].
  destruct ((n =? 0) && (p =? 0)) eqn:E; [|done]. apply andb_true_iff in E as [E1 E2]. zbool. subst. by destruct (Hz eq_refl).
Qed.
Lemma s32_of_u32 x : s32 x = 0 ↔ u32 x = 0.
Proof. unfold s32, u32. dlia. Qed.
Lemma std_signed sp : spec_ok sp → fits sp → sconv sp = 100 ∨ sconv sp = 105 → signed_arg sp = s32 (sarg sp).
Proof.
  intros _ Hf Hc. unfold signed_arg. case_bool_decide as Em; [|done]. pose proof (fit_short _ Hf Em) as Hs.
  rewrite (proj2 (orb_true_iff _ _)) in Hs by (rewrite !Z.eqb_eq; tauto). unfold s32 in *. dlia.
Qed.
Lemma std_unsigned sp : fits sp → sconv sp ≠ 100 → sconv sp ≠ 105 → unsigned_arg sp = u32 (sarg sp).
Proof.
  intros Hf H1 H2. unfold unsigned_arg. case_bool_decide as Em; [|done]. pose proof (fit_short _ Hf Em) as Hs.
  rewrite (proj2 (orb_false_iff _ _)) in Hs by (by rewrite !Z.eqb_neq). unfold u32 in *. dlia.
Qed.
(** The first digit of a number other than zero is not zero. *)
Lemma digits_low_last fuel n base : 2 ≤ base → 0 < n < 2 ^ Z.of_nat fuel → ∃ d l, rev (digits_low fuel n base) = d :: l ∧ d ≠ 0.
Proof.
  intros Hb. revert n. induction fuel as [|fuel IH]; intros n Hn; [simpl in Hn; lia|]. cbn [digits_low rev].
  rewrite Nat2Z.inj_succ, Z.pow_succ_r in Hn by lia. pose proof (Z.div_mod n base ltac:(lia)). pose proof (Z.mod_pos_bound n base ltac:(lia)).
  pose proof (Z.div_pos n base ltac:(lia) ltac:(lia)). assert (n / base ≤ n / 2) by (apply Z.div_le_compat_l; lia).
  destruct (n / base =? 0) eqn:E; zbool; simpl.
  - exists (n mod base), []. split; [done|lia].
  - destruct (IH (n / base)) as (d & l & -> & Hd); [dlia|]. by eexists d, _.
Qed.

Lemma std_text sp : spec_ok sp → fits sp → prf_text sp = conv_text sp.
Proof.
  intros Hok Hf. destruct (std_precision sp Hf) as [Ep Hp]. pose proof Hok as (_ & _ & _ & _ & Hc). apply in_list_spec in Hc.
  pose proof (fit_length _ Hf) as Hl. unfold prf_text, conv_text in *. rewrite Ep. set (p := precision_of sp) in *.
  assert (Hdig : numeric sp = true → ∀ n base, (n = 0 → u32 (sarg sp) = 0) → digit_text n base (from_option id (-1) p) = digits_of n base p).
  { intros Hn n base Hz. symmetry. apply digits_of_text; [done|]. intros E. by apply (fit_zero _ Hf Hn), Hz. }
  pose proof (std_unsigned sp Hf) as Hu. rewrite !elem_of_cons, elem_of_nil in Hc.
  assert (Hs : sconv sp = 100 ∨ sconv sp = 105 → signed_arg sp = s32 (sarg sp)) by by apply std_signed.
  assert (Hz : Z.abs (s32 (sarg sp)) = 0 → u32 (sarg sp) = 0) by (intros E; apply s32_of_u32; lia).
  unfold numeric in Hdig. pose proof (fit_octal _ Hf) as Ho. pose proof (fit_hex _ Hf) as Hx. fold p in Ho.
  destruct Hc as [E|[E|[E|[E|[E|[E|[E|[E|[E|[]]]]]]]]]]; rewrite E in *; cbn [existsb orb Z.eqb Pos.eqb andb in_list] in *; try done.
  - rewrite Hs, Hdig by (done || by left). done.
  - rewrite Hs, Hdig by (done || by right). done.
  - rewrite Hu by done. destruct (falt (flags_of sp)) eqn:Ea; cbn [andb]; [|by rewrite Hdig].
    rewrite (Ho eq_refl eq_refl) in *. cbn [from_option digits_of id]. pose proof (u32_range (sarg sp)) as Hr.
    destruct (u32 (sarg sp) =? 0) eqn:E0; zbool; [by rewrite E0|].
    assert (digit_text (u32 (sarg sp)) 8 (-1) = digit_text (u32 (sarg sp)) 8 1) as -> by exact (eq_sym (digit_text_min _ _ (-1))).
    destruct (digits_low_last 32 (u32 (sarg sp)) 8) as (d & l & Ed & Hd); [lia|change (2 ^ Z.of_nat 32) with 4294967296; lia|].
    assert (head (digit_text (u32 (sarg sp)) 8 1) = Some d) as ->.
    { unfold digit_text. cbv zeta. rewrite Ed. simpl. by replace (Z.to_nat _) with 0%nat by lia. }
    by rewrite bool_decide_eq_false_2 by congruence.
  - f_equal. unfold MAXFLD in *. destruct p as [p|]; cbn [from_option id fst] in *.
    + rewrite (proj2 (Z.leb_le 0 p)), take_take by lia. f_equal. lia.
    + apply take_ge. lia.
  - rewrite Hu, Hdig by done. done.
  - rewrite Hu by done. rewrite Hdig by done. destruct (falt (flags_of sp)); cbn [andb]; [|done].
    rewrite (proj2 (Z.eqb_neq _ _)) by (apply Hx; [by left|done]). done.
  - rewrite Hu by done. rewrite Hdig by done. destruct (falt (flags_of sp)); cbn [andb]; [|done].
    rewrite (proj2 (Z.eqb_neq _ _)) by (apply Hx; [by right|done]). done.
Qed.
Lemma std_pad sp : spec_ok sp → fits sp → prf_pad sp = pad_of sp.
Proof.
  intros Hok Hf. destruct (std_precision sp Hf) as [Ep Hp]. pose proof Hok as (_ & _ & _ & _ & Hc). apply in_list_spec in Hc.
  pose proof (flag_pad sp) as Hfl. pose proof (fit_pad _ Hf) as Hn. unfold prf_pad, pad_of. rewrite Ep.
  destruct (numeric sp) eqn:En.
  - assert (existsb (Z.eqb (sconv sp)) [99; 115] = false) as ->.
    { apply not_true_is_false. intros E. apply (in_list_spec [99; 115]) in E. apply in_list_spec in En. rewrite !elem_of_cons, elem_of_nil in *. lia. }
    destruct (precision_of sp) as [p|]; simpl in *.
    + by rewrite andb_false_r, (proj2 (Z.eqb_neq p (-1))) by (unfold id; lia).
    + by destruct Hfl as [-> | ->].
  - rewrite (Hn eq_refl). simpl. by repeat case_match.
Qed.
Lemma std_output sp : spec_ok sp → fits sp → prf_output sp = spec_output sp ∧ prf_fits sp.
Proof.
  intros Hok Hf. pose proof (std_text sp Hok Hf) as Et. pose proof (std_width sp Hf) as Ew. pose proof (std_pad sp Hok Hf) as Epad.
  unfold prf_output, spec_output, prf_fits. rewrite Et, Ew, Epad. split.
  - pose proof (fit_string _ Hf) as Hs. destruct (conv_text sp) as [cs prefix]. cbn [fst] in Hs.
    destruct ((sconv sp =? 115) && bool_decide (cs = [])) eqn:E; [|done]. apply andb_true_iff in E as [E1 E2].
    apply bool_decide_eq_true in E2. zbool. subst cs. destruct (Hs E1) as [|Hw]; [done|]. unfold field. rewrite Hw. simpl.
    rewrite take_nil, drop_nil. by repeat case_match.
  - split; [apply Hf|]. intros H1 H2. apply (fit_prefix _ Hf); [done|]. unfold pad_of in *. by destruct (_ && _).
Qed.
Lemma std_outputs K m ps : Forall (piece_ok K m) ps → prf_output_of ps = output_of ps ∧ Forall (prf_piece_ok K m) ps.
Proof.
  unfold output_of, prf_output_of. induction 1 as [|p ps Hp _ [IH1 IH2]]; [done|]. split.
  - change (prf_piece p ++ concat (prf_piece <$> ps) = piece_output p ++ concat (piece_output <$> ps)). f_equal; [|done].
    destruct p as [c| |sp]; [done..|]. simpl in *. apply std_output; apply Hp.
  - constructor; [|done]. destruct p as [c| |sp]; [done..|]. destruct Hp as (? & ? & ?). split_and!; [done|by apply std_output|done].
Qed.


Definition sample_format : list piece :=
  [Lit 97;
   Conv {| sflags := [48]; swidth := Some (Digits [5]); sprec := None; smod := [108]; sconv := 100; sarg := 4294967289; sstr := [] |};
   Percent;
   Conv {| sflags := [45]; swidth := Some (Star 6); sprec := Some (Digits [3]); smod := []; sconv := 115; sarg := 300; sstr := [104; 101; 108; 108; 111] |};
   Conv {| sflags := [35]; swidth := None; sprec := None; smod := []; sconv := 88; sarg := 171; sstr := [] |}].

(** Where the output is not the one the C standard describes: a prefix is lost when one zero of padding
    follows it (%#05x), an empty string is not padded (%5s), %n makes the result [EOF],
    a specification cut short by the end of the format is read on behind it (%5), zero has a 0x
    (%#x) and a digit although the precision is 0 (%.0d), # makes an octal number one digit longer than
    its precision (%#.3o), and a string ends after 80 characters (%s). *)
Definition print_sample (fmt : list Z) (vargs : list va_arg) : option (Z * list Z) :=
  '(r, m) ← vsnprintf 5000 6000 200 1000 100 100 vargs (write_bytes 300 [0] (write_bytes 100 (fmt ++ [0; 65; 66; 0]) ∅));
  Some (r, read_bytes (Z.to_nat r) 1000 m).
Lemma printf_deviations :
  print_sample [37; 35; 48; 53; 120] [VWord 171] = Some (5, [48; 48; 48; 97; 98]) ∧
  print_sample [37; 53; 115] [VWord 300] = Some (0, []) ∧
  print_sample [97; 37; 110] [VWord 200] = Some (-1, []) ∧
  print_sample [37; 53] [] = Some (1, [66]) ∧
  print_sample [37; 35; 120] [VWord 0] = Some (3, [48; 120; 48]) ∧
  print_sample [37; 46; 48; 100] [VWord 0] = Some (1, [48]) ∧
  print_sample [37; 35; 46; 51; 111] [VWord 8] = Some (4, [48; 48; 49; 48]) ∧
  (λ r : Z * gmap Z Z, r.1) <$> vsnprintf 5000 6000 200 1000 400 100 [VWord 2000]
    (write_bytes 2000 (replicate 330 49 ++ [0]) (write_bytes 100 [37; 115; 0] ∅)) = Some 80.
Proof. vm_compute. done. Qed.

(** [_prf] can write behind its buffer of [MAXFLD] + 1 bytes.  A precision of [MAXFLD] is let through, and a
    sign and the final 0 come on top of it: for every number %+.80d stores a 0 one byte behind
    the buffer before the length is looked at.  %f of the largest double stores 316 characters and a 0. *)
Theorem prf_overruns_buffer x buf f vargs m :
  fplus f = true →
  (∃ m', convert buf 100 f MAXFLD 0 (VWord x :: vargs) m = Some (Field (MAXFLD + 1) true 1 32, vargs, m') ∧
    m' !!! (buf + MAXFLD + 1) = 0 ∧ ¬ in_buf buf (buf + MAXFLD + 1)) ∧
  (λ r : Z * gmap Z Z, (r.1, r.2 !!! 1316)) <$> _to_float 1000 0x7FEFFFFFFFFFFFFF 102 false false false (-1) ∅ = Some (316, 0).
Proof.
  intros Hf. split; [|by vm_compute].
  unfold convert, convert_word. cbn [word_conversions existsb orb Z.eqb Pos.eqb mbind option_bind va_word]. pose proof (s32_range x).
  rewrite to_dec_spec by lia. cbv zeta. rewrite Hf. cbn [orb]. set (sgn := if s32 x <? 0 then [45] else [43]). set (cs := digit_char <$> _).
  assert (Hsgn : length sgn = 1%nat) by (unfold sgn; by destruct (s32 x <? 0)).
  assert (Hcs : length cs = 80%nat).
  { unfold cs. rewrite length_fmap. unfold digit_text, MAXFLD. rewrite length_app, length_replicate, length_rev. pose proof (digits_low_length 32 (Z.abs (s32 x)) 10). lia. }
  eexists. rewrite length_app, Hsgn, Hcs. split_and!; [done| |unfold in_buf; lia]. rewrite app_assoc, write_bytes_snoc, length_app, Hsgn, Hcs.
  unfold MAXFLD. replace (buf + 80 + 1) with (buf + Z.of_nat (1 + 80)) by lia. apply lookup_total_insert_eq.
Qed.
Lemma prf_overruns_buffer_witness : ∃ m', convert 2000 100 (set_flag 43 no_flags) MAXFLD 0 [VWord 7] ∅ = Some (Field 81 true 1 32, [], m') ∧ m' !!! 2081 = 0.
Proof. destruct (prf_overruns_buffer 7 2000 (set_flag 43 no_flags) [] ∅ eq_refl) as [(m' & H1 & H2 & _) _]. exists m'. split; [exact H1|exact H2]. Defined.
