(* ===== verification/Printk.v ===== *)
(** * printk ([misc/sprintk.c])

    The kernel's own format interpreter [_vprintk], and [snprintk] on it.  The
    output function is a parameter, as in [Printf]; its result is ignored. *)
From stdpp Require Import gmap list.
From S2P Require Import Prelude Mem Ring Libc Strtol Prf Output Printf PrintfProps.
Local Open Scope Z_scope.

Inductive pad_type := PAD_NONE | PAD_ZERO_BEFORE | PAD_SPACE_BEFORE | PAD_SPACE_AFTER.
#[global] Instance pad_type_eq_dec : EqDecision pad_type.
Proof. solve_decision. Defined.

Section Printk.
  Context {dest : Type} (out : Z → dest → gmap Z Z → Z * dest * gmap Z Z).

Definition put_char (c : Z) (dm : dest * gmap Z Z) : dest * gmap Z Z := let '(_, d, m) := out c dm.1 dm.2 in (d, m).
(** [while (remaining-- > 0) out(' ', ctx);] *)
Definition put_spaces (n : Z) (dm : dest * gmap Z Z) : dest * gmap Z Z := Nat.iter (Z.to_nat n) (put_char 32) dm.

(** The nibbles of [num] from the [size]-th on; [digits] counts the ones printed. *)
Fixpoint hex_loop (size : nat) (num : Z) (padding : pad_type) (min_width : Z) (found : bool) (remaining digits : Z) (dm : dest * gmap Z Z) : Z * (dest * gmap Z Z) :=
  match size with
  | O => (digits, dm)
  | S size' =>
      let nibble := Z.land (Z.shiftr num (4 * Z.of_nat size')) 15 in
      if negb (nibble =? 0) || found || bool_decide (size = 1%nat) then
        hex_loop size' num padding min_width true remaining (digits + 1) (put_char (nibble + (if 9 <? nibble then 87 else 48)) dm)
      else
        let dm :=
          if remaining <=? min_width then
            match padding with PAD_ZERO_BEFORE => put_char 48 dm | PAD_SPACE_BEFORE => put_char 32 dm | _ => dm end
          else dm in
        hex_loop size' num padding min_width found (remaining - 1) digits dm
  end.
Definition _printk_hex_ulong (num : Z) (padding : pad_type) (min_width : Z) (dm : dest * gmap Z Z) : dest * gmap Z Z :=
  let '(digits, dm) := hex_loop 8 num padding min_width false 8 0 dm in
  if decide (padding = PAD_SPACE_AFTER) then put_spaces (s32 (s32 (min_width * 2) - digits)) dm else dm.

(** [while (pos >= 9)]: nine rounds from 999999999. *)
Fixpoint dec_loop (fuel : nat) (pos rest : Z) (padding : pad_type) (min_width : Z) (found : bool) (remaining digits : Z) (dm : dest * gmap Z Z) : Z * Z * (dest * gmap Z Z) :=
  match fuel with
  | O => (rest, digits, dm)
  | S fuel =>
      if 9 <=? pos then
        let next := dec_loop fuel (pos / 10) (rest mod (pos + 1)) padding min_width in
        if found || (pos <? rest) then next true (remaining - 1) (digits + 1) (put_char (rest / (pos + 1) + 48) dm)
        else if (remaining <=? min_width) && bool_decide (padding ≠ PAD_SPACE_AFTER) then
          next found (remaining - 1) (digits + 1) (put_char (if decide (padding = PAD_ZERO_BEFORE) then 48 else 32) dm)
        else next found (remaining - 1) digits dm
      else (rest, digits, dm)
  end.
Definition _printk_dec_ulong (num : Z) (padding : pad_type) (min_width : Z) (dm : dest * gmap Z Z) : dest * gmap Z Z :=
  let min_width := if min_width <=? 0 then 1 else min_width in
  let '(rest, digits, dm) := dec_loop 10 999999999 num padding min_width false 10 1 dm in
  let dm := put_char (rest + 48) dm in
  if decide (padding = PAD_SPACE_AFTER) then put_spaces (min_width - digits) dm else dm.

(** The characters of the string at [s]. *)
Fixpoint put_string (fuel : nat) (s : Z) (dm : dest * gmap Z Z) : option (dest * gmap Z Z) :=
  match fuel with
  | O => None
  | S fuel => let c := char_at dm.2 s in if c =? 0 then Some dm else put_string fuel (s + 1) (put_char c dm)
  end.

(** An argument of 32 bits, or the low half of one of 64. *)
Definition take_long (long_ctr : Z) (vargs : list va_arg) : option (Z * list va_arg) :=
  if long_ctr <? 2 then va_word vargs else '(x, vargs) ← va_dword vargs; Some (u32 x, vargs).

(** The local variables of [_vprintk]. *)
Record pstate := { might_format : bool; padding : pad_type; min_width : Z; long_ctr : Z }.
Definition text_state : pstate := {| might_format := false; padding := PAD_NONE; min_width := -1; long_ctr := 0 |}.
Definition percent_state : pstate := {| might_format := true; padding := PAD_NONE; min_width := -1; long_ctr := 0 |}.
Definition end_format (st : pstate) : pstate :=
  {| might_format := false; padding := padding st; min_width := min_width st; long_ctr := long_ctr st |}.
(** A digit of the width. *)
Definition width_digit (c : Z) (st : pstate) : pstate :=
  {| might_format := true;
     padding := if decide (padding st = PAD_NONE) then PAD_SPACE_BEFORE else padding st;
     min_width := s32 (if min_width st <? 0 then c - 48 else 10 * min_width st + c - 48);
     long_ctr := long_ctr st |}.
Definition set_padding (p : pad_type) (st : pstate) : pstate :=
  {| might_format := true; padding := p; min_width := min_width st; long_ctr := long_ctr st |}.

(** The character [c] of a conversion specification: the new variables, arguments and output. *)
Definition format_char (fuel : nat) (c : Z) (st : pstate) (vargs : list va_arg) (dm : dest * gmap Z Z) : option (pstate * list va_arg * (dest * gmap Z Z)) :=
  if c =? 45 then Some (set_padding PAD_SPACE_AFTER st, vargs, dm)
  else if (c =? 48) && (min_width st <? 0) && bool_decide (padding st = PAD_NONE) then Some (set_padding PAD_ZERO_BEFORE st, vargs, dm)
  else if (48 <=? c) && (c <=? 57) then Some (width_digit c st, vargs, dm)
  else if c =? 108 then
    Some ({| might_format := true; padding := padding st; min_width := min_width st; long_ctr := long_ctr st + 1 |}, vargs, dm)
  else if (c =? 122) || (c =? 104) then Some (st, vargs, dm)
  else if (c =? 100) || (c =? 105) then
    '(x, vargs) ← take_long (long_ctr st) vargs;
    let d := s32 x in
    let '(d, w, dm) := if d <? 0 then (s32 (- d), min_width st - 1, put_char 45 dm) else (d, min_width st, dm) in
    Some ({| might_format := false; padding := padding st; min_width := w; long_ctr := long_ctr st |}, vargs, _printk_dec_ulong (u32 d) (padding st) w dm)
  else if c =? 117 then
    '(x, vargs) ← take_long (long_ctr st) vargs;
    Some (end_format st, vargs, _printk_dec_ulong (u32 x) (padding st) (min_width st) dm)
  else if c =? 112 then
    '(x, vargs) ← take_long (long_ctr st) vargs;
    Some ({| might_format := false; padding := PAD_ZERO_BEFORE; min_width := 8; long_ctr := long_ctr st |}, vargs,
      _printk_hex_ulong (u32 x) PAD_ZERO_BEFORE 8 (put_char 120 (put_char 48 dm)))
  else if (c =? 120) || (c =? 88) then
    '(x, vargs) ← take_long (long_ctr st) vargs;
    Some (end_format st, vargs, _printk_hex_ulong (u32 x) (padding st) (min_width st) dm)
  else if c =? 115 then
    '(s, vargs) ← va_word vargs;
    dm ← put_string fuel s dm;
    Some (end_format st, vargs, dm)
  else if c =? 99 then
    '(x, vargs) ← va_word vargs;
    Some (end_format st, vargs, put_char (s32 x) dm)
  else if c =? 37 then Some (end_format st, vargs, put_char 37 dm)
  else Some (end_format st, vargs, put_char c (put_char 37 dm)).

Fixpoint _vprintk_loop (fuel : nat) (fmt : Z) (st : pstate) (vargs : list va_arg) (dm : dest * gmap Z Z) : option (dest * gmap Z Z) :=
  match fuel with
  | O => None
  | S fuel =>
      let c := char_at dm.2 fmt in
      if c =? 0 then Some dm
      else if might_format st then
        '(st, vargs, dm) ← format_char fuel c st vargs dm;
        _vprintk_loop fuel (fmt + 1) st vargs dm
      else if c =? 37 then _vprintk_loop fuel (fmt + 1) percent_state vargs dm
      else _vprintk_loop fuel (fmt + 1) st vargs (put_char c dm)
  end.
Definition _vprintk (fuel : nat) (fmt : Z) (ap : list va_arg) (d : dest) (m : gmap Z Z) : option (dest * gmap Z Z) :=
  _vprintk_loop fuel fmt text_state ap (d, m).
End Printk.

(** ** snprintk *)

Record str_context := { str : Z; max : Z; count : Z }.
Definition str_out (c : Z) (ctx : str_context) (m : gmap Z Z) : Z * str_context * gmap Z Z :=
  let ctx' := {| str := str ctx; max := max ctx; count := count ctx + 1 |} in
  if (str ctx =? 0) || (max ctx <=? count ctx) then (c, ctx', m)
  else if count ctx =? max ctx - 1 then (c, ctx', <[str ctx + count ctx := 0]> m)
  else (c, ctx', <[str ctx + count ctx := u8 c]> m).
Definition vsnprintk (fuel : nat) (s size fmt : Z) (ap : list va_arg) (m : gmap Z Z) : option (Z * gmap Z Z) :=
  '(ctx, m) ← _vprintk str_out fuel fmt ap {| str := s; max := s32 size; count := 0 |} m;
  Some (count ctx, if count ctx <? max ctx then <[s + count ctx := 0]> m else m).
Definition snprintk := vsnprintk.

(** ** Digits from the highest *)

(** The digits of [r] at the places [j], ..., 0. *)
Fixpoint places (base : Z) (j : nat) (r : Z) : list Z :=
  match j with O => [r] | S j' => r / base ^ Z.of_nat j :: places base j' (r mod base ^ Z.of_nat j) end.

Lemma number_pow base v ds : number base v ds = v * base ^ Z.of_nat (length ds) + number base 0 ds.
Proof.
  revert v. induction ds as [|d ds IH]; intros v; [simpl; lia|]. change (number base v (d :: ds)) with (number base (v * base + d) ds).
  change (number base 0 (d :: ds)) with (number base (0 * base + d) ds). rewrite (IH (v * base + d)), (IH (0 * base + d)). cbn [length].
  rewrite Nat2Z.inj_succ, Z.pow_succ_r by lia. ring.
Qed.
Lemma number_cons base d ds : number base 0 (d :: ds) = d * base ^ Z.of_nat (length ds) + number base 0 ds.
Proof. change (number base 0 (d :: ds)) with (number base (0 * base + d) ds). by rewrite number_pow. Qed.
Lemma number_bound base ds : 2 ≤ base → Forall (λ d, 0 ≤ d < base) ds → 0 ≤ number base 0 ds < base ^ Z.of_nat (length ds).
Proof.
  intros Hb. induction 1 as [|d ds Hd _ IH]; [simpl; lia|]. rewrite number_cons.
  cbn [length]. rewrite Nat2Z.inj_succ, Z.pow_succ_r by lia. nia.
Qed.
Lemma number_inj base ds1 ds2 :
  2 ≤ base → Forall (λ d, 0 ≤ d < base) ds1 → Forall (λ d, 0 ≤ d < base) ds2 → length ds1 = length ds2 →
  number base 0 ds1 = number base 0 ds2 → ds1 = ds2.
Proof.
  intros Hb H1. revert ds2. induction H1 as [|d1 ds1 Hd1 H1 IH]; intros [|d2 ds2] H2 Hl Hn; try done. apply Forall_cons in H2 as [Hd2 H2]. injection Hl as Hl.
  rewrite !number_cons, Hl in Hn.
  pose proof (number_bound base ds1 Hb H1) as B1. pose proof (number_bound base ds2 Hb H2) as B2. rewrite Hl in B1.
  assert (d1 = d2) as -> by nia. f_equal. apply IH; [done..|lia].
Qed.
Lemma places_props base j r :
  2 ≤ base → 0 ≤ r < base ^ Z.of_nat (S j) →
  length (places base j r) = S j ∧ Forall (λ d, 0 ≤ d < base) (places base j r) ∧ number base 0 (places base j r) = r.
Proof.
  intros Hb. revert r. induction j as [|j IH]; intros r Hr; cbn [places].
  - rewrite Z.pow_1_r in Hr. split_and!; [done|by apply Forall_singleton|simpl; lia].
  - set (P := base ^ Z.of_nat (S j)) in *. assert (HP : 0 < P) by (apply Z.pow_pos_nonneg; lia).
    rewrite Nat2Z.inj_succ, Z.pow_succ_r in Hr by lia. fold P in Hr. destruct (IH (r mod P)) as (H1 & H2 & H3); [apply Z.mod_pos_bound; lia|].
    pose proof (Z.div_mod r P ltac:(lia)). pose proof (Z.mod_pos_bound r P HP).
    split_and!; [cbn [length]; lia|constructor; [|done]; split; [apply Z.div_pos; lia|apply Z.div_lt_upper_bound; lia]|].
    rewrite number_cons, H1, H3. fold P. nia.
Qed.

(** They are the digits [_to_x] prints: as many as asked for, or from the first that is not 0. *)
Lemma digits_low_bound fuel n base k : 2 ≤ base → 0 ≤ n < base ^ Z.of_nat (S k) → (length (digits_low fuel n base) ≤ S k)%nat.
Proof.
  intros Hb. revert fuel n. induction k as [|k IH]; intros [|fuel] n Hn; cbn [digits_low length]; try lia.
  - rewrite Z.pow_1_r in Hn. rewrite Z.div_small by lia. simpl. lia.
  - rewrite Nat2Z.inj_succ, Z.pow_succ_r in Hn by lia. destruct (_ =? 0); [simpl; lia|]. apply le_n_S, IH. split; [apply Z.div_pos; lia|apply Z.div_lt_upper_bound; lia].
Qed.
Lemma digit_text_places base j r :
  2 ≤ base → 0 ≤ r < 4294967296 → r < base ^ Z.of_nat (S j) → digit_text r base (Z.of_nat (S j)) = places base j r.
Proof.
  intros Hb Hr Hj. destruct (places_props base j r Hb ltac:(lia)) as (H1 & H2 & H3).
  apply (number_inj base); [done|by apply digit_text_range|done| |by rewrite digit_text_value].
  rewrite H1. pose proof (digits_low_bound 32 r base j Hb ltac:(lia)). unfold digit_text. rewrite length_app, length_replicate, length_rev. lia.
Qed.
Lemma digit_text_high base j r :
  2 ≤ base → 0 ≤ r < 4294967296 → base ^ Z.of_nat j ≤ r < base ^ Z.of_nat (S j) → digit_text r base 0 = places base j r.
Proof.
  intros Hb Hr Hj. rewrite <-digit_text_places by (done || lia). unfold digit_text. pose proof (digits_low_bound 32 r base j Hb ltac:(lia)).
  assert (S j ≤ length (digits_low 32 r base))%nat.
  { pose proof (number_bound base (digit_text r base 0) Hb (digit_text_range r base 0 Hb)) as [_ Hlt]. rewrite digit_text_value in Hlt by done.
    unfold digit_text in Hlt. rewrite length_app, length_replicate, length_rev in Hlt.
    replace (Z.to_nat (0 - _)) with 0%nat in Hlt by lia. rewrite Nat.add_0_l in Hlt. apply Nat.nlt_ge. intros Hs.
    assert (base ^ Z.of_nat (length (digits_low 32 r base)) ≤ base ^ Z.of_nat j) by (apply Z.pow_le_mono_r; lia). lia. }
  rewrite length_rev. f_equal. f_equal. lia.
Qed.
Lemma digit_text_short base j r : 2 ≤ base → 0 ≤ r < base ^ Z.of_nat (S j) → (length (digit_text r base 0) ≤ S j)%nat.
Proof.
  intros Hb Hr. pose proof (digits_low_bound 32 r base j Hb Hr). unfold digit_text. rewrite length_app, length_replicate, length_rev. lia.
Qed.
Lemma digits_low_small fuel r base : 0 ≤ r < base → digits_low (S fuel) r base = [r].
Proof. intros Hr. cbn [digits_low]. by rewrite Z.div_small, Z.mod_small by lia. Qed.
Lemma digit_text_digit base r : 2 ≤ base → 0 ≤ r < base → digit_text r base 0 = [r].
Proof. intros Hb Hr. unfold digit_text. by rewrite digits_low_small by lia. Qed.

(** ** What is printed *)

Definition pad_char (p : pad_type) : Z := if decide (p = PAD_ZERO_BEFORE) then 48 else 32.
(** A decimal number: at most ten places are filled in front of it. *)
Definition dec_text (p : pad_type) (w num : Z) : list Z :=
  let ds := digit_char <$> digit_text num 10 0 in
  let n := Z.of_nat (length ds) in
  if decide (p = PAD_SPACE_AFTER) then ds ++ replicate (Z.to_nat (w - n)) 32
  else replicate (Z.to_nat (Z.min w 10 - n)) (pad_char p) ++ ds.
(** A hexadecimal number: at most eight places in front, and twice the width with spaces behind. *)
Definition hex_text (p : pad_type) (w num : Z) : list Z :=
  let ds := digit_char <$> digit_text num 16 0 in
  let n := Z.of_nat (length ds) in
  match p with
  | PAD_NONE => ds
  | PAD_SPACE_AFTER => ds ++ replicate (Z.to_nat (w * 2 - n)) 32
  | _ => replicate (Z.to_nat (Z.min w 8 - n)) (pad_char p) ++ ds
  end.

(** A conversion: one of the flags '-' and '0' or none, digits of the width, a number of 'l', the
    conversion, its argument, and the string there for %s. *)
Record kspec := { kflag : list Z; kwidth : list Z; klong : nat; kconv : Z; karg : Z; kstr : list Z }.
Inductive kpiece := KLit (c : Z) | KPercent | KConv (sp : kspec).
Definition kspec_text (sp : kspec) : list Z := kflag sp ++ ((λ d, 48 + d) <$> kwidth sp) ++ replicate (klong sp) 108 ++ [kconv sp].
Definition kspec_arg (sp : kspec) : va_arg :=
  if in_list [99; 115] (kconv sp) || (Z.of_nat (klong sp) <? 2) then VWord (karg sp) else VDword (karg sp).
Definition kspec_ok (sp : kspec) : Prop :=
  (kflag sp = [] ∧ hd_error (kwidth sp) ≠ Some 0 ∨ kflag sp = [45] ∨ kflag sp = [48]) ∧
  Forall (λ d, 0 ≤ d < 10) (kwidth sp) ∧ number 10 0 (kwidth sp) < 1073741824 ∧ in_list [99; 100; 105; 112; 115; 117; 120; 88] (kconv sp) = true.
Definition kpadding (sp : kspec) : pad_type :=
  match kflag sp, kwidth sp with 45 :: _, _ => PAD_SPACE_AFTER | _ :: _, _ => PAD_ZERO_BEFORE | [], [] => PAD_NONE | [], _ => PAD_SPACE_BEFORE end.
Definition kmin_width (sp : kspec) : Z := match kwidth sp with [] => -1 | ds => number 10 0 ds end.

(** The text of a conversion: the sign stands in front of the padding, and the width has no effect on strings and characters. *)
Definition kspec_output (sp : kspec) : list Z :=
  let x := s32 (karg sp) in
  let p := kpadding sp in
  let w := kmin_width sp in
  let c := kconv sp in
  if (c =? 100) || (c =? 105) then (if x <? 0 then 45 :: dec_text p (w - 1) (- x) else dec_text p w x)
  else if c =? 117 then dec_text p w (u32 (karg sp))
  else if c =? 112 then 48 :: 120 :: hex_text PAD_ZERO_BEFORE 8 (u32 (karg sp))
  else if c =? 115 then kstr sp
  else if c =? 99 then [u8 (karg sp)]
  else hex_text p w (u32 (karg sp)).

Definition kpiece_format (p : kpiece) : list Z := match p with KLit c => [c] | KPercent => [37; 37] | KConv sp => 37 :: kspec_text sp end.
Definition kpiece_args (p : kpiece) : list va_arg := match p with KConv sp => [kspec_arg sp] | _ => [] end.
Definition kpiece_output (p : kpiece) : list Z := match p with KLit c => [c] | KPercent => [37] | KConv sp => kspec_output sp end.
Definition kformat_of (ps : list kpiece) : list Z := concat (kpiece_format <$> ps).
Definition kargs_of (ps : list kpiece) : list va_arg := concat (kpiece_args <$> ps).
Definition koutput_of (ps : list kpiece) : list Z := concat (kpiece_output <$> ps).

(** The variables when the conversion character is reached. *)
Definition kstate (sp : kspec) : pstate :=
  {| might_format := true; padding := kpadding sp; min_width := kmin_width sp; long_ctr := Z.of_nat (klong sp) |}.

Section Printed.
  Context {dest : Type} {out : Z → dest → gmap Z Z → Z * dest * gmap Z Z} {R : Z → Prop} {holds : dest → gmap Z Z → list Z → Prop} `{!Output out R holds}.

(** From [dm] to [dm'] the text [t] was handed out. *)
Definition printed (dm : dest * gmap Z Z) (t : list Z) (dm' : dest * gmap Z Z) : Prop :=
  ∀ l, holds dm.1 dm.2 l → holds dm'.1 dm'.2 (l ++ t) ∧ same_on (λ a, ¬ R a) dm.2 dm'.2.
Lemma printed_nil dm : printed dm [] dm.
Proof. intros l Hl. by rewrite app_nil_r. Qed.
Lemma printed_app dm t1 dm1 t2 dm2 : printed dm t1 dm1 → printed dm1 t2 dm2 → printed dm (t1 ++ t2) dm2.
Proof. intros H1 H2 l Hl. destruct (H1 l Hl) as [Hl1 Hs1]. destruct (H2 _ Hl1) as [Hl2 Hs2]. rewrite app_assoc. split; [done|by etrans]. Qed.
Lemma printed_char dm c x : u8 c = x → printed dm [x] (put_char out c dm).
Proof.
  intros <- l Hl. unfold put_char. destruct (out c dm.1 dm.2) as [[r d] m] eqn:E. by apply (out_step _ _ _ _ _ _ _ Hl E).
Qed.
Lemma printed_cons dm c x t dm' : u8 c = x → printed (put_char out c dm) t dm' → printed dm (x :: t) dm'.
Proof. intros Hc H. apply (printed_app dm [x] (put_char out c dm) t); [by apply printed_char|done]. Qed.
Lemma printed_spaces n dm : printed dm (replicate (Z.to_nat n) 32) (put_spaces out n dm).
Proof.
  unfold put_spaces. generalize (Z.to_nat n). intros k. induction k as [|k IH]; [apply printed_nil|]. rewrite replicate_S_end. cbn [Nat.iter].
  eapply printed_app; [done|by apply printed_char].
Qed.
Lemma u8_digit d : 0 ≤ d < 16 → u8 (digit_char d) = digit_char d.
Proof. intros Hd. pose proof (digit_char_range d ltac:(lia)). apply u8_id. lia. Qed.

Lemma dec_loop_spec p w j fuel found rest remaining digits dm :
  (j < fuel)%nat → 0 ≤ rest < 10 ^ Z.of_nat (S j) → rest < 4294967296 → remaining = Z.of_nat (S j) → 1 ≤ w →
  let '(rest', digits', dm') := dec_loop out fuel (10 ^ Z.of_nat j - 1) rest p w found remaining digits dm in
  let ds := digit_char <$> digit_text rest 10 0 in
  0 ≤ rest' < 10 ∧ ∃ t, printed dm t dm' ∧ digits' = digits + Z.of_nat (length t) ∧
    t ++ [digit_char rest'] =
      if found then digit_char <$> places 10 j rest
      else replicate (if decide (p = PAD_SPACE_AFTER) then 0 else Z.to_nat (Z.min w (Z.of_nat (S j)) - Z.of_nat (length ds))) (pad_char p) ++ ds.
Proof.
  intros Hf Hr H32 -> Hw. revert fuel found rest digits dm Hf Hr H32. induction j as [|j IH]; intros [|fuel] found rest digits dm Hf Hr H32; try lia; cbn [dec_loop].
  - rewrite Z.pow_1_r in Hr. simpl (9 <=? _). split; [done|]. exists []. split_and!; [apply printed_nil|simpl; lia|]. rewrite digit_text_digit by lia.
    destruct found; [done|]. destruct (decide _); [done|]. cbn [length fmap list_fmap]. by replace (Z.to_nat _) with 0%nat by lia.
  - set (P := 10 ^ Z.of_nat (S j)) in *. assert (HP : P = 10 * 10 ^ Z.of_nat j) by (unfold P; rewrite Nat2Z.inj_succ, Z.pow_succ_r by lia; done).
    assert (0 < 10 ^ Z.of_nat j) by lia. rewrite Nat2Z.inj_succ, Z.pow_succ_r in Hr by lia. fold P in Hr.
    rewrite (proj2 (Z.leb_le 9 (P - 1))) by lia. replace (P - 1 + 1) with P by lia.
    replace ((P - 1) / 10) with (10 ^ Z.of_nat j - 1) by (rewrite HP; dlia). replace (Z.of_nat (S (S j)) - 1) with (Z.of_nat (S j)) by lia.
    pose proof (Z.mod_pos_bound rest P ltac:(lia)) as Hmod. pose proof (Z.mod_le rest P ltac:(lia) ltac:(lia)) as Hmle.
    destruct (found || (P - 1 <? rest)) eqn:E1; [|apply orb_false_iff in E1 as [-> E1]; zbool; rewrite (Z.mod_small rest P) in * by lia;
      destruct ((Z.of_nat (S (S j)) <=? w) && bool_decide (p ≠ PAD_SPACE_AFTER)) eqn:E2].
    + pose proof (IH fuel true (rest mod P) (digits + 1) (put_char out (rest / P + 48) dm) ltac:(lia) ltac:(lia) ltac:(lia)) as Hrun.
      destruct (dec_loop _ _ _ _ _ _ _ _ _ _) as [[rest' digits'] dm']. destruct Hrun as (Hr' & t & Ht & Hd & Heq).
      assert (Hq : 0 ≤ rest / P < 10) by (split; [apply Z.div_pos; lia|apply Z.div_lt_upper_bound; lia]).
      split; [done|]. exists (digit_char (rest / P) :: t). split_and!; [|cbn [length]; lia|].
      * eapply printed_cons; [|done]. rewrite <-u8_digit by lia. f_equal. unfold digit_char. rewrite (proj2 (Z.ltb_lt _ _)) by lia. lia.
      * cbn [app]. rewrite Heq. apply orb_true_iff in E1. destruct found; [done|]. destruct E1 as [|E1]; [done|]. zbool.
        assert (Hpl : digit_text rest 10 0 = places 10 (S j) rest).
        { apply digit_text_high; [lia..|]. rewrite (Nat2Z.inj_succ (S j)), Z.pow_succ_r by lia. fold P. lia. }
        rewrite Hpl, length_fmap. destruct (places_props 10 (S j) rest) as (-> & _); [lia|rewrite (Nat2Z.inj_succ (S j)), Z.pow_succ_r by lia; fold P; lia|].
        destruct (decide _); [done|]. by replace (Z.to_nat _) with 0%nat by lia.
    + apply andb_true_iff in E2 as [E2 E3]. apply bool_decide_eq_true in E3. zbool.
      pose proof (IH fuel false rest (digits + 1) (put_char out (pad_char p) dm) ltac:(lia) ltac:(lia) ltac:(lia)) as Hrun. fold (pad_char p).
      destruct (dec_loop _ _ _ _ _ _ _ _ _ _) as [[rest' digits'] dm']. destruct Hrun as (Hr' & t & Ht & Hd & Heq). split; [done|].
      exists (pad_char p :: t). split_and!; [|cbn [length]; lia|].
      * eapply printed_cons; [|done]. by destruct p.
      * cbn [app]. rewrite Heq. rewrite !decide_False by done. pose proof (digit_text_short 10 j rest ltac:(lia) ltac:(unfold P in *; lia)).
        rewrite length_fmap in *. replace (Z.to_nat (w `min` Z.of_nat (S (S j)) - _)) with (S (Z.to_nat (w `min` Z.of_nat (S j) - Z.of_nat (length (digit_text rest 10 0))))) by lia. done.
    + pose proof (IH fuel false rest digits dm ltac:(lia) ltac:(lia) ltac:(lia)) as Hrun.
      destruct (dec_loop _ _ _ _ _ _ _ _ _ _) as [[rest' digits'] dm']. destruct Hrun as (Hr' & t & Ht & Hd & Heq). split; [done|].
      exists t. split_and!; [done..|]. rewrite Heq. f_equal. f_equal. destruct (decide _) as [|Hp]; [done|].
      rewrite (bool_decide_true (p ≠ PAD_SPACE_AFTER)), andb_true_r in E2 by done. zbool. do 2 f_equal. lia.
Qed.

Lemma dec_ulong_spec num p w dm :
  0 ≤ num < 4294967296 → printed dm (dec_text p w num) (_printk_dec_ulong out num p w dm).
Proof.
  intros Hn. unfold _printk_dec_ulong, dec_text. set (w' := if w <=? 0 then 1 else w).
  assert (Hw : 1 ≤ w' ∧ w ≤ w' ∧ (w' = w ∨ w' = 1)) by (unfold w'; destruct (w <=? 0) eqn:E; zbool; lia).
  pose proof (dec_loop_spec p w' 9 10 false num 10 1 dm ltac:(lia) ltac:(change (10 ^ Z.of_nat 10) with 10000000000; lia) ltac:(lia) eq_refl ltac:(lia)) as Hrun.
  change (10 ^ Z.of_nat 9 - 1) with 999999999 in Hrun. destruct (dec_loop _ _ _ _ _ _ _ _ _ _) as [[rest digits] dm1].
  destruct Hrun as (Hr & t & Ht & -> & Heq). pose proof (digit_text_length num 10 0) as Hlen. rewrite length_fmap in *. set (n := length (digit_text num 10 0)) in *.
  assert (Hdigit : printed dm1 [digit_char rest] (put_char out (rest + 48) dm1)).
  { apply printed_char. rewrite <-u8_digit by lia. f_equal. unfold digit_char. rewrite (proj2 (Z.ltb_lt _ _)) by lia. lia. }
  pose proof (printed_app _ _ _ _ _ Ht Hdigit) as Hall. rewrite Heq in Hall. destruct (decide (p = PAD_SPACE_AFTER)) as [->|Hp].
  - eapply printed_app; [exact Hall|]. apply (f_equal length) in Heq. simpl in Heq. rewrite length_app, length_fmap in Heq. fold n in Heq. cbn [length] in Heq.
    replace (Z.to_nat (w - Z.of_nat n)) with (Z.to_nat (w' - (1 + Z.of_nat (length t)))) by lia. apply printed_spaces.
  - replace (Z.to_nat (w `min` 10 - Z.of_nat n)) with (Z.to_nat (w' `min` Z.of_nat 10 - Z.of_nat n)) by lia. done.
Qed.

Lemma nibble_spec num k : 0 ≤ num → Z.land (Z.shiftr num (4 * Z.of_nat k)) 15 = num mod 16 ^ Z.of_nat (S k) / 16 ^ Z.of_nat k.
Proof.
  intros Hn. rewrite Z.shiftr_div_pow2, (Z.land_ones _ 4), Z.pow_mul_r by lia. change (2 ^ 4) with 16.
  rewrite Nat2Z.inj_succ, Z.pow_succ_r, (Z.mul_comm 16) by lia. rewrite Z.rem_mul_r by lia.
  rewrite (Z.mul_comm (16 ^ Z.of_nat k)), Z.div_add by lia. rewrite (Z.div_small (num mod _)) by (apply Z.mod_pos_bound; lia). lia.
Qed.

Lemma digit_char_hex d : d + (if 9 <? d then 87 else 48) = digit_char d.
Proof. unfold digit_char. destruct (9 <? d) eqn:E1, (d <? 10) eqn:E2; zbool; lia. Qed.
Definition before (p : pad_type) : bool := match p with PAD_ZERO_BEFORE | PAD_SPACE_BEFORE => true | _ => false end.
Lemma hex_loop_spec num p w j found remaining digits dm :
  0 ≤ num < 4294967296 → (found = false → remaining = Z.of_nat (S j)) →
  let r := num mod 16 ^ Z.of_nat (S j) in
  let ds := digit_char <$> (if found then places 16 j r else digit_text r 16 0) in
  let '(digits', dm') := hex_loop out (S j) num p w found remaining digits dm in
  printed dm (replicate (if found || negb (before p) then 0 else Z.to_nat (Z.min w (Z.of_nat (S j)) - Z.of_nat (length ds))) (pad_char p) ++ ds) dm' ∧
  digits' = digits + Z.of_nat (length ds).
Proof.
  intros Hn. revert found remaining digits dm. induction j as [|j IH]; intros found remaining digits dm Hrem r ds.
  { cbn [hex_loop]. rewrite nibble_spec, bool_decide_true, orb_true_r by lia. change (16 ^ Z.of_nat 0) with 1. rewrite Z.div_1_r. fold r.
    assert (Hr : 0 ≤ r < 16) by (apply Z.mod_pos_bound; lia). assert (ds = [digit_char r]) as -> by (unfold ds; rewrite digit_text_digit by lia; by destruct found).
    split; [|done]. cbn [length]. replace (if found || _ then 0%nat else _) with 0%nat by (destruct (found || _); lia).
    apply printed_char. rewrite digit_char_hex. by apply u8_digit. }
  set (P := 16 ^ Z.of_nat (S j)) in *. assert (HP : 0 < P) by (apply Z.pow_pos_nonneg; lia).
  assert (HPP : 16 ^ Z.of_nat (S (S j)) = 16 * P) by (rewrite (Nat2Z.inj_succ (S j)), Z.pow_succ_r by lia; done).
  assert (Hr : 0 ≤ r < 16 * P) by (unfold r; rewrite HPP; apply Z.mod_pos_bound; lia).
  assert (Hrn : r ≤ num) by (unfold r; rewrite HPP; apply Z.mod_le; lia).
  assert (Hrm : r mod P = num mod P) by (unfold r; rewrite HPP; apply Z.mod_mod_divide; by exists 16).
  assert (Hq : 0 ≤ r / P < 16) by (split; [apply Z.div_pos; lia|apply Z.div_lt_upper_bound; lia]).
  change (hex_loop out (S (S j)) num p w found remaining digits dm) with
    (let nibble := Z.land (Z.shiftr num (4 * Z.of_nat (S j))) 15 in
     if negb (nibble =? 0) || found || bool_decide (S (S j) = 1%nat) then
        hex_loop out (S j) num p w true remaining (digits + 1) (put_char out (nibble + (if 9 <? nibble then 87 else 48)) dm)
      else hex_loop out (S j) num p w found (remaining - 1) digits
        (if remaining <=? w then match p with PAD_ZERO_BEFORE => put_char out 48 dm | PAD_SPACE_BEFORE => put_char out 32 dm | _ => dm end else dm)).
  rewrite nibble_spec by lia. fold P r. cbv zeta. rewrite (bool_decide_false (S (S j) = 1%nat)), orb_false_r by lia.
  destruct (negb (r / P =? 0) || found) eqn:E.
  - specialize (IH true remaining (digits + 1) (put_char out (r / P + (if 9 <? r / P then 87 else 48)) dm) ltac:(done)). rewrite <-Hrm in IH.
    destruct (hex_loop _ _ _ _ _ _ _ _ _) as [digits' dm']. destruct IH as [Hp ->]. cbn [orb replicate app] in Hp.
    assert (Hds : ds = digit_char (r / P) :: (digit_char <$> places 16 j (r mod P))).
    { unfold ds. destruct found; [done|]. rewrite orb_false_r in E. apply negb_true_iff in E. zbool.
      assert (P ≤ r) by (apply Z.nlt_ge; intros H; apply E, Z.div_small; lia).
      by rewrite (digit_text_high 16 (S j)) by (fold P; rewrite ?HPP; lia). }
    rewrite Hds. split; [|cbn [length]; lia]. assert (length ds = S (S j)) as Hlen.
    { rewrite Hds. cbn [length]. rewrite length_fmap. destruct (places_props 16 j (r mod P)) as (-> & _); [lia|apply Z.mod_pos_bound; lia|done]. }
    rewrite <-Hds, Hlen. replace (if found || _ then 0%nat else _) with 0%nat by (destruct (found || _); lia). rewrite Hds. cbn [replicate app].
    eapply printed_cons; [|exact Hp]. rewrite digit_char_hex. by apply u8_digit.
  - apply orb_false_iff in E as [E ->]. apply negb_false_iff in E. zbool. specialize (Hrem eq_refl). apply Z.div_small_iff in E; [|lia].
    assert (Hr2 : num mod P = r) by (rewrite <-Hrm; apply Z.mod_small; lia). rewrite Hr2 in IH. unfold ds in *. cbn [orb] in *.
    pose proof (digit_text_short 16 j r ltac:(lia) ltac:(fold P; lia)) as Hs. rewrite length_fmap in *.
    match goal with |- context [hex_loop out (S j) num p w false _ _ ?dm1] => specialize (IH false (remaining - 1) digits dm1 ltac:(lia)); set (dm1' := dm1) in * end.
    destruct (hex_loop _ _ _ _ _ _ _ _ _) as [digits' dm']. destruct IH as [Hp ->]. split; [|by rewrite ?length_fmap].
    assert (Hpad : printed dm (if before p && (remaining <=? w) then [pad_char p] else []) dm1').
    { unfold dm1'. destruct (remaining <=? w), p; cbn [before andb]; try apply printed_nil; by apply printed_char. }
    pose proof (printed_app _ _ _ _ _ Hpad Hp) as Hall. clearbody dm1'. destruct (before p); cbn [negb andb] in *; [|done].
    cbn [orb] in Hall. rewrite app_assoc, length_fmap in Hall.
    match goal with |- printed _ ?t _ => match type of Hall with printed _ ?t' _ => replace t with t'; [done|] end end. f_equal. destruct (remaining <=? w) eqn:E2; zbool.
    + by replace (Z.to_nat (w `min` Z.of_nat (S (S j)) - _)) with (S (Z.to_nat (w `min` Z.of_nat (S j) - Z.of_nat (length (digit_text r 16 0))))) by lia.
    + cbn [app]. do 2 f_equal. lia.
Qed.

Lemma hex_ulong_spec num p w dm :
  0 ≤ num < 4294967296 → -2 ≤ w < 1073741824 → printed dm (hex_text p w num) (_printk_hex_ulong out num p w dm).
Proof.
  intros Hn Hw. unfold _printk_hex_ulong, hex_text. pose proof (hex_loop_spec num p w 7 false 8 0 dm Hn (λ _, eq_refl)) as Hrun. cbv zeta in Hrun.
  change (16 ^ Z.of_nat 8) with 4294967296 in Hrun. rewrite Z.mod_small in Hrun by lia. destruct (hex_loop _ _ _ _ _ _ _ _ _) as [digits dm1].
  destruct Hrun as [Hp ->]. set (ds := digit_char <$> digit_text num 16 0) in *.
  assert (Hl : (length ds ≤ 8)%nat) by (unfold ds; rewrite length_fmap; apply digit_text_short; [lia|]; change (16 ^ Z.of_nat 8) with 4294967296; lia).
  destruct p; cbn [before negb orb replicate app] in Hp; try (rewrite decide_False by done; exact Hp).
  rewrite decide_True by done. eapply printed_app; [exact Hp|]. replace (w * 2 - Z.of_nat (length ds)) with (s32 (s32 (w * 2) - (0 + Z.of_nat (length ds)))) by (rewrite (s32_id (w * 2)) by lia; rewrite s32_id by lia; lia).
  apply printed_spaces.
Qed.
Lemma put_string_spec fuel s dm l t :
  holds dm.1 dm.2 l → cstring dm.2 s t → (∀ a, s ≤ a ≤ s + Z.of_nat (length t) → ¬ R a) → (length t < fuel)%nat →
  ∃ dm', put_string out fuel s dm = Some dm' ∧ holds dm'.1 dm'.2 (l ++ t) ∧ same_on (λ a, ¬ R a) dm.2 dm'.2.
Proof.
  revert fuel s dm l. induction t as [|c t IH]; intros [|fuel] s dm l Hl Hs HR Hf; simpl in Hf; try lia; cbn [put_string].
  - rewrite (cstring_end _ _ Hs). exists dm. by rewrite app_nil_r.
  - apply cstring_char in Hs as (-> & Hc & Hs). assert ((s8 c =? 0) = false) as -> by (change 0 with (s8 0); rewrite s8_inj by lia; apply Z.eqb_neq; lia).
    destruct (printed_char dm (s8 c) c (u8_s8 c ltac:(lia)) l Hl) as [Hl1 Hm1]. cbn [length] in HR.
    destruct (IH fuel (s + 1) (put_char out (s8 c) dm) (l ++ [c])) as (dm' & -> & Hl' & Hm'); [done| |intros a Ha; apply HR; lia|lia|].
    + eapply cstring_ext; [|done]. intros b Hb. apply Hm1, HR. lia.
    + exists dm'. rewrite <-app_assoc in Hl'. split_and!; [done..|by etrans].
Qed.

(** A character of the format read while a conversion is being read. *)
Lemma loop_format_char fuel fmt st vargs dm c l :
  cstring dm.2 fmt (c :: l) → c < 128 → might_format st = true →
  _vprintk_loop out (S fuel) fmt st vargs dm =
    ('(st, vargs, dm) ← format_char out fuel c st vargs dm; _vprintk_loop out fuel (fmt + 1) st vargs dm).
Proof.
  intros Hs Hc Hst. assert (0 < c) by apply Hs. cbn [_vprintk_loop]. destruct (cstring_ascii _ _ _ _ Hs Hc) as [-> _].
  by rewrite (proj2 (Z.eqb_neq c 0)), Hst by lia.
Qed.

Lemma loop_digits fuel fmt st vargs dm ds l :
  cstring dm.2 fmt (((λ d, 48 + d) <$> ds) ++ l) → Forall (λ d, 0 ≤ d < 10) ds → might_format st = true →
  (padding st = PAD_NONE → 0 ≤ min_width st ∨ hd_error ds ≠ Some 0) →
  _vprintk_loop out (length ds + fuel) fmt st vargs dm =
  _vprintk_loop out fuel (fmt + Z.of_nat (length ds)) (foldl (λ st d, width_digit (48 + d) st) st ds) vargs dm.
Proof.
  revert fmt st. induction ds as [|d ds IH]; intros fmt st Hs Hds Hst Hp; cbn [length Nat.add foldl]; [by rewrite Z.add_0_r|].
  apply Forall_cons in Hds as [Hd Hds]. rewrite (loop_format_char _ _ _ _ _ (48 + d) (((λ d, 48 + d) <$> ds) ++ l)) by (done || lia).
  unfold format_char. rewrite (proj2 (Z.eqb_neq (48 + d) 45)) by lia.
  assert ((48 + d =? 48) && (min_width st <? 0) && bool_decide (padding st = PAD_NONE) = false) as ->.
  { apply not_true_is_false. intros E. apply andb_true_iff in E as [E E3]. apply andb_true_iff in E as [E1 E2]. apply bool_decide_eq_true in E3. zbool.
    destruct (Hp E3) as [H|H]; [lia|]. apply H. simpl. f_equal. lia. }
  rewrite (proj2 (Z.leb_le _ _)), (proj2 (Z.leb_le _ _)) by lia. cbn [andb mbind option_bind]. rewrite IH; [f_equal; lia|..].
  - by destruct (cstring_char _ _ _ _ Hs) as (_ & _ & H).
  - done.
  - done.
  - unfold width_digit. cbn [padding]. destruct (decide _); done.
Qed.
Lemma digits_state ds st :
  Forall (λ d, 0 ≤ d < 10) ds → 0 ≤ min_width st → number 10 (min_width st) ds < 2147483648 → might_format st = true → padding st ≠ PAD_NONE →
  foldl (λ st d, width_digit (48 + d) st) st ds =
  {| might_format := true; padding := padding st; min_width := number 10 (min_width st) ds; long_ctr := long_ctr st |}.
Proof.
  revert st. induction ds as [|d ds IH]; intros st Hds Hw Hn Hst Hp; cbn [foldl]; [destruct st; simpl in *; by subst|].
  apply Forall_cons in Hds as [Hd Hds]. change (number 10 (min_width st) (d :: ds)) with (number 10 (min_width st * 10 + d) ds) in *.
  assert (min_width st * 10 + d ≤ number 10 (min_width st * 10 + d) ds) by (apply number_ge; [lia..|]; eapply Forall_impl; [exact Hds|]; simpl; lia).
  assert (Hst1 : width_digit (48 + d) st = {| might_format := true; padding := padding st; min_width := min_width st * 10 + d; long_ctr := long_ctr st |}).
  { unfold width_digit. rewrite decide_False by done. rewrite (proj2 (Z.ltb_ge _ _)) by lia. rewrite s32_id by lia. f_equal. lia. }
  rewrite Hst1, IH; cbn [min_width padding long_ctr might_format]; (done || lia).
Qed.
Lemma loop_longs fuel fmt st vargs dm k l :
  cstring dm.2 fmt (replicate k 108 ++ l) → might_format st = true →
  _vprintk_loop out (k + fuel) fmt st vargs dm =
  _vprintk_loop out fuel (fmt + Z.of_nat k)
    {| might_format := true; padding := padding st; min_width := min_width st; long_ctr := long_ctr st + Z.of_nat k |} vargs dm.
Proof.
  revert fmt st. induction k as [|k IH]; intros fmt st Hs Hst; cbn [Nat.add replicate app].
  { rewrite !Z.add_0_r. destruct st; simpl in *; by subst. }
  rewrite (loop_format_char _ _ _ _ _ 108 (replicate k 108 ++ l)) by (done || lia). unfold format_char. cbn [Z.eqb Pos.eqb andb orb Z.leb Z.compare Pos.compare Pos.compare_cont mbind option_bind].
  rewrite IH; [|by destruct (cstring_char _ _ _ _ Hs) as (_ & _ & H)|done]. cbn [padding min_width long_ctr]. f_equal; [lia|]. f_equal. lia.
Qed.

(** The flag and the width. *)
Lemma loop_width fuel fmt sp vargs dm l :
  kspec_ok sp → cstring dm.2 fmt (kflag sp ++ ((λ d, 48 + d) <$> kwidth sp) ++ l) →
  _vprintk_loop out (length (kflag sp) + (length (kwidth sp) + fuel)) fmt percent_state vargs dm =
  _vprintk_loop out fuel (fmt + Z.of_nat (length (kflag sp) + length (kwidth sp)))
    {| might_format := true; padding := kpadding sp; min_width := kmin_width sp; long_ctr := 0 |} vargs dm.
Proof.
  intros (Hfl & Hds & Hn & _) Hs.
  (* The digits, from a state with no width yet. *)
  assert (Hdig : ∀ p fmt, cstring dm.2 fmt (((λ d, 48 + d) <$> kwidth sp) ++ l) → (p = PAD_NONE → hd_error (kwidth sp) ≠ Some 0) →
    _vprintk_loop out (length (kwidth sp) + fuel) fmt {| might_format := true; padding := p; min_width := -1; long_ctr := 0 |} vargs dm =
    _vprintk_loop out fuel (fmt + Z.of_nat (length (kwidth sp)))
      {| might_format := true; padding := match kwidth sp with [] => p | _ => if decide (p = PAD_NONE) then PAD_SPACE_BEFORE else p end;
         min_width := kmin_width sp; long_ctr := 0 |} vargs dm).
  { intros p fmt' Hs' Hp. rewrite (loop_digits _ _ _ _ _ _ l); [|done|done|done|by right; apply Hp]. f_equal. unfold kmin_width. destruct (kwidth sp) as [|d ds]; [done|].
    apply Forall_cons in Hds as [Hd Hds]. change (number 10 0 (d :: ds)) with (number 10 (0 * 10 + d) ds) in *. cbn [foldl].
    rewrite digits_state; unfold width_digit; cbn [min_width padding long_ctr might_format].
    - change (-1 <? 0) with true. cbv iota. replace (s32 (48 + d - 48)) with (0 * 10 + d) by (rewrite s32_id; lia). done.
    - done.
    - change (-1 <? 0) with true. cbv iota. rewrite s32_id; lia.
    - change (-1 <? 0) with true. cbv iota. replace (s32 (48 + d - 48)) with (0 * 10 + d) by (rewrite s32_id; lia). lia.
    - done.
    - destruct (decide _); done. }
  destruct Hfl as [[E Hhd]|[E|E]]; unfold kpadding; rewrite E in *; cbn [length Nat.add app] in *.
  - unfold percent_state. rewrite Hdig by done. by destruct (kwidth sp).
  - rewrite (loop_format_char _ _ _ _ _ 45 (((λ d, 48 + d) <$> kwidth sp) ++ l)) by done. cbn [format_char Z.eqb Pos.eqb mbind option_bind]. unfold set_padding, percent_state. cbn [min_width long_ctr].
    rewrite Hdig; [|by destruct (cstring_char _ _ _ _ Hs) as (_ & _ & H)|done]. rewrite decide_False by done. f_equal; [lia|]. by destruct (kwidth sp).
  - rewrite (loop_format_char _ _ _ _ _ 48 (((λ d, 48 + d) <$> kwidth sp) ++ l)) by done. unfold format_char, percent_state. cbn [Z.eqb Pos.eqb min_width padding].
    rewrite bool_decide_true by done. cbn [Z.ltb Z.compare andb mbind option_bind]. unfold set_padding. cbn [min_width long_ctr].
    rewrite Hdig; [|by destruct (cstring_char _ _ _ _ Hs) as (_ & _ & H)|done]. rewrite decide_False by done. f_equal; [lia|]. by destruct (kwidth sp).
Qed.

Lemma take_long_spec sp vargs :
  in_list [99; 115] (kconv sp) = false → ∃ x, take_long (Z.of_nat (klong sp)) (kspec_arg sp :: vargs) = Some (x, vargs) ∧ s32 x = s32 (karg sp) ∧ u32 x = u32 (karg sp).
Proof.
  intros Hc. unfold take_long, kspec_arg. rewrite Hc. cbn [orb]. destruct (_ <? 2); simpl; [by eexists|]. eexists. split; [done|]. unfold s32, u32. split; dlia.
Qed.

(** The conversion character. *)
Lemma format_conv fuel sp vargs dm l :
  kspec_ok sp → holds dm.1 dm.2 l →
  (kconv sp = 115 → cstring dm.2 (karg sp) (kstr sp) ∧ (∀ a, karg sp ≤ a ≤ karg sp + Z.of_nat (length (kstr sp)) → ¬ R a) ∧ (length (kstr sp) < fuel)%nat) →
  ∃ st dm', format_char out fuel (kconv sp) (kstate sp) (kspec_arg sp :: vargs) dm = Some (st, vargs, dm') ∧ might_format st = false ∧
    holds dm'.1 dm'.2 (l ++ kspec_output sp) ∧ same_on (λ a, ¬ R a) dm.2 dm'.2.
Proof.
  intros (_ & Hds & Hn & Hc) Hl Hs. apply in_list_spec in Hc.
  assert (Hw : -1 ≤ kmin_width sp < 1073741824).
  { unfold kmin_width. destruct (kwidth sp) as [|d ds]; [lia|]. split; [|done]. transitivity 0; [lia|]. apply number_ge; [lia..|]. eapply Forall_impl; [exact Hds|]. simpl. lia. }
  pose proof (u32_range (karg sp)) as Hu. pose proof (s32_range (karg sp)) as Hx. unfold format_char, kspec_output. cbn [kstate long_ctr padding min_width].
  rewrite !elem_of_cons, elem_of_nil in Hc. destruct Hc as [E|[E|[E|[E|[E|[E|[E|[E|[]]]]]]]]]; rewrite E in *;
    cbn [Z.eqb Pos.eqb andb orb Z.leb Z.compare Pos.compare Pos.compare_cont];
    try (destruct (take_long_spec sp vargs ltac:(by rewrite E)) as (x & -> & Hxs & Hxu)).
  - assert (kspec_arg sp = VWord (karg sp)) as -> by (unfold kspec_arg; by rewrite E). cbn [va_word mbind option_bind]. eexists _, _. split; [done|]. split; [done|].
    apply printed_char; [apply u8_s32|done].
  - cbn [mbind option_bind]. rewrite Hxs. destruct (s32 (karg sp) <? 0) eqn:E1; zbool; eexists _, _; (split; [done|]; split; [done|]).
    + rewrite (u32_opp_s32 (karg sp)) by lia. apply (printed_cons dm 45 45); [done|apply dec_ulong_spec; lia|done].
    + rewrite u32_id by lia. apply dec_ulong_spec; [lia|done].
  - cbn [mbind option_bind]. rewrite Hxs. destruct (s32 (karg sp) <? 0) eqn:E1; zbool; eexists _, _; (split; [done|]; split; [done|]).
    + rewrite (u32_opp_s32 (karg sp)) by lia. apply (printed_cons dm 45 45); [done|apply dec_ulong_spec; lia|done].
    + rewrite u32_id by lia. apply dec_ulong_spec; [lia|done].
  - cbn [mbind option_bind]. rewrite Hxu. eexists _, _. split; [done|]. split; [done|].
    apply (printed_cons dm 48 48); [done| |done]. apply (printed_cons _ 120 120); [done|]. by apply hex_ulong_spec.
  - assert (kspec_arg sp = VWord (karg sp)) as -> by (unfold kspec_arg; by rewrite E). cbn [va_word mbind option_bind]. destruct (Hs eq_refl) as (H1 & H2 & H3).
    destruct (put_string_spec fuel (karg sp) dm l (kstr sp) Hl H1 H2 H3) as (dm' & -> & H4). by eexists _, dm'.
  - cbn [mbind option_bind]. rewrite Hxu. eexists _, _. split; [done|]. split; [done|]. by apply dec_ulong_spec.
  - cbn [mbind option_bind]. rewrite Hxu. eexists _, _. split; [done|]. split; [done|]. apply hex_ulong_spec; [lia..|done].
  - cbn [mbind option_bind]. rewrite Hxu. eexists _, _. split; [done|]. split; [done|]. apply hex_ulong_spec; [lia..|done].
Qed.

(** What a piece needs: its string stays clear of the output, and is not longer than [n]. *)
Definition kpiece_ok (n : nat) (m : gmap Z Z) (p : kpiece) : Prop :=
  match p with
  | KLit c => 0 < c < 256 ∧ c ≠ 37
  | KPercent => True
  | KConv sp => kspec_ok sp ∧ (kconv sp = 115 →
      cstring m (karg sp) (kstr sp) ∧ (∀ a, karg sp ≤ a ≤ karg sp + Z.of_nat (length (kstr sp)) → ¬ R a) ∧ (length (kstr sp) ≤ n)%nat)
  end.
Lemma kpiece_ok_same n m m' p : same_on (λ a, ¬ R a) m m' → kpiece_ok n m p → kpiece_ok n m' p.
Proof.
  intros Hm. destruct p as [c| |sp]; simpl; [done..|]. intros [H1 H2]. split; [done|]. intros E. destruct (H2 E) as (H3 & H4 & H5). split; [|done].
  eapply cstring_ext; [|done]. intros b Hb. by apply Hm, H4.
Qed.

Lemma loop_percent fuel fmt st vargs dm l :
  cstring dm.2 fmt (37 :: l) → might_format st = false →
  _vprintk_loop out (S fuel) fmt st vargs dm = _vprintk_loop out fuel (fmt + 1) percent_state vargs dm ∧ cstring dm.2 (fmt + 1) l.
Proof.
  intros Hs Hst. cbn [_vprintk_loop]. destruct (cstring_ascii _ _ _ _ Hs ltac:(lia)) as [-> Hs1]. by rewrite Hst.
Qed.

(** A piece is read and printed; what is left is printed from there. *)
Lemma loop_piece n p fuel fmt st vargs dm l rest :
  kpiece_ok n dm.2 p → holds dm.1 dm.2 l → might_format st = false → cstring dm.2 fmt (kpiece_format p ++ rest) →
  (∀ a, fmt ≤ a ≤ fmt + Z.of_nat (length (kpiece_format p ++ rest)) → ¬ R a) → (n < fuel)%nat →
  ∃ st' dm', _vprintk_loop out (length (kpiece_format p) + fuel) fmt st (kpiece_args p ++ vargs) dm =
      _vprintk_loop out fuel (fmt + Z.of_nat (length (kpiece_format p))) st' vargs dm' ∧ might_format st' = false ∧
    holds dm'.1 dm'.2 (l ++ kpiece_output p) ∧ same_on (λ a, ¬ R a) dm.2 dm'.2.
Proof.
  intros Hp Hl Hst Hs HR Hf. destruct p as [c| |sp]; cbn [kpiece_format kpiece_args kpiece_output app length] in *.
  - destruct Hp as [Hc H37]. apply cstring_char in Hs as (Hch & _ & _). exists st, (put_char out (s8 c) dm). split_and!; [|done|..].
    + cbn [Nat.add _vprintk_loop]. rewrite Hch, Hst.
      assert ((s8 c =? 0) = false ∧ (s8 c =? 37) = false) as [-> ->] by (change 0 with (s8 0); change 37 with (s8 37); rewrite !s8_inj by lia; split; apply Z.eqb_neq; lia).
      done.
    + apply printed_char; [apply u8_s8; lia|done].
    + eapply (printed_char dm (s8 c) _ eq_refl), Hl.
  - cbn [Nat.add]. destruct (loop_percent (S fuel) fmt st vargs dm _ Hs Hst) as [-> Hs1]. eexists _, (put_char out 37 dm). split_and!; [|..|by apply printed_char|by eapply (printed_char dm 37 _ eq_refl)].
    + rewrite (loop_format_char _ _ _ _ _ 37 rest) by done. unfold format_char. cbn [Z.eqb Pos.eqb andb orb Z.leb Z.compare Pos.compare Pos.compare_cont mbind option_bind].
      f_equal. lia.
    + done.
  - destruct Hp as [Hok Hstr]. cbn [Nat.add].
    destruct (loop_percent (length (kspec_text sp) + fuel) fmt st (kspec_arg sp :: vargs) dm _ Hs Hst) as [-> Hs1]. unfold kspec_text in *. rewrite <-!app_assoc in Hs1. rewrite !length_app, length_fmap, length_replicate. cbn [length].
    replace (length (kflag sp) + (length (kwidth sp) + (klong sp + 1)) + fuel)%nat with (length (kflag sp) + (length (kwidth sp) + (klong sp + S fuel)))%nat by lia.
    rewrite (loop_width _ _ _ _ _ _ Hok Hs1). rewrite (app_assoc (kflag sp)) in Hs1. pose proof (cstring_prefix _ _ _ _ Hs1) as Hs2.
    rewrite length_app, length_fmap in Hs2. rewrite (loop_longs _ _ _ _ _ _ ([kconv sp] ++ rest)) by done. cbn [padding min_width long_ctr].
    pose proof (cstring_prefix _ _ _ _ Hs2) as Hs3. rewrite length_replicate in Hs3. fold (kstate sp).
    assert (Hc128 : kconv sp < 128). { destruct Hok as (_ & _ & _ & Hc). apply in_list_spec in Hc. rewrite !elem_of_cons, elem_of_nil in Hc. lia. }
    change (0 + Z.of_nat (klong sp)) with (Z.of_nat (klong sp)). fold (kstate sp). rewrite (loop_format_char _ _ _ _ _ (kconv sp) rest) by done.
    destruct (format_conv fuel sp vargs dm l Hok Hl) as (st' & dm' & -> & Hst' & Hl' & Hm').
    { intros E. destruct (Hstr E) as (H1 & H2 & H3). split_and!; [done..|lia]. }
    exists st', dm'. split_and!; [|done..]. cbn [mbind option_bind]. f_equal. lia.
Qed.

Lemma vprintk_loop_prints n ps fuel fmt st vargs dm l :
  Forall (kpiece_ok n dm.2) ps → holds dm.1 dm.2 l → might_format st = false → cstring dm.2 fmt (kformat_of ps) →
  (∀ a, fmt ≤ a ≤ fmt + Z.of_nat (length (kformat_of ps)) → ¬ R a) → (n < fuel)%nat →
  ∃ dm', _vprintk_loop out (length (kformat_of ps) + fuel) fmt st (kargs_of ps ++ vargs) dm = Some dm' ∧
    holds dm'.1 dm'.2 (l ++ koutput_of ps) ∧ same_on (λ a, ¬ R a) dm.2 dm'.2.
Proof.
  revert fmt st dm l. induction ps as [|p ps IH]; intros fmt st dm l Hok Hl Hst Hs HR Hf.
  { destruct fuel as [|fuel]; [lia|]. cbn [kformat_of concat fmap list_fmap length Nat.add _vprintk_loop]. rewrite (cstring_end _ _ Hs). exists dm. by rewrite app_nil_r. }
  change (kformat_of (p :: ps)) with (kpiece_format p ++ kformat_of ps) in *. change (kargs_of (p :: ps)) with (kpiece_args p ++ kargs_of ps).
  change (koutput_of (p :: ps)) with (kpiece_output p ++ koutput_of ps). apply Forall_cons in Hok as [Hp Hok].
  rewrite length_app, <-Nat.add_assoc, <-app_assoc.
  destruct (loop_piece n p (length (kformat_of ps) + fuel) fmt st (kargs_of ps ++ vargs) dm l _ Hp Hl Hst Hs HR ltac:(lia)) as (st' & dm1 & -> & Hst' & Hl1 & Hm1).
  rewrite length_app in HR. destruct (IH (fmt + Z.of_nat (length (kpiece_format p))) st' dm1 (l ++ kpiece_output p)) as (dm' & -> & Hl' & Hm').
  - eapply Forall_impl; [exact Hok|]. intros p'. by apply kpiece_ok_same.
  - done.
  - done.
  - eapply cstring_ext; [|by apply cstring_prefix]. intros b Hb. apply Hm1, HR. lia.
  - intros a Ha. apply HR. lia.
  - done.
  - exists dm'. rewrite app_assoc. split_and!; [done..|by etrans].
Qed.
End Printed.

(** ** snprintk *)

(** A context for [n] bytes at [s] that was given [l]. *)
Definition in_string (s n : Z) (ctx : str_context) (m : gmap Z Z) (l : list Z) : Prop :=
  str ctx = s ∧ max ctx = n ∧ count ctx = Z.of_nat (length l) ∧
  read_bytes (emitted_count n l) s m = take (emitted_count n l) l ∧ (0 < n ≤ Z.of_nat (length l) → m !!! (s + n - 1) = 0).
Instance str_output s n : s ≠ 0 → Output str_out (λ a, s ≤ a < s + n) (in_string s n).
Proof.
  intros Hs. unfold in_string, emitted_count. split.
  - intros d m l c r d' m' (<- & <- & Hc & Hb & Hz) E. unfold str_out in E. rewrite (proj2 (Z.eqb_neq _ _) Hs) in E. cbn [orb] in E.
    set (n := max d) in *. set (s := str d) in *. rewrite length_app in *. cbn [length] in *. set (len := length l) in *.
    destruct (n <=? count d) eqn:E1; zbool; [|destruct (count d =? n - 1) eqn:E2; zbool]; injection E as <- <- <-; cbn [str max count].
    + replace ((len + 1) `min` Z.to_nat (n - 1))%nat with (len `min` Z.to_nat (n - 1))%nat by lia.
      split_and!; [done..|lia|by rewrite take_app_le by (fold len; lia)|intros H; apply Hz; lia|done].
    + replace ((len + 1) `min` Z.to_nat (n - 1))%nat with (len `min` Z.to_nat (n - 1))%nat by lia.
      split_and!; [done..|lia| | |intros a Ha; apply lookup_total_insert_ne; lia].
      * rewrite take_app_le by (fold len; lia). rewrite <-Hb. apply read_bytes_ext. intros b Hb2. apply lookup_total_insert_ne. lia.
      * intros _. replace (s + count d) with (s + n - 1) by lia. apply lookup_total_insert_eq.
    + replace ((len + 1) `min` Z.to_nat (n - 1))%nat with (len + 1)%nat by lia. rewrite take_ge by (rewrite length_app; cbn [length]; fold len; lia).
      split_and!; [done..|lia| |lia|intros a Ha; apply lookup_total_insert_ne; lia].
      rewrite read_bytes_app. f_equal.
      * replace (len `min` Z.to_nat (n - 1))%nat with len in Hb by lia. rewrite take_ge in Hb by (fold len; lia). rewrite <-Hb.
        apply read_bytes_ext. intros b Hb2. apply lookup_total_insert_ne. lia.
      * rewrite Hc. fold len. simpl. by rewrite lookup_total_insert_eq.
  - intros d m m' l (H1 & H2 & H3 & Hb & Hz) Hm. split_and!; [done..| |].
    + rewrite <-Hb. apply read_bytes_ext. intros b Hb2. apply Hm. lia.
    + intros Hn. rewrite Hm by lia. by apply Hz.
Qed.

(** C31: for every format of ordinary characters, "%%" and the conversions c d i p s u x X with the
    flags '-' and '0', a width and any number of 'l', [vsnprintk] returns the length of the text the
    format stands for, whether it fits or not, leaves as much of it as fits and a final 0 in the [n] bytes at [s], and changes nothing else. *)
Theorem vsnprintk_prints ps fuel s n fmt m N :
  let R := λ a, s ≤ a < s + n in
  s ≠ 0 → 0 ≤ n < 2147483648 → Forall (kpiece_ok (R := R) N m) ps → cstring m fmt (kformat_of ps) →
  (∀ a, fmt ≤ a ≤ fmt + Z.of_nat (length (kformat_of ps)) → ¬ R a) → (length (kformat_of ps) + N < fuel)%nat →
  let out := koutput_of ps in
  ∃ m', vsnprintk fuel s n fmt (kargs_of ps) m = Some (Z.of_nat (length out), m') ∧
    (0 < n → read_bytes (S (emitted_count n out)) s m' = take (emitted_count n out) out ++ [0]) ∧ same_on (λ a, ¬ R a) m m'.
Proof.
  intros R Hs0 Hn Hok Hs HR Hf out. unfold vsnprintk. rewrite s32_id by lia. pose proof (str_output s n Hs0) as Hout. fold R in Hout.
  destruct (vprintk_loop_prints (R := R) (holds := in_string s n) N ps (fuel - length (kformat_of ps)) fmt text_state [] ({| str := s; max := n; count := 0 |}, m) [])
    as ([ctx m'] & Hrun & (H1 & H2 & H3 & Hb & Hz) & Hm); try done; [|lia|].
  { split_and!; (done || (simpl; lia)). }
  replace (length (kformat_of ps) + (fuel - length (kformat_of ps)))%nat with fuel in Hrun by lia. rewrite app_nil_r in Hrun.
  unfold _vprintk. rewrite Hrun. cbn [mbind option_bind fst snd] in *. rewrite app_nil_l in *. fold out in H3, Hb, Hz.
  rewrite H2, H3. eexists. split; [done|]. unfold emitted_count in *. set (k := (length out `min` Z.to_nat (n - 1))%nat) in *. split.
  - intros Hn0. replace (S k) with (k + 1)%nat by lia. rewrite read_bytes_app. destruct (_ <? n) eqn:E; zbool.
    + f_equal; [rewrite <-Hb; apply read_bytes_ext; intros b Hb2; apply lookup_total_insert_ne; lia|].
      simpl. replace (s + Z.of_nat k) with (s + Z.of_nat (length out)) by lia. by rewrite lookup_total_insert_eq.
    + rewrite Hb. f_equal. simpl. replace (s + Z.of_nat k) with (s + n - 1) by lia. by rewrite Hz by lia.
  - destruct (_ <? n) eqn:E; zbool; [|done]. intros a Ha. rewrite lookup_total_insert_ne by (unfold R in Ha; lia). by apply Hm.
Qed.

Definition sample_printk : list kpiece :=
  [KLit 62; KConv {| kflag := [48]; kwidth := [4]; klong := 0; kconv := 100; karg := 4294967289; kstr := [] |}; KPercent;
   KConv {| kflag := []; kwidth := []; klong := 0; kconv := 115; karg := 300; kstr := [104; 105] |};
   KConv {| kflag := []; kwidth := [6]; klong := 2; kconv := 120; karg := 171; kstr := [] |}].
Lemma vsnprintk_prints_witness :
  let m := write_bytes 300 [104; 105; 0] (write_bytes 100 (kformat_of sample_printk ++ [0]) ∅) in
  ∃ m', vsnprintk 50 1000 10 100 (kargs_of sample_printk) m = Some (14, m') ∧ read_bytes 10 1000 m' = [62; 45; 48; 48; 55; 37; 104; 105; 32; 0].
Proof.
  intros m. destruct (vsnprintk_prints sample_printk 50 1000 10 100 m 2) as (m' & H1 & H2 & _).
  - lia.
  - lia.
  - apply Forall_cons; split; [split; lia|]. apply Forall_cons; split; [|apply Forall_cons; split; [done|]; apply Forall_cons; split; [|apply Forall_singleton]].
    + split; [|done]. split_and!; [tauto|repeat constructor; lia|by vm_compute|done].
    + split; [split_and!; [left; done|constructor|by vm_compute|done]|]. intros _. split_and!; [vm_compute; split_and!; (done || lia)|simpl; lia|simpl; lia].
    + split; [|done]. split_and!; [left; done|repeat constructor; lia|by vm_compute|done].
  - vm_compute. split_and!; (done || lia).
  - change (length (kformat_of sample_printk)) with 14%nat. intros a Ha. lia.
  - change (length (kformat_of sample_printk)) with 14%nat. lia.
  - exists m'. split; [exact H1|]. exact (H2 ltac:(lia)).
Defined.
