(* ===== verification/Transcode.v ===== *)
(** * Text conversions (lib/utils/source/transcode)

    Hexadecimal text and the conversions between GBK, UTF-8 and 16-bit Unicode
    units, on the byte memory.  The code page conversion [ff_convert] belongs to
    the FAT file system and is a parameter.  Loops over a string take fuel, [None]
    when it runs out; lengths that the code returns through pointers are results.
    The theorems show that hexadecimal text and UTF-8 are read back, and that the two
    ways from GBK to Unicode agree. *)
From stdpp Require Import gmap list.
From S2P Require Import Prelude Mem Strtol.
Local Open Scope Z_scope.

(** ** hex_str.c *)

(** The digit of [x], as the assignments to [ddh] and [ddl] compute it. *)
Definition hex_digit (x : Z) : Z := let d := s8 (48 + x) in if d >? 57 then s8 (d + 7) else d.
Fixpoint hex_to_str_loop (n : nat) (i pszDest pbSrc : Z) (m : gmap Z Z) : gmap Z Z :=
  match n with
  | O => m
  | S n =>
      let b := m !!! (pbSrc + i) in
      let m := <[pszDest + i * 2 := u8 (hex_digit (b / 16))]> m in
      let m := <[pszDest + i * 2 + 1 := u8 (hex_digit (b mod 16))]> m in
      hex_to_str_loop n (i + 1) pszDest pbSrc m
  end.
Definition hex_to_str (pszDest pbSrc nLen : Z) (m : gmap Z Z) : gmap Z Z :=
  let m := hex_to_str_loop (Z.to_nat nLen) 0 pszDest pbSrc m in
  <[pszDest + nLen * 2 := 0]> m.

(** The value of the digit [h], [s1] and [s2] of the code. *)
Definition digit_value (h : Z) : Z := let s := s8 (toupper h - 48) in if s >? 9 then s8 (s - 7) else s.
Fixpoint str_to_hex_loop (n : nat) (i pbDest pszSrc : Z) (m : gmap Z Z) : gmap Z Z :=
  match n with
  | O => m
  | S n =>
      let s1 := digit_value (s8 (m !!! (pszSrc + 2 * i))) in
      let s2 := digit_value (s8 (m !!! (pszSrc + 2 * i + 1))) in
      str_to_hex_loop n (i + 1) pbDest pszSrc (<[pbDest + i := u8 (Z.lor (Z.shiftl s1 4) s2)]> m)
  end.
Definition str_to_hex (pbDest pszSrc nLen : Z) (m : gmap Z Z) : gmap Z Z :=
  str_to_hex_loop (Z.to_nat nLen) 0 pbDest pszSrc m.

(** ** transcode.c *)

(** An [unsigned short] in memory. *)
Definition unit_at (m : gmap Z Z) (a : Z) : Z := m !!! a + 256 * (m !!! (a + 1)).
Definition set_unit (a v : Z) (m : gmap Z Z) : gmap Z Z := <[a + 1 := v / 256]> (<[a := v mod 256]> m).

Fixpoint utf8_to_unicode_loop (fuel : nat) (utf8_len utf8 unicode count : Z) (m : gmap Z Z) : option (Z * Z * gmap Z Z) :=
  match fuel with
  | O => None
  | S fuel =>
      if utf8_len <? 0 then Some (0, count, m) else
      let c0 := m !!! utf8 in
      if c0 <? 128 then utf8_to_unicode_loop fuel (utf8_len - 1) (utf8 + 1) (unicode + 2) (count + 2) (set_unit unicode c0 m) else
      if Z.land c0 192 =? 128 then Some (-1, 0, m) else
      if utf8_len - 1 <? 0 then Some (-1, 0, m) else
      let c1 := m !!! (utf8 + 1) in
      if negb (Z.land c1 192 =? 128) then Some (-1, 0, m) else
      let scalar := Z.lor (u32 (Z.shiftl c0 6)) (Z.land c1 63) in
      if Z.land c0 32 =? 0 then
        if negb (scalar =? 0) && (scalar <? 128) then Some (-1, 0, m)
        else utf8_to_unicode_loop fuel (utf8_len - 2) (utf8 + 2) (unicode + 2) (count + 2) (set_unit unicode (Z.land (u16 scalar) 2047) m)
      else
      if utf8_len - 2 <? 0 then Some (-1, 0, m) else
      let c1 := m !!! (utf8 + 2) in
      if negb (Z.land c1 192 =? 128) then Some (-1, 0, m) else
      let scalar := Z.lor (u32 (Z.shiftl scalar 6)) (Z.land c1 63) in
      if Z.land c0 16 =? 0 then
        if scalar <? 2048 then Some (-1, 0, m)
        else if (55296 <=? scalar) && (scalar <? 57344) then Some (-1, 0, m)
        else utf8_to_unicode_loop fuel (utf8_len - 3) (utf8 + 3) (unicode + 2) (count + 2) (set_unit unicode (u16 (Z.land scalar 65535)) m)
      else Some (-1, 0, m)
  end.
(** The return value, [*punicode_len] and the memory; every round reads a byte. *)
Definition utf8_to_unicode (utf8 utf8_len unicode : Z) (m : gmap Z Z) : option (Z * Z * gmap Z Z) :=
  if (unicode =? 0) || (utf8 =? 0) then Some (-1, 0, m)
  else utf8_to_unicode_loop (S (Z.to_nat utf8_len)) (utf8_len - 1) utf8 unicode 0 m.

Definition encode_utf8 (s widechar : Z) (m : gmap Z Z) : Z * gmap Z Z :=
  if Z.land widechar 63488 >? 0 then
    (3, <[s + 2 := u8 (Z.lor 128 (Z.land widechar 63))]> (<[s + 1 := u8 (Z.lor 128 (Z.land (Z.shiftr widechar 6) 63))]>
      (<[s := u8 (Z.lor 224 (Z.shiftr widechar 12))]> m)))
  else if Z.land widechar 65408 >? 0 then
    (2, <[s + 1 := u8 (Z.lor 128 (Z.land widechar 63))]> (<[s := u8 (Z.lor 192 (Z.shiftr widechar 6))]> m))
  else (1, <[s := u8 widechar]> m).
Fixpoint unicode_to_utf8_loop (fuel : nat) (unicode unicode_len utf8 utf8Total buffersize : Z) (m : gmap Z Z) : option (Z * Z * gmap Z Z) :=
  match fuel with
  | O => None
  | S fuel =>
      if (unicode_len =? 0) || (unit_at m unicode =? 0) then Some (1, utf8Total, <[utf8 := 0]> m)
      else
        let '(utf8bytes, m) := encode_utf8 utf8 (unit_at m unicode) m in
        if utf8Total + utf8bytes >? buffersize then Some (-1, buffersize, m)
        else unicode_to_utf8_loop fuel (unicode + 2) (unicode_len - 2) (utf8 + utf8bytes) (utf8Total + utf8bytes) buffersize m
  end.
(** The return value, [*putf8_len] and the memory.  An odd length ends at a zero unit only, so the fuel is the caller's. *)
Definition unicode_to_utf8 (fuel : nat) (unicode unicode_len utf8 putf8_len : Z) (m : gmap Z Z) : option (Z * Z * gmap Z Z) :=
  if (unicode =? 0) || (utf8 =? 0) then Some (-1, putf8_len, m)
  else unicode_to_utf8_loop fuel unicode unicode_len utf8 0 putf8_len m.

Section gbk.
(** [ff_convert chr dir]: to Unicode for [dir] 1, from it for 0; 0 if there is no such character. *)
Context (ff_convert : Z → Z → Z).

(** The next character of a GBK string: its code and where the next one starts. *)
Definition gbk_char (m : gmap Z Z) (g : Z) : Z * Z :=
  let w := m !!! g in
  if (129 <=? w) && (w <=? 254) then (u16 (Z.shiftl w 8 + m !!! (g + 1)), g + 2) else (w, g + 1).

Fixpoint gbk_to_utf8_loop (fuel : nat) (lpGBKStr lpUTF8Str len : Z) (m : gmap Z Z) : option (Z * gmap Z Z) :=
  match fuel with
  | O => None
  | S fuel =>
      if m !!! lpGBKStr =? 0 then Some (len, <[lpUTF8Str + len := 0]> m)
      else
        let '(w, lpGBKStr) := gbk_char m lpGBKStr in
        let wchar := u16 (ff_convert w 1) in
        if wchar <=? 127 then gbk_to_utf8_loop fuel lpGBKStr lpUTF8Str (len + 1) (<[lpUTF8Str + len := wchar]> m)
        else if wchar <=? 2047 then
          let m := <[lpUTF8Str + len := u8 (Z.lor 192 (Z.land (Z.shiftr wchar 6) 31))]> m in
          let m := <[lpUTF8Str + len + 1 := u8 (Z.lor 128 (Z.land wchar 63))]> m in
          gbk_to_utf8_loop fuel lpGBKStr lpUTF8Str (len + 2) m
        else if wchar <? 65535 then
          let m := <[lpUTF8Str + len := u8 (Z.lor 224 (Z.land (Z.shiftr wchar 12) 15))]> m in
          let m := <[lpUTF8Str + len + 1 := u8 (Z.lor 128 (Z.land (Z.shiftr wchar 6) 63))]> m in
          let m := <[lpUTF8Str + len + 2 := u8 (Z.lor 128 (Z.land wchar 63))]> m in
          gbk_to_utf8_loop fuel lpGBKStr lpUTF8Str (len + 3) m
        else Some (-1, m)
  end.
Definition gbk_to_utf8 (fuel : nat) (lpGBKStr lpUTF8Str : Z) (m : gmap Z Z) : option (Z * gmap Z Z) :=
  gbk_to_utf8_loop fuel lpGBKStr lpUTF8Str 0 m.

Fixpoint utf8_to_gbk_loop (fuel : nat) (start lpUTF8Str lpGBKStr len outputSize : Z) (m : gmap Z Z) : option (Z * gmap Z Z) :=
  match fuel with
  | O => None
  | S fuel =>
      let c := m !!! lpUTF8Str in
      if (c =? 0) || negb (lpUTF8Str <=? start + len) then Some (outputSize, m)
      else if c <=? 127 then utf8_to_gbk_loop fuel start (lpUTF8Str + 1) (lpGBKStr + 1) len (outputSize + 1) (<[lpGBKStr := c]> m)
      else if Z.land c 224 =? 192 then
        let low := m !!! (lpUTF8Str + 1) in
        let '(high, low) :=
          if Z.land low 192 =? 128 then
            let gbkcode := u16 (ff_convert (Z.lor (u16 (Z.shiftl (Z.land c 15) 6)) (Z.land low 63)) 0) in
            if negb (gbkcode =? 0) then (Z.shiftr gbkcode 8, Z.land gbkcode 255) else (c, low)
          else (c, low) in
        utf8_to_gbk_loop fuel start (lpUTF8Str + 2) (lpGBKStr + 2) len (outputSize + 2) (<[lpGBKStr + 1 := low]> (<[lpGBKStr := high]> m))
      else if Z.land c 240 =? 224 then
        let middle := m !!! (lpUTF8Str + 1) in
        let low := m !!! (lpUTF8Str + 2) in
        let gbkcode :=
          if (Z.land middle 192 =? 128) && (Z.land low 192 =? 128) then
            u16 (ff_convert (Z.lor (u16 (Z.shiftl (Z.lor (Z.shiftl (Z.land c 15) 6) (Z.land middle 63)) 6)) (Z.land low 63)) 0)
          else 0 in
        if negb (gbkcode =? 0) then
          utf8_to_gbk_loop fuel start (lpUTF8Str + 3) (lpGBKStr + 2) len (outputSize + 2)
            (<[lpGBKStr + 1 := Z.land gbkcode 255]> (<[lpGBKStr := Z.shiftr gbkcode 8]> m))
        else
          utf8_to_gbk_loop fuel start (lpUTF8Str + 3) (lpGBKStr + 3) len (outputSize + 3)
            (<[lpGBKStr + 2 := low]> (<[lpGBKStr + 1 := middle]> (<[lpGBKStr := c]> m)))
      else utf8_to_gbk_loop fuel start (lpUTF8Str + 1) (lpGBKStr + 1) len (outputSize + 1) (<[lpGBKStr := c]> m)
  end.
Definition utf8_to_gbk (fuel : nat) (lpUTF8Str lpGBKStr len : Z) (m : gmap Z Z) : option (Z * gmap Z Z) :=
  utf8_to_gbk_loop fuel lpUTF8Str lpUTF8Str lpGBKStr len 0 m.

Fixpoint gbk_to_unicode_loop (fuel : nat) (lpGBKStr unicode len : Z) (m : gmap Z Z) : option (Z * gmap Z Z) :=
  match fuel with
  | O => None
  | S fuel =>
      if m !!! lpGBKStr =? 0 then Some (len, m)
      else
        let '(w, lpGBKStr) := gbk_char m lpGBKStr in
        gbk_to_unicode_loop fuel lpGBKStr (unicode + 2) (len + 2) (set_unit unicode (u16 (ff_convert w 1)) m)
  end.
(** [*punicode_len] and the memory; [-1] for NULL arguments. *)
Definition gbk_to_unicode (fuel : nat) (lpGBKStr unicode : Z) (m : gmap Z Z) : option (Z * Z * gmap Z Z) :=
  if (lpGBKStr =? 0) || (unicode =? 0) then Some (-1, 0, m)
  else '(len, m) ← gbk_to_unicode_loop fuel lpGBKStr unicode 0 m; Some (0, len, m).

(** The same loop with an index; the number of units is a [uint16_t]. *)
Fixpoint mbcs_to_unicode_loop (fuel : nat) (src_mbcs dst_uni unicode_num : Z) (m : gmap Z Z) : option (Z * gmap Z Z) :=
  match fuel with
  | O => None
  | S fuel =>
      if m !!! src_mbcs =? 0 then Some (unicode_num, m)
      else
        let '(w, src_mbcs) := gbk_char m src_mbcs in
        mbcs_to_unicode_loop fuel src_mbcs dst_uni (u16 (unicode_num + 1)) (set_unit (dst_uni + 2 * unicode_num) (u16 (ff_convert w 1)) m)
  end.
Definition mbcs_to_unicode (fuel : nat) (src_mbcs dst_uni : Z) (m : gmap Z Z) : option (Z * Z * gmap Z Z) :=
  if (src_mbcs =? 0) || (dst_uni =? 0) then Some (-1, 0, m)
  else '(n, m) ← mbcs_to_unicode_loop fuel src_mbcs dst_uni 0 m; Some (0, n * 2, m).

(** [n] is [src_len - s_cnt]; [num_bytes] is [d_cnt] until the end. *)
Fixpoint unicod_to_mbcs_loop (n : nat) (src_ucs dst_mbcs d_cnt ret : Z) (m : gmap Z Z) : Z * Z * gmap Z Z :=
  match n with
  | O => (ret, d_cnt, m)
  | S n =>
      let cu := unit_at m src_ucs in
      if cu =? 0 then (ret, d_cnt, m)
      else if cu <? 128 then unicod_to_mbcs_loop n (src_ucs + 2) dst_mbcs (d_cnt + 1) ret (<[dst_mbcs + d_cnt := Z.land 255 cu]> m)
      else
        let code := u16 (ff_convert cu 0) in
        let '(ret, code) := if code =? 0 then (0, 32) else (ret, code) in
        let m := <[dst_mbcs + d_cnt := Z.land 255 code]> m in
        if (u8 code >? 127) && negb (u8 (Z.shiftr code 8) =? 0) then
          unicod_to_mbcs_loop n (src_ucs + 2) dst_mbcs (d_cnt + 2) ret (<[dst_mbcs + d_cnt + 1 := u8 (Z.shiftr (Z.land 65280 code) 8)]> m)
        else unicod_to_mbcs_loop n (src_ucs + 2) dst_mbcs (d_cnt + 1) ret m
  end.
Definition unicod_to_mbcs (src_ucs dst_mbcs src_len : Z) (m : gmap Z Z) : Z * Z * gmap Z Z :=
  if (src_ucs =? 0) || (dst_mbcs =? 0) then (-1, 0, m)
  else
    let '(ret, d_cnt, m) := unicod_to_mbcs_loop (Z.to_nat (Z.quot src_len 2)) src_ucs dst_mbcs 0 1 m in
    (ret, d_cnt + 1, <[dst_mbcs + d_cnt := 0]> m).
End gbk.

(** ** Hexadecimal text *)
Lemma hex_digit_value x : 0 ≤ x < 16 → digit_value (s8 (u8 (hex_digit x))) = x ∧ 0 ≤ u8 (hex_digit x) < 256.
Proof.
  intros Hx. pose proof (forallb_range 16 (λ x, digit_value (s8 (u8 (hex_digit x))) =? x) ltac:(by vm_compute) x Hx) as E.
  apply Z.eqb_eq in E. split; [done|apply u8_range].
Qed.
Lemma hex_to_str_loop_spec n i d s m :
  (∀ j, i ≤ j < i + Z.of_nat n → s + j < d + i * 2 ∨ d + (i + Z.of_nat n) * 2 ≤ s + j) →
  let m' := hex_to_str_loop n i d s m in
  (∀ a, a < d + i * 2 ∨ d + (i + Z.of_nat n) * 2 ≤ a → m' !!! a = m !!! a) ∧
  ∀ j, i ≤ j < i + Z.of_nat n →
    m' !!! (d + j * 2) = u8 (hex_digit (m !!! (s + j) / 16)) ∧ m' !!! (d + j * 2 + 1) = u8 (hex_digit (m !!! (s + j) mod 16)).
Proof.
  revert i m. induction n as [|n IH]; intros i m Hd; cbn [hex_to_str_loop]; cbv zeta; [split; [done|lia]|].
  set (m1 := <[d + i * 2 + 1 := _]> _).
  assert (Hm1 : ∀ a, a ≠ d + i * 2 → a ≠ d + i * 2 + 1 → m1 !!! a = m !!! a) by (intros a H1 H2; unfold m1; rewrite !lookup_total_ins_ne by done; done).
  destruct (IH (i + 1) m1) as [Hf Hw]; [intros j Hj; specialize (Hd j); lia|]. split.
  - intros a Ha. rewrite Hf by lia. apply Hm1; lia.
  - intros j Hj. destruct (decide (j = i)) as [->|Hne].
    + rewrite !Hf by lia. unfold m1. rewrite lookup_total_ins_eq, lookup_total_ins_ne, lookup_total_ins_eq by lia. done.
    + destruct (Hw j ltac:(lia)) as [-> ->]. rewrite Hm1; [done|specialize (Hd j); lia..].
Qed.
Lemma str_to_hex_loop_spec n i d s m :
  (∀ j, 2 * i ≤ j < 2 * (i + Z.of_nat n) → s + j < d + i ∨ d + i + Z.of_nat n ≤ s + j) →
  let m' := str_to_hex_loop n i d s m in
  (∀ a, a < d + i ∨ d + i + Z.of_nat n ≤ a → m' !!! a = m !!! a) ∧
  ∀ j, i ≤ j < i + Z.of_nat n →
    m' !!! (d + j) = u8 (Z.lor (Z.shiftl (digit_value (s8 (m !!! (s + 2 * j)))) 4) (digit_value (s8 (m !!! (s + 2 * j + 1))))).
Proof.
  revert i m. induction n as [|n IH]; intros i m Hd; cbn [str_to_hex_loop]; cbv zeta; [split; [done|lia]|].
  set (m1 := <[d + i := _]> m).
  assert (Hm1 : ∀ a, a ≠ d + i → m1 !!! a = m !!! a) by (intros a H1; unfold m1; by rewrite lookup_total_ins_ne).
  destruct (IH (i + 1) m1) as [Hf Hw]; [intros j Hj; specialize (Hd j); lia|]. split.
  - intros a Ha. rewrite Hf by lia. apply Hm1; lia.
  - intros j Hj. destruct (decide (j = i)) as [->|Hne].
    + rewrite Hf by lia. unfold m1. by rewrite lookup_total_ins_eq.
    + rewrite Hw by lia. rewrite !Hm1; [done|pose proof (Hd (2 * j)); pose proof (Hd (2 * j + 1)); lia..].
Qed.

(** Hexadecimal text is read back: [str_to_hex] of the text that [hex_to_str] writes gives the bytes, which may be
    anything, and the text ends with a zero. *)
Theorem hex_text_read_back dst text src n m :
  0 ≤ n → disjoint_ranges text (2 * n + 1) src n → disjoint_ranges dst n text (2 * n) → (∀ i, 0 ≤ i < n → 0 ≤ m !!! (src + i) < 256) →
  bytes (str_to_hex dst text n (hex_to_str text src n m)) dst n = bytes m src n ∧
  hex_to_str text src n m !!! (text + n * 2) = 0.
Proof.
  intros Hn Hd1 Hd2 Hb. unfold disjoint_ranges in *. unfold hex_to_str, str_to_hex. cbv zeta. split; [|by rewrite lookup_total_ins_eq].
  destruct (hex_to_str_loop_spec (Z.to_nat n) 0 text src m) as [_ Hw]; [lia|]. set (m1 := hex_to_str_loop _ _ _ _ _) in *.
  destruct (str_to_hex_loop_spec (Z.to_nat n) 0 dst text (<[text + n * 2 := 0]> m1)) as [_ Hr]; [lia|]. set (m2 := str_to_hex_loop _ _ _ _ _) in *.
  unfold bytes. apply read_bytes_at. intros i Hi. rewrite Hr by lia. rewrite !lookup_total_ins_ne by lia.
  replace (text + 2 * i) with (text + i * 2) by lia. destruct (Hw i ltac:(lia)) as [-> ->]. specialize (Hb i ltac:(lia)).
  rewrite (proj1 (hex_digit_value (m !!! (src + i) / 16) ltac:(dlia))), (proj1 (hex_digit_value (m !!! (src + i) mod 16) ltac:(dlia))).
  rewrite Z.shiftl_mul_pow2, lor_add by dlia. change (2 ^ 4) with 16. rewrite u8_id by dlia. dlia.
Qed.

(** ** UTF-8 *)
Definition utf8_of (w : Z) : list Z :=
  if w <? 128 then [w] else if w <? 2048 then [192 + w / 64; 128 + w mod 64]
  else [224 + w / 4096; 128 + w / 64 mod 64; 128 + w mod 64].
(** The masks and shifts of the code as divisions. *)
Lemma land_63 x : Z.land x 63 = x mod 64.
Proof. change 63 with (Z.ones 6). by rewrite Z.land_ones. Qed.
Lemma shiftr_div x k : 0 ≤ k → Z.shiftr x k = x / 2 ^ k.
Proof. apply Z.shiftr_div_pow2. Qed.
Lemma continuation x : u8 (Z.lor 128 (Z.land x 63)) = 128 + x mod 64.
Proof. rewrite land_63. change 128 with (2 * 2 ^ 6). rewrite lor_add by dlia. change (2 * 2 ^ 6) with 128. apply u8_id. dlia. Qed.
Lemma lead_2 x : 0 ≤ x < 32 → u8 (Z.lor 192 x) = 192 + x.
Proof. intros Hx. change 192 with (6 * 2 ^ 5). rewrite lor_add by lia. apply u8_id. lia. Qed.
Lemma lead_3 x : 0 ≤ x < 16 → u8 (Z.lor 224 x) = 224 + x.
Proof. intros Hx. change 224 with (14 * 2 ^ 4). rewrite lor_add by lia. apply u8_id. lia. Qed.
(** A mask of the [j] bits from [i] on tells whether a number reaches [2 ^ i]. *)
Lemma land_mask_high w i j : 0 ≤ i → 0 ≤ j → 0 ≤ w < 2 ^ (i + j) → (Z.land w (Z.shiftl (Z.ones j) i) >? 0) = (2 ^ i <=? w).
Proof.
  intros Hi Hj Hw. assert (Z.land w (Z.shiftl (Z.ones j) i) = w / 2 ^ i * 2 ^ i) as ->.
  { rewrite <-Z.shiftr_div_pow2, <-Z.shiftl_mul_pow2 by lia. apply Z.bits_inj'. intros n Hn. rewrite Z.land_spec.
    destruct (decide (n < i)); [rewrite !Z.shiftl_spec_low, andb_false_r by lia; done|].
    rewrite !Z.shiftl_spec, Z.shiftr_spec by lia. replace (n - i + i) with n by lia.
    destruct (decide (n - i < j)); [rewrite Z.ones_spec_low, andb_true_r by lia; done|].
    rewrite Z.ones_spec_high, andb_false_r by lia. rewrite <-(Z.mod_small w (2 ^ (i + j))), Z.mod_pow2_bits_high by lia. done. }
  pose proof (Z.pow_pos_nonneg 2 i). rewrite Z.gtb_ltb. destruct (Z.leb_spec (2 ^ i) w).
  - apply Z.ltb_lt. assert (1 ≤ w / 2 ^ i) by (apply Z.div_le_lower_bound; lia). nia.
  - rewrite Z.div_small by lia. done.
Qed.

(** The bytes that [encode_utf8] writes. *)
Definition encoded (w : Z) : list Z :=
  if Z.land w 63488 >? 0 then [u8 (Z.lor 224 (Z.shiftr w 12)); u8 (Z.lor 128 (Z.land (Z.shiftr w 6) 63)); u8 (Z.lor 128 (Z.land w 63))]
  else if Z.land w 65408 >? 0 then [u8 (Z.lor 192 (Z.shiftr w 6)); u8 (Z.lor 128 (Z.land w 63))]
  else [u8 w].
Lemma encoded_utf8 w : 0 ≤ w < 65536 → encoded w = utf8_of w.
Proof.
  intros Hw. unfold encoded, utf8_of. change 63488 with (Z.shiftl (Z.ones 5) 11). change 65408 with (Z.shiftl (Z.ones 9) 7).
  rewrite (land_mask_high w 11 5), (land_mask_high w 7 9) by lia. change (2 ^ 11) with 2048. change (2 ^ 7) with 128.
  rewrite !continuation, !shiftr_div by lia. change (2 ^ 12) with 4096. change (2 ^ 6) with 64.
  destruct (Z.leb_spec 2048 w); [|destruct (Z.leb_spec 128 w)].
  - rewrite (proj2 (Z.ltb_ge w 128)), (proj2 (Z.ltb_ge w 2048)), lead_3 by dlia. done.
  - rewrite (proj2 (Z.ltb_ge w 128)), (proj2 (Z.ltb_lt w 2048)), lead_2 by dlia. done.
  - rewrite (proj2 (Z.ltb_lt w 128)), u8_id by lia. done.
Qed.
Lemma encode_utf8_spec s w m : 0 ≤ w < 65536 → encode_utf8 s w m = (Z.of_nat (length (utf8_of w)), write_bytes s (utf8_of w) m).
Proof.
  intros Hw. rewrite <-encoded_utf8 by done. unfold encode_utf8, encoded. destruct (_ >? 0); [|destruct (_ >? 0)]; simpl; rewrite <-?Z.add_assoc; done.
Qed.

(** What the decoder tests and computes on the bytes of one character. *)
Definition decode_facts (w : Z) : bool :=
  if w <? 128 then true
  else if w <? 2048 then
    let c0 := 192 + w / 64 in let c1 := 128 + w mod 64 in let scalar := Z.lor (u32 (Z.shiftl c0 6)) (Z.land c1 63) in
    negb (c0 <? 128) && negb (Z.land c0 192 =? 128) && (Z.land c1 192 =? 128) && (Z.land c0 32 =? 0) && negb (scalar <? 128) &&
    (Z.land (u16 scalar) 2047 =? w)
  else
    let c0 := 224 + w / 4096 in let c1 := 128 + w / 64 mod 64 in let c2 := 128 + w mod 64 in
    let scalar := Z.lor (u32 (Z.shiftl c0 6)) (Z.land c1 63) in let scalar' := Z.lor (u32 (Z.shiftl scalar 6)) (Z.land c2 63) in
    negb (c0 <? 128) && negb (Z.land c0 192 =? 128) && (Z.land c1 192 =? 128) && negb (Z.land c0 32 =? 0) && (Z.land c2 192 =? 128) &&
    (Z.land c0 16 =? 0) && negb (scalar' <? 2048) && negb (scalar' <? 57344) && (u16 (Z.land scalar' 65535) =? w).
(** The marker bits of a byte, by evaluation. *)
Definition continues (c : Z) : bool := Z.land c 192 =? 128.
Lemma continues_range c : 128 ≤ c < 192 → continues c = true.
Proof.
  intros Hc. pose proof (forallb_range 256 (λ c, ((c <? 128) || (192 <=? c)) || continues c) ltac:(by vm_compute) c ltac:(lia)) as H.
  cbv beta in H. rewrite (proj2 (Z.ltb_ge c 128)), (proj2 (Z.leb_gt 192 c)) in H by lia. done.
Qed.
Lemma lead_range c : 192 ≤ c < 240 → (c <? 128) = false ∧ continues c = false ∧ (Z.land c 32 =? 0) = (c <? 224) ∧ (Z.land c 16 =? 0) = ((c <? 208) || (224 <=? c)).
Proof.
  intros Hc. pose proof (forallb_range 240 (λ c, (c <? 192) || (negb (c <? 128) && negb (continues c) && eqb (Z.land c 32 =? 0) (c <? 224) &&
    eqb (Z.land c 16 =? 0) ((c <? 208) || (224 <=? c)))) ltac:(by vm_compute) c ltac:(lia)) as H.
  cbv beta in H. rewrite (proj2 (Z.ltb_ge c 192)) in H by lia. cbn [orb] in H. repeat (apply andb_true_iff in H as [H ?]). rewrite !negb_true_iff in *.
  split_and!; [done|done|by apply eqb_prop|by apply eqb_prop].
Qed.
Lemma scalar_step c0 c1 : 0 ≤ c0 < 67108864 → Z.lor (u32 (Z.shiftl c0 6)) (Z.land c1 63) = c0 * 64 + c1 mod 64.
Proof. intros Hc. rewrite land_63, Z.shiftl_mul_pow2 by lia. change (2 ^ 6) with 64. rewrite u32_id by lia. change 64 with (2 ^ 6) at 1. rewrite lor_add by dlia. done. Qed.
Lemma decode_facts_hold w : 0 ≤ w < 65536 → decode_facts w = true.
Proof.
  intros Hw. unfold decode_facts. destruct (Z.ltb_spec w 128); [done|]. destruct (Z.ltb_spec w 2048); cbv zeta.
  - destruct (lead_range (192 + w / 64) ltac:(dlia)) as (-> & E & -> & _). pose proof (continues_range (128 + w mod 64) ltac:(dlia)) as E1. unfold continues in *. rewrite E, E1.
    rewrite scalar_step by dlia. rewrite (proj2 (Z.ltb_lt (192 + w / 64) 224)), (proj2 (Z.ltb_ge _ 128)) by dlia. cbn [negb andb].
    apply Z.eqb_eq. change 2047 with (Z.ones 11). rewrite Z.land_ones by lia. change (2 ^ 11) with 2048. unfold u16. dlia.
  - destruct (lead_range (224 + w / 4096) ltac:(dlia)) as (-> & E & -> & ->).
    pose proof (continues_range (128 + w / 64 mod 64) ltac:(dlia)) as E1. pose proof (continues_range (128 + w mod 64) ltac:(dlia)) as E2. unfold continues in *. rewrite E, E1, E2.
    rewrite (scalar_step (224 + w / 4096)), scalar_step by dlia. rewrite (proj2 (Z.ltb_ge (224 + w / 4096) 224)), (proj2 (Z.leb_le 224 (224 + w / 4096))), orb_true_r by dlia. cbn [negb andb].
    rewrite !(proj2 (Z.ltb_ge (((224 + w / 4096) * 64 + (128 + w / 64 mod 64) mod 64) * 64 + (128 + w mod 64) mod 64) _)) by dlia. cbn [negb andb].
    apply Z.eqb_eq. change 65535 with (Z.ones 16). rewrite Z.land_ones by lia. change (2 ^ 16) with 65536. unfold u16. dlia.
Qed.
Lemma decode_step fuel len t v count w m :
  0 ≤ w < 65536 → read_bytes (length (utf8_of w)) t m = utf8_of w → Z.of_nat (length (utf8_of w)) ≤ len + 1 →
  utf8_to_unicode_loop (S fuel) len t v count m =
  utf8_to_unicode_loop fuel (len - Z.of_nat (length (utf8_of w))) (t + Z.of_nat (length (utf8_of w))) (v + 2) (count + 2) (set_unit v w m).
Proof.
  intros Hw Ht Hlen. pose proof (decode_facts_hold w Hw) as HD. unfold decode_facts, utf8_of in *.
  destruct (Z.ltb_spec w 128) as [H1|H1]; [|destruct (Z.ltb_spec w 2048) as [H2|H2]]; simpl in Ht, Hlen; injection Ht as Ht; cbn [utf8_to_unicode_loop];
    rewrite (proj2 (Z.ltb_ge len 0)) by lia; cbv zeta.
  - rewrite Ht, (proj2 (Z.ltb_lt w 128) H1). done.
  - rewrite Ht, H. cbv zeta in HD. repeat (apply andb_true_iff in HD as [HD ?]). rewrite !negb_true_iff in *.
    rewrite (proj2 (Z.ltb_ge (len - 1) 0)) by lia. do 5 (match goal with E : _ = _ :> bool |- _ => rewrite E; clear E end; cbn [negb andb]).
    rewrite andb_false_r. match goal with E : (_ =? w) = true |- _ => apply Z.eqb_eq in E; rewrite E end. done.
  - replace (t + 1 + 1) with (t + 2) in * by lia. match goal with E : m !!! (t + 2) = _ |- _ => rewrite E; clear E end. rewrite Ht, H. cbv zeta in HD. clear Ht H.
    repeat (apply andb_true_iff in HD as [HD ?]). rewrite !negb_true_iff in *. rewrite (proj2 (Z.ltb_ge (len - 1) 0)), (proj2 (Z.ltb_ge (len - 2) 0)) by lia.
    do 8 (match goal with E : _ = _ :> bool |- _ => rewrite E; clear E end; cbn [negb andb]).
    rewrite andb_false_r. match goal with E : (_ =? w) = true |- _ => apply Z.eqb_eq in E; rewrite E end. done.
Qed.

(** A text of units, in memory and as UTF-8. *)
Definition unit_bytes (ws : list Z) : list Z := concat ((λ w, [w mod 256; w / 256]) <$> ws).
Definition utf8_text (ws : list Z) : list Z := concat (utf8_of <$> ws).
Definition is_unit (w : Z) : Prop := 0 ≤ w < 65536.

Lemma unit_bytes_length ws : length (unit_bytes ws) = (2 * length ws)%nat.
Proof. induction ws as [|w ws IH]; [done|]. change (unit_bytes (w :: ws)) with (w mod 256 :: w / 256 :: unit_bytes ws). simpl. lia. Qed.
Lemma utf8_of_length w : (1 ≤ length (utf8_of w) ≤ 3)%nat.
Proof. unfold utf8_of. destruct (_ <? _); [|destruct (_ <? _)]; simpl; lia. Qed.
Lemma utf8_text_length ws : (length ws ≤ length (utf8_text ws) ≤ 3 * length ws)%nat.
Proof.
  induction ws as [|w ws IH]; [done|]. change (utf8_text (w :: ws)) with (utf8_of w ++ utf8_text ws). rewrite length_app. simpl. pose proof (utf8_of_length w). lia.
Qed.
Lemma set_unit_write a w m : set_unit a w m = write_bytes a [w mod 256; w / 256] m.
Proof. done. Qed.
Lemma read_bytes_split l l' a m : read_bytes (length (l ++ l')) a m = l ++ l' →
  read_bytes (length l) a m = l ∧ read_bytes (length l') (a + Z.of_nat (length l)) m = l'.
Proof. rewrite length_app, read_bytes_app. intros E. apply app_inj_1 in E; [done|]. by rewrite read_bytes_length. Qed.
Lemma read_bytes_outside n a l b m : disjoint_ranges a (Z.of_nat n) b (Z.of_nat (length l)) → read_bytes n a (write_bytes b l m) = read_bytes n a m.
Proof. intros Hd. apply read_bytes_ext. intros x Hx. apply write_bytes_other. unfold disjoint_ranges in Hd. lia. Qed.

(** The text of [ws] at [u] ends at the length [len], or before it with a zero
    unit that the [n] bytes written to [t] leave alone. *)
Definition text_ends (ws : list Z) (u len t n : Z) (m : gmap Z Z) : Prop :=
  let e := 2 * Z.of_nat (length ws) in len = e ∨ e < len ∧ unit_at m (u + e) = 0 ∧ disjoint_ranges t n (u + e) 2.

Lemma unit_at_outside a t l m : disjoint_ranges t (Z.of_nat (length l)) a 2 → unit_at (write_bytes t l m) a = unit_at m a.
Proof. unfold disjoint_ranges. intros Hd. unfold unit_at. by rewrite !write_bytes_other by lia. Qed.

Lemma unicode_to_utf8_loop_spec ws fuel u len t total buf m :
  Forall (λ w, 0 < w < 65536) ws → read_bytes (length (unit_bytes ws)) u m = unit_bytes ws →
  text_ends ws u len t (Z.of_nat (length (utf8_text ws))) m →
  disjoint_ranges t (Z.of_nat (length (utf8_text ws))) u (Z.of_nat (length (unit_bytes ws))) →
  total + Z.of_nat (length (utf8_text ws)) ≤ buf → (length ws < fuel)%nat →
  unicode_to_utf8_loop fuel u len t total buf m =
  Some (1, total + Z.of_nat (length (utf8_text ws)), write_bytes t (utf8_text ws ++ [0]) m).
Proof.
  revert fuel u len t total m. induction ws as [|w ws IH]; intros fuel u len t total m Hws Hu He Hd Hbuf Hfuel; destruct fuel as [|fuel]; try (simpl in Hfuel; lia);
    cbn [unicode_to_utf8_loop].
  { assert ((len =? 0) || (unit_at m u =? 0) = true) as ->; [|by rewrite Z.add_0_r]. apply orb_true_iff. rewrite !Z.eqb_eq.
    destruct He as [->|(_ & He & _)]; [by left|right]. by rewrite Z.add_0_r in He. }
  apply Forall_cons in Hws as [Hw Hws]. change (utf8_text (w :: ws)) with (utf8_of w ++ utf8_text ws) in *. change (unit_bytes (w :: ws)) with ([w mod 256; w / 256] ++ unit_bytes ws) in *.
  apply read_bytes_split in Hu as [Hu1 Hu2]. simpl in Hu1. injection Hu1 as E1 E2. rewrite length_app in *. simpl length in *.
  assert (unit_at m u = w) as -> by (unfold unit_at; rewrite E1, E2; dlia). rewrite (proj2 (Z.eqb_neq w 0)), (proj2 (Z.eqb_neq len 0)) by (unfold text_ends in He; simpl length in He; lia). cbn [orb].
  rewrite encode_utf8_spec by lia. pose proof (utf8_of_length w). unfold disjoint_ranges in Hd.
  rewrite Z.gtb_ltb, (proj2 (Z.ltb_ge buf _)) by lia.
  rewrite IH; [|done| | | |lia|lia].
  - rewrite <-app_assoc, (write_bytes_app t (utf8_of w)). do 2 f_equal. f_equal. lia.
  - rewrite read_bytes_outside; [exact Hu2|]. unfold disjoint_ranges. lia.
  - unfold text_ends, disjoint_ranges in *. simpl length in He. destruct He as [->|(Hlt & Hz & Hdz)]; [left; lia|right].
    replace (u + 2 + 2 * Z.of_nat (length ws)) with (u + 2 * Z.of_nat (S (length ws))) by lia.
    split_and!; [lia|rewrite unit_at_outside; [done|unfold disjoint_ranges; lia]|lia].
  - unfold disjoint_ranges. lia.
Qed.
Lemma utf8_to_unicode_loop_spec ws fuel t v count m :
  Forall is_unit ws → read_bytes (length (utf8_text ws)) t m = utf8_text ws →
  disjoint_ranges v (Z.of_nat (length (unit_bytes ws))) t (Z.of_nat (length (utf8_text ws))) → (length ws < fuel)%nat →
  utf8_to_unicode_loop fuel (Z.of_nat (length (utf8_text ws)) - 1) t v count m =
  Some (0, count + 2 * Z.of_nat (length ws), write_bytes v (unit_bytes ws) m).
Proof.
  revert fuel t v count m. induction ws as [|w ws IH]; intros fuel t v count m Hws Ht Hd Hfuel; destruct fuel as [|fuel]; try (simpl in Hfuel; lia).
  { cbn. by rewrite Z.add_0_r. }
  apply Forall_cons in Hws as [Hw Hws]. change (utf8_text (w :: ws)) with (utf8_of w ++ utf8_text ws) in *. change (unit_bytes (w :: ws)) with ([w mod 256; w / 256] ++ unit_bytes ws) in *.
  apply read_bytes_split in Ht as [Ht1 Ht2]. rewrite !length_app in *. simpl length in *. unfold disjoint_ranges in Hd.
  rewrite (decode_step fuel _ t v count w m Hw Ht1) by lia. rewrite set_unit_write.
  replace (Z.of_nat (length (utf8_of w) + length (utf8_text ws)) - 1 - Z.of_nat (length (utf8_of w))) with (Z.of_nat (length (utf8_text ws)) - 1) by lia.
  rewrite IH; [|done| | |lia].
  - rewrite write_bytes_app. do 2 f_equal. f_equal. lia.
  - rewrite read_bytes_outside; [exact Ht2|]. unfold disjoint_ranges. simpl length. lia.
  - unfold disjoint_ranges. lia.
Qed.

(** C35: text in nonzero 16-bit units that [unicode_to_utf8] converts,
    [utf8_to_unicode] converts back: the first returns 1, stops at the length it
    is given or, when that is longer than the text, before the zero unit that
    ends it, and writes the UTF-8 text with a zero behind it; the second returns 0
    and the same units.  The UTF-8 buffer has three bytes for each unit, and what
    is written does not overlap what is still to be read. *)
Theorem utf8_text_read_back ws unicode len utf8 dst buf m :
  Forall (λ w, 0 < w < 65536) ws → bytes m unicode (2 * Z.of_nat (length ws)) = unit_bytes ws →
  text_ends ws unicode len utf8 (3 * Z.of_nat (length ws)) m →
  0 < unicode → 0 < utf8 → 0 < dst → 3 * Z.of_nat (length ws) ≤ buf →
  disjoint_ranges utf8 (3 * Z.of_nat (length ws)) unicode (2 * Z.of_nat (length ws)) →
  disjoint_ranges dst (2 * Z.of_nat (length ws)) utf8 (3 * Z.of_nat (length ws)) →
  ∃ n m1 m2, unicode_to_utf8 (S (length ws)) unicode len utf8 buf m = Some (1, n, m1) ∧
    bytes m1 utf8 (n + 1) = utf8_text ws ++ [0] ∧
    utf8_to_unicode utf8 n dst m1 = Some (0, 2 * Z.of_nat (length ws), m2) ∧
    bytes m2 dst (2 * Z.of_nat (length ws)) = unit_bytes ws.
Proof.
  intros Hws Hu He Hu0 Ht0 Hd0 Hbuf Hd1 Hd2. pose proof (utf8_text_length ws) as Hl. pose proof (unit_bytes_length ws) as Hl2. unfold disjoint_ranges in *.
  assert (E2 : Z.to_nat (2 * Z.of_nat (length ws)) = length (unit_bytes ws)) by lia.
  unfold bytes in *. rewrite E2 in *. exists (Z.of_nat (length (utf8_text ws))). do 2 eexists. split_and!.
  - unfold unicode_to_utf8. rewrite (proj2 (Z.eqb_neq unicode 0)), (proj2 (Z.eqb_neq utf8 0)) by lia. cbn [orb].
    rewrite (unicode_to_utf8_loop_spec ws); [done|done|done|unfold text_ends, disjoint_ranges in *; lia|unfold disjoint_ranges; lia|lia|lia].
  - replace (Z.to_nat _) with (length (utf8_text ws ++ [0])) by (rewrite length_app; simpl; lia). apply read_write_bytes.
  - unfold utf8_to_unicode. rewrite (proj2 (Z.eqb_neq dst 0)), (proj2 (Z.eqb_neq utf8 0)) by lia. cbn [orb].
    apply utf8_to_unicode_loop_spec; [|apply (read_bytes_split _ [0]), read_write_bytes|unfold disjoint_ranges; lia|lia].
    eapply Forall_impl; [exact Hws|]. unfold is_unit. simpl. lia.
  - apply read_write_bytes.
Qed.

(** ** GBK *)

(** A character code of one or two bytes. *)
Definition gbk_code (c : Z) : Prop := (0 < c < 129 ∨ c = 255) ∨ 129 ≤ c / 256 ≤ 254.
Definition gbk_bytes (c : Z) : list Z := if c <? 256 then [c] else [c / 256; c mod 256].
Definition gbk_text (cs : list Z) : list Z := concat (gbk_bytes <$> cs).

Lemma gbk_bytes_length c : (1 ≤ length (gbk_bytes c))%nat.
Proof. unfold gbk_bytes. destruct (_ <? _); simpl; lia. Qed.
Lemma gbk_char_spec c g m : gbk_code c → read_bytes (length (gbk_bytes c)) g m = gbk_bytes c →
  m !!! g ≠ 0 ∧ gbk_char m g = (c, g + Z.of_nat (length (gbk_bytes c))).
Proof.
  intros Hc. unfold gbk_bytes, gbk_char. destruct (Z.ltb_spec c 256); simpl; intros E; injection E as E1.
  - assert (0 < c < 129 ∨ c = 255) as Hc' by (destruct Hc; dlia). split; [lia|]. rewrite E1. replace ((129 <=? c) && (c <=? 254)) with false; [done|].
    symmetry. apply andb_false_iff. rewrite !Z.leb_gt. lia.
  - assert (129 ≤ c / 256 ≤ 254) as Hc' by (destruct Hc as [Hc|]; [|done]; dlia). split; [lia|]. rewrite E1.
    rewrite (proj2 (Z.leb_le 129 _)), (proj2 (Z.leb_le _ 254)) by lia. cbn [andb]. rewrite Z.shiftl_mul_pow2 by lia. change (2 ^ 8) with 256.
    match goal with E : m !!! (g + 1) = _ |- _ => rewrite E end. f_equal. unfold u16. dlia.
Qed.

Section gbk_routes.
Context (ff_convert : Z → Z → Z).
Definition converted_units (cs : list Z) : list Z := (λ c, u16 (ff_convert c 1)) <$> cs.

(** The bytes that [gbk_to_utf8] writes for a character. *)
Definition gbk_encoded (w : Z) : list Z :=
  if w <=? 127 then [w]
  else if w <=? 2047 then [u8 (Z.lor 192 (Z.land (Z.shiftr w 6) 31)); u8 (Z.lor 128 (Z.land w 63))]
  else [u8 (Z.lor 224 (Z.land (Z.shiftr w 12) 15)); u8 (Z.lor 128 (Z.land (Z.shiftr w 6) 63)); u8 (Z.lor 128 (Z.land w 63))].
Lemma gbk_encoded_utf8 w : 0 ≤ w < 65536 → gbk_encoded w = utf8_of w.
Proof.
  intros Hw. unfold gbk_encoded, utf8_of. rewrite !continuation, !shiftr_div by lia. change (2 ^ 12) with 4096. change (2 ^ 6) with 64.
  change 31 with (Z.ones 5). change 15 with (Z.ones 4). rewrite !Z.land_ones by lia. change (2 ^ 5) with 32. change (2 ^ 4) with 16.
  destruct (Z.leb_spec w 127); [by rewrite (proj2 (Z.ltb_lt w 128)) by lia|]. rewrite (proj2 (Z.ltb_ge w 128)) by lia.
  destruct (Z.leb_spec w 2047); [rewrite (proj2 (Z.ltb_lt w 2048)), lead_2, (Z.mod_small (w / 64)) by dlia; done|].
  rewrite (proj2 (Z.ltb_ge w 2048)), lead_3, (Z.mod_small (w / 4096)) by dlia. done.
Qed.

Lemma gbk_to_utf8_step fuel g t len c m :
  gbk_code c → read_bytes (length (gbk_bytes c)) g m = gbk_bytes c → let w := u16 (ff_convert c 1) in w < 65535 →
  gbk_to_utf8_loop ff_convert (S fuel) g t len m =
  gbk_to_utf8_loop ff_convert fuel (g + Z.of_nat (length (gbk_bytes c))) t (len + Z.of_nat (length (utf8_of w))) (write_bytes (t + len) (utf8_of w) m).
Proof.
  intros Hc Hg w Hw. destruct (gbk_char_spec c g m Hc Hg) as [Hn Ec]. cbn [gbk_to_utf8_loop]. rewrite (proj2 (Z.eqb_neq _ _) Hn), Ec. fold w.
  assert (Hr : 0 ≤ w < 65536) by (unfold w, u16; dlia). rewrite <-gbk_encoded_utf8 by done. unfold gbk_encoded.
  destruct (Z.leb_spec w 127); [done|]. destruct (Z.leb_spec w 2047); [done|]. rewrite (proj2 (Z.ltb_lt w 65535) Hw). cbv zeta.
  cbn [write_bytes]. by replace (t + len + 1 + 1) with (t + len + 2) by lia.
Qed.
Lemma gbk_to_utf8_loop_spec cs fuel g t len m :
  Forall gbk_code cs → Forall (λ w, w < 65535) (converted_units cs) → read_bytes (length (gbk_text cs ++ [0])) g m = gbk_text cs ++ [0] →
  disjoint_ranges (t + len) (Z.of_nat (length (utf8_text (converted_units cs)))) g (Z.of_nat (length (gbk_text cs ++ [0]))) → (length cs < fuel)%nat →
  gbk_to_utf8_loop ff_convert fuel g t len m =
  Some (len + Z.of_nat (length (utf8_text (converted_units cs))), write_bytes (t + len) (utf8_text (converted_units cs) ++ [0]) m).
Proof.
  revert fuel g len m. induction cs as [|c cs IH]; intros fuel g len m Hcs Hws Hg Hd Hfuel; destruct fuel as [|fuel]; try (simpl in Hfuel; lia).
  { simpl in Hg. injection Hg as Hg. simpl. by rewrite Hg, Z.add_0_r. }
  apply Forall_cons in Hcs as [Hc Hcs], Hws as [Hw Hws]. set (w := u16 (ff_convert c 1)) in *.
  change (gbk_text (c :: cs)) with (gbk_bytes c ++ gbk_text cs) in *. rewrite <-app_assoc in *.
  change (utf8_text (converted_units (c :: cs))) with (utf8_of w ++ utf8_text (converted_units cs)) in *. apply read_bytes_split in Hg as [Hg1 Hg2].
  rewrite (gbk_to_utf8_step fuel g t len c m Hc Hg1 Hw). fold w. rewrite (length_app (gbk_bytes c)), (length_app (utf8_of w)) in Hd. unfold disjoint_ranges in Hd.
  rewrite IH; [|done|done| | |simpl in Hfuel; lia].
  - rewrite <-app_assoc, length_app, (write_bytes_app (t + len) (utf8_of w)). rewrite Z.add_assoc. do 2 f_equal. lia.
  - rewrite read_bytes_outside; [exact Hg2|]. unfold disjoint_ranges. lia.
  - unfold disjoint_ranges. lia.
Qed.
Lemma gbk_to_unicode_loop_spec cs fuel g v len m :
  Forall gbk_code cs → read_bytes (length (gbk_text cs ++ [0])) g m = gbk_text cs ++ [0] →
  disjoint_ranges v (2 * Z.of_nat (length cs)) g (Z.of_nat (length (gbk_text cs ++ [0]))) → (length cs < fuel)%nat →
  gbk_to_unicode_loop ff_convert fuel g v len m = Some (len + 2 * Z.of_nat (length cs), write_bytes v (unit_bytes (converted_units cs)) m).
Proof.
  revert fuel g v len m. induction cs as [|c cs IH]; intros fuel g v len m Hcs Hg Hd Hfuel; destruct fuel as [|fuel]; try (simpl in Hfuel; lia).
  { simpl in Hg. injection Hg as Hg. simpl. by rewrite Hg, Z.add_0_r. }
  apply Forall_cons in Hcs as [Hc Hcs]. change (gbk_text (c :: cs)) with (gbk_bytes c ++ gbk_text cs) in *. rewrite <-app_assoc in *.
  apply read_bytes_split in Hg as [Hg1 Hg2]. destruct (gbk_char_spec c g m Hc Hg1) as [Hn Ec]. pose proof (gbk_bytes_length c).
  cbn [gbk_to_unicode_loop]. rewrite (proj2 (Z.eqb_neq _ _) Hn), Ec. rewrite (length_app (gbk_bytes c)) in Hd. unfold disjoint_ranges in Hd. simpl length in *.
  rewrite IH; [|done| | |lia].
  - set (w := u16 _). change (unit_bytes (converted_units (c :: cs))) with ([w mod 256; w / 256] ++ unit_bytes (converted_units cs)).
    rewrite write_bytes_app, set_unit_write. do 2 f_equal. lia.
  - rewrite set_unit_write, read_bytes_outside; [exact Hg2|]. unfold disjoint_ranges. simpl length. lia.
  - unfold disjoint_ranges. lia.
Qed.

(** C36: the two ways from GBK to Unicode agree: [gbk_to_utf8] followed by [utf8_to_unicode] gives the same units as
    [gbk_to_unicode], for every string of characters that the code page maps to a unit other than 0 and 65535. *)
Theorem gbk_routes_agree cs gbk utf8 dst m :
  Forall gbk_code cs → Forall (λ w, 0 < w < 65535) (converted_units cs) → bytes m gbk (Z.of_nat (length (gbk_text cs)) + 1) = gbk_text cs ++ [0] →
  0 < gbk → 0 < utf8 → 0 < dst →
  disjoint_ranges utf8 (3 * Z.of_nat (length cs)) gbk (Z.of_nat (length (gbk_text cs)) + 1) →
  disjoint_ranges dst (2 * Z.of_nat (length cs)) gbk (Z.of_nat (length (gbk_text cs)) + 1) →
  disjoint_ranges dst (2 * Z.of_nat (length cs)) utf8 (3 * Z.of_nat (length cs)) →
  ∃ len m1 m2 m3, gbk_to_utf8 ff_convert (S (length cs)) gbk utf8 m = Some (len, m1) ∧
    utf8_to_unicode utf8 len dst m1 = Some (0, 2 * Z.of_nat (length cs), m2) ∧
    gbk_to_unicode ff_convert (S (length cs)) gbk dst m = Some (0, 2 * Z.of_nat (length cs), m3) ∧
    bytes m2 dst (2 * Z.of_nat (length cs)) = bytes m3 dst (2 * Z.of_nat (length cs)).
Proof.
  intros Hcs Hws Hg Hg0 Hu0 Hd0 H1 H2 H3. set (ws := converted_units cs) in *. assert (Hlw : length ws = length cs) by apply length_fmap.
  pose proof (utf8_text_length ws) as Hl. pose proof (unit_bytes_length ws) as Hl2. unfold disjoint_ranges in *.
  assert (Hlg : length (gbk_text cs ++ [0]) = Z.to_nat (Z.of_nat (length (gbk_text cs)) + 1)) by (rewrite length_app; simpl; lia).
  assert (Eb : Z.to_nat (2 * Z.of_nat (length cs)) = length (unit_bytes ws)) by lia.
  unfold bytes in *. rewrite <-Hlg in Hg. exists (Z.of_nat (length (utf8_text ws))). do 3 eexists. split; [|split; [|split]].
  - unfold gbk_to_utf8. rewrite (gbk_to_utf8_loop_spec cs); [rewrite Z.add_0_r; done|done| |done|unfold disjoint_ranges; fold ws; lia|lia].
    eapply Forall_impl; [exact Hws|]. simpl. lia.
  - unfold utf8_to_unicode. rewrite (proj2 (Z.eqb_neq dst 0)), (proj2 (Z.eqb_neq utf8 0)) by lia. cbn [orb]. fold ws. rewrite <-Hlw.
    apply utf8_to_unicode_loop_spec; [|apply (read_bytes_split _ [0]), read_write_bytes|unfold disjoint_ranges; lia|lia].
    eapply Forall_impl; [exact Hws|]. unfold is_unit. simpl. lia.
  - unfold gbk_to_unicode. rewrite (proj2 (Z.eqb_neq gbk 0)), (proj2 (Z.eqb_neq dst 0)) by lia. cbn [orb].
    rewrite (gbk_to_unicode_loop_spec cs); [done|done|done|unfold disjoint_ranges; lia|lia].
  - rewrite Eb, !read_write_bytes. done.
Qed.
End gbk_routes.

(** ** The properties at work *)
Lemma hex_text_read_back_witness :
  bytes (str_to_hex 300 100 2 (hex_to_str 100 200 2 (<[200 := 175]> (<[201 := 9]> ∅)))) 300 2 = [175; 9].
Proof.
  rewrite (proj1 (hex_text_read_back 300 100 200 2 (<[200 := 175]> (<[201 := 9]> ∅)) ltac:(lia) ltac:(left; lia) ltac:(right; lia)
    ltac:(intros i Hi; assert (i = 0 ∨ i = 1) as [-> | ->] by lia; by vm_compute))).
  by vm_compute.
Defined.
(** The units of a Latin letter, an accented one and a Chinese character. *)
Lemma utf8_text_read_back_witness :
  ∃ len m1 m2, unicode_to_utf8 4 100 50 200 20 (write_bytes 100 (unit_bytes [65; 233; 20013; 0; 66]) ∅) = Some (1, len, m1) ∧
    bytes m1 200 (len + 1) = [65; 195; 169; 228; 184; 173; 0] ∧ utf8_to_unicode 200 len 300 m1 = Some (0, 6, m2) ∧
    bytes m2 300 6 = unit_bytes [65; 233; 20013].
Proof.
  destruct (utf8_text_read_back [65; 233; 20013] 100 50 200 300 20 (write_bytes 100 (unit_bytes [65; 233; 20013; 0; 66]) ∅)) as (len & m1 & m2 & E1 & E2 & E3 & E4).
  - constructor; [lia|]. constructor; [lia|]. constructor; [lia|]. constructor.
  - by vm_compute.
  - right. split_and!; [by vm_compute|by vm_compute|right; simpl; lia].
  - lia.
  - lia.
  - lia.
  - simpl. lia.
  - right. simpl. lia.
  - right. simpl. lia.
  - exists len, m1, m2. split; [exact E1|]. split; [exact E2|]. split; [exact E3|exact E4].
Defined.
(** A code page with one character of two bytes. *)
Lemma gbk_routes_agree_witness :
  let ff c (_ : Z) := if c =? 54992 then 20013 else c in
  ∃ len m1 m2 m3, gbk_to_utf8 ff 3 100 200 (write_bytes 100 [65; 214; 208; 0] ∅) = Some (len, m1) ∧
    utf8_to_unicode 200 len 300 m1 = Some (0, 4, m2) ∧ gbk_to_unicode ff 3 100 300 (write_bytes 100 [65; 214; 208; 0] ∅) = Some (0, 4, m3) ∧
    bytes m2 300 4 = bytes m3 300 4.
Proof.
  intros ff. destruct (gbk_routes_agree ff [65; 54992] 100 200 300 (write_bytes 100 [65; 214; 208; 0] ∅)) as (len & m1 & m2 & m3 & E1 & E2 & E3 & E4).
  - constructor; [left; left; lia|]. constructor; [right; by vm_compute|]. constructor.
  - constructor; [by vm_compute|]. constructor; [by vm_compute|]. constructor.
  - by vm_compute.
  - lia.
  - lia.
  - lia.
  - right. by vm_compute.
  - right. by vm_compute.
  - right. by vm_compute.
  - exists len, m1, m2, m3. split; [exact E1|]. split; [exact E2|]. split; [exact E3|exact E4].
Defined.

(** The tests for overlong sequences and surrogates compare a value that still has the
    marker bits of the first byte, and never hold: C1 81 is read as A, ED A0 80 as a surrogate. *)
Lemma overlong_utf8_accepted :
  (λ r, (r.1.1, unit_at r.2 300)) <$> utf8_to_unicode 200 2 300 (write_bytes 200 [193; 129] ∅) = Some (0, 65) ∧
  (λ r, (r.1.1, unit_at r.2 300)) <$> utf8_to_unicode 200 3 300 (write_bytes 200 [237; 160; 128] ∅) = Some (0, 55296).
Proof. by vm_compute. Qed.
(** The size of the buffer is tested after a character has been written. *)
Lemma unicode_to_utf8_overruns :
  (λ r, (r.1.1, bytes r.2 200 3)) <$> unicode_to_utf8 2 100 2 200 1 (write_bytes 100 (unit_bytes [20013]) (write_bytes 200 [7; 8; 9] ∅)) =
  Some (-1, [228; 184; 173]).
Proof. by vm_compute. Qed.
(** Of the first byte of two only four bits are used: D0 96 (U+0416) is looked up as U+0016. *)
Lemma utf8_to_gbk_loses_bit :
  (λ r, bytes r.2 300 2) <$> utf8_to_gbk (λ u _, if u =? 22 then 16706 else 0) 3 200 300 2 (write_bytes 200 [208; 150; 0] ∅) = Some [65; 66].
Proof. by vm_compute. Qed.
